(** * sqlsurge: SQL fragments embedded in Python sources

    A shallow embedding of the extraction pipeline of the repository
    (package sql-extraction-py: [extractSqlListPy], [extractSqlFromPython],
    [extractSqlFromLine], [convertPositionToLineChar], [extractSqlString]),
    of the virtual document manager ([refresh] in vsce/src/extension.ts) and
    of the format command ([formatSqlNode], [getPrefixAndSuffix],
    [getPositions], [shouldSkipFormatting], [indentedContent]), of the
    providers and the temporary-file command ([provideHover],
    [provideLinkedEditingRanges], [editSqlInTempFile], [syncBackToOriginal])
    and of [getIssuesRecursively], followed by the properties proved of them.

    Modelling choices.
    - A JavaScript string is a [list ascii] ([text]).  The embedding follows
      the code on ASCII texts: white space ([\s], [trim]) is the six ASCII
      white space characters, [toUpperCase] and the [i] flag fold [a-z];
      codes above 127 are carried through unchanged.
    - Lines are separated by a line feed only, as the code splits them.
    - Map keys (file names, virtual file names) are [string]s, the maps are
      [gmap]s.
    - A thrown exception is the [Throw] outcome of [result]; stateful code
      runs in the monad [M], which keeps the state reached when it throws.
    - The patterns the code builds with [new RegExp] are written as [regex]
      terms and run by a backtracking matcher with the priorities of
      JavaScript ([rx_run]).  The function name is spliced into the pattern
      text by the code; the embedding follows names free of pattern syntax
      characters, for which the splice denotes the name itself, and raises
      for the others (see [RegExp_name]). *)

From Stdlib Require Import ZArith Lia Ascii String List Bool Sorted.
From stdpp Require Import base list strings gmap pretty.

Set Default Proof Using "Type".
Local Open Scope Z_scope.

(** ** Texts *)

Abbreviation text := (list ascii).

Definition txt (s : string) : text := list_ascii_of_string s.

Definition LF : ascii := "010"%char.
Definition DQ : ascii := "034"%char.
Definition SQ : ascii := "039"%char.
Definition BQ : ascii := "096"%char.
Definition BSL : ascii := "092"%char.
Definition SP : ascii := " "%char.

Definition ascii_eqb (a b : ascii) : bool := bool_decide (a = b).

(** [\s] on ASCII: tab, line feed, vertical tab, form feed, carriage return,
    space. *)
Definition isSpace (c : ascii) : bool :=
  let n := nat_of_ascii c in
  ((9 <=? n)%nat && (n <=? 13)%nat) || (n =? 32)%nat.

Definition upperChar (c : ascii) : ascii :=
  let n := nat_of_ascii c in
  if ((97 <=? n)%nat && (n <=? 122)%nat) then ascii_of_nat (n - 32) else c.

Definition toUpperCase (s : text) : text := map upperChar s.

Fixpoint takeWhile (p : ascii → bool) (s : text) : text :=
  match s with
  | c :: s' => if p c then c :: takeWhile p s' else []
  | [] => []
  end.

Fixpoint dropWhile (p : ascii → bool) (s : text) : text :=
  match s with
  | c :: s' => if p c then dropWhile p s' else s
  | [] => []
  end.

Definition trimStart (s : text) : text := dropWhile isSpace s.
Definition trimEnd (s : text) : text := rev (dropWhile isSpace (rev s)).
Definition trim (s : text) : text := trimEnd (trimStart s).

(** [s.split] at line feeds: always at least one piece. *)
Fixpoint split_newline (s : text) : list text :=
  match s with
  | [] => [[]]
  | c :: s' =>
      if ascii_eqb c LF then [] :: split_newline s'
      else match split_newline s' with
           | l :: ls => (c :: l) :: ls
           | [] => [[c]]
           end
  end.

(** [ls.join] with line feeds. *)
Fixpoint join_newline (ls : list text) : text :=
  match ls with
  | [] => []
  | [l] => l
  | l :: ls' => l ++ LF :: join_newline ls'
  end.

Fixpoint startsWith (needle s : text) : bool :=
  match needle, s with
  | [], _ => true
  | a :: needle', b :: s' => ascii_eqb a b && startsWith needle' s'
  | _ :: _, [] => false
  end.

(** Position of the first occurrence of [needle] in [s], counted from [pos]. *)
Fixpoint indexOf_go (needle s : text) (pos : nat) : option nat :=
  if startsWith needle s then Some pos
  else match s with
       | [] => None
       | _ :: s' => indexOf_go needle s' (S pos)
       end.

(** [s.indexOf(needle, from)]: [-1] when there is no occurrence. *)
Definition indexOf (s needle : text) (from : Z) : Z :=
  let k := Z.to_nat (Z.min (Z.max from 0) (Z.of_nat (length s))) in
  match indexOf_go needle (drop k s) k with
  | Some i => Z.of_nat i
  | None => -1
  end.

Definition includes (s needle : text) : bool :=
  bool_decide (indexOf s needle 0 ≠ -1).

(** [s.slice(from, to)] with the index rules of JavaScript (negative indices
    count from the end). *)
Definition slice_index (len i : Z) : Z :=
  if i <? 0 then Z.max (len + i) 0 else Z.min i len.

Definition slice (s : text) (from to : Z) : text :=
  let len := Z.of_nat (length s) in
  let a := slice_index len from in
  let b := slice_index len to in
  take (Z.to_nat (b - a)) (drop (Z.to_nat a) s).

(** ** Outcomes *)

Inductive result (A : Type) : Type :=
| Ok (a : A)
| Throw (e : string).
Arguments Ok {A} a.
Arguments Throw {A} e.

Definition result_bind {A B} (r : result A) (k : A → result B) : result B :=
  match r with
  | Ok a => k a
  | Throw e => Throw e
  end.

(** ** Patterns *)

Inductive charset : Type :=
| CChar (c : ascii)            (* a literal character *)
| CSpace                       (* \s *)
| COneOf (l : list ascii)      (* [...] *)
| CNoneOf (l : list ascii)     (* [^...] *)
| CAll.                        (* [\s\S] *)

Inductive regex : Type :=
| REmpty
| RSet (cs : charset)
| RBol                                   (* ^ *)
| REol                                   (* $ *)
| RSeq (r1 r2 : regex)
| RAlt (r1 r2 : regex)
| RStar (greedy : bool) (cs : charset)   (* cs* and cs*? *)
| RPlus (cs : charset)                   (* cs+ *)
| RGroup (n : nat) (r : regex).          (* the n-th capture group *)

Definition rseq (rs : list regex) : regex := foldr RSeq REmpty rs.
Definition rlit (s : text) : regex := rseq (map (λ c, RSet (CChar c)) s).

(** Canonicalisation under the [i] flag. *)
Definition canon (icase : bool) (c : ascii) : ascii :=
  if icase then upperChar c else c.

Definition charset_mem (icase : bool) (cs : charset) (c : ascii) : bool :=
  match cs with
  | CChar a => ascii_eqb (canon icase a) (canon icase c)
  | CSpace => isSpace c
  | COneOf l => existsb (λ a, ascii_eqb (canon icase a) (canon icase c)) l
  | CNoneOf l => negb (existsb (λ a, ascii_eqb (canon icase a) (canon icase c)) l)
  | CAll => true
  end.

Record mstate : Type := MState {
  m_pos : nat;                    (* index of the next character *)
  m_rest : text;                  (* the input from that index on *)
  m_caps : list (nat * text)      (* captures, the latest first *)
}.

Definition capture (n : nat) (caps : list (nat * text)) : option text :=
  snd <$> find (λ p, bool_decide (fst p = n)) caps.

(** The states reached by repeating a one-character class, the shortest
    repetition first. *)
Fixpoint star_states (p : ascii → bool) (pos : nat) (s : text)
    (caps : list (nat * text)) : list mstate :=
  MState pos s caps ::
  match s with
  | c :: s' => if p c then star_states p (S pos) s' caps else []
  | [] => []
  end.

(** All the ways [r] matches at a state, in the order a backtracking matcher
    tries them. *)
Fixpoint rx_run (icase : bool) (r : regex) (st : mstate) : list mstate :=
  match r with
  | REmpty => [st]
  | RSet cs =>
      match m_rest st with
      | c :: s' =>
          if charset_mem icase cs c then [MState (S (m_pos st)) s' (m_caps st)]
          else []
      | [] => []
      end
  | RBol => if (m_pos st =? 0)%nat then [st] else []
  | REol => match m_rest st with [] => [st] | _ :: _ => [] end
  | RSeq r1 r2 => flat_map (rx_run icase r2) (rx_run icase r1 st)
  | RAlt r1 r2 => rx_run icase r1 st ++ rx_run icase r2 st
  | RStar greedy cs =>
      let sts := star_states (charset_mem icase cs) (m_pos st) (m_rest st)
                   (m_caps st) in
      if greedy then rev sts else sts
  | RPlus cs =>
      rev (tail (star_states (charset_mem icase cs) (m_pos st) (m_rest st)
                   (m_caps st)))
  | RGroup n r1 =>
      map (λ st', MState (m_pos st') (m_rest st')
                    ((n, take (m_pos st' - m_pos st) (m_rest st)) :: m_caps st'))
          (rx_run icase r1 st)
  end.

(** What [exec] returns: [index], [match[0]] and the captures. *)
Record rmatch : Type := RMatch {
  m_index : nat;
  m_text : text;
  m_groups : list (nat * text)
}.

(** [match[n]] for [n >= 1]: [None] is [undefined]. *)
Definition group (m : rmatch) (n : nat) : option text := capture n (m_groups m).

(** The leftmost match at or after position [pos], [s] being the input from
    [pos] on. *)
Fixpoint rx_search (icase : bool) (r : regex) (pos : nat) (s : text)
    : option rmatch :=
  match rx_run icase r (MState pos s []) with
  | st :: _ => Some (RMatch pos (take (m_pos st - pos) s) (m_caps st))
  | [] =>
      match s with
      | [] => None
      | _ :: s' => rx_search icase r (S pos) s'
      end
  end.

(** [s.match(r)] without the [g] flag, and [r.test(s)]. *)
Definition rx_match (icase : bool) (r : regex) (s : text) : option rmatch :=
  rx_search icase r 0 s.

Definition rx_test (icase : bool) (r : regex) (s : text) : bool :=
  bool_decide (is_Some (rx_match icase r s)).

(** [s.match(r)] with the [g] flag: the texts of the successive matches; an
    empty match moves one character on.  [None] is [null] (no match). *)
Fixpoint rx_all_from (fuel : nat) (icase : bool) (r : regex) (pos : nat)
    (s : text) : list text :=
  match fuel with
  | O => []
  | S fuel' =>
      match rx_search icase r pos s with
      | None => []
      | Some m =>
          let stop := (m_index m + length (m_text m))%nat in
          let next := if bool_decide (m_text m = []) then S stop else stop in
          m_text m ::
            (if bool_decide (length s < next - pos)%nat then []
             else rx_all_from fuel' icase r next (drop (next - pos) s))
      end
  end.

Definition rx_match_all (icase : bool) (r : regex) (s : text)
    : option (list text) :=
  match rx_all_from (S (length s)) icase r 0 s with
  | [] => None
  | ms => Some ms
  end.

(** [s.replace(r, by)] with the [g] flag, for a pattern of one character
    class. *)
Definition replace_all_set (cs : charset) (by_ : text) (s : text) : text :=
  flat_map (λ c, if charset_mem false cs c then by_ else [c]) s.

Global Instance result_ret : MRet result := λ A a, Ok a.
Global Instance result_mbind : MBind result := λ A B k r, result_bind r k.

(** ** The extractor (package sql-extraction-py) *)

Record CustomRawSqlQueryPyItem : Type := {
  functionName : text;
  sqlArgNo : nat;              (* 1-based index *)
  isStringTemplate : bool
}.

Abbreviation CustomRawSqlQueryPy := (list CustomRawSqlQueryPyItem).

Record Position : Type := { line : nat; character : Z }.
Record Range : Type := { start : Position; end_ : Position }.

Record SqlNode : Type := {
  code_range : Range;
  content : text;
  method_line : nat
}.

Definition defaultConfigs : CustomRawSqlQueryPy :=
  [ {| functionName := txt "execute"; sqlArgNo := 1; isStringTemplate := false |};
    {| functionName := txt "executemany"; sqlArgNo := 1; isStringTemplate := false |};
    {| functionName := txt "query"; sqlArgNo := 1; isStringTemplate := false |};
    {| functionName := txt "raw"; sqlArgNo := 1; isStringTemplate := false |};
    {| functionName := txt "text"; sqlArgNo := 1; isStringTemplate := false |} ].

(** The characters with a meaning of their own in a pattern. *)
Definition syntaxCharacter (c : ascii) : bool :=
  existsb (ascii_eqb c) (BSL :: txt "^$.*+?()[]{}|").

(** The sub-pattern a function name denotes once spliced into the text given
    to [new RegExp].  A name without syntax characters denotes itself.  With
    one, JavaScript reads another pattern or rejects the text with a
    [SyntaxError]; the embedding raises there. *)
Definition RegExp_name (name : text) : result regex :=
  if forallb (λ c, negb (syntaxCharacter c)) name then Ok (rlit name)
  else Throw "SyntaxError: Invalid regular expression".

Definition ws_star : regex := RStar true CSpace.
Definition chr (c : ascii) : regex := RSet (CChar c).
Definition quote2 : regex := RSet (COneOf [DQ; SQ]).

(** [\.NAME\s*\(|^\s*NAME\s*\(] *)
Definition functionPattern (name : regex) : regex :=
  RAlt (rseq [chr "."; name; ws_star; chr "("])
       (rseq [RBol; ws_star; name; ws_star; chr "("]).

(** The four patterns of [extractSqlString], all with the [i] flag.  With Q
    for the class of the double and the single quote, N for its complement,
    DDD and SSS for three double and three single quotes:
    [NAME\s*\(\s*Q(N*?)Q],
    [NAME\s*\(\s*(?:DDD([\s\S]*?)DDD|SSS([\s\S]*?)SSS)],
    [NAME\s*\(\s*rQ(N*?)Q] and
    [NAME\s*\(\s*fQ(N*?)Q]. *)
Definition singleLinePattern (name : regex) : regex :=
  rseq [name; ws_star; chr "("; ws_star;
        quote2; RGroup 1 (RStar false (CNoneOf [DQ; SQ])); quote2].

Definition tripleQuotePattern (name : regex) : regex :=
  rseq [name; ws_star; chr "("; ws_star;
        RAlt (rseq [rlit [DQ; DQ; DQ]; RGroup 1 (RStar false CAll); rlit [DQ; DQ; DQ]])
             (rseq [rlit [SQ; SQ; SQ]; RGroup 2 (RStar false CAll); rlit [SQ; SQ; SQ]])].

Definition prefixedPattern (letter : ascii) (name : regex) : regex :=
  rseq [name; ws_star; chr "("; ws_star; chr letter;
        quote2; RGroup 1 (RStar false (CNoneOf [DQ; SQ])); quote2].

Definition patterns (name : regex) : list regex :=
  [ singleLinePattern name; tripleQuotePattern name;
    prefixedPattern "r" name; prefixedPattern "f" name ].

(** A quote character (double, single or backtick), the shortest run of any
    characters, captured, and a quote character again; used with the [g]
    flag. *)
Definition quotedPattern : regex :=
  rseq [RSet (COneOf [DQ; SQ; BQ]); RGroup 1 (RStar false CAll);
        RSet (COneOf [DQ; SQ; BQ])].

Definition sqlKeywords : list text :=
  [ txt "SELECT"; txt "INSERT"; txt "UPDATE"; txt "DELETE";
    txt "CREATE"; txt "ALTER"; txt "DROP"; txt "WITH" ].

(** [a || b] on values that are a string or [undefined]: the empty string is
    falsy. *)
Definition js_or (a b : option text) : option text :=
  match a with
  | Some (_ :: _) => a
  | _ => b
  end.

Definition truthy (a : option text) : bool :=
  match a with
  | Some (_ :: _) => true
  | _ => false
  end.

(** What [extractSqlString] returns: the content and the offsets of its two
    ends in the call text ([start.character] and [end.character]; both
    [line]s are 0). *)
Record SqlString : Type := {
  str_content : text;
  str_start : Z;
  str_end : Z
}.

(** One turn of the loop over [patterns]. *)
Definition tryPattern (functionCall : text) (pattern : regex) : option SqlString :=
  match rx_match true pattern functionCall with
  | Some m =>
      let sqlContent := js_or (js_or (group m 1) (group m 2)) (group m 3) in
      match sqlContent with
      | Some sql =>
          if truthy sqlContent && truthy (Some (trim sql)) then
            let matchStart := indexOf functionCall (m_text m) 0 in
            let contentStart := indexOf functionCall sql matchStart in
            Some {| str_content := trim sql;
                    str_start := contentStart;
                    str_end := contentStart + Z.of_nat (length sql) |}
          else None
      | None => None
      end
  | None => None
  end.

(** The loop over [patterns]: the first pattern that gives a result. *)
Fixpoint precisePatterns (functionCall : text) (ps : list regex) : option SqlString :=
  match ps with
  | [] => None
  | p :: ps' =>
      match tryPattern functionCall p with
      | Some r => Some r
      | None => precisePatterns functionCall ps'
      end
  end.

Definition hasSqlKeyword (content : text) : bool :=
  existsb (λ keyword, includes (toUpperCase content) keyword) sqlKeywords.

(** The loop over [stringMatches]. *)
Fixpoint keywordLoop (functionCall : text) (stringMatches : list text)
    : option SqlString :=
  match stringMatches with
  | [] => None
  | stringMatch :: rest =>
      let content := slice stringMatch 1 (-1) in
      if hasSqlKeyword content then
        let startPos := indexOf functionCall stringMatch 0 + 1 in
        Some {| str_content := trim content;
                str_start := startPos;
                str_end := startPos + Z.of_nat (length content) |}
      else keywordLoop functionCall rest
  end.

(** The fallback: any quoted string that looks like SQL. *)
Definition keywordFallback (functionCall : text) : option SqlString :=
  match rx_match_all false quotedPattern functionCall with
  | Some stringMatches => keywordLoop functionCall stringMatches
  | None => None
  end.

Definition extractSqlString (functionCall : text)
    (config : CustomRawSqlQueryPyItem) : result (option SqlString) :=
  name ← RegExp_name (functionName config);
  match precisePatterns functionCall (patterns name) with
  | Some r => Ok (Some r)
  | None => Ok (keywordFallback functionCall)
  end.

Definition convertPositionToLineChar (charOffset : Z) (lineOffsets : list nat)
    (baseLineIndex : nat) : Position :=
  let inLine (i : nat) : bool :=
    match lineOffsets !! i, lineOffsets !! S i with
    | Some currentOffset, Some nextOffset =>
        (Z.of_nat currentOffset <=? charOffset) && (charOffset <? Z.of_nat nextOffset)
    | _, _ => false
    end in
  let lineIndex := default 0%nat (find inLine (seq 0 (length lineOffsets - 1))) in
  let lineIndex :=
    match last lineOffsets with
    | Some lastOffset =>
        if Z.of_nat lastOffset <=? charOffset then (length lineOffsets - 1)%nat
        else lineIndex
    | None => lineIndex
    end in
  let lineStartOffset := default 0%nat (lineOffsets !! lineIndex) in
  {| line := baseLineIndex + lineIndex;
     character := charOffset - Z.of_nat lineStartOffset |}.

(** The scanner state of [extractSqlFromLine]. *)
Record ScanState : Type := {
  parenthesesCount : Z;
  inString : bool;
  stringChar : text;           (* empty, or the one quote character *)
  foundFunction : bool
}.

Definition scanStart : ScanState :=
  {| parenthesesCount := 0; inString := false; stringChar := [];
     foundFunction := false |}.

(** The body of the loop over the characters of a line, at index [i]. *)
Definition scanChar (ln : text) (st : ScanState) (i : nat) : ScanState :=
  match ln !! i with
  | None => st
  | Some char =>
      let prevChar := if (0 <? i)%nat then ln !! (i - 1)%nat else None in
      if negb (inString st) then
        if ascii_eqb char DQ || ascii_eqb char SQ
           || (ascii_eqb char BQ && negb (foundFunction st)) then
          {| parenthesesCount := parenthesesCount st; inString := true;
             stringChar := [char]; foundFunction := foundFunction st |}
        else if ascii_eqb char "(" then
          {| parenthesesCount := parenthesesCount st + 1; inString := false;
             stringChar := stringChar st; foundFunction := true |}
        else if ascii_eqb char ")" then
          {| parenthesesCount := parenthesesCount st - 1; inString := false;
             stringChar := stringChar st; foundFunction := foundFunction st |}
        else st
      else
        if bool_decide ([char] = stringChar st)
           && negb (bool_decide (prevChar = Some BSL)) then
          if (bool_decide (stringChar st = [DQ]) || bool_decide (stringChar st = [SQ]))
             && (2 <=? i)%nat
             && bool_decide (take 3 (drop (i - 2) ln)
                             = stringChar st ++ stringChar st ++ stringChar st) then
            st      (* a triple quote: stay in the string *)
          else
            {| parenthesesCount := parenthesesCount st; inString := false;
               stringChar := []; foundFunction := foundFunction st |}
        else st
  end.

Definition scanLine (ln : text) (st : ScanState) : ScanState :=
  foldl (scanChar ln) st (seq 0 (length ln)).

(** What the [while] loop of [extractSqlFromLine] leaves: the call text, the
    offset of each collected line in it, and whether the loop left through
    [break] (the parentheses closed) rather than at the end of the input. *)
Record Collected : Type := {
  fullLine : text;
  lineOffsets : list nat;
  closed : bool
}.

(** The [while] loop, [rest] being [lines] from [currentLine] on. *)
Fixpoint collectCall (rest : list text) (fullLine : text) (lineOffsets : list nat)
    (st : ScanState) : Collected :=
  match rest with
  | [] => {| fullLine := fullLine; lineOffsets := lineOffsets; closed := false |}
  | ln :: rest' =>
      let fullLine := fullLine ++ ln in
      let st := scanLine ln st in
      if foundFunction st && (parenthesesCount st =? 0) then
        {| fullLine := fullLine; lineOffsets := lineOffsets; closed := true |}
      else
        match rest' with
        | [] => {| fullLine := fullLine; lineOffsets := lineOffsets; closed := false |}
        | _ :: _ =>
            let fullLine := fullLine ++ [LF] in
            collectCall rest' fullLine (lineOffsets ++ [length fullLine]) st
        end
  end.

Definition extractSqlFromLine (lines : list text) (startLineIndex : nat)
    (config : CustomRawSqlQueryPyItem) : result (option SqlNode) :=
  let call := collectCall (drop startLineIndex lines) [] [0%nat] scanStart in
  sqlString ← extractSqlString (fullLine call) config;
  match sqlString with
  | Some s =>
      let startPos :=
        convertPositionToLineChar (str_start s) (lineOffsets call) startLineIndex in
      let endPos :=
        convertPositionToLineChar (str_end s) (lineOffsets call) startLineIndex in
      Ok (Some {| code_range := {| start := startPos; end_ := endPos |};
                  content := str_content s;
                  method_line := startLineIndex |})
  | None => Ok None
  end.

(** The loop over [activeConfigs] for one line: the nodes it pushes. *)
Fixpoint extractLineConfigs (lines : list text) (lineIndex : nat) (ln : text)
    (configs : CustomRawSqlQueryPy) : result (list SqlNode) :=
  match configs with
  | [] => Ok []
  | config :: configs' =>
      name ← RegExp_name (functionName config);
      pushed ← (if rx_test false (functionPattern name) ln then
                  sqlResult ← extractSqlFromLine lines lineIndex config;
                  Ok (option_list sqlResult)
                else Ok []);
      more ← extractLineConfigs lines lineIndex ln configs';
      Ok (pushed ++ more)
  end.

(** The loop over the lines, [lineIndices] being the indices still to visit. *)
Fixpoint extractLines (lines : list text) (lineIndices : list nat)
    (configs : CustomRawSqlQueryPy) : result (list SqlNode) :=
  match lineIndices with
  | [] => Ok []
  | lineIndex :: rest =>
      let ln := trim (default [] (lines !! lineIndex)) in
      pushed ← extractLineConfigs lines lineIndex ln configs;
      more ← extractLines lines rest configs;
      Ok (pushed ++ more)
  end.

Definition extractSqlFromPython (sourceTxt : text)
    (configs : option CustomRawSqlQueryPy) : result (list SqlNode) :=
  let lines := split_newline sourceTxt in
  let activeConfigs := default defaultConfigs configs in
  extractLines lines (seq 0 (length lines)) activeConfigs.

(** [try { return extractSqlFromPython(...) } catch { return [] }] *)
Definition extractSqlListPy (sourceTxt : text)
    (configs : option CustomRawSqlQueryPy) : result (list SqlNode) :=
  match extractSqlFromPython sourceTxt configs with
  | Ok nodes => Ok nodes
  | Throw _ => Ok []
  end.

(** ** The virtual document manager ([refresh] in vsce/src/extension.ts) *)

(** Stateful code: the state is kept when the code throws. *)
Definition M (St A : Type) : Type := St → result A * St.

Global Instance M_ret St : MRet (M St) := λ A a st, (Ok a, st).
Global Instance M_bind St : MBind (M St) := λ A B k m st,
  match m st with
  | (Ok a, st') => k a st'
  | (Throw e, st') => (Throw e, st')
  end.

Definition throw {St A} (e : string) : M St A := λ st, (Throw e, st).
Definition lift {St A} (r : result A) : M St A := λ st, (r, st).
Definition gets {St A} (f : St → A) : M St A := λ st, (Ok (f st), st).
Definition modify {St} (f : St → St) : M St unit := λ st, (Ok tt, f st).

(** [try { body } catch (e) { handler(e) }] *)
Definition try_catch {St A} (body : M St A) (handler : string → M St A) : M St A :=
  λ st, match body st with
        | (Ok a, st') => (Ok a, st')
        | (Throw e, st') => handler e st'
        end.

(** The document as the editor hands it over: [workspaceFolder] is the path
    of the folder [getWorkspaceFolder(document.uri)] finds, if any. *)
Record TextDocument : Type := {
  fileName : string;
  languageId : string;
  getText : text;
  workspaceFolder : option string
}.

(** The setting [sqlsurge.customRawSqlQuery] once validated.  When [language]
    is typescript the rules are of another shape, which [refresh] never
    reads. *)
Record CustomRawSqlQuery : Type := {
  language : string;
  configs : CustomRawSqlQueryPy
}.

(** The offset of the start of line [n] in the joined lines. *)
Fixpoint lineStartOffset (lines : list text) (n : nat) {struct n} : nat :=
  match n, lines with
  | S n', l :: lines' => (length l + 1 + lineStartOffset lines' n')%nat
  | _, _ => 0%nat
  end.

(** [document.offsetAt(position)], the coordinate service of the editor: the
    position is first brought into the document. *)
Definition offsetAt (content : text) (p : Position) : nat :=
  let lines := split_newline content in
  match lines !! line p with
  | Some l =>
      (lineStartOffset lines (line p)
       + Z.to_nat (Z.min (Z.max (character p) 0) (Z.of_nat (length l))))%nat
  | None => length content
  end.

(** [new vscode.Position(line, character)] rejects a negative number. *)
Definition newPosition (ln : nat) (ch : Z) : result Position :=
  if ch <? 0 then Throw "Illegal argument: character must be non-negative"
  else Ok {| line := ln; character := ch |}.

(** [document.positionAt(offset)] on a text: the line and the column of an
    offset, which is brought into the text. *)
Fixpoint positionOf (s : text) (offset ln col : nat) : nat * nat :=
  match offset, s with
  | S offset', c :: s' =>
      if ascii_eqb c LF then positionOf s' offset' (S ln) 0%nat
      else positionOf s' offset' ln (S col)
  | _, _ => (ln, col)
  end.

Definition positionAt (s : text) (offset : nat) : nat * nat :=
  positionOf s offset 0%nat 0%nat.

(** The text of the virtual document of a fragment that starts at [offset]:
    [rawContent.slice(0, offset).replace(/[^\n]/g, " ") + content]. *)
Definition virtualText (rawContent : text) (offset : nat) (sql : text) : text :=
  replace_all_set (CNoneOf [LF]) [SP] (slice rawContent 0 (Z.of_nat offset)) ++ sql.

Definition virtualFileName (file : string) (index : nat) : string :=
  file +:+ "@" +:+ pretty index +:+ ".sql".

(** The language service of ./languageService, which is outside the sources
    at hand: creating it and its two snapshot operations may throw. *)
Class LanguageService (Svc : Type) : Type := {
  createLanguageService : option string → result Svc;
  writeSnapshot : string → text → Svc → result Svc;
  deleteSnapshot : string → Svc → result Svc
}.

(** What [refresh] returns for a fragment. *)
Record SqlNodeWithVirtualDoc : Type := {
  node : SqlNode;
  vFileName : string;
  index : nat
}.

Section Refresh.
Context {Svc : Type} `{LanguageService Svc}.

(** The maps of [activate] and what the user was shown. *)
Record ExtState : Type := {
  virtualContents : gmap string (list string);
  services : gmap (option string) Svc;
  errorMessages : list string
}.

Definition setVirtualContents (f : string) (names : list string)
    (st : ExtState) : ExtState :=
  {| virtualContents := <[f := names]> (virtualContents st);
     services := services st; errorMessages := errorMessages st |}.

Definition setService (root : option string) (s : Svc) (st : ExtState) : ExtState :=
  {| virtualContents := virtualContents st;
     services := <[root := s]> (services st);
     errorMessages := errorMessages st |}.

Definition showErrorMessage (msg : string) : M ExtState unit :=
  modify (λ st, {| virtualContents := virtualContents st;
                   services := services st;
                   errorMessages := errorMessages st ++ [msg] |}).

(** [getWorkspaceConfig(key)] of extConfig.ts.  [validated] is what the
    validation of the setting gives: its output, [None] where the setting is
    refused with a list of errors, or the exception of the branch that finds
    no error to report.  A setting that is refused is reported to the user
    before [undefined] is returned. *)
Definition invalidSettingsMessage : string :=
  "sqlsurge: Invalid settings. See output for details.".

Definition getWorkspaceConfig {A} (validated : result (option A))
    : M ExtState (option A) :=
  match validated with
  | Ok (Some output) => mret (Some output)
  | Ok None => _ ← showErrorMessage invalidSettingsMessage; mret None
  | Throw e => throw e
  end.

(** The service is an object shared through the map [services]: an
    operation on it is an update of its entry. *)
Definition getOrCreateLanguageService (root : option string) : M ExtState unit :=
  λ st, match services st !! root with
        | Some _ => (Ok tt, st)
        | None =>
            match createLanguageService root with
            | Ok s => (Ok tt, setService root s st)
            | Throw e => (Throw e, st)
            end
        end.

Definition onService (root : option string) (op : Svc → result Svc) : M ExtState unit :=
  λ st, match services st !! root with
        | Some s =>
            match op s with
            | Ok s' => (Ok tt, setService root s' st)
            | Throw e => (Throw e, st)
            end
        | None => (Throw "TypeError: service is undefined", st)
        end.

(** The [map] over [sqlNodes] that writes the snapshots, from [index] on. *)
Fixpoint writeVirtualFiles (root : option string) (file : string)
    (rawContent : text) (sqlNodes : list SqlNode) (index : nat)
    : M ExtState (list string) :=
  match sqlNodes with
  | [] => mret []
  | sqlNode :: rest =>
      let virtualFileName := virtualFileName file index in
      pos ← lift (newPosition (line (start (code_range sqlNode)))
                              (character (start (code_range sqlNode))));
      let offset := offsetAt rawContent pos in
      _ ← onService root
            (writeSnapshot virtualFileName
               (virtualText rawContent offset (content sqlNode)));
      names ← writeVirtualFiles root file rawContent rest (S index);
      mret (virtualFileName :: names)
  end.

(** The [filter] and [map] that remove unused virtual files. *)
Fixpoint deleteVirtualFiles (root : option string) (unused : list string)
    : M ExtState unit :=
  match unused with
  | [] => mret tt
  | vFile :: rest =>
      _ ← onService root (deleteSnapshot vFile);
      deleteVirtualFiles root rest
  end.

Definition unusedVirtualFiles (lastVirtualFileNames vFileNames : list string)
    : list string :=
  filter (λ vFile, vFile ∉ vFileNames) lastVirtualFileNames.

(** The last [map] of [refresh], from index [idx] on. *)
Fixpoint withVirtualDoc (sqlNodes : list SqlNode) (vFileNames : list string)
    (idx : nat) : result (list SqlNodeWithVirtualDoc) :=
  match sqlNodes with
  | [] => Ok []
  | block :: rest =>
      match vFileNames !! idx with
      | None => Throw "vFileName[idx] is undefined."
      | Some name =>
          more ← withVirtualDoc rest vFileNames (S idx);
          Ok ({| node := block; vFileName := name; index := idx |} :: more)
      end
  end.

(** The rules handed to the extractor: a setting for another language is
    dropped. *)
Definition configFor (document : TextDocument) (config : option CustomRawSqlQuery)
    : option CustomRawSqlQueryPy :=
  match config with
  | Some c =>
      if bool_decide (language c ≠ languageId document) then None
      else Some (configs c)
  | None => None
  end.

(** The body of the [try] of [refresh]; [customRawSqlQuery] is what the
    validation of the setting of that name gives. *)
Definition refreshBody (customRawSqlQuery : result (option CustomRawSqlQuery))
    (document : TextDocument) : M ExtState (list SqlNodeWithVirtualDoc) :=
  let root := workspaceFolder document in
  _ ← getOrCreateLanguageService root;
  let fileName := fileName document in
  let rawContent := getText document in
  config ← getWorkspaceConfig customRawSqlQuery;
  if bool_decide (languageId document = "python") then
    result ← lift (extractSqlListPy rawContent (configFor document config));
    let sqlNodes := result in
    lastVirtualFileNames ← gets (λ st, default [] (virtualContents st !! fileName));
    vFileNames ← writeVirtualFiles root fileName rawContent sqlNodes 0;
    _ ← deleteVirtualFiles root (unusedVirtualFiles lastVirtualFileNames vFileNames);
    _ ← modify (setVirtualContents fileName vFileNames);
    lift (withVirtualDoc sqlNodes vFileNames 0)
  else mret [].

Definition refresh (customRawSqlQuery : result (option CustomRawSqlQuery))
    (document : TextDocument) : M ExtState (list SqlNodeWithVirtualDoc) :=
  try_catch (refreshBody customRawSqlQuery document)
    (λ e, _ ← showErrorMessage ("[refresh] " +:+ e); mret []).

End Refresh.

Arguments ExtState Svc : clear implicits.

(** The virtual documents of a service, by key. *)
Abbreviation SnapshotStore := (gmap string text).

(** Modelled from the spec: the backing store behind [writeSnapshot] and
    [deleteSnapshot] (./languageService is not among the sources).  A key that
    is written is created or overwritten, a key that is deleted is removed,
    and a new service holds no virtual document.  [createLanguageService] of
    extension.ts looks for the configuration file from the root directory
    on: for a document outside every workspace folder the root directory is
    [undefined] and the search throws a [TypeError], whose message goes on
    with the property that was read. *)
Global Instance snapshotStore : LanguageService SnapshotStore := {|
  createLanguageService := λ rootDir,
    match rootDir with
    | Some _ => Ok (∅ : gmap string text)
    | None => Throw "TypeError: Cannot read properties of undefined"
    end;
  writeSnapshot := λ k v s, Ok (<[k := v]> s);
  deleteSnapshot := λ k s, Ok (delete k s)
|}.

Definition emptyState : ExtState SnapshotStore :=
  {| virtualContents := ∅; services := ∅; errorMessages := [] |}.

(** ** The format command ([formatSql] and its helpers) *)

(** [s.replace(r, by)] with the [g] flag. *)
Fixpoint rx_replace_from (fuel : nat) (icase : bool) (r : regex) (by_ : text)
    (pos : nat) (s : text) : text :=
  match fuel with
  | O => s
  | S fuel' =>
      match rx_search icase r pos s with
      | None => s
      | Some m =>
          let skipped := (m_index m - pos)%nat in
          let len := length (m_text m) in
          let after := drop (skipped + len) s in
          take skipped s ++ by_ ++
            match len, after with
            | O, c :: after' =>
                c :: rx_replace_from fuel' icase r by_ (S (m_index m)) after'
            | O, [] => []
            | S _, _ => rx_replace_from fuel' icase r by_ (m_index m + len) after
            end
      end
  end.

Definition rx_replace_all (icase : bool) (r : regex) (by_ : text) (s : text) : text :=
  rx_replace_from (S (length s)) icase r by_ 0 s.

(** [/^\s*$/] *)
Definition blankPattern : regex := rseq [RBol; ws_star; REol].

(** The white space a text starts with, the white space it ends with, and
    the blanks at the end of a text ([/ +$/g]). *)
Definition leadingSpacePattern : regex := rseq [RBol; RGroup 1 ws_star].
Definition trailingSpacePattern : regex := rseq [RGroup 1 ws_star; REol].
Definition endBlanksPattern : regex := rseq [RPlus (CChar SP); REol].

(** The one-character pattern of [shouldSkipFormatting]: a double or a single
    quote. *)
Definition quoteCharPattern : regex := rseq [RBol; quote2; REol].

Definition getPrefixAndSuffix (content : text) : text * text :=
  let prefix :=
    match rx_match false leadingSpacePattern content with
    | Some m => rx_replace_all false endBlanksPattern [] (m_text m)
    | None => []
    end in
  let suffix :=
    match rx_match false trailingSpacePattern content with
    | Some m => m_text m
    | None => []
    end in
  (prefix, suffix).

(** A replacement registered with the edit builder. *)
Record TextEdit : Type := {
  edit_range : Range;
  newText : text
}.

(** [editor.options.tabSize]: a number or a string. *)
Inductive TabSize : Type :=
| TabNumber (n : nat)
| TabString (s : string).

Record TextEditor : Type := {
  tabSize : option TabSize;
  document : TextDocument
}.

(** [document.lineAt(n).text]; the editor rejects a line outside the
    document. *)
Definition lineAt (doc : TextDocument) (n : nat) : result text :=
  match split_newline (getText doc) !! n with
  | Some l => Ok l
  | None => Throw "Illegal value for `line`"
  end.

Definition defaultTabSize : nat := 2.

Definition indentedContent (activeTextEditor : option TextEditor)
    (content : text) (methodLine : nat) : result text :=
  let tabSize :=
    match activeTextEditor with
    | Some editor =>
        match tabSize editor with
        | Some (TabNumber n) => n
        | Some (TabString _) => defaultTabSize
        | None => defaultTabSize
        end
    | None => defaultTabSize
    end in
  lineText ← match activeTextEditor with
             | Some editor =>
                 l ← lineAt (document editor) methodLine; Ok (Some l)
             | None => Ok None
             end;
  match lineText with
  | None | Some [] => Ok content
  | Some lineText =>
      match m_text <$> rx_match false leadingSpacePattern lineText with
      | None | Some [] => Ok content
      | Some indents =>
          let oneLevelDown := slice indents 0 (Z.of_nat tabSize) in
          Ok (join_newline
                (map (λ ln, indents ++ oneLevelDown ++ ln) (split_newline content)))
      end
  end.

Definition charAt (s : text) (i : Z) : option ascii :=
  if i <? 0 then None else s !! Z.to_nat i.

(** [new vscode.Range(start, end)]: the two ends are put in order. *)
Definition positionLe (p q : Position) : bool :=
  (line p <? line q)%nat || ((line p =? line q)%nat && (character p <=? character q)).

Definition newRange (a b : Position) : Range :=
  if positionLe a b then {| start := a; end_ := b |} else {| start := b; end_ := a |}.

Definition replace (range : Range) (value : text) : M (list TextEdit) unit :=
  modify (λ edits, edits ++ [{| edit_range := range; newText := value |}]).

Section FormatSql.
(** The collaborators of the command: the options and the [format] function
    of sql-formatter, which throws on a text it cannot read; the position
    service of the TypeScript compiler; the setting [formatSql.indent] as
    [getWorkspaceConfig] gives it; the active editor. *)
Variable FormatOptionsWithLanguage : Type.
Variable format : text → option FormatOptionsWithLanguage → result text.
Variable getPositionOfLineAndCharacter : text → nat → Z → result Z.
Variable isEnabledIndent : result (option bool).
Variable activeTextEditor : option TextEditor.

(** The sum of the lengths, line feed included, of the lines [from .. to-1]. *)
Definition linesLength (lines : list text) (from to : nat) : Z :=
  foldl (λ acc i, acc + (Z.of_nat (length (default [] (lines !! i))) + 1)) 0
        (seq from (to - from)).

Definition getPositions (sqlNode : SqlNode) (doc : TextDocument)
    (prefix suffix : text) : result (Z * Z) :=
  let sourceText := getText doc in
  let range := code_range sqlNode in
  if bool_decide (languageId doc ≠ "typescript")
     && bool_decide (languageId doc ≠ "javascript") then
    let lines := split_newline sourceText in
    let startPosition :=
      linesLength lines 0 (line (start range))
      + (character (start range) - Z.of_nat (length prefix)) in
    let endPosition :=
      startPosition
      + linesLength lines (line (start range)) (line (end_ range))
      + (character (end_ range) - character (start range)
         + Z.of_nat (length suffix)) in
    Ok (startPosition, endPosition)
  else
    startOffset ← getPositionOfLineAndCharacter sourceText
                    (line (start range)) (character (start range));
    endOffset ← getPositionOfLineAndCharacter sourceText
                  (line (end_ range)) (character (end_ range));
    Ok (startOffset - Z.of_nat (length prefix),
        endOffset + Z.of_nat (length suffix)).

(** Whether [sourceText[i]] is there and matches the quote pattern. *)
Definition quoteAt (sourceText : text) (i : Z) : bool :=
  match charAt sourceText i with
  | Some c => rx_test false quoteCharPattern [c]
  | None => false
  end.

Definition shouldSkipFormatting (doc : TextDocument)
    (startPosition endPosition : Z) : bool :=
  let sourceText := getText doc in
  let startMatch := quoteAt sourceText (startPosition - 1) in
  let endMatch := quoteAt sourceText endPosition in
  let isTypeScriptSingleLine :=
    (bool_decide (languageId doc = "typescript")
     || bool_decide (languageId doc = "javascript"))
    && startMatch && endMatch in
  isTypeScriptSingleLine.

(** The end of both branches of [formatSqlNode]: format, indent when the
    setting asks for it, and register the replacement. *)
Definition formatAndReplace (sqlNode : SqlNode)
    (sqlFormatterOptions : option FormatOptionsWithLanguage)
    (prefix suffix : text) : M (list TextEdit) unit :=
  enabled ← lift isEnabledIndent;
  formattedContent ← lift (format (content sqlNode) sqlFormatterOptions);
  formattedContent ←
    (if default false enabled then
       lift (indentedContent activeTextEditor formattedContent (method_line sqlNode))
     else mret formattedContent);
  startPos ← lift (newPosition (line (start (code_range sqlNode)))
                               (character (start (code_range sqlNode))));
  endPos ← lift (newPosition (line (end_ (code_range sqlNode)))
                             (character (end_ (code_range sqlNode))));
  replace (newRange startPos endPos) (prefix ++ formattedContent ++ suffix).

Definition formatSqlNode (sqlNode : SqlNodeWithVirtualDoc) (doc : TextDocument)
    (sqlFormatterOptions : option FormatOptionsWithLanguage)
    : M (list TextEdit) unit :=
  if rx_test false blankPattern (content (node sqlNode)) then mret tt
  else
    let '(prefix, suffix) := getPrefixAndSuffix (content (node sqlNode)) in
    if bool_decide (languageId doc = "python") then
      formatAndReplace (node sqlNode) sqlFormatterOptions prefix suffix
    else
      positions ← lift (getPositions (node sqlNode) doc prefix suffix);
      let '(startPosition, endPosition) := positions in
      if shouldSkipFormatting doc startPosition endPosition then mret tt
      else formatAndReplace (node sqlNode) sqlFormatterOptions prefix suffix.

(** The callback of [editor.edit] in [formatSql]. *)
Fixpoint formatSqlNodes (sqlNodes : list SqlNodeWithVirtualDoc)
    (doc : TextDocument) (sqlFormatterOptions : option FormatOptionsWithLanguage)
    : M (list TextEdit) unit :=
  match sqlNodes with
  | [] => mret tt
  | sqlNode :: rest =>
      _ ← formatSqlNode sqlNode doc sqlFormatterOptions;
      formatSqlNodes rest doc sqlFormatterOptions
  end.

End FormatSql.

(** ** The providers and the temporary-file command (hover.ts,
    linkedEditingRange.ts and commands/tempFileEditor.ts) *)

(** The test of [provideHover], [provideLinkedEditingRanges] and
    [editSqlInTempFile] for the fragment under the cursor. *)
Definition inRange (position : Position) (sqlNode : SqlNode) : bool :=
  let s := start (code_range sqlNode) in
  let e := end_ (code_range sqlNode) in
  ((line s <? line position)%nat && (line position <? line e)%nat)
  || ((line s =? line position)%nat && (character s <=? character position))
  || ((line e =? line position)%nat && (character position <=? character e)).

(** [sqlNodes.find(...)] with that test. *)
Definition findSqlNode (position : Position) (sqlNodes : list SqlNodeWithVirtualDoc)
    : option SqlNodeWithVirtualDoc :=
  find (λ sqlNode, inRange position (node sqlNode)) sqlNodes.

(** The six white space characters, and the pattern [\S]. *)
Definition spaceChars : list ascii :=
  [ "009"%char; LF; "011"%char; "012"%char; "013"%char; SP ].

Definition nonSpacePattern : regex := RSet (CNoneOf spaceChars).

(** [s.search(r)]: the index of the first match, [-1] when there is none. *)
Definition search (r : regex) (s : text) : Z :=
  match rx_match false r s with
  | Some m => Z.of_nat (m_index m)
  | None => -1
  end.

(** [s.substring(from)]: a negative index counts as 0. *)
Definition substring (s : text) (from : Z) : text := drop (Z.to_nat from) s.

(** The text the two providers set for the fragment they found: the host
    text blanked up to the first character of the content that is no white
    space, followed by the content from that character on. *)
Definition vContent (doc : TextDocument) (sqlNode : SqlNode) : result text :=
  pos ← newPosition (line (start (code_range sqlNode)))
                    (character (start (code_range sqlNode)));
  let offset := Z.of_nat (offsetAt (getText doc) pos) in
  let sqlContentStart := search nonSpacePattern (content sqlNode) in
  let adjustedOffset :=
    offset + (if 0 <=? sqlContentStart then sqlContentStart else 0) in
  let prefix :=
    replace_all_set (CNoneOf [LF]) [SP] (slice (getText doc) 0 adjustedOffset) in
  let trimmedSqlContent :=
    substring (content sqlNode) (if 0 <=? sqlContentStart then sqlContentStart else 0) in
  Ok (prefix ++ trimmedSqlContent).

(** The three patterns of [syncBackToOriginal]: the white space a text
    starts with, the quote characters it ends with (white space may follow
    them), and the quote characters it starts with (white space may precede
    them). *)
Definition quote3 : charset := COneOf [DQ; SQ; BQ].
Definition leadingWhitespacePattern : regex := rseq [RBol; ws_star].
Definition trailingQuotesPattern : regex := rseq [RPlus quote3; ws_star; REol].
Definition leadingQuotesPattern : regex := rseq [RBol; ws_star; RPlus quote3].

(** [s.match(r)?.[0]], or the empty string when there is no match. *)
Definition matchedText (r : regex) (s : text) : text :=
  match rx_match false r s with
  | Some m => m_text m
  | None => []
  end.

(** The [forEach] over the lines of the saved buffer, from [index] on. *)
Fixpoint appendLines (leadingWhitespace : text) (lines : list text) (index : nat)
    (newContent : text) : text :=
  match lines with
  | [] => newContent
  | ln :: rest =>
      let newContent :=
        if (0 <? index)%nat then newContent ++ LF :: leadingWhitespace
        else newContent in
      appendLines leadingWhitespace rest (S index) (newContent ++ ln)
  end.

(** The text [syncBackToOriginal] puts in place of the span, [originalText]
    being the text of the span and [updatedSqlContent] the saved buffer. *)
Definition newContent (originalText updatedSqlContent : text) : text :=
  let leadingWhitespace := matchedText leadingWhitespacePattern originalText in
  let trailingQuotes := matchedText trailingQuotesPattern originalText in
  let leadingQuotes := matchedText leadingQuotesPattern originalText in
  let lines := split_newline updatedSqlContent in
  appendLines leadingWhitespace lines 0 leadingQuotes ++ trailingQuotes.

(** ** The settings ([getIssuesRecursively] in extConfig.ts) *)

(** An issue of the validation library: what it reports, and the issues
    nested in it, if any. *)
#[local] Unset Elimination Schemes.
Inductive BaseIssue (A : Type) : Type :=
| Issue (report : A) (issues : option (list (BaseIssue A))).
#[local] Set Elimination Schemes.
Arguments Issue {A} report issues.

Definition issues {A} (issue : BaseIssue A) : option (list (BaseIssue A)) :=
  match issue with Issue _ sub => sub end.

(** The turn of the loop of [getIssuesRecursively] for one issue: the issues
    nested in it, flattened, and then the issue. *)
Fixpoint pushIssue {A} (issue : BaseIssue A) : list (BaseIssue A) :=
  match issue with
  | Issue _ sub =>
      match sub with
      | Some nested =>
          (fix getIssuesRecursively (l : list (BaseIssue A)) : list (BaseIssue A) :=
             match l with
             | [] => []
             | i :: l' => pushIssue i ++ getIssuesRecursively l'
             end) nested
      | None => []
      end ++ [issue]
  end.

Definition getIssuesRecursively {A} (issues : list (BaseIssue A))
    : list (BaseIssue A) :=
  flat_map pushIssue issues.

(** * Notions used in the statements *)

(** The tab size [indentedContent] works with. *)
Definition effectiveTabSize (editor : TextEditor) : nat :=
  match tabSize editor with
  | Some (TabNumber n) => n
  | _ => defaultTabSize
  end.

(** The value of [match[1] || match[2] || match[3]]. *)
Definition capturedContent (m : rmatch) : option text :=
  js_or (js_or (group m 1) (group m 2)) (group m 3).

(** A capture that gives no content: undefined, empty or white space only. *)
Definition blankCapture (m : rmatch) : Prop :=
  ∀ sql, capturedContent m = Some sql → Forall (λ c, isSpace c = true) sql.

(** Whether the content of a quoted substring holds a keyword once in upper
    case. *)
Definition holdsKeyword (stringMatch : text) : Prop :=
  ∃ keyword, keyword ∈ sqlKeywords
             ∧ includes (toUpperCase (slice stringMatch 1 (-1))) keyword = true.

(** The quoted substrings of the call text, in the order they are found. *)
Definition quotedSubstrings (call : text) : list text :=
  default [] (rx_match_all false quotedPattern call).

(** A name the embedding follows: no pattern syntax character in it. *)
Definition plainName (config : CustomRawSqlQueryPyItem) : Prop :=
  forallb (λ c, negb (syntaxCharacter c)) (functionName config) = true.

(** [c] occurs in [w]. *)
Definition occursIn (c w : text) : Prop := ∃ a b, w = a ++ c ++ b.

(** [st'] is reached from [st] by reading [w]; every capture of [st'] is one
    of [st] or a part of [w]. *)
Definition reads (st st' : mstate) (w : text) : Prop :=
  m_rest st = w ++ m_rest st'
  ∧ m_pos st' = (m_pos st + length w)%nat
  ∧ ∀ n c, capture n (m_caps st') = Some c →
           capture n (m_caps st) = Some c ∨ occursIn c w.

(** The positions of a fragment have no negative character. *)
Definition validRange (found : SqlNode) : Prop :=
  0 ≤ character (start (code_range found))
  ∧ 0 ≤ character (end_ (code_range found)).

(** The text [refresh] writes for a fragment, and the store after the
    fragments have been written from index [idx] on. *)
Definition fragmentText (rawContent : text) (found : SqlNode) : text :=
  virtualText rawContent (offsetAt rawContent (start (code_range found)))
    (content found).

Fixpoint writeAll (file : string) (rawContent : text) (sqlNodes : list SqlNode)
    (idx : nat) (store : SnapshotStore) : SnapshotStore :=
  match sqlNodes with
  | [] => store
  | found :: rest =>
      writeAll file rawContent rest (S idx)
        (<[virtualFileName file idx := fragmentText rawContent found]> store)
  end.

Definition deleteAll (keys : list string) (store : SnapshotStore) : SnapshotStore :=
  foldl (λ s k, delete k s) store keys.

Definition virtualFileNames (file : string) (n : nat) : list string :=
  map (virtualFileName file) (seq 0 n).

(** The service of a folder exists, or can be created: the document is in a
    workspace folder. *)
Definition serviceAvailable {Svc} (root : option string) (st : ExtState Svc) : Prop :=
  is_Some root ∨ is_Some (services st !! root).

(** What reading the setting shows to the user. *)
Definition settingMessages (config : option CustomRawSqlQuery) : list string :=
  match config with
  | Some _ => []
  | None => [invalidSettingsMessage]
  end.

(** The rules whose call token is on a line, the lines that hold one, and
    the last line the scanner collects for a call that starts on line [i]. *)
Definition callToken (ln : text) (config : CustomRawSqlQueryPyItem) : bool :=
  rx_test false (functionPattern (rlit (functionName config))) (trim ln).

Definition rulesOnLine (configs : CustomRawSqlQueryPy) (ln : text)
    : CustomRawSqlQueryPy :=
  List.filter (callToken ln) configs.

Definition isCallLine (lines : list text) (configs : CustomRawSqlQueryPy)
    (i : nat) : bool :=
  match rulesOnLine configs (default [] (lines !! i)) with
  | [] => false
  | _ :: _ => true
  end.

Definition callLines (lines : list text) (configs : CustomRawSqlQueryPy)
    : list nat :=
  List.filter (isCallLine lines configs) (seq 0 (length lines)).

Definition callEnd (lines : list text) (i : nat) : nat :=
  i + (length (lineOffsets (collectCall (drop i lines) [] [0%nat] scanStart)) - 1).

Definition positionLt (p q : Position) : Prop :=
  (line p < line q)%nat ∨ (line p = line q ∧ character p < character q).

(** A fragment of a call that starts on line [i]: owned by [i], and starting
    on one of the lines collected for the call. *)
Definition startsWithin (lines : list text) (i : nat) (found : SqlNode) : Prop :=
  method_line found = i
  ∧ (i ≤ line (start (code_range found)) ≤ callEnd lines i)%nat.

(** [st'] is the first state a backtracking run of [r] from [st] reaches. *)
Definition firstOf (icase : bool) (r : regex) (st st' : mstate) : Prop :=
  ∃ l, rx_run icase r st = st' :: l.

(** The double and the single quote. *)
Definition isQuote2 (c : ascii) : bool := ascii_eqb c DQ || ascii_eqb c SQ.

(** [st'] differs from [st] at most in the service of [root]. *)
Definition onlyService {Svc} (root : option string) (st st' : ExtState Svc) : Prop :=
  virtualContents st' = virtualContents st
  ∧ errorMessages st' = errorMessages st
  ∧ ∀ other, other ≠ root → services st' !! other = services st !! other.

(** A state with other messages. *)
Definition withMessages {Svc} (msgs : list string) (st : ExtState Svc) : ExtState Svc :=
  {| virtualContents := virtualContents st; services := services st;
     errorMessages := msgs |}.

(** A text with every character that is no line feed replaced by a space. *)
Definition blanked (s : text) : text :=
  map (λ c, if ascii_eqb c LF then LF else SP) s.

(** The key list recorded for a file is made of the keys of that file, from
    index 0 on. *)
Definition wellKeyed {Svc} (st : ExtState Svc) : Prop :=
  ∀ file names, virtualContents st !! file = Some names →
                ∃ n, names = virtualFileNames file n.

(** The longest run of characters that satisfy [p] at the end of a text, and
    the text without that run. *)
Definition trailingRun (p : ascii → bool) (s : text) : text :=
  rev (takeWhile p (rev s)).

Definition dropEndRun (p : ascii → bool) (s : text) : text :=
  rev (dropWhile p (rev s)).

(** The range [formatSqlNode] replaces for a fragment. *)
Definition replacedRange (sqlNode : SqlNodeWithVirtualDoc) : Range :=
  newRange (start (code_range (node sqlNode))) (end_ (code_range (node sqlNode))).

(** The lines of a text put together again, every line after the first
    preceded by a line feed and [lead]. *)
Definition indentLater (lead : text) (lines : list text) : text :=
  match lines with
  | [] => []
  | l :: rest => l ++ flat_map (λ x, LF :: lead ++ x) rest
  end.

(** An issue of a forest of issues: one of the list, or an issue nested in
    one of the list. *)
Inductive inForest {A} : BaseIssue A → list (BaseIssue A) → Prop :=
| inForest_here issue l : issue ∈ l → inForest issue l
| inForest_nested issue parent nested l :
    parent ∈ l → issues parent = Some nested → inForest issue nested →
    inForest issue l.

(** The number of issues of a forest. *)
Fixpoint countIssue {A} (issue : BaseIssue A) : nat :=
  match issue with
  | Issue _ sub =>
      S match sub with
        | Some nested =>
            (fix countIssues (l : list (BaseIssue A)) : nat :=
               match l with
               | [] => 0%nat
               | i :: l' => (countIssue i + countIssues l')%nat
               end) nested
        | None => 0%nat
        end
  end.

Definition countIssues {A} (l : list (BaseIssue A)) : nat :=
  foldr (λ i n, (countIssue i + n)%nat) 0%nat l.

(** A quote character of the keyword heuristic: double, single or
    backtick. *)
Definition isQuote3 (c : ascii) : bool :=
  ascii_eqb c DQ || ascii_eqb c SQ || ascii_eqb c BQ.

(** The quoted pieces of a text, read from left to right: a piece starts at
    a quote character and ends at the next quote character, of whichever of
    the three kinds, and the reading goes on after that character.  A quote
    character that no other follows starts no piece.  [opened] is the piece
    being read, if any, its characters in reverse order. *)
Fixpoint quotedPiecesFrom (opened : option text) (s : text) : list text :=
  match s with
  | [] => []
  | c :: s' =>
      match opened with
      | None =>
          if isQuote3 c then quotedPiecesFrom (Some [c]) s'
          else quotedPiecesFrom None s'
      | Some piece =>
          if isQuote3 c then rev (c :: piece) :: quotedPiecesFrom None s'
          else quotedPiecesFrom (Some (c :: piece)) s'
      end
  end.

Definition quotedPieces (s : text) : list text := quotedPiecesFrom None s.

(** What a piece holds between its first and its last character. *)
Definition unquoted (piece : text) : text := removelast (tail piece).

(** The keywords of the heuristic, and a text that holds one of them once it
    is put in upper case. *)
Definition keywordSet : list text :=
  [ txt "SELECT"; txt "INSERT"; txt "UPDATE"; txt "DELETE";
    txt "CREATE"; txt "ALTER"; txt "DROP"; txt "WITH" ].

Definition containsKeyword (content : text) : Prop :=
  ∃ keyword, keyword ∈ keywordSet ∧ occursIn keyword (toUpperCase content).

(** A text cut at its first quote character. *)
Fixpoint splitQuote (s : text) : option (text * ascii * text) :=
  match s with
  | [] => None
  | c :: s' =>
      if isQuote3 c then Some ([], c, s')
      else match splitQuote s' with
           | Some (before, q, rest) => Some (c :: before, q, rest)
           | None => None
           end
  end.

(** A rule name that is an identifier: letters, digits and underscores, at
    least one. *)
Definition isIdentChar (c : ascii) : bool :=
  let n := nat_of_ascii c in
  ((48 <=? n)%nat && (n <=? 57)%nat) || ((65 <=? n)%nat && (n <=? 90)%nat)
  || ((97 <=? n)%nat && (n <=? 122)%nat) || (n =? 95)%nat.

Definition identifier (name : text) : Prop :=
  name ≠ [] ∧ Forall (λ c, isIdentChar c = true) name.

(** What follows [name] at the start of a text, letter case aside. *)
Fixpoint afterName (name s : text) : option text :=
  match name, s with
  | [], _ => Some s
  | a :: name', c :: s' =>
      if ascii_eqb (upperChar a) (upperChar c) then afterName name' s' else None
  | _ :: _, [] => None
  end.

(** The head of a call of [name] at the start of a text: the name, letter
    case aside, white space if any, and an opening parenthesis. *)
Definition headAt (name s : text) : bool :=
  match afterName name s with
  | Some rest =>
      match dropWhile isSpace rest with
      | c :: _ => ascii_eqb c "("
      | [] => false
      end
  | None => false
  end.

(** The offsets of a text where a call of [name] has its head, [offset]
    being the offset of the text given. *)
Fixpoint headOffsets (name s : text) (offset : nat) : list nat :=
  (if headAt name s then [offset] else [])
  ++ match s with
     | [] => []
     | _ :: s' => headOffsets name s' (S offset)
     end.

(** A call as it is written in a text: the line it starts on, what stands
    before the name on that line, the rule of the name, the white space
    before and after the opening parenthesis, and the literal that follows,
    which is of one of two forms: between two quote characters, or between
    two triples of one quote character. *)
Inductive Literal : Type :=
| Quoted (q q' : ascii)
| TripleQuoted (q : ascii).

Record CallSite : Type := {
  site_line : nat;
  site_before : text;
  site_rule : CustomRawSqlQueryPyItem;
  site_ws1 : text;
  site_ws2 : text;
  site_literal : Literal;
  site_sql : text
}.

Definition opening (l : Literal) : text :=
  match l with
  | Quoted q _ => [q]
  | TripleQuoted q => [q; q; q]
  end.

Definition closing (l : Literal) : text :=
  match l with
  | Quoted _ q' => [q']
  | TripleQuoted q => [q; q; q]
  end.

(** The text of the call up to the first character of its literal, and up to
    the end of its literal. *)
Definition siteHead (call : CallSite) : text :=
  site_before call ++ functionName (site_rule call) ++ site_ws1 call
  ++ "("%char :: site_ws2 call ++ opening (site_literal call).

Definition siteText (call : CallSite) : text :=
  siteHead call ++ site_sql call ++ closing (site_literal call).

(** The offset of the name of the call in the text. *)
Definition siteOffset (lines : list text) (call : CallSite) : nat :=
  (lineStartOffset lines (site_line call) + length (site_before call))%nat.

(** The call is written in the text: the text reads [siteText] from the
    start of the line of the call on. *)
Definition writtenAt (lines : list text) (call : CallSite) : bool :=
  startsWith (siteText call) (join_newline (drop (site_line call) lines)).

(** The call is well formed.  What stands before the name holds no line
    feed, and is white space or ends with a dot.  The white space around the
    parenthesis holds no line feed.  The literal is not blank.  Between two
    quote characters (double or single, not necessarily the same) it holds
    neither of the two nor a line feed.  Between two triples of a quote
    character (double or single) it does not hold that character, and
    nothing that stands before the name is a quote character or a
    parenthesis. *)
Definition blankNoNewline (c : ascii) : bool := isSpace c && negb (ascii_eqb c LF).

Definition wellFormedSite (call : CallSite) : bool :=
  let before := site_before call in
  let sql := site_sql call in
  forallb (λ c, negb (ascii_eqb c LF)) before
  && (forallb isSpace before || bool_decide (last before = Some "."%char))
  && forallb blankNoNewline (site_ws1 call)
  && forallb blankNoNewline (site_ws2 call)
  && negb (forallb isSpace sql)
  && match site_literal call with
     | Quoted q q' =>
         isQuote2 q && isQuote2 q'
         && forallb (λ c, negb (isQuote2 c) && negb (ascii_eqb c LF)) sql
     | TripleQuoted q =>
         isQuote2 q && forallb (λ c, negb (ascii_eqb c q)) sql
         && forallb (λ c, negb (isQuote3 c) && negb (ascii_eqb c "(")
                          && negb (ascii_eqb c ")")) before
     end.

(** What one turn of the inner loop of [extractSqlFromPython] pushes: the
    fragment of rule [config] for line [i], if the line holds the call token
    of the rule and a literal is found. *)
Definition fragmentsOf (lines : list text) (i : nat)
    (config : CustomRawSqlQueryPyItem) : list SqlNode :=
  if callToken (default [] (lines !! i)) config then
    match extractSqlFromLine lines i config with
    | Ok (Some found) => [found]
    | _ => []
    end
  else [].

(** The state of the scanner of [extractSqlFromLine] inside a triple-quoted
    literal opened by [q], within the parentheses of the call. *)
Definition inTriple (q : ascii) : ScanState :=
  {| parenthesesCount := 1; inString := true; stringChar := [q];
     foundFunction := true |}.

(** The fragment of a call: it is attributed to the line of the call, its
    text is the text between the quotes, trimmed, and it starts on the line of
    the call, not after the opening quote. *)
Definition fragmentOf (call : CallSite) (found : SqlNode) : Prop :=
  method_line found = site_line call
  ∧ content found = trim (site_sql call)
  ∧ line (start (code_range found)) = site_line call
  ∧ 0 ≤ character (start (code_range found)) ≤ Z.of_nat (length (siteHead call)).

(** * Inputs *)

(** Stand-ins for the collaborators, used where a statement is run on a
    concrete input: a formatter that returns its input, a position service
    over lines separated by line feeds. *)
Definition formatIdentity (s : text) (_ : option unit) : result text := Ok s.

Definition positionOfLineAndCharacter (s : text) (ln : nat) (ch : Z) : result Z :=
  match split_newline s !! ln with
  | Some _ => Ok (Z.of_nat (lineStartOffset (split_newline s) ln) + ch)
  | None => Throw "Debug Failure. Bad line number."
  end.

Definition mkNode (sql : text) (l1 : nat) (c1 : Z) (l2 : nat) (c2 : Z) (owner : nat) : SqlNode :=
  {| code_range := {| start := {| line := l1; character := c1 |};
                      end_ := {| line := l2; character := c2 |} |};
     content := sql; method_line := owner |}.

Definition mkDoc (name lang : string) (s : text) : TextDocument :=
  {| fileName := name; languageId := lang; getText := s; workspaceFolder := None |}.

(** A call indented by four blanks whose literal runs over two lines, and
    the editor showing it with a tab size of four. *)
Definition indentedCall : text :=
  txt "    cursor.execute('''select 1" ++ [LF] ++ txt "from t''')".

Definition indentedDoc : TextDocument := mkDoc "a.py" "python" indentedCall.

Definition indentedEditor : TextEditor :=
  {| tabSize := Some (TabNumber 4); document := indentedDoc |}.

Definition indentedNode : SqlNodeWithVirtualDoc :=
  {| node := mkNode (txt "select 1" ++ [LF] ++ txt "from t") 0 22 1 6 0;
     vFileName := "a.py@0.sql"; index := 0 |}.

Definition executeRule : CustomRawSqlQueryPyItem :=
  {| functionName := txt "execute"; sqlArgNo := 1; isStringTemplate := false |}.

(** A call whose first argument is an empty literal. *)
Definition emptyFirstArgument : text := txt "execute('', 'SELECT 1')".

(** A call whose first argument is no literal, the second a literal with an
    apostrophe in it, the third a query. *)
Definition apostropheCall : text :=
  txt "execute(x, " ++ [DQ] ++ txt "it's" ++ [DQ] ++ txt ", 'SELECT 1')".

(** The call of the negative example, cut in its literal, and a call whose
    literal is complete but whose parenthesis is never closed. *)
Definition unterminatedLiteral : text := txt "cursor.execute(" ++ [DQ] ++ txt "SELECT".

Definition unterminatedCall : text :=
  txt "cursor.execute(" ++ [DQ] ++ txt "SELECT 1" ++ [DQ].

(** A rule whose name is no pattern, a setting for another language, and a
    language service whose snapshot operations throw. *)
Definition brokenRule : CustomRawSqlQueryPyItem :=
  {| functionName := txt "execute("; sqlArgNo := 1; isStringTemplate := false |}.

Definition typescriptSetting : CustomRawSqlQuery :=
  {| language := "typescript";
     configs := [ {| functionName := txt "select"; sqlArgNo := 1;
                     isStringTemplate := false |} ] |}.

Definition usersCall : text := txt "cursor.execute('SELECT * FROM users')".

Definition usersDoc : TextDocument :=
  {| fileName := "a.py"; languageId := "python"; getText := usersCall;
     workspaceFolder := Some "w" |}.

Definition failingService : LanguageService unit :=
  {| createLanguageService := λ _, Ok tt;
     writeSnapshot := λ _ _ _, Throw "Error: write failed";
     deleteSnapshot := λ _ _, Throw "Error: delete failed" |}.

(** A file of the same workspace folder with two calls, and another file of
    that folder. *)
Definition twoCallsDoc : TextDocument :=
  {| fileName := "a.py"; languageId := "python";
     getText := txt "a.execute('SELECT 1')" ++ [LF] ++ txt "b.query('SELECT 2')";
     workspaceFolder := Some "w" |}.

Definition otherFileDoc : TextDocument :=
  {| fileName := "b.py"; languageId := "python"; getText := usersCall;
     workspaceFolder := Some "w" |}.

(** A document with a call of the rule of [typescriptSetting] and a call of
    a default rule, and that rule in a setting for Python. *)
Definition selectAndExecuteDoc : TextDocument :=
  {| fileName := "a.py"; languageId := "python";
     getText := txt "conn.select('SELECT 1')" ++ [LF]
                ++ txt "cursor.execute('SELECT 2')";
     workspaceFolder := Some "w" |}.

Definition pythonSelectSetting : CustomRawSqlQuery :=
  {| language := "python"; configs := configs typescriptSetting |}.

(** A TypeScript document of the same workspace folder. *)
Definition typescriptDoc : TextDocument :=
  {| fileName := "a.ts"; languageId := "typescript";
     getText := txt "db.query('select 1')"; workspaceFolder := Some "w" |}.

(** The same file after its query has been edited. *)
Definition usersDocEdited : TextDocument :=
  {| fileName := "a.py"; languageId := "python";
     getText := txt "cursor.execute('SELECT name FROM users')";
     workspaceFolder := Some "w" |}.

(** Two calls on one line, with one rule and with two rules in the order
    opposite to the one of the defaults; the same two calls on two lines. *)
Definition twoCallsOneLine : text :=
  txt "a.execute('SELECT 1'); b.execute('SELECT 2')".

Definition twoRulesOneLine : text :=
  txt "a.query('SELECT 1'); b.execute('SELECT 2')".

Definition twoCallsTwoLines : text :=
  txt "a.execute('SELECT 1')" ++ [LF] ++ txt "b.query('SELECT 2')".

(** A call in its plainest form: a dot, the name, and one literal in single
    quotes between parentheses. *)
Definition simpleCall (name sql : text) : text :=
  txt "." ++ name ++ txt "('" ++ sql ++ txt "')".

Definition hasCallAt (sourceTxt : text) (offset : nat) (name sql : text) : Prop :=
  take (length (simpleCall name sql)) (drop offset sourceTxt) = simpleCall name sql.

(** A call whose literal is a triple-quoted block that starts with a line
    feed, the usual layout of a query over several lines. *)
Definition tripleQuotedCall : text :=
  txt "cursor.execute(" ++ [DQ; DQ; DQ; LF] ++ txt "SELECT 1" ++ [LF; DQ; DQ; DQ]
  ++ txt ")".

Definition tripleQuotedDoc : TextDocument :=
  {| fileName := "a.py"; languageId := "python"; getText := tripleQuotedCall;
     workspaceFolder := Some "w" |}.

(** A call with a triple-quoted literal over three lines, then a call with a
    literal in single quotes on the next line, and the two calls as they are
    written. *)
Definition tripleThenQuery : text :=
  tripleQuotedCall ++ [LF] ++ txt "db.query('SELECT 2')".

Definition executeSite : CallSite :=
  {| site_line := 0; site_before := txt "cursor.";
     site_rule := {| functionName := txt "execute"; sqlArgNo := 1;
                     isStringTemplate := false |};
     site_ws1 := []; site_ws2 := []; site_literal := TripleQuoted DQ;
     site_sql := [LF] ++ txt "SELECT 1" ++ [LF] |}.

Definition querySite : CallSite :=
  {| site_line := 3; site_before := txt "db.";
     site_rule := {| functionName := txt "query"; sqlArgNo := 1;
                     isStringTemplate := false |};
     site_ws1 := []; site_ws2 := []; site_literal := Quoted SQ SQ;
     site_sql := txt "SELECT 2" |}.

(** * Properties *)

(** ** Texts and lines *)

Lemma take_drop_While p s : takeWhile p s ++ dropWhile p s = s.
Proof. induction s as [|c s IH]; simpl; [done|]. destruct (p c); simpl; congruence. Qed.

Lemma take_takeWhile p s : take (length (takeWhile p s)) s = takeWhile p s.
Proof.
  induction s as [|c s IH]; simpl; [done|]. destruct (p c); simpl; congruence.
Qed.

Lemma ascii_eqb_eq a b : ascii_eqb a b = true ↔ a = b.
Proof. unfold ascii_eqb. apply bool_decide_eq_true. Qed.

Lemma split_newline_cons_inv s : ∃ l ls, split_newline s = l :: ls.
Proof.
  induction s as [|c s (l & ls & IH)]; simpl; [eauto|].
  destruct (ascii_eqb c LF); [eauto|]. rewrite IH. eauto.
Qed.

Lemma split_newline_no_LF s l : l ∈ split_newline s → LF ∉ l.
Proof.
  revert l. induction s as [|c s IH]; simpl; intros l Hl.
  - apply list_elem_of_singleton in Hl as ->. apply not_elem_of_nil.
  - destruct (ascii_eqb c LF) eqn:Hc.
    + apply elem_of_cons in Hl as [->|Hl]; [apply not_elem_of_nil|by apply IH].
    + destruct (split_newline s) as [|l0 ls] eqn:Hs.
      * apply list_elem_of_singleton in Hl as ->.
        intros [Heq|Hin]%elem_of_cons; [|by apply not_elem_of_nil in Hin].
        rewrite <- Heq in Hc. by vm_compute in Hc.
      * apply elem_of_cons in Hl as [->|Hl].
        -- intros [Heq|Hin]%elem_of_cons.
           ++ rewrite <- Heq in Hc. by vm_compute in Hc.
           ++ revert Hin. apply IH. left.
        -- apply IH. by right.
Qed.

Lemma join_split_newline s : join_newline (split_newline s) = s.
Proof.
  induction s as [|c s IH]; simpl; [done|].
  destruct (ascii_eqb c LF) eqn:Hc.
  - apply ascii_eqb_eq in Hc as ->.
    destruct (split_newline_cons_inv s) as (l & ls & Hs).
    rewrite Hs in *.
    change (join_newline ([] :: l :: ls)) with (LF :: join_newline (l :: ls)).
    by rewrite IH.
  - destruct (split_newline s) as [|l ls]; [by subst|].
    destruct ls as [|l' ls']; [simpl in *; by subst|].
    change (join_newline ((c :: l) :: l' :: ls'))
      with (c :: join_newline (l :: l' :: ls')).
    by rewrite IH.
Qed.

Lemma split_newline_app_no_LF l s :
  LF ∉ l →
  split_newline (l ++ s)
  = match split_newline s with
    | l' :: ls => (l ++ l') :: ls
    | [] => [l]
    end.
Proof.
  induction l as [|c l IH]; simpl; intros Hl.
  - by destruct (split_newline_cons_inv s) as (l' & ls & ->).
  - rewrite not_elem_of_cons in Hl. destruct Hl as [Hc Hl].
    destruct (ascii_eqb c LF) eqn:E; [apply ascii_eqb_eq in E; congruence|].
    rewrite IH by done.
    by destruct (split_newline_cons_inv s) as (l' & ls & ->).
Qed.

Lemma split_newline_line l : LF ∉ l → split_newline l = [l].
Proof.
  intros Hl. rewrite <- (app_nil_r l) at 1.
  rewrite split_newline_app_no_LF by done. simpl. by rewrite app_nil_r.
Qed.

Lemma split_join_newline ls :
  ls ≠ [] → Forall (λ l, LF ∉ l) ls → split_newline (join_newline ls) = ls.
Proof.
  induction ls as [|l ls IH]; [done|]. intros _ Hall.
  apply Forall_cons in Hall as [Hl Hls].
  destruct ls as [|l' ls']; [by apply split_newline_line|].
  change (join_newline (l :: l' :: ls')) with (l ++ LF :: join_newline (l' :: ls')).
  rewrite split_newline_app_no_LF by done.
  change (split_newline (LF :: join_newline (l' :: ls')))
    with ([] :: split_newline (join_newline (l' :: ls'))).
  rewrite IH by done. by rewrite app_nil_r.
Qed.

Lemma slice_0_take s n : slice s 0 (Z.of_nat n) = take n s.
Proof.
  unfold slice, slice_index. simpl.
  destruct (Z.ltb_spec (Z.of_nat n) 0); [lia|].
  replace (0 `min` Z.of_nat (length s)) with 0 by lia.
  rewrite Z.sub_0_r. simpl.
  destruct (decide (n ≤ length s)%nat).
  - by rewrite Z.min_l, Nat2Z.id by lia.
  - rewrite Z.min_r, Nat2Z.id by lia.
    rewrite (take_ge s n) by lia. apply take_ge. lia.
Qed.

(** ** The matcher *)

(** A few evaluations of the matcher. *)
Example rx_lazy_quotes :
  m_text <$> rx_match false
    (rseq [RSet (COneOf [DQ; SQ]); RGroup 1 (RStar false (CNoneOf [DQ; SQ]));
           RSet (COneOf [DQ; SQ])])
    (txt "f('ab', 'c')") = Some (txt "'ab'").
Proof. vm_compute. reflexivity. Qed.

Lemma star_states_all p pos s caps :
  forallb p s = true →
  MState (pos + length s) [] caps ∈ star_states p pos s caps.
Proof.
  revert pos. induction s as [|c s IH]; intros pos Hall; simpl in *.
  - rewrite Nat.add_0_r. left.
  - apply andb_true_iff in Hall as [Hc Hs]. rewrite Hc. right.
    replace (pos + S (length s))%nat with (S pos + length s)%nat by lia.
    by apply IH.
Qed.

Lemma rx_search_found icase r pos s st :
  st ∈ rx_run icase r (MState pos s []) → is_Some (rx_search icase r pos s).
Proof.
  intros Hin. destruct s; simpl; destruct (rx_run _ _ _) eqn:E; eauto;
    by apply not_elem_of_nil in Hin.
Qed.

Lemma elem_of_rev {A} (x : A) (l : list A) : x ∈ rev l ↔ x ∈ l.
Proof. by rewrite !list_elem_of_In, <- in_rev. Qed.

Lemma elem_of_flat_map {A B} (f : A → list B) (l : list A) (y : B) :
  y ∈ flat_map f l ↔ ∃ x, x ∈ l ∧ y ∈ f x.
Proof.
  rewrite list_elem_of_In, in_flat_map. setoid_rewrite list_elem_of_In. done.
Qed.

Lemma rx_run_seq icase r1 r2 st x :
  x ∈ rx_run icase (RSeq r1 r2) st ↔
  ∃ y, y ∈ rx_run icase r1 st ∧ x ∈ rx_run icase r2 y.
Proof. simpl. apply elem_of_flat_map. Qed.

Lemma rx_run_empty icase st x : x ∈ rx_run icase REmpty st ↔ x = st.
Proof. simpl. apply list_elem_of_singleton. Qed.

(** A text of white space only matches the blank pattern. *)
Lemma blankPattern_spaces s :
  forallb isSpace s = true → rx_test false blankPattern s = true.
Proof.
  intros Hall. unfold rx_test, rx_match. apply bool_decide_eq_true.
  apply (rx_search_found _ _ _ _ (MState (0 + length s) [] [])).
  unfold blankPattern, rseq, foldr.
  apply rx_run_seq. exists (MState 0 s []). split; [left|].
  apply rx_run_seq. exists (MState (0 + length s) [] []). split.
  - apply elem_of_rev. by apply star_states_all.
  - apply rx_run_seq. eexists. split; [left|]. by apply rx_run_empty.
Qed.

Lemma rx_search_head icase r pos s st l :
  rx_run icase r (MState pos s []) = st :: l →
  rx_search icase r pos s
  = Some (RMatch pos (take (m_pos st - pos) s) (m_caps st)).
Proof. intros Hrun. destruct s; simpl; by rewrite Hrun. Qed.

Lemma rx_search_bol_later icase r pos s :
  (0 < pos)%nat → rx_search icase (RSeq RBol r) pos s = None.
Proof.
  revert pos. induction s as [|c s IH]; intros pos Hpos; simpl;
    destruct pos; try lia; simpl; [done|]. apply IH. lia.
Qed.

Lemma star_states_last p pos s caps :
  last (star_states p pos s caps)
  = Some (MState (pos + length (takeWhile p s)) (dropWhile p s) caps).
Proof.
  revert pos. induction s as [|c s IH]; intros pos; simpl.
  - by rewrite Nat.add_0_r.
  - destruct (p c) eqn:Hc; simpl; [|by rewrite Nat.add_0_r].
    replace (pos + S (length (takeWhile p s)))%nat
      with (S pos + length (takeWhile p s))%nat by lia.
    rewrite <- IH. by destruct s; simpl; [|destruct (p a)].
Qed.

Lemma star_states_rev p pos s caps :
  ∃ l, rev (star_states p pos s caps)
       = MState (pos + length (takeWhile p s)) (dropWhile p s) caps :: l.
Proof.
  pose proof (star_states_last p pos s caps) as Hlast.
  apply last_Some in Hlast as [l' ->]. exists (rev l').
  by rewrite rev_app_distr.
Qed.

(** The white space a text starts with, as the pattern finds it. *)
Lemma leadingSpacePattern_match s :
  m_text <$> rx_match false leadingSpacePattern s = Some (takeWhile isSpace s).
Proof.
  unfold rx_match.
  destruct (star_states_rev (charset_mem false CSpace) 0 s []) as [l Hl].
  erewrite rx_search_head.
  2:{ unfold leadingSpacePattern, rseq, foldr, ws_star.
      cbn [rx_run m_pos m_rest m_caps Nat.eqb flat_map]. rewrite Hl.
      cbn [map flat_map app m_pos m_rest m_caps rx_run]. reflexivity. }
  cbn [fmap option_fmap option_map m_text m_pos].
  rewrite Nat.sub_0_r. simpl. f_equal. apply take_takeWhile.
Qed.

Lemma star_states_end p pos s caps st :
  st ∈ star_states p pos s caps → m_rest st = [] → forallb p s = true.
Proof.
  revert pos. induction s as [|c s IH]; intros pos Hin Hrest; simpl in *; [done|].
  apply elem_of_cons in Hin as [->|Hin]; [done|].
  destruct (p c); [|by apply not_elem_of_nil in Hin]. simpl. eauto.
Qed.

Lemma rx_search_inv icase r pos s m :
  rx_search icase r pos s = Some m →
  (∃ st l, rx_run icase r (MState pos s []) = st :: l
           ∧ m = RMatch pos (take (m_pos st - pos) s) (m_caps st))
  ∨ (rx_run icase r (MState pos s []) = []
     ∧ ∃ c s', s = c :: s' ∧ rx_search icase r (S pos) s' = Some m).
Proof.
  destruct s as [|c s']; simpl; destruct (rx_run _ _ _) as [|st l] eqn:E;
    intros Hm; simplify_eq; eauto 10.
Qed.

Lemma blankPattern_iff s :
  rx_test false blankPattern s = true ↔ Forall (λ c, isSpace c = true) s.
Proof.
  split.
  - unfold rx_test, rx_match. intros [m Hm]%bool_decide_eq_true.
    unfold blankPattern, rseq, foldr in Hm.
    apply rx_search_inv in Hm as [(st & l & Hrun & _)|(_ & c & s' & _ & Hm)].
    + assert (st ∈ rx_run false (RSeq RBol (RSeq ws_star (RSeq REol REmpty)))
                     (MState 0 s [])) as Hst by (rewrite Hrun; left).
      apply rx_run_seq in Hst as (st0 & Hst0 & Hst).
      apply list_elem_of_singleton in Hst0 as ->.
      apply rx_run_seq in Hst as (st1 & Hst1 & Hst).
      apply rx_run_seq in Hst as (st2 & Hst2 & Hst).
      simpl in Hst2. destruct (m_rest st1) eqn:Hrest;
        [|by apply not_elem_of_nil in Hst2].
      unfold ws_star in Hst1. cbn [rx_run] in Hst1.
      apply (proj1 (elem_of_rev _ _)) in Hst1.
      apply star_states_end in Hst1; [|done].
      apply Forall_forall. intros x Hx%list_elem_of_In.
      by apply (proj1 (forallb_forall _ _) Hst1).
    + by rewrite rx_search_bol_later in Hm by lia.
  - intros Hall. apply blankPattern_spaces, forallb_forall.
    intros c Hc%list_elem_of_In. by apply (proj1 (Forall_forall _ _) Hall).
Qed.

(** ** What a match is made of *)

Lemma occursIn_app_l c w1 w2 : occursIn c w1 → occursIn c (w1 ++ w2).
Proof. intros (a & b & ->). exists a, (b ++ w2). by rewrite <- !app_assoc. Qed.

Lemma occursIn_app_r c w1 w2 : occursIn c w2 → occursIn c (w1 ++ w2).
Proof. intros (a & b & ->). exists (w1 ++ a), b. by rewrite <- !app_assoc. Qed.

Lemma occursIn_refl c : occursIn c c.
Proof. exists [], []. by rewrite app_nil_r. Qed.

Lemma reads_refl st : reads st st [].
Proof. unfold reads. simpl. rewrite Nat.add_0_r. eauto. Qed.

Lemma reads_trans st1 st2 st3 w1 w2 :
  reads st1 st2 w1 → reads st2 st3 w2 → reads st1 st3 (w1 ++ w2).
Proof.
  intros (Hr1 & Hp1 & Hc1) (Hr2 & Hp2 & Hc2). unfold reads.
  rewrite Hr1, Hr2, Hp2, Hp1, length_app, <- app_assoc.
  split; [done|]. split; [lia|]. intros n c Hc.
  destruct (Hc2 n c Hc) as [Hold|Hin]; [|right; by apply occursIn_app_r].
  destruct (Hc1 n c Hold) as [Hold'|Hin]; [by left|right; by apply occursIn_app_l].
Qed.

Lemma star_states_reads p pos s caps st' :
  st' ∈ star_states p pos s caps →
  ∃ w, reads (MState pos s caps) st' w.
Proof.
  revert pos. induction s as [|c s IH]; intros pos Hin; simpl in Hin.
  - apply list_elem_of_singleton in Hin as ->. exists []. apply reads_refl.
  - apply elem_of_cons in Hin as [->|Hin]; [exists []; apply reads_refl|].
    destruct (p c); [|by apply not_elem_of_nil in Hin].
    destruct (IH _ Hin) as (w & Hr & Hp & Hc). exists (c :: w).
    unfold reads in *. simpl in *. rewrite Hr, Hp.
    split; [done|]. split; [lia|]. intros n x Hx.
    destruct (Hc n x Hx) as [?|Hin']; [by left|right].
    by apply (occursIn_app_r x [c] w).
Qed.

Lemma rx_run_reads icase r st st' :
  st' ∈ rx_run icase r st → ∃ w, reads st st' w.
Proof.
  revert st st'. induction r as [| cs | | | r1 IH1 r2 IH2 | r1 IH1 r2 IH2
                                 | greedy cs | cs | n r1 IH1];
    intros st st' Hin; simpl in Hin.
  - apply list_elem_of_singleton in Hin as ->. exists []. apply reads_refl.
  - destruct (m_rest st) as [|c s'] eqn:Hrest; [by apply not_elem_of_nil in Hin|].
    destruct (charset_mem icase cs c); [|by apply not_elem_of_nil in Hin].
    apply list_elem_of_singleton in Hin as ->. exists [c].
    unfold reads. simpl. rewrite Hrest. split; [done|]. split; [lia|]. eauto.
  - destruct (m_pos st =? 0)%nat; [|by apply not_elem_of_nil in Hin].
    apply list_elem_of_singleton in Hin as ->. exists []. apply reads_refl.
  - destruct (m_rest st); [|by apply not_elem_of_nil in Hin].
    apply list_elem_of_singleton in Hin as ->. exists []. apply reads_refl.
  - apply elem_of_flat_map in Hin as (st1 & Hst1 & Hst').
    destruct (IH1 _ _ Hst1) as [w1 H1], (IH2 _ _ Hst') as [w2 H2].
    exists (w1 ++ w2). by eapply reads_trans.
  - apply elem_of_app in Hin as [Hin|Hin]; eauto.
  - destruct st as [pos s caps].
    apply (star_states_reads (charset_mem icase cs)).
    destruct greedy; [by apply elem_of_rev|done].
  - destruct st as [pos s caps].
    apply (star_states_reads (charset_mem icase cs)).
    apply (proj1 (elem_of_rev _ _)) in Hin. simpl in Hin.
    destruct (star_states _ _ _ _) eqn:E; simpl in Hin;
      [by apply not_elem_of_nil in Hin|by right].
  - apply list_elem_of_In, in_map_iff in Hin as (st1 & <- & Hst1%list_elem_of_In).
    destruct (IH1 _ _ Hst1) as (w & Hr & Hp & Hc). exists w.
    unfold reads. simpl. split; [done|]. split; [done|].
    intros k c. unfold capture. simpl. case_bool_decide as Hk.
    + simpl. intros [= <-]. right. rewrite Hp, Hr.
      replace (m_pos st + length w - m_pos st)%nat with (length w) by lia.
      rewrite take_app_length. apply occursIn_refl.
    + apply Hc.
Qed.

Lemma rx_run_head_spec icase r pos s st l :
  rx_run icase r (MState pos s []) = st :: l →
  ∃ rest, s = take (m_pos st - pos) s ++ rest
          ∧ ∀ n c, capture n (m_caps st) = Some c →
                   occursIn c (take (m_pos st - pos) s).
Proof.
  intros Hrun.
  assert (st ∈ rx_run icase r (MState pos s [])) as Hst by (rewrite Hrun; left).
  apply rx_run_reads in Hst as (w & Hr & Hp & Hc). simpl in Hr, Hp, Hc.
  clear Hrun. subst s. rewrite Hp.
  replace (pos + length w - pos)%nat with (length w) by lia.
  rewrite take_app_length. exists (m_rest st). split; [done|].
  intros n c Hn. by destruct (Hc n c Hn).
Qed.

(** A match found from position [pos] on: its text lies at its index, and
    its captures are parts of its text. *)
Lemma rx_search_spec icase r pos s m :
  rx_search icase r pos s = Some m →
  ∃ skipped rest,
    s = skipped ++ m_text m ++ rest
    ∧ m_index m = (pos + length skipped)%nat
    ∧ ∀ n c, group m n = Some c → occursIn c (m_text m).
Proof.
  revert pos. induction s as [|c0 s IH]; intros pos Hm;
    apply rx_search_inv in Hm
      as [(st & l & Hrun & ->)|(Hrun & c & s' & Hs & Hm)]; try done.
  - destruct (rx_run_head_spec _ _ _ _ _ _ Hrun) as (rest & Hs & Hc).
    exists [], rest. split; [done|]. split; [simpl; lia|done].
  - destruct (rx_run_head_spec _ _ _ _ _ _ Hrun) as (rest & Hs & Hc).
    exists [], rest. split; [done|]. split; [simpl; lia|done].
  - injection Hs as <- <-.
    destruct (IH _ Hm) as (skipped & rest & -> & Hidx & Hcaps).
    exists (c0 :: skipped), rest. split; [done|]. split; [simpl; lia|done].
Qed.

(** ** [indexOf] *)

Lemma startsWith_spec needle s :
  startsWith needle s = true ↔ ∃ b, s = needle ++ b.
Proof.
  revert s. induction needle as [|a needle IH]; intros s; simpl.
  - split; eauto.
  - destruct s as [|c s]; [split; [done|by intros [b ?]]|].
    rewrite andb_true_iff, ascii_eqb_eq, IH. split.
    + intros [-> [b ->]]. eauto.
    + intros [b [= -> ->]]. eauto.
Qed.

Lemma indexOf_go_sound needle s pos i :
  indexOf_go needle s pos = Some i →
  ∃ a b, s = a ++ needle ++ b ∧ i = (pos + length a)%nat.
Proof.
  revert pos. induction s as [|c s IH]; intros pos; simpl.
  - destruct (startsWith needle []) eqn:E; [|done].
    intros [= <-]. apply startsWith_spec in E as [b ->].
    exists [], b. simpl. split; [done|lia].
  - destruct (startsWith needle (c :: s)) eqn:E.
    + intros [= <-]. apply startsWith_spec in E as [b ->].
      exists [], b. simpl. split; [done|lia].
    + intros (a & b & -> & ->)%IH. exists (c :: a), b. simpl. split; [done|lia].
Qed.

Lemma indexOf_go_complete needle a b pos :
  ∃ i, indexOf_go needle (a ++ needle ++ b) pos = Some i
       ∧ (pos ≤ i ≤ pos + length a)%nat.
Proof.
  revert pos. induction a as [|c a IH]; intros pos.
  - exists pos. simpl. split; [|lia].
    assert (startsWith needle (needle ++ b) = true) as E
      by (apply startsWith_spec; eauto).
    destruct (needle ++ b); simpl; by rewrite E.
  - simpl. destruct (startsWith needle (c :: a ++ needle ++ b)).
    + exists pos. split; [done|lia].
    + destruct (IH (S pos)) as (i & -> & Hi). exists i. split; [done|lia].
Qed.

(** When [needle] lies in [s] at [k] and the search starts at or before [k],
    [indexOf] finds it, between the two, and the text at the index found is
    [needle]. *)
Lemma indexOf_found s needle a b from :
  s = a ++ needle ++ b → from ≤ Z.of_nat (length a) →
  ∃ i a' b', indexOf s needle from = Z.of_nat i
             ∧ s = a' ++ needle ++ b' ∧ length a' = i
             ∧ Z.max from 0 ≤ Z.of_nat i ≤ Z.of_nat (length a).
Proof.
  intros -> Hfrom. unfold indexOf.
  set (k := Z.to_nat (Z.min (Z.max from 0) (Z.of_nat (length (a ++ needle ++ b))))).
  assert (k ≤ length a)%nat as Hk by (unfold k; rewrite length_app; lia).
  assert (Z.of_nat k = Z.max from 0) as Hk'.
  { unfold k. rewrite length_app. lia. }
  rewrite drop_app_le by lia.
  destruct (indexOf_go_complete needle (drop k a) b k) as (i & Hi & Hrange).
  rewrite Hi. apply indexOf_go_sound in Hi as (a' & b' & Heq & ->).
  exists (k + length a')%nat, (take k a ++ a'), b'.
  split; [done|]. split.
  - rewrite <- (take_drop k a) at 1. rewrite <- !app_assoc. f_equal. done.
  - rewrite length_app, length_take, length_drop in *. split; lia.
Qed.

(** ** The format command *)

Section FormatSqlProperties.
Variable FormatOptionsWithLanguage : Type.
Variable format : text → option FormatOptionsWithLanguage → result text.
Variable getPositionOfLineAndCharacter : text → nat → Z → result Z.
Variable isEnabledIndent : result (option bool).
Variable activeTextEditor : option TextEditor.

Local Abbreviation formatSqlNode' :=
  (formatSqlNode FormatOptionsWithLanguage format getPositionOfLineAndCharacter
     isEnabledIndent activeTextEditor).

(** C10.  A fragment whose content is empty or made of white space only is
    left alone by [formatSqlNode]: the call returns without throwing and
    the list of registered replacements is the one it was given, so
    nothing is replaced in the host document. *)
Theorem formatSqlNode_blank_content_no_edit
    (sqlNode : SqlNodeWithVirtualDoc) (doc : TextDocument)
    (options : option FormatOptionsWithLanguage) (edits : list TextEdit) :
  Forall (λ c, isSpace c = true) (content (node sqlNode)) →
  formatSqlNode' sqlNode doc options edits = (Ok tt, edits).
Proof.
  intros Hblank. unfold formatSqlNode.
  rewrite blankPattern_spaces; [done|].
  apply forallb_forall. intros c Hc.
  by apply (proj1 (Forall_forall _ _) Hblank), list_elem_of_In.
Qed.

Lemma quoteAt_quote sourceText i c :
  charAt sourceText i = Some c → c = DQ ∨ c = SQ →
  quoteAt sourceText i = true.
Proof. intros Hc [->| ->]; unfold quoteAt; rewrite Hc; by vm_compute. Qed.

(** C9.  In a TypeScript or JavaScript document, when the character just
    before the computed start position and the character at the computed
    end position are both quote characters (double or single), the format
    operation registers no replacement for the fragment: the list of edits
    is unchanged and nothing is thrown. *)
Theorem formatSqlNode_skips_quoted_single_line
    (sqlNode : SqlNodeWithVirtualDoc) (doc : TextDocument)
    (options : option FormatOptionsWithLanguage) (edits : list TextEdit)
    (startPosition endPosition : Z) (before after : ascii) :
  languageId doc = "typescript" ∨ languageId doc = "javascript" →
  getPositions getPositionOfLineAndCharacter (node sqlNode) doc
    (getPrefixAndSuffix (content (node sqlNode))).1
    (getPrefixAndSuffix (content (node sqlNode))).2
    = Ok (startPosition, endPosition) →
  charAt (getText doc) (startPosition - 1) = Some before →
  charAt (getText doc) endPosition = Some after →
  (before = DQ ∨ before = SQ) → (after = DQ ∨ after = SQ) →
  formatSqlNode' sqlNode doc options edits = (Ok tt, edits).
Proof.
  intros Hlang Hpos Hb Ha Hqb Hqa. unfold formatSqlNode.
  destruct (rx_test false blankPattern _); [done|].
  destruct (getPrefixAndSuffix _) as [prefix suffix]. simpl in Hpos.
  rewrite bool_decide_eq_false_2; [|by destruct Hlang as [->| ->]].
  unfold mbind, M_bind, lift. rewrite Hpos.
  unfold shouldSkipFormatting.
  rewrite (quoteAt_quote _ _ _ Hb Hqb), (quoteAt_quote _ _ _ Ha Hqa).
  destruct Hlang as [->| ->]; done.
Qed.

End FormatSqlProperties.

Lemma formatSqlNode_blank_content_no_edit_witness :
  formatSqlNode unit formatIdentity positionOfLineAndCharacter (Ok (Some true)) None
    {| node := mkNode (txt "   ") 0 16 0 19 0; vFileName := "a.py@0.sql"; index := 0 |}
    (mkDoc "a.py" "python" (txt "cursor.execute('   ')")) None []
  = (Ok tt, []).
Proof.
  apply formatSqlNode_blank_content_no_edit. simpl. repeat constructor.
Defined.

Lemma formatSqlNode_skips_quoted_single_line_witness :
  formatSqlNode unit formatIdentity positionOfLineAndCharacter (Ok (Some true)) None
    {| node := mkNode (txt "select 1") 0 10 0 18 0; vFileName := "a.ts@0.sql"; index := 0 |}
    (mkDoc "a.ts" "typescript" (txt "db.query('select 1')")) None []
  = (Ok tt, []).
Proof.
  apply (formatSqlNode_skips_quoted_single_line unit formatIdentity
           positionOfLineAndCharacter (Ok (Some true)) None _ _ None [] 10 18 SQ SQ).
  - left. reflexivity.
  - vm_compute. reflexivity.
  - vm_compute. reflexivity.
  - vm_compute. reflexivity.
  - right. reflexivity.
  - right. reflexivity.
Defined.

(** ** Re-indentation *)

Lemma indentedContent_lines (editor : TextEditor) (sql lineText : text)
    (methodLine : nat) :
  lineAt (document editor) methodLine = Ok lineText →
  let indents := takeWhile isSpace lineText in
  let oneLevelDown := take (effectiveTabSize editor) indents in
  ∃ out, indentedContent (Some editor) sql methodLine = Ok out
    ∧ (indents ≠ [] →
       split_newline out
       = map (λ ln, indents ++ oneLevelDown ++ ln) (split_newline sql))
    ∧ (indents = [] → out = sql).
Proof.
  intros Hline indents oneLevelDown. unfold indentedContent.
  rewrite Hline. cbn [mbind result_mbind result_bind].
  destruct lineText as [|c lineText']; [by eexists|].
  rewrite leadingSpacePattern_match. fold indents.
  destruct indents as [|i0 indents'] eqn:Hind; [by eexists|].
  eexists. split; [reflexivity|]. split; [|done]. intros _.
  rewrite slice_0_take.
  assert (LF ∉ i0 :: indents') as HnoLF.
  { rewrite <- Hind. intros Hin.
    assert (LF ∈ c :: lineText') as Hin'.
    { rewrite <- (take_drop_While isSpace (c :: lineText')).
      apply elem_of_app. by left. }
    revert Hin'. apply (split_newline_no_LF (getText (document editor))).
    unfold lineAt in Hline. destruct (_ !! methodLine) eqn:E; simplify_eq.
    by eapply list_elem_of_lookup_2. }
  rewrite split_join_newline.
  - reflexivity.
  - destruct (split_newline_cons_inv sql) as (l & ls & ->). done.
  - apply Forall_forall. intros x [ln [<- Hln]]%list_elem_of_In%in_map_iff.
    rewrite !not_elem_of_app. split; [done|]. split.
    + intros Hin. apply HnoLF. by eapply subseteq_take.
    + apply (split_newline_no_LF sql). by apply list_elem_of_In.
Qed.

Example indentedNode_extracted :
  extractSqlListPy indentedCall None = Ok [node indentedNode].
Proof. vm_compute. reflexivity. Qed.

Section IndentTheorem.
Variable FormatOptionsWithLanguage : Type.
Variable format : text → option FormatOptionsWithLanguage → result text.
Variable getPositionOfLineAndCharacter : text → nat → Z → result Z.

(** C6, amended.  When re-indentation is enabled, the replacement written
    back for a fragment is the formatted text in which every line, the first
    one included, is prefixed with the indentation of the fragment's owning
    line followed by the first [tabSize] characters of that indentation;
    when the owning line starts with no white space the formatted text is
    written back as it is.  This holds wherever [formatSqlNode] reaches the
    replacement: in a Python document, and in another document when the
    positions are found and the fragment is not skipped. *)
Theorem formatSqlNode_indents_every_line
    (sqlNode : SqlNodeWithVirtualDoc) (doc : TextDocument)
    (options : option FormatOptionsWithLanguage) (edits : list TextEdit)
    (editor : TextEditor) (formatted lineText : text) :
  languageId doc = "python"
  ∨ (∃ startPosition endPosition,
       getPositions getPositionOfLineAndCharacter (node sqlNode) doc
         (getPrefixAndSuffix (content (node sqlNode))).1
         (getPrefixAndSuffix (content (node sqlNode))).2
       = Ok (startPosition, endPosition)
       ∧ shouldSkipFormatting doc startPosition endPosition = false) →
  ¬ Forall (λ c, isSpace c = true) (content (node sqlNode)) →
  format (content (node sqlNode)) options = Ok formatted →
  lineAt (document editor) (method_line (node sqlNode)) = Ok lineText →
  0 ≤ character (start (code_range (node sqlNode))) →
  0 ≤ character (end_ (code_range (node sqlNode))) →
  let indents := takeWhile isSpace lineText in
  let oneLevelDown := take (effectiveTabSize editor) indents in
  ∃ out,
    formatSqlNode FormatOptionsWithLanguage format getPositionOfLineAndCharacter
      (Ok (Some true)) (Some editor) sqlNode doc options edits
    = (Ok tt,
       edits ++ [ {| edit_range := newRange (start (code_range (node sqlNode)))
                                            (end_ (code_range (node sqlNode)));
                     newText := (getPrefixAndSuffix (content (node sqlNode))).1
                                ++ out
                                ++ (getPrefixAndSuffix (content (node sqlNode))).2 |} ])
    ∧ (indents ≠ [] →
       split_newline out
       = map (λ ln, indents ++ oneLevelDown ++ ln) (split_newline formatted))
    ∧ (indents = [] → out = formatted).
Proof.
  intros Hreached Hcontent Hformat Hline Hstart Hend indents oneLevelDown.
  destruct (indentedContent_lines editor formatted lineText _ Hline)
    as (out & Hout & Hlines & Hsame).
  exists out. split; [|done].
  assert (∀ prefix suffix,
            formatAndReplace FormatOptionsWithLanguage format (Ok (Some true))
              (Some editor) (node sqlNode) options prefix suffix edits
            = (Ok tt,
               edits ++ [ {| edit_range := newRange (start (code_range (node sqlNode)))
                                                    (end_ (code_range (node sqlNode)));
                             newText := prefix ++ out ++ suffix |} ])) as Hreplace.
  { intros prefix suffix.
    unfold formatAndReplace, mbind, M_bind, lift. rewrite Hformat. simpl.
    rewrite Hout. unfold newPosition.
    destruct (Z.ltb_spec (character (start (code_range (node sqlNode)))) 0); [lia|].
    destruct (Z.ltb_spec (character (end_ (code_range (node sqlNode)))) 0); [lia|].
    unfold replace, modify.
    by destruct (start (code_range (node sqlNode))), (end_ (code_range (node sqlNode))). }
  unfold formatSqlNode.
  destruct (rx_test false blankPattern _) eqn:Hblank;
    [by apply blankPattern_iff in Hblank|].
  destruct (getPrefixAndSuffix _) as [prefix suffix]. simpl in Hreached.
  case_bool_decide as Hpython; [apply Hreplace|].
  destruct Hreached as [?|(startPosition & endPosition & Hpositions & Hskip)]; [done|].
  unfold mbind at 1. unfold M_bind at 1. unfold lift at 1.
  rewrite Hpositions, Hskip. apply Hreplace.
Qed.

End IndentTheorem.

Lemma formatSqlNode_indents_every_line_witness :
  ∃ out,
    formatSqlNode unit formatIdentity positionOfLineAndCharacter
      (Ok (Some true)) (Some indentedEditor) indentedNode indentedDoc None []
    = (Ok tt,
       [] ++ [ {| edit_range := newRange (start (code_range (node indentedNode)))
                                         (end_ (code_range (node indentedNode)));
                  newText := (getPrefixAndSuffix (content (node indentedNode))).1
                             ++ out
                             ++ (getPrefixAndSuffix (content (node indentedNode))).2 |} ])
    ∧ (takeWhile isSpace (txt "    cursor.execute('''select 1") ≠ [] →
       split_newline out
       = map (λ ln, takeWhile isSpace (txt "    cursor.execute('''select 1")
                    ++ take (effectiveTabSize indentedEditor)
                         (takeWhile isSpace (txt "    cursor.execute('''select 1"))
                    ++ ln)
             (split_newline (content (node indentedNode))))
    ∧ (takeWhile isSpace (txt "    cursor.execute('''select 1") = [] →
       out = content (node indentedNode)).
Proof.
  apply (formatSqlNode_indents_every_line unit formatIdentity
           positionOfLineAndCharacter indentedNode indentedDoc None []
           indentedEditor (content (node indentedNode))
           (txt "    cursor.execute('''select 1")).
  - left. reflexivity.
  - intros Hall. apply Forall_cons in Hall as [Hc _]. vm_compute in Hc. discriminate.
  - reflexivity.
  - vm_compute. reflexivity.
  - simpl. lia.
  - simpl. lia.
Defined.

(** C6 as stated fails: with re-indentation enabled, the first line of the
    replacement is prefixed like the others.  The owning line is indented by
    four blanks and the tab size is four; the first line of the replacement
    is the first line of the formatted text behind eight blanks. *)
Lemma first_line_is_prefixed_too :
  ∃ edit,
    formatSqlNode unit formatIdentity positionOfLineAndCharacter
      (Ok (Some true)) (Some indentedEditor) indentedNode indentedDoc None []
    = (Ok tt, [edit])
    ∧ formatIdentity (content (node indentedNode)) None
      = Ok (txt "select 1" ++ [LF] ++ txt "from t")
    ∧ split_newline (newText edit)
      = [ txt "    " ++ txt "    " ++ txt "select 1";
          txt "    " ++ txt "    " ++ txt "from t" ]
    ∧ head (split_newline (newText edit)) ≠ Some (txt "select 1").
Proof.
  eexists. split; [vm_compute; reflexivity|]. split; [reflexivity|].
  split; [vm_compute; reflexivity|]. vm_compute. discriminate.
Qed.

(** ** The strategies of [extractSqlString] *)

Lemma dropWhile_nil_iff p s : dropWhile p s = [] ↔ Forall (λ c, p c = true) s.
Proof.
  induction s as [|c s IH]; simpl; [by split|].
  destruct (p c) eqn:Hc.
  - rewrite IH. split; [by constructor|by intros [? ?]%Forall_cons].
  - split; [done|]. intros [? ?]%Forall_cons. congruence.
Qed.

Lemma trim_nil_iff s : trim s = [] ↔ Forall (λ c, isSpace c = true) s.
Proof.
  unfold trim, trimEnd, trimStart. split.
  - intros Hnil. apply dropWhile_nil_iff.
    assert (dropWhile isSpace (rev (dropWhile isSpace s)) = []) as Hrev.
    { apply (f_equal (@rev ascii)) in Hnil. by rewrite rev_involutive in Hnil. }
    apply dropWhile_nil_iff in Hrev.
    destruct (dropWhile isSpace s) as [|c s'] eqn:Hs; [done|]. exfalso.
    assert (isSpace c = false) as Hc.
    { clear -Hs. induction s as [|a s IH]; simpl in Hs; [done|].
      destruct (isSpace a) eqn:Ha; [auto|congruence]. }
    apply (proj1 (Forall_forall _ _)) with (x := c) in Hrev; [congruence|].
    apply elem_of_rev. left.
  - intros Hall. apply dropWhile_nil_iff in Hall. by rewrite Hall.
Qed.

Lemma tryPattern_None call p :
  tryPattern call p = None →
  match rx_match true p call with
  | None => True
  | Some m => blankCapture m
  end.
Proof.
  unfold tryPattern, blankCapture, capturedContent.
  destruct (rx_match true p call) as [m|]; [|done].
  destruct (js_or _ _) as [sql|]; [|done].
  intros Hnone sql' [= <-]. destruct sql as [|c sql]; [constructor|].
  cbn [truthy andb] in Hnone.
  destruct (trim (c :: sql)) eqn:Htrim; [by apply trim_nil_iff|done].
Qed.

Lemma precisePatterns_Some call ps r :
  precisePatterns call ps = Some r → ∃ p, p ∈ ps ∧ tryPattern call p = Some r.
Proof.
  induction ps as [|p ps IH]; simpl; [done|].
  destruct (tryPattern call p) as [r'|] eqn:Hp.
  - intros [= <-]. exists p. split; [left|done].
  - intros (p' & Hin & Hp')%IH. exists p'. split; [by right|done].
Qed.

Lemma precisePatterns_None call ps :
  precisePatterns call ps = None → ∀ p, p ∈ ps → tryPattern call p = None.
Proof.
  induction ps as [|p ps IH]; simpl; intros Hnone q Hq.
  - by apply not_elem_of_nil in Hq.
  - destruct (tryPattern call p) eqn:Hp; [done|].
    apply elem_of_cons in Hq as [->|Hq]; auto.
Qed.

Lemma hasSqlKeyword_holds stringMatch :
  hasSqlKeyword (slice stringMatch 1 (-1)) = true ↔ holdsKeyword stringMatch.
Proof.
  unfold hasSqlKeyword, holdsKeyword. rewrite existsb_exists.
  by setoid_rewrite list_elem_of_In.
Qed.

Lemma keywordLoop_Some call stringMatches r :
  keywordLoop call stringMatches = Some r →
  ∃ before stringMatch after,
    stringMatches = before ++ stringMatch :: after
    ∧ Forall (λ q, ¬ holdsKeyword q) before
    ∧ holdsKeyword stringMatch
    ∧ str_content r = trim (slice stringMatch 1 (-1))
    ∧ str_start r = indexOf call stringMatch 0 + 1
    ∧ str_end r = str_start r + Z.of_nat (length (slice stringMatch 1 (-1))).
Proof.
  induction stringMatches as [|q qs IH]; simpl; [done|].
  destruct (hasSqlKeyword (slice q 1 (-1))) eqn:Hq.
  - intros [= <-]. exists [], q, qs. simpl.
    by rewrite <- hasSqlKeyword_holds.
  - intros (before & m & after & -> & Hbefore & Hm & Hr)%IH.
    exists (q :: before), m, after. split; [done|]. split; [|done].
    constructor; [|done]. rewrite <- hasSqlKeyword_holds. congruence.
Qed.

Lemma keywordLoop_None call stringMatches :
  keywordLoop call stringMatches = None →
  Forall (λ q, ¬ holdsKeyword q) stringMatches.
Proof.
  induction stringMatches as [|q qs IH]; simpl; [constructor|].
  destruct (hasSqlKeyword (slice q 1 (-1))) eqn:Hq; [done|].
  intros Hnone. constructor; [|auto].
  rewrite <- hasSqlKeyword_holds. congruence.
Qed.

(** C7 as stated fails: the fallback is also used after a precise pattern
    has matched.  On the call text below the single-line pattern matches the
    empty literal, no precise pattern gives a result, and the fallback
    returns the second literal. *)
Lemma fallback_used_after_a_precise_match :
  (∃ m, rx_match true (singleLinePattern (rlit (txt "execute"))) emptyFirstArgument
        = Some m
        ∧ m_text m = txt "execute(''" ∧ group m 1 = Some [])
  ∧ precisePatterns emptyFirstArgument (patterns (rlit (txt "execute"))) = None
  ∧ keywordFallback emptyFirstArgument
    = Some {| str_content := txt "SELECT 1"; str_start := 13; str_end := 21 |}
  ∧ extractSqlString emptyFirstArgument executeRule
    = Ok (keywordFallback emptyFirstArgument).
Proof.
  split; [eexists; split; [vm_compute; reflexivity|split; reflexivity]|].
  split; [vm_compute; reflexivity|]. split; vm_compute; reflexivity.
Qed.

(** ** Unterminated calls *)

Lemma RegExp_name_plain config :
  plainName config → RegExp_name (functionName config) = Ok (rlit (functionName config)).
Proof. unfold plainName, RegExp_name. by intros ->. Qed.

Lemma extractSqlString_plain call config :
  plainName config → ∃ r, extractSqlString call config = Ok r.
Proof.
  intros Hplain. unfold extractSqlString. rewrite RegExp_name_plain by done.
  cbn [mbind result_mbind result_bind]. destruct (precisePatterns _ _); eauto.
Qed.

Lemma extractSqlFromLine_plain lines i config :
  plainName config → ∃ r, extractSqlFromLine lines i config = Ok r.
Proof.
  intros Hplain. unfold extractSqlFromLine.
  destruct (extractSqlString_plain
              (fullLine (collectCall (drop i lines) [] [0%nat] scanStart))
              config Hplain) as [[s|] ->]; simpl; eauto.
Qed.

Lemma extractLineConfigs_plain lines i ln configs :
  Forall plainName configs → ∃ nodes, extractLineConfigs lines i ln configs = Ok nodes.
Proof.
  induction configs as [|config configs IH]; simpl; [eauto|].
  intros [Hplain Hrest]%Forall_cons. rewrite RegExp_name_plain by done.
  cbn [mbind result_mbind result_bind].
  destruct (IH Hrest) as [more ->].
  destruct (rx_test false _ ln); simpl; [|eauto].
  destruct (extractSqlFromLine_plain lines i config Hplain) as [r ->]. simpl. eauto.
Qed.

Lemma extractLines_plain lines indices configs :
  Forall plainName configs → ∃ nodes, extractLines lines indices configs = Ok nodes.
Proof.
  intros Hplain. induction indices as [|i indices [more IH]]; simpl; [eauto|].
  destruct (extractLineConfigs_plain lines i
              (trim (default [] (lines !! i))) configs Hplain) as [pushed ->].
  rewrite IH. simpl. eauto.
Qed.

Lemma defaultConfigs_plain : Forall plainName defaultConfigs.
Proof. repeat constructor. Qed.

Lemma collectCall_unclosed rest acc offsets st :
  closed (collectCall rest acc offsets st) = false →
  fullLine (collectCall rest acc offsets st) = acc ++ join_newline rest.
Proof.
  revert acc offsets st. induction rest as [|ln rest IH]; intros acc offsets st.
  - simpl. by rewrite app_nil_r.
  - cbn [collectCall].
    destruct (foundFunction (scanLine ln st) && (parenthesesCount (scanLine ln st) =? 0));
      [done|].
    destruct rest as [|ln' rest']; [done|].
    intros Hclosed. rewrite IH by done.
    change (join_newline (ln :: ln' :: rest'))
      with (ln ++ LF :: join_newline (ln' :: rest')).
    by rewrite <- !app_assoc.
Qed.

(** C4, amended.  Extraction throws nothing on any host text when the rule
    names are free of pattern syntax, the default rules included.  A call
    still open at the end of the input is not discarded: the text collected
    for it is the whole text from its line on, and its fragment is what
    [extractSqlString] finds there, so there is a fragment exactly when that
    text holds a literal the extractor accepts.  The line of the negative
    example, a call cut inside its literal, yields no fragment. *)
Theorem unterminated_call_extracts_from_rest_of_input :
  (∀ (sourceTxt : text) (configs : option CustomRawSqlQueryPy),
     Forall plainName (default defaultConfigs configs) →
     ∃ nodes, extractSqlFromPython sourceTxt configs = Ok nodes)
  ∧ (∀ (lines : list text) (startLineIndex : nat) (config : CustomRawSqlQueryPyItem),
       closed (collectCall (drop startLineIndex lines) [] [0%nat] scanStart) = false →
       fullLine (collectCall (drop startLineIndex lines) [] [0%nat] scanStart)
       = join_newline (drop startLineIndex lines)
       ∧ (∀ s, extractSqlString (join_newline (drop startLineIndex lines)) config
               = Ok (Some s) →
               ∃ found, extractSqlFromLine lines startLineIndex config = Ok (Some found)
                        ∧ content found = str_content s
                        ∧ method_line found = startLineIndex)
       ∧ (extractSqlString (join_newline (drop startLineIndex lines)) config = Ok None →
          extractSqlFromLine lines startLineIndex config = Ok None))
  ∧ extractSqlFromPython unterminatedLiteral None = Ok [].
Proof.
  split; [|split].
  - intros sourceTxt configs Hplain. by apply extractLines_plain.
  - intros lines i config Hopen.
    pose proof (collectCall_unclosed _ _ _ _ Hopen) as Hfull. simpl in Hfull.
    split; [done|]. unfold extractSqlFromLine. rewrite Hfull. split.
    + intros s ->. simpl. eauto.
    + by intros ->.
  - vm_compute. reflexivity.
Qed.

Lemma unterminated_call_extracts_from_rest_of_input_witness :
  (∃ nodes, extractSqlFromPython unterminatedCall None = Ok nodes)
  ∧ ∃ found, extractSqlFromLine [unterminatedCall] 0 executeRule = Ok (Some found)
             ∧ content found = txt "SELECT 1"
             ∧ method_line found = 0%nat.
Proof.
  destruct unterminated_call_extracts_from_rest_of_input as (Hok & Hopen & _).
  split.
  - apply Hok. repeat constructor.
  - destruct (Hopen [unterminatedCall] 0%nat executeRule) as (_ & Hsome & _).
    + vm_compute. reflexivity.
    + apply (Hsome {| str_content := txt "SELECT 1"; str_start := 16; str_end := 24 |}).
      vm_compute. reflexivity.
Defined.

(** C4 as stated fails: a call that is still open at the end of the input
    yields a fragment when its literal is complete.  The scanner reaches the
    end of the text with one parenthesis open, and the literal is
    extracted. *)
Lemma unterminated_call_yields_fragment :
  closed (collectCall [unterminatedCall] [] [0%nat] scanStart) = false
  ∧ parenthesesCount (scanLine unterminatedCall scanStart) = 1
  ∧ extractSqlFromPython unterminatedCall None
    = Ok [mkNode (txt "SELECT 1") 0 16 0 24 0].
Proof. repeat split; vm_compute; reflexivity. Qed.

(** ** Exceptions stop at the entry points *)

Section RefreshProperties.
Context {Svc : Type} `{LanguageService Svc}.

(** C5.  The entry points never let an exception through.
    [extractSqlListPy] always returns a list, and it is the empty list when
    [extractSqlFromPython] throws.  [refresh] always returns a list, whatever
    the language service, the setting and the state are, and it is the empty
    list when a step of its body (the extraction or the update of the virtual
    documents) throws. *)
Theorem entry_points_never_throw :
  (∀ (sourceTxt : text) (configs : option CustomRawSqlQueryPy),
     ∃ nodes, extractSqlListPy sourceTxt configs = Ok nodes
              ∧ (∀ e, extractSqlFromPython sourceTxt configs = Throw e → nodes = [])
              ∧ (∀ found, extractSqlFromPython sourceTxt configs = Ok found
                          → nodes = found))
  ∧ (∀ (getWorkspaceConfig : result (option CustomRawSqlQuery))
       (doc : TextDocument) (st : ExtState Svc),
     ∃ nodes st', refresh getWorkspaceConfig doc st = (Ok nodes, st')
                  ∧ (∀ e st'', refreshBody getWorkspaceConfig doc st = (Throw e, st'')
                              → nodes = [])
                  ∧ (∀ found st'', refreshBody getWorkspaceConfig doc st = (Ok found, st'')
                                  → nodes = found ∧ st' = st'')).
Proof.
  split.
  - intros sourceTxt configs. unfold extractSqlListPy.
    destruct (extractSqlFromPython sourceTxt configs) as [found|e];
      eexists; (split; [reflexivity|]); split; congruence.
  - intros cfg doc st. unfold refresh, try_catch.
    destruct (refreshBody cfg doc st) as [[found|e] st1].
    + exists found, st1. repeat split; congruence.
    + eexists [], _. split; [reflexivity|]. split; [done|congruence].
Qed.

End RefreshProperties.

Lemma entry_points_never_throw_witness :
  extractSqlFromPython usersCall (Some [brokenRule])
  = Throw "SyntaxError: Invalid regular expression"
  ∧ extractSqlListPy usersCall (Some [brokenRule]) = Ok []
  ∧ @refreshBody unit failingService (Ok None) usersDoc
      {| virtualContents := ∅; services := ∅; errorMessages := [] |}
    = (Throw "Error: write failed",
       {| virtualContents := ∅; services := {[ Some "w" := tt ]};
          errorMessages := [invalidSettingsMessage] |})
  ∧ ∃ st', @refresh unit failingService (Ok None) usersDoc
             {| virtualContents := ∅; services := ∅; errorMessages := [] |}
           = (Ok [], st').
Proof.
  assert (extractSqlFromPython usersCall (Some [brokenRule])
          = Throw "SyntaxError: Invalid regular expression") as Hthrow
    by (vm_compute; reflexivity).
  assert (@refreshBody unit failingService (Ok None) usersDoc
            {| virtualContents := ∅; services := ∅; errorMessages := [] |}
          = (Throw "Error: write failed",
             {| virtualContents := ∅; services := {[ Some "w" := tt ]};
                errorMessages := [invalidSettingsMessage] |})) as Hbody
    by (vm_compute; reflexivity).
  destruct (@entry_points_never_throw unit failingService) as [Hpy Hrefresh].
  split; [done|]. split; [|split; [done|]].
  - destruct (Hpy usersCall (Some [brokenRule])) as (nodes & -> & Hnil & _).
    f_equal. by eapply Hnil.
  - destruct (Hrefresh (Ok None) usersDoc
                {| virtualContents := ∅; services := ∅; errorMessages := [] |})
      as (nodes & st' & Hrun & Hnil & _).
    exists st'. rewrite Hrun. do 2 f_equal. by eapply Hnil.
Defined.

(** ** Offsets and positions of a fragment are not negative *)

Lemma js_or_inv a b s : js_or a b = Some s → a = Some s ∨ b = Some s.
Proof. destruct a as [[|c a]|]; simpl; eauto. Qed.

Lemma indexOf_ge s needle from : -1 ≤ indexOf s needle from.
Proof. unfold indexOf. destruct (indexOf_go _ _ _); lia. Qed.

(** What a precise pattern returns lies in the call text: the captured text
    [raw] is found at [str_start], and the content is [raw] trimmed. *)
Lemma tryPattern_spec call p r :
  tryPattern call p = Some r →
  ∃ a raw b, call = a ++ raw ++ b
             ∧ str_start r = Z.of_nat (length a)
             ∧ str_end r = Z.of_nat (length a) + Z.of_nat (length raw)
             ∧ str_content r = trim raw.
Proof.
  unfold tryPattern. destruct (rx_match true p call) as [m|] eqn:Hm; [|done].
  destruct (js_or _ _) as [sql|] eqn:Hsql; [|done].
  destruct (truthy (Some sql) && truthy (Some (trim sql))); [|done].
  intros [= <-]. simpl.
  apply rx_search_spec in Hm as (skipped & rest & Hcall & _ & Hgroups).
  assert (occursIn sql (m_text m)) as (x & y & Hsqlin).
  { apply js_or_inv in Hsql as [Hsql|Hsql]; [|by eapply Hgroups].
    apply js_or_inv in Hsql as [Hsql|Hsql]; by eapply Hgroups. }
  destruct (indexOf_found call (m_text m) skipped rest 0 Hcall)
    as (i & a' & b' & Hi & Hcall' & Hlen & Hrange); [lia|].
  rewrite Hi.
  destruct (indexOf_found call sql (a' ++ x) (y ++ b') (Z.of_nat i))
    as (j & a'' & b'' & Hj & Hcall'' & Hlen' & Hrange').
  { rewrite Hcall', Hsqlin. by rewrite <- !app_assoc. }
  { rewrite length_app. lia. }
  rewrite Hj. exists a'', sql, b''. by subst j.
Qed.

Lemma extractSqlString_nonneg call config r :
  extractSqlString call config = Ok (Some r) →
  0 ≤ str_start r ∧ 0 ≤ str_end r.
Proof.
  unfold extractSqlString. destruct (RegExp_name _) as [name|]; [|done].
  cbn [mbind result_mbind result_bind].
  destruct (precisePatterns call (patterns name)) as [r'|] eqn:Hprecise.
  - intros [= ->].
    apply precisePatterns_Some in Hprecise as (p & _ & Hp).
    apply tryPattern_spec in Hp as (a & raw & b & _ & -> & -> & _). lia.
  - intros [= Hfallback]. unfold keywordFallback in Hfallback.
    destruct (rx_match_all false quotedPattern call) as [ms|]; [|done].
    clear Hprecise. induction ms as [|q ms IH]; simpl in Hfallback; [done|].
    destruct (hasSqlKeyword _); [|auto].
    injection Hfallback as <-. simpl.
    pose proof (indexOf_ge call q 0). lia.
Qed.

Lemma collectCall_offsets rest acc offsets st :
  ∃ more, lineOffsets (collectCall rest acc offsets st) = offsets ++ more.
Proof.
  revert acc offsets st. induction rest as [|ln rest IH]; intros acc offsets st.
  - exists []. simpl. by rewrite app_nil_r.
  - cbn [collectCall]. destruct (_ && _); [exists []; simpl; by rewrite app_nil_r|].
    destruct rest as [|ln' rest']; [exists []; simpl; by rewrite app_nil_r|].
    destruct (IH ((acc ++ ln) ++ [LF])
                 (offsets ++ [length ((acc ++ ln) ++ [LF])]) (scanLine ln st))
      as [more ->].
    eexists. by rewrite <- app_assoc.
Qed.

Lemma convertPositionToLineChar_nonneg charOffset offsets base :
  0 ≤ charOffset → offsets !! 0%nat = Some 0%nat →
  0 ≤ character (convertPositionToLineChar charOffset offsets base).
Proof.
  intros Hoff Hhead. unfold convertPositionToLineChar. cbn [character].
  destruct (last offsets) as [lastOffset|] eqn:Hlast.
  - destruct (Z.leb_spec (Z.of_nat lastOffset) charOffset) as [Hle|Hlt].
    + rewrite last_lookup in Hlast.
      replace (length offsets - 1)%nat with (pred (length offsets)) by lia.
      rewrite Hlast. simpl. lia.
    + destruct (find _ _) as [i|] eqn:Hfind; simpl.
      * apply find_some in Hfind as [_ Hin].
        destruct (offsets !! i) as [cur|]; [|done]. simpl.
        destruct (offsets !! S i); [|done].
        apply andb_true_iff in Hin as [Hcur _]. apply Z.leb_le in Hcur. lia.
      * rewrite Hhead. simpl. lia.
  - apply last_None in Hlast. by subst.
Qed.

Lemma extractSqlFromLine_valid lines i config found :
  extractSqlFromLine lines i config = Ok (Some found) → validRange found.
Proof.
  unfold extractSqlFromLine.
  destruct (extractSqlString _ config) as [[s|]|] eqn:Hs; simpl; [|done..].
  intros [= <-]. apply extractSqlString_nonneg in Hs as [Hstart Hend].
  destruct (collectCall_offsets (drop i lines) [] [0%nat] scanStart) as [more Hoffs].
  unfold validRange. cbn [code_range start end_].
  split; apply convertPositionToLineChar_nonneg; try done;
    by rewrite Hoffs.

Qed.

Lemma extractLineConfigs_valid lines i ln configs nodes :
  extractLineConfigs lines i ln configs = Ok nodes → Forall validRange nodes.
Proof.
  revert nodes. induction configs as [|config configs IH]; simpl; intros nodes.
  - intros [= <-]. constructor.
  - destruct (RegExp_name _) as [name|]; [|done].
    cbn [mbind result_mbind result_bind].
    destruct (rx_test false _ ln).
    + destruct (extractSqlFromLine lines i config) as [r|] eqn:Hr; [|done]. simpl.
      destruct (extractLineConfigs lines i ln configs) as [more|]; [|done].
      simpl. intros [= <-]. apply Forall_app. split; [|auto].
      destruct r as [found|]; simpl; [|constructor].
      constructor; [|constructor]. by eapply extractSqlFromLine_valid.
    + simpl. destruct (extractLineConfigs lines i ln configs) as [more|]; [|done].
      simpl. intros [= <-]. auto.
Qed.

Lemma extractLines_valid lines indices configs nodes :
  extractLines lines indices configs = Ok nodes → Forall validRange nodes.
Proof.
  revert nodes. induction indices as [|i indices IH]; simpl; intros nodes.
  - intros [= <-]. constructor.
  - destruct (extractLineConfigs lines i _ configs) as [pushed|] eqn:Hp; [|done].
    simpl. destruct (extractLines lines indices configs) as [more|]; [|done].
    simpl. intros [= <-]. apply Forall_app. split; [|auto].
    by eapply extractLineConfigs_valid.
Qed.

Lemma extractSqlListPy_valid sourceTxt configs nodes :
  extractSqlListPy sourceTxt configs = Ok nodes → Forall validRange nodes.
Proof.
  unfold extractSqlListPy.
  destruct (extractSqlFromPython sourceTxt configs) as [found|] eqn:Hfound.
  - intros [= <-]. by eapply extractLines_valid.
  - intros [= <-]. constructor.
Qed.

(** ** The virtual documents of a file across refreshes *)

Lemma txt_app s1 s2 : txt (s1 +:+ s2) = txt s1 ++ txt s2.
Proof. unfold txt. induction s1 as [|c s1 IH]; simpl; [done|]. by rewrite IH. Qed.

Lemma txt_inj s1 s2 : txt s1 = txt s2 → s1 = s2.
Proof.
  unfold txt. intros Heq.
  rewrite <- (string_of_list_ascii_of_string s1), <- (string_of_list_ascii_of_string s2).
  by rewrite Heq.
Qed.

Global Instance virtualFileName_inj file : Inj (=) (=) (virtualFileName file).
Proof.
  intros i j Heq. unfold virtualFileName in Heq.
  apply (f_equal txt) in Heq. rewrite !txt_app in Heq.
  apply app_inv_head, app_inv_head, app_inv_tail in Heq.
  by apply txt_inj, (inj pretty) in Heq.
Qed.

Lemma setService_id {Svc} (root : option string) (s : Svc) (st : ExtState Svc) :
  services st !! root = Some s → setService root s st = st.
Proof. intros Hs. destruct st. unfold setService. simpl in *. f_equal. by apply insert_id. Qed.

Lemma setService_twice {Svc} (root : option string) (s s' : Svc) (st : ExtState Svc) :
  setService root s' (setService root s st) = setService root s' st.
Proof. unfold setService. simpl. f_equal. apply insert_insert_eq. Qed.

Lemma setService_lookup {Svc} (root : option string) (s : Svc) (st : ExtState Svc) :
  services (setService root s st) !! root = Some s.
Proof. simpl. apply lookup_insert_eq. Qed.

Lemma writeVirtualFiles_snapshot root file rawContent sqlNodes idx
    (st : ExtState SnapshotStore) store :
  services st !! root = Some store → Forall validRange sqlNodes →
  writeVirtualFiles root file rawContent sqlNodes idx st
  = (Ok (map (virtualFileName file) (seq idx (length sqlNodes))),
     setService root (writeAll file rawContent sqlNodes idx store) st).
Proof.
  revert idx st store. induction sqlNodes as [|found rest IH]; intros idx st store Hs Hvalid.
  - simpl. by rewrite setService_id.
  - apply Forall_cons in Hvalid as [[Hstart _] Hvalid].
    cbn [writeVirtualFiles]. unfold mbind, M_bind, lift, newPosition.
    destruct (Z.ltb_spec (character (start (code_range found))) 0); [lia|].
    unfold onService at 1. rewrite Hs. cbn [writeSnapshot snapshotStore].
    erewrite IH; [|apply setService_lookup|done].
    rewrite setService_twice. unfold mret, M_ret. simpl.
    unfold fragmentText. by destruct (start (code_range found)).
Qed.

Lemma deleteVirtualFiles_snapshot root keys (st : ExtState SnapshotStore) store :
  services st !! root = Some store →
  deleteVirtualFiles root keys st
  = (Ok tt, setService root (deleteAll keys store) st).
Proof.
  revert st store. induction keys as [|k keys IH]; intros st store Hs.
  - simpl. by rewrite setService_id.
  - cbn [deleteVirtualFiles]. unfold mbind, M_bind.
    unfold onService at 1. rewrite Hs. cbn [deleteSnapshot snapshotStore].
    erewrite IH; [|apply setService_lookup]. by rewrite setService_twice.
Qed.

Lemma withVirtualDoc_ok file sqlNodes idx n :
  (idx + length sqlNodes ≤ n)%nat →
  ∃ r, withVirtualDoc sqlNodes (virtualFileNames file n) idx = Ok r
       ∧ map node r = sqlNodes
       ∧ map vFileName r = map (virtualFileName file) (seq idx (length sqlNodes)).
Proof.
  revert idx. induction sqlNodes as [|block rest IH]; intros idx Hlen; simpl in *.
  - by exists [].
  - unfold virtualFileNames at 1. rewrite list_lookup_fmap, lookup_seq_lt by lia.
    simpl. destruct (IH (S idx)) as (r & -> & Hnodes & Hnames); [lia|].
    simpl. eexists. split; [done|]. simpl. by rewrite Hnodes, Hnames.
Qed.

(** What [refresh] does to the state for a Python document, on the snapshot
    store, when the service of the folder exists or can be created: the
    fragments are written under the keys of their indices, the keys of the
    previous list that are not among them are deleted, and the list of the
    file is replaced. *)
Lemma getOrCreateLanguageService_snapshot (root : option string)
    (st : ExtState SnapshotStore) :
  serviceAvailable root st →
  ∃ st1, getOrCreateLanguageService root st = (Ok tt, st1)
         ∧ services st1 !! root = Some (default ∅ (services st !! root))
         ∧ virtualContents st1 = virtualContents st
         ∧ errorMessages st1 = errorMessages st
         ∧ services st1 = <[root := default ∅ (services st !! root)]> (services st)
         ∧ ∀ s, setService root s st1 = setService root s st.
Proof.
  intros Havail. unfold getOrCreateLanguageService.
  destruct (services st !! root) as [s|] eqn:Hs.
  - exists st. rewrite Hs. simpl. split; [done|]. split; [done|].
    split; [done|]. split; [done|]. split; [by rewrite insert_id|].
    intros s'. done.
  - destruct Havail as [[folder ->]|[s Hsome]]; [|congruence].
    cbn [createLanguageService snapshotStore]. eexists. split; [done|].
    split; [apply setService_lookup|]. split; [done|]. split; [done|].
    split; [done|]. intros s. apply setService_twice.
Qed.

Lemma getWorkspaceConfig_Ok {Svc A} (config : option A) (st : ExtState Svc) :
  getWorkspaceConfig (Ok config) st
  = (Ok config,
     {| virtualContents := virtualContents st; services := services st;
        errorMessages := errorMessages st
                         ++ match config with
                            | Some _ => []
                            | None => [invalidSettingsMessage]
                            end |}).
Proof. destruct config, st; simpl; [|done]. unfold mret, M_ret. by rewrite app_nil_r. Qed.

Lemma refresh_snapshot (config : option CustomRawSqlQuery) (doc : TextDocument)
    (st : ExtState SnapshotStore) (sqlNodes : list SqlNode) :
  languageId doc = "python" →
  serviceAvailable (workspaceFolder doc) st →
  extractSqlListPy (getText doc) (configFor doc config) = Ok sqlNodes →
  let names := virtualFileNames (fileName doc) (length sqlNodes) in
  let lastNames := default [] (virtualContents st !! fileName doc) in
  let store := default ∅ (services st !! workspaceFolder doc) in
  ∃ r, refresh (Ok config) doc st
       = (Ok r,
          {| virtualContents := <[fileName doc := names]> (virtualContents st);
             services :=
               <[workspaceFolder doc :=
                   deleteAll (unusedVirtualFiles lastNames names)
                     (writeAll (fileName doc) (getText doc) sqlNodes 0 store)]>
                 (services st);
             errorMessages := errorMessages st ++ settingMessages config |})
       ∧ map node r = sqlNodes
       ∧ map vFileName r = names
       ∧ withVirtualDoc sqlNodes names 0 = Ok r.
Proof.
  intros Hlang Havail Hnodes names lastNames store.
  pose proof (extractSqlListPy_valid _ _ _ Hnodes) as Hvalid.
  destruct (withVirtualDoc_ok (fileName doc) sqlNodes 0 (length sqlNodes))
    as (r & Hr & Hmap & Hkeys); [lia|].
  exists r. split; [|done].
  unfold refresh, try_catch, refreshBody.
  unfold mbind at 1. unfold M_bind at 1.
  destruct (getOrCreateLanguageService_snapshot _ st Havail)
    as (st1 & -> & Hstore & Hvc & Herr & _ & Hset).
  unfold mbind at 1. unfold M_bind at 1. rewrite getWorkspaceConfig_Ok.
  unfold mbind, M_bind, lift, gets, modify.
  rewrite bool_decide_eq_true_2 by done. rewrite Hnodes.
  erewrite writeVirtualFiles_snapshot by done.
  erewrite deleteVirtualFiles_snapshot by apply setService_lookup.
  rewrite setService_twice. fold names in Hr.
  change (map (virtualFileName (fileName doc)) (seq 0 (length sqlNodes))) with names.
  rewrite Hr. unfold setVirtualContents, setService. simpl.
  rewrite Hvc, Herr. unfold settingMessages.
  pose proof (Hset (deleteAll (unusedVirtualFiles lastNames names)
                      (writeAll (fileName doc) (getText doc) sqlNodes 0 store))) as Hs.
  unfold setService in Hs. apply (f_equal services) in Hs. simpl in Hs.
  unfold lastNames, store in *. by rewrite Hs.
Qed.

Lemma unusedVirtualFiles_same names : unusedVirtualFiles names names = [].
Proof.
  unfold unusedVirtualFiles.
  assert (∀ l, l ⊆ names → filter (λ vFile, vFile ∉ names) l = []) as Hall.
  { induction l as [|k l IH]; intros Hsub; [done|].
    rewrite filter_cons_False; [apply IH; set_solver|].
    intros Hk. apply Hk, Hsub. left. }
  by apply Hall.
Qed.

Lemma writeAll_lookup_other file rawContent sqlNodes idx store k :
  (∀ j, (idx ≤ j)%nat → k ≠ virtualFileName file j) →
  writeAll file rawContent sqlNodes idx store !! k = store !! k.
Proof.
  revert idx store. induction sqlNodes as [|found rest IH]; intros idx store Hk;
    simpl; [done|].
  rewrite IH by (intros j Hj; apply Hk; lia).
  apply lookup_insert_ne. intros Heq. by apply (Hk idx).
Qed.

Lemma writeAll_lookup file rawContent sqlNodes idx store i found :
  sqlNodes !! i = Some found →
  writeAll file rawContent sqlNodes idx store !! virtualFileName file (idx + i)
  = Some (fragmentText rawContent found).
Proof.
  revert idx store i. induction sqlNodes as [|first rest IH]; intros idx store i Hi;
    [done|].
  destruct i as [|i]; simpl in *.
  - injection Hi as ->. rewrite Nat.add_0_r.
    rewrite writeAll_lookup_other; [apply lookup_insert_eq|].
    intros j Hj Heq. apply (inj _) in Heq. lia.
  - replace (idx + S i)%nat with (S idx + i)%nat by lia. by apply IH.
Qed.

Lemma writeAll_keeps file rawContent sqlNodes idx (store : SnapshotStore) k :
  is_Some (store !! k) →
  is_Some (writeAll file rawContent sqlNodes idx store !! k).
Proof.
  revert idx store. induction sqlNodes as [|found rest IH]; intros idx store Hk;
    simpl; [done|].
  apply IH. rewrite lookup_insert_is_Some. destruct (decide (virtualFileName file idx = k)); auto.
Qed.

(** ** Count and order of the fragments *)


Lemma extractLineConfigs_rulesOnLine lines i ln configs :
  Forall plainName configs →
  extractLineConfigs lines i (trim ln) configs
  = extractLineConfigs lines i (trim ln) (rulesOnLine configs ln).
Proof.
  induction configs as [|config configs IH]; [done|].
  intros [Hplain Hrest]%Forall_cons. cbn [rulesOnLine List.filter].
  fold (rulesOnLine configs ln). unfold callToken at 1.
  cbn [extractLineConfigs]. rewrite RegExp_name_plain by done.
  cbn [mbind result_mbind result_bind].
  destruct (rx_test false _ (trim ln)) eqn:Htest.
  - cbn [extractLineConfigs]. rewrite RegExp_name_plain by done.
    cbn [mbind result_mbind result_bind]. rewrite Htest, IH by done. done.
  - rewrite IH by done. simpl.
    by destruct (extractLineConfigs lines i (trim ln) (rulesOnLine configs ln)).
Qed.

Lemma rulesOnLine_elem configs ln config :
  config ∈ rulesOnLine configs ln → config ∈ configs ∧ callToken ln config = true.
Proof.
  unfold rulesOnLine. rewrite !list_elem_of_In, filter_In. done.
Qed.

Lemma convertPositionToLineChar_line charOffset offsets base :
  (base ≤ line (convertPositionToLineChar charOffset offsets base)
   ≤ base + (length offsets - 1))%nat.
Proof.
  unfold convertPositionToLineChar. cbn [line].
  match goal with
  | |- context [find ?f ?l] =>
      pose proof (find_some f l) as Hsome; destruct (find f l) as [i|]
  end; simpl.
  - destruct (Hsome i eq_refl) as [Hi%in_seq _].
    destruct (last offsets); [destruct (_ <=? _)|]; lia.
  - destruct (last offsets); [destruct (_ <=? _)|]; lia.
Qed.

Lemma extractSqlFromLine_startsWithin lines i config found :
  extractSqlFromLine lines i config = Ok (Some found) → startsWithin lines i found.
Proof.
  unfold extractSqlFromLine, startsWithin, callEnd.
  destruct (extractSqlString _ config) as [[s|]|]; simpl; [|done..].
  intros [= <-]. cbn [method_line code_range start]. split; [done|].
  apply convertPositionToLineChar_line.
Qed.

Example twoCallsTwoLines_fragments :
  extractSqlFromPython twoCallsTwoLines None
  = Ok [mkNode (txt "SELECT 1") 0 11 0 19 0; mkNode (txt "SELECT 2") 1 9 1 17 1]
  ∧ callLines (split_newline twoCallsTwoLines) defaultConfigs = [0%nat; 1%nat].
Proof. split; vm_compute; reflexivity. Qed.

(** ** Coordinates in the host and in the virtual document *)

(** C1 at a failing input.  The literal of the call is a triple-quoted block
    that starts with a line feed.  Extraction returns one fragment whose span
    covers the literal as written, offsets 18 to 28, and whose content is the
    literal trimmed.  [refresh] stores the blanked prefix followed by that
    content.  Offset 19, the first character of the query, is on line 1,
    column 0 of the host document and on line 0, column 19 of the virtual
    document. *)
Theorem virtual_document_misaligned_after_trim :
  ∃ found store,
    extractSqlListPy tripleQuotedCall None = Ok [found]
    ∧ content found = txt "SELECT 1"
    ∧ offsetAt tripleQuotedCall (start (code_range found)) = 18%nat
    ∧ offsetAt tripleQuotedCall (end_ (code_range found)) = 28%nat
    ∧ services (refresh (Ok None) tripleQuotedDoc emptyState).2 !! Some "w"
      = Some store
    ∧ store !! virtualFileName "a.py" 0 = Some (fragmentText tripleQuotedCall found)
    ∧ fragmentText tripleQuotedCall found
      = replicate 18 SP ++ txt "SELECT 1"
    ∧ positionAt tripleQuotedCall 19 = (1%nat, 0%nat)
    ∧ positionAt (fragmentText tripleQuotedCall found) 19 = (0%nat, 19%nat).
Proof.
  eexists. eexists.
  split; [vm_compute; reflexivity|].
  split; [reflexivity|].
  split; [vm_compute; reflexivity|].
  split; [vm_compute; reflexivity|].
  split; [vm_compute; reflexivity|].
  split; [vm_compute; reflexivity|].
  split; [vm_compute; reflexivity|].
  split; vm_compute; reflexivity.
Qed.

(** ** Where the coordinates do agree *)

Lemma positionOf_take s k o ln col :
  (o ≤ k)%nat → positionOf (take k s) o ln col = positionOf s o ln col.
Proof.
  revert k o ln col. induction s as [|c s IH]; intros k o ln col Hk.
  - by rewrite take_nil.
  - destruct o as [|o]; [by destruct k|].
    destruct k as [|k]; [lia|]. simpl.
    destruct (ascii_eqb c LF); apply IH; lia.
Qed.

Lemma positionOf_blank p s o ln col :
  positionOf (replace_all_set (CNoneOf [LF]) [SP] p ++ s) o ln col
  = positionOf (p ++ s) o ln col.
Proof.
  revert o ln col. induction p as [|c p IH]; intros o ln col; [done|].
  destruct o as [|o]; simpl.
  - by destruct (negb _).
  - unfold ascii_eqb at 1. case_bool_decide as Hc; simpl.
    + subst c. rewrite (proj2 (ascii_eqb_eq LF LF)) by done. apply IH.
    + destruct (ascii_eqb c LF) eqn:Hc'; [apply ascii_eqb_eq in Hc'; congruence|].
      apply IH.
Qed.

(** A fragment text that starts with the content as the host has it at the
    start of the span gives every offset of the content the position it has
    in the host. *)
Lemma virtualText_positions host before sql after o :
  host = before ++ sql ++ after →
  (o ≤ length before + length sql)%nat →
  positionAt (virtualText host (length before) sql) o = positionAt host o.
Proof.
  intros -> Ho. unfold positionAt, virtualText.
  rewrite slice_0_take, take_app_length, positionOf_blank.
  rewrite <- (positionOf_take (before ++ sql ++ after) (length before + length sql))
    by done.
  rewrite app_assoc, <- length_app, take_app_length. done.
Qed.

Lemma trimEnd_prefix s : ∃ spaces, s = trimEnd s ++ spaces.
Proof.
  unfold trimEnd. exists (rev (takeWhile isSpace (rev s))).
  rewrite <- rev_app_distr, take_drop_While. by rewrite rev_involutive.
Qed.

Lemma trim_prefix c s : isSpace c = false → ∃ spaces, c :: s = trim (c :: s) ++ spaces.
Proof.
  intros Hc. unfold trim, trimStart. simpl. rewrite Hc. apply trimEnd_prefix.
Qed.

Lemma quotedPattern_nonempty pos s m :
  rx_search false quotedPattern pos s = Some m → m_text m ≠ [].
Proof.
  revert pos. induction s as [|c0 s IH]; intros pos Hm;
    apply rx_search_inv in Hm
      as [(st & l & Hrun & ->)|(Hrun & c & s' & Hs & Hm)]; try done.
  - assert (st ∈ rx_run false quotedPattern (MState pos (c0 :: s) [])) as Hst
      by (rewrite Hrun; left).
    unfold quotedPattern, rseq, foldr in Hst.
    apply rx_run_seq in Hst as (st1 & Hst1 & Hst).
    simpl in Hst1. destruct (_ || _); [|by apply not_elem_of_nil in Hst1].
    apply list_elem_of_singleton in Hst1 as ->.
    apply rx_run_reads in Hst as (w & _ & Hp & _). simpl in *.
    rewrite Hp. replace (S (pos + length w) - pos)%nat with (S (length w)) by lia.
    simpl. done.
  - injection Hs as <- <-. eauto.
Qed.

Lemma rx_all_from_spec fuel pos s q :
  q ∈ rx_all_from fuel false quotedPattern pos s → occursIn q s ∧ q ≠ [].
Proof.
  revert pos s. induction fuel as [|fuel IH]; intros pos s Hq; simpl in Hq;
    [by apply not_elem_of_nil in Hq|].
  destruct (rx_search false quotedPattern pos s) as [m|] eqn:Hm;
    [|by apply not_elem_of_nil in Hq].
  apply elem_of_cons in Hq as [->|Hq].
  - split; [|by eapply quotedPattern_nonempty].
    apply rx_search_spec in Hm as (skipped & rest & -> & _). by exists skipped, rest.
  - case_bool_decide; [by apply not_elem_of_nil in Hq|].
    apply IH in Hq as [(a & b & Hocc) Hne]. split; [|done].
    match type of Hocc with
    | drop ?k s = _ => exists (take k s ++ a), b; rewrite <- (take_drop k s) at 1
    end.
    by rewrite Hocc, <- app_assoc.
Qed.

Lemma slice_inner c s : ∃ tl, c :: s = [c] ++ slice (c :: s) 1 (-1) ++ tl.
Proof.
  exists (drop (length s - 1) s). unfold slice, slice_index. simpl length.
  destruct (Z.ltb_spec 1 0); [lia|]. destruct (Z.ltb_spec (-1) 0); [|lia].
  replace (Z.to_nat (Z.min 1 (Z.of_nat (S (length s))))) with 1%nat by lia.
  replace (Z.to_nat (Z.max (Z.of_nat (S (length s)) + -1) 0
                     - Z.min 1 (Z.of_nat (S (length s)))))
    with (length s - 1)%nat by lia.
  simpl. by rewrite take_drop.
Qed.

(** What [extractSqlString] returns lies in the call text: a text [raw] is
    found between the two offsets, and the content is [raw] trimmed. *)
Lemma extractSqlString_spec call config r :
  extractSqlString call config = Ok (Some r) →
  ∃ a raw b, call = a ++ raw ++ b
             ∧ str_start r = Z.of_nat (length a)
             ∧ str_end r = Z.of_nat (length a) + Z.of_nat (length raw)
             ∧ str_content r = trim raw.
Proof.
  unfold extractSqlString. destruct (RegExp_name _) as [name|]; [|done].
  cbn [mbind result_mbind result_bind].
  destruct (precisePatterns call (patterns name)) as [r'|] eqn:Hprecise.
  - intros [= ->]. apply precisePatterns_Some in Hprecise as (p & _ & Hp).
    by apply tryPattern_spec in Hp.
  - intros [= Hfallback]. unfold keywordFallback, rx_match_all in Hfallback.
    pose proof (rx_all_from_spec (S (length call)) 0 call) as Hall.
    destruct (rx_all_from _ _ _ _ _) as [|q0 qs]; [done|].
    apply keywordLoop_Some in Hfallback
      as (before & q & after & Hqs & _ & _ & Hcontent & Hstart & Hend).
    destruct (Hall q) as [(a & b & Hocc) Hne].
    { rewrite Hqs. apply elem_of_app. right. left. }
    destruct (indexOf_found call q a b 0 Hocc) as (i & a' & b' & Hi & Hcall & Hlen & _);
      [lia|].
    destruct q as [|c q']; [done|].
    destruct (slice_inner c q') as [tl Hinner].
    exists (a' ++ [c]), (slice (c :: q') 1 (-1)), (tl ++ b').
    split; [|split; [|split]].
    + set (inner := slice (c :: q') 1 (-1)) in *.
      rewrite Hcall at 1. rewrite Hinner. by rewrite <- !app_assoc.
    + rewrite Hstart, Hi, length_app. simpl. lia.
    + rewrite Hend, Hstart, Hi, length_app. simpl. lia.
    + done.
Qed.

(** The text before a line once the lines [seen] are joined: empty for no
    line, the joined lines and a line feed otherwise. *)
Lemma join_newline_app ls1 ls2 :
  ls1 ≠ [] → ls2 ≠ [] →
  join_newline (ls1 ++ ls2) = join_newline ls1 ++ LF :: join_newline ls2.
Proof.
  induction ls1 as [|l ls1 IH]; [done|]. intros _ Hls2.
  destruct ls1 as [|l' ls1'].
  - destruct ls2; [done|]. done.
  - change (join_newline ((l :: l' :: ls1') ++ ls2))
      with (l ++ LF :: join_newline ((l' :: ls1') ++ ls2)).
    rewrite IH by done.
    change (join_newline (l :: l' :: ls1')) with (l ++ LF :: join_newline (l' :: ls1')).
    by rewrite <- app_assoc.
Qed.

Lemma lineStartOffset_app seen rest :
  lineStartOffset (seen ++ rest) (length seen)
  = match seen with
    | [] => 0%nat
    | _ :: _ => S (length (join_newline seen))
    end.
Proof.
  induction seen as [|l seen IH]; [done|].
  cbn [app length lineStartOffset]. rewrite IH.
  destruct seen as [|l' seen']; [simpl; lia|].
  change (join_newline (l :: l' :: seen')) with (l ++ LF :: join_newline (l' :: seen')).
  rewrite length_app. simpl. lia.
Qed.

Lemma lineStartOffset_add lines i j :
  lineStartOffset lines (i + j)
  = (lineStartOffset lines i + lineStartOffset (drop i lines) j)%nat.
Proof.
  revert lines. induction i as [|i IH]; intros lines; [done|].
  destruct lines as [|l lines]; simpl; [by destruct j|].
  rewrite IH. lia.
Qed.

Lemma lineStartOffset_S lines j l :
  lines !! j = Some l →
  lineStartOffset lines (S j) = (lineStartOffset lines j + length l + 1)%nat.
Proof.
  revert lines. induction j as [|j IH]; intros [|l0 lines] Hl; simplify_eq/=; [lia|].
  rewrite (IH lines) by done. lia.
Qed.

Lemma join_newline_take_length lines k l :
  lines !! k = Some l →
  length (join_newline (take (S k) lines)) = (lineStartOffset lines k + length l)%nat.
Proof.
  intros Hl.
  assert (length (take k lines) = k) as Hk.
  { rewrite length_take. apply lookup_lt_Some in Hl. lia. }
  replace (lineStartOffset lines k)
    with (lineStartOffset (take k lines ++ drop k lines) (length (take k lines)))
    by (by rewrite take_drop, Hk).
  rewrite lineStartOffset_app, (take_S_r _ _ _ Hl).
  destruct (take k lines) as [|l0 ls] eqn:Htake; [done|].
  rewrite join_newline_app by done. rewrite length_app. simpl. lia.
Qed.

Lemma take_S_app {A} (seen : list A) x rest :
  take (S (length seen)) (seen ++ x :: rest) = seen ++ [x].
Proof.
  replace (S (length seen)) with (length seen + 1)%nat by lia.
  by rewrite take_app_add'.
Qed.

(** The [while] loop of [extractSqlFromLine] collects whole lines: its text
    is the first [k] lines joined, and its offsets are the starts of these
    lines in that text. *)
Lemma collectCall_spec seen rest acc offsets st :
  rest ≠ [] →
  acc = match seen with [] => [] | _ :: _ => join_newline seen ++ [LF] end →
  offsets = map (lineStartOffset (seen ++ rest)) (seq 0 (S (length seen))) →
  ∃ k, (length seen < k ≤ length (seen ++ rest))%nat
       ∧ fullLine (collectCall rest acc offsets st)
         = join_newline (take k (seen ++ rest))
       ∧ lineOffsets (collectCall rest acc offsets st)
         = map (lineStartOffset (seen ++ rest)) (seq 0 k).
Proof.
  revert seen acc offsets st. induction rest as [|ln rest IH]; [done|].
  intros seen acc offsets st _ Hacc Hoffsets.
  assert (acc ++ ln = join_newline (seen ++ [ln])) as Hfull.
  { subst acc. destruct seen as [|l0 seen']; [done|].
    rewrite join_newline_app by done. by rewrite <- app_assoc. }
  cbn [collectCall].
  destruct (foundFunction (scanLine ln st) && (parenthesesCount (scanLine ln st) =? 0)).
  { exists (S (length seen)). rewrite length_app, take_S_app. simpl.
    split; [lia|]. done. }
  destruct rest as [|ln' rest'].
  { exists (S (length seen)). rewrite length_app, take_S_app. simpl.
    split; [lia|]. done. }
  assert (seen ++ ln :: ln' :: rest' = (seen ++ [ln]) ++ ln' :: rest') as Hall
    by (by rewrite <- app_assoc).
  destruct (IH (seen ++ [ln]) ((acc ++ ln) ++ [LF])
               (offsets ++ [length ((acc ++ ln) ++ [LF])]) (scanLine ln st))
    as (k & Hk & Hfull' & Hoffs'); [done| | |].
  - rewrite Hfull. by destruct seen.
  - rewrite <- Hall, Hoffsets.
    replace (S (length (seen ++ [ln]))) with (S (S (length seen)))
      by (rewrite length_app; simpl; lia).
    rewrite (seq_S (S (length seen))), map_app. cbn [map]. f_equal. f_equal.
    rewrite Hall, Nat.add_0_l.
    replace (S (length seen)) with (length (seen ++ [ln]))
      by (rewrite length_app; simpl; lia).
    rewrite lineStartOffset_app, Hfull, length_app. simpl.
    destruct seen; simpl; lia.
  - rewrite <- Hall in Hk, Hfull', Hoffs'.
    exists k. rewrite length_app in Hk. simpl in Hk. split; [lia|]. done.
Qed.

Lemma find_between (f : nat → nat) (P : nat → bool) (off : Z) n a :
  (∀ i, (a ≤ i < a + n)%nat →
        P i = (Z.of_nat (f i) <=? off) && (off <? Z.of_nat (f (S i)))) →
  Z.of_nat (f a) ≤ off < Z.of_nat (f (a + n)%nat) →
  ∃ i, (a ≤ i < a + n)%nat ∧ find P (seq a n) = Some i
       ∧ Z.of_nat (f i) ≤ off < Z.of_nat (f (S i)).
Proof.
  revert a. induction n as [|n IH]; intros a HP Hoff.
  - rewrite Nat.add_0_r in Hoff. lia.
  - simpl. destruct (P a) eqn:Ha.
    + exists a. rewrite HP in Ha by lia. split; [lia|]. split; [done|]. lia.
    + rewrite HP in Ha by lia.
      destruct (IH (S a)) as (i & Hi & Hfind & Hbetween).
      * intros i Hi. apply HP. lia.
      * replace (S a + n)%nat with (a + S n)%nat by lia. lia.
      * exists i. split; [lia|]. done.
Qed.

(** The position [convertPositionToLineChar] gives to an offset of the
    collected text: the line that holds the offset and the column in it. *)
Lemma convertPositionToLineChar_spec (all : list text) k (off : Z) base :
  (1 ≤ k ≤ length all)%nat →
  0 ≤ off ≤ Z.of_nat (length (join_newline (take k all))) →
  ∃ j l, (j < k)%nat ∧ all !! j = Some l
         ∧ convertPositionToLineChar off (map (lineStartOffset all) (seq 0 k)) base
           = {| line := base + j;
                character := off - Z.of_nat (lineStartOffset all j) |}
         ∧ Z.of_nat (lineStartOffset all j) ≤ off
           ≤ Z.of_nat (lineStartOffset all j + length l).
Proof.
  intros Hk Hoff. set (offsets := map (lineStartOffset all) (seq 0 k)).
  assert (length offsets = k) as Hlen by (unfold offsets; by rewrite length_map, length_seq).
  assert (∀ i, (i < k)%nat → offsets !! i = Some (lineStartOffset all i)) as Hlookup.
  { intros i Hi. unfold offsets. rewrite list_lookup_fmap, lookup_seq_lt by done. done. }
  destruct (lookup_lt_is_Some_2 all (k - 1)) as [lastLine HlastLine]; [lia|].
  unfold convertPositionToLineChar.
  rewrite last_lookup, Hlen.
  replace (pred k) with (k - 1)%nat by lia. rewrite Hlookup by lia.
  destruct (Z.leb_spec (Z.of_nat (lineStartOffset all (k - 1))) off) as [Hle|Hlt].
  - exists (k - 1)%nat, lastLine. split; [lia|]. split; [done|].
    rewrite Hlookup by lia. split; [done|]. split; [done|].
    replace k with (S (k - 1)) in Hoff by lia.
    rewrite (join_newline_take_length _ _ _ HlastLine) in Hoff. lia.
  - match goal with
    | |- context [find ?P (seq 0 (k - 1))] =>
        destruct (find_between (lineStartOffset all) P off (k - 1) 0)
          as (i & Hi & -> & Hbetween)
    end.
    + intros i Hi. rewrite !Hlookup by lia. done.
    + simpl. lia.
    + destruct (lookup_lt_is_Some_2 all i) as [l Hl]; [lia|].
      exists i, l. split; [lia|]. split; [done|]. simpl.
      rewrite Hlookup by lia. split; [done|].
      rewrite (lineStartOffset_S _ _ _ Hl) in Hbetween. lia.
Qed.

Lemma join_newline_drop lines i :
  (i < length lines)%nat →
  ∃ before, join_newline lines = before ++ join_newline (drop i lines)
            ∧ length before = lineStartOffset lines i.
Proof.
  intros Hi.
  assert (length (take i lines) = i) as Hlen by (rewrite length_take; lia).
  exists (match take i lines with
          | [] => []
          | _ :: _ => join_newline (take i lines) ++ [LF]
          end).
  split.
  - rewrite <- (take_drop i lines) at 1.
    destruct (take i lines) as [|l0 ls] eqn:Htake; [done|].
    rewrite join_newline_app; [by rewrite <- app_assoc|done|].
    intros Hnil. apply (f_equal length) in Hnil. rewrite length_drop in Hnil.
    simpl in Hnil. lia.
  - replace (lineStartOffset lines i)
      with (lineStartOffset (take i lines ++ drop i lines) (length (take i lines)))
      by (by rewrite take_drop, Hlen).
    rewrite lineStartOffset_app.
    destruct (take i lines); [done|]. rewrite length_app. simpl. lia.
Qed.

Lemma join_newline_take lines k :
  (1 ≤ k)%nat → ∃ after, join_newline lines = join_newline (take k lines) ++ after.
Proof.
  intros Hk. destruct (decide (k < length lines)%nat) as [Hlt|Hge].
  - exists (LF :: join_newline (drop k lines)).
    rewrite <- (take_drop k lines) at 1. apply join_newline_app.
    + intros Hnil. apply (f_equal length) in Hnil. rewrite length_take in Hnil.
      simpl in Hnil. lia.
    + intros Hnil. apply (f_equal length) in Hnil. rewrite length_drop in Hnil.
      simpl in Hnil. lia.
  - exists []. rewrite take_ge by lia. by rewrite app_nil_r.
Qed.

(** The span of a fragment in the host text: the document offset of its
    start is where the literal [raw] of the call lies, and the content is
    [raw] trimmed. *)
Lemma extractSqlFromLine_offset sourceTxt i config found :
  (i < length (split_newline sourceTxt))%nat →
  extractSqlFromLine (split_newline sourceTxt) i config = Ok (Some found) →
  ∃ before raw after,
    sourceTxt = before ++ raw ++ after
    ∧ offsetAt sourceTxt (start (code_range found)) = length before
    ∧ offsetAt sourceTxt (end_ (code_range found)) = (length before + length raw)%nat
    ∧ content found = trim raw.
Proof.
  set (lines := split_newline sourceTxt). intros Hi. unfold extractSqlFromLine.
  destruct (collectCall_spec [] (drop i lines) [] [0%nat] scanStart)
    as (k & Hk & Hfull & Hoffsets); [|done|done|].
  { intros Hnil. apply (f_equal length) in Hnil. rewrite length_drop in Hnil.
    simpl in Hnil. lia. }
  simpl in Hk, Hfull, Hoffsets. rewrite Hfull, Hoffsets.
  destruct (extractSqlString _ config) as [[s|]|] eqn:Hs; simpl; [|done..].
  intros [= <-]. cbn [code_range start end_ content].
  apply extractSqlString_spec in Hs as (a & raw & b & Hcall & Hstart & Hend & Hcontent).
  destruct (join_newline_drop lines i Hi) as (pre & Hsrc & Hpre).
  destruct (join_newline_take (drop i lines) k) as [tail Htail]; [lia|].
  unfold lines in Hsrc at 1. rewrite join_split_newline in Hsrc.
  exists (pre ++ a), raw, (b ++ tail).
  assert (∀ off : nat,
            (off ≤ length (join_newline (take k (drop i lines))))%nat →
            offsetAt sourceTxt
              (convertPositionToLineChar (Z.of_nat off)
                 (map (lineStartOffset (drop i lines)) (seq 0 k)) i)
            = (length pre + off)%nat) as Hoffset.
  { intros off Hoff.
    destruct (convertPositionToLineChar_spec (drop i lines) k (Z.of_nat off) i)
      as (j & l & Hj & Hl & -> & Hbounds); [lia|lia|].
    unfold offsetAt. cbn [line character]. fold lines.
    rewrite lookup_drop in Hl. rewrite Hl, lineStartOffset_add, Hpre. lia. }
  split; [|split; [|split]].
  - rewrite Hsrc, Htail, Hcall. by rewrite <- !app_assoc.
  - rewrite Hstart, Hoffset, length_app; [done|].
    rewrite Hcall, !length_app. lia.
  - rewrite Hend, <- Nat2Z.inj_add, Hoffset, length_app; [lia|].
    rewrite Hcall, !length_app. lia.
  - done.
Qed.

Lemma extractLineConfigs_member lines i ln configs nodes found :
  extractLineConfigs lines i ln configs = Ok nodes → found ∈ nodes →
  ∃ config, extractSqlFromLine lines i config = Ok (Some found).
Proof.
  revert nodes. induction configs as [|config configs IH]; simpl; intros nodes.
  - intros [= <-] Hin. by apply not_elem_of_nil in Hin.
  - destruct (RegExp_name _) as [name|]; [|done].
    cbn [mbind result_mbind result_bind].
    destruct (rx_test false _ ln).
    + destruct (extractSqlFromLine lines i config) as [r|] eqn:Hr; [|done]. simpl.
      destruct (extractLineConfigs lines i ln configs) as [more|]; [|done].
      simpl. intros [= <-] [Hin|Hin]%elem_of_app; [|eauto].
      destruct r as [found'|]; simpl in Hin; [|by apply not_elem_of_nil in Hin].
      apply list_elem_of_singleton in Hin as ->. eauto.
    + simpl. destruct (extractLineConfigs lines i ln configs) as [more|]; [|done].
      simpl. intros [= <-]. eauto.
Qed.

Lemma extractLines_member lines indices configs nodes found :
  extractLines lines indices configs = Ok nodes → found ∈ nodes →
  ∃ i config, i ∈ indices ∧ extractSqlFromLine lines i config = Ok (Some found).
Proof.
  revert nodes. induction indices as [|i indices IH]; simpl; intros nodes.
  - intros [= <-] Hin. by apply not_elem_of_nil in Hin.
  - destruct (extractLineConfigs lines i _ configs) as [pushed|] eqn:Hp; [|done].
    simpl. destruct (extractLines lines indices configs) as [more|]; [|done].
    simpl. intros [= <-] [Hin|Hin]%elem_of_app.
    + destruct (extractLineConfigs_member _ _ _ _ _ _ Hp Hin) as [config Hc].
      exists i, config. split; [left|done].
    + destruct (IH _ eq_refl Hin) as (j & config & Hj & Hc).
      exists j, config. split; [by right|done].
Qed.

(** Every fragment lies in the host text where its span says: the literal
    [raw] sits between the offsets of the two ends of the span, and the
    content is [raw] trimmed. *)
Lemma fragment_span_in_host sourceTxt configs nodes found :
  extractSqlFromPython sourceTxt configs = Ok nodes → found ∈ nodes →
  ∃ before raw after,
    sourceTxt = before ++ raw ++ after
    ∧ offsetAt sourceTxt (start (code_range found)) = length before
    ∧ offsetAt sourceTxt (end_ (code_range found)) = (length before + length raw)%nat
    ∧ content found = trim raw.
Proof.
  intros Hnodes Hfound. unfold extractSqlFromPython in Hnodes.
  destruct (extractLines_member _ _ _ _ _ Hnodes Hfound) as (i & config & Hi & Hline).
  apply list_elem_of_In, in_seq in Hi.
  eapply extractSqlFromLine_offset; [|done]. lia.
Qed.

(** The coordinates agree where the trimming takes nothing from the front:
    for a fragment whose literal starts with a character that is no white
    space, every offset from the start of the span to the end of the content
    has the same line and column in the host text and in the text [refresh]
    writes for the fragment. *)
Lemma fragment_positions_agree sourceTxt configs nodes found c o :
  extractSqlFromPython sourceTxt configs = Ok nodes → found ∈ nodes →
  sourceTxt !! offsetAt sourceTxt (start (code_range found)) = Some c →
  isSpace c = false →
  (offsetAt sourceTxt (start (code_range found)) ≤ o
   ≤ offsetAt sourceTxt (start (code_range found)) + length (content found))%nat →
  positionAt (fragmentText sourceTxt found) o = positionAt sourceTxt o.
Proof.
  intros Hnodes Hfound Hc Hspace Ho.
  destruct (fragment_span_in_host _ _ _ _ Hnodes Hfound)
    as (before & raw & after & Hsrc & Hstart & _ & Hcontent).
  unfold fragmentText. rewrite Hstart in *. rewrite Hcontent in *.
  destruct raw as [|c' raw'].
  - apply (virtualText_positions _ before [] after); [done|].
    simpl in *. lia.
  - assert (c' = c) as ->.
    { rewrite Hsrc in Hc. rewrite lookup_app_r in Hc by lia.
      rewrite Nat.sub_diag in Hc. simpl in Hc. congruence. }
    destruct (trim_prefix c raw' Hspace) as [spaces Htrim].
    apply (virtualText_positions _ before _ (spaces ++ after)); [|lia].
    rewrite Hsrc. rewrite Htrim at 1. by rewrite <- !app_assoc.
Qed.

(** ** The fragments of the entry point [extractSqlListPy] *)

Lemma extractSqlListPy_Ok sourceTxt configs nodes found :
  extractSqlListPy sourceTxt configs = Ok nodes → found ∈ nodes →
  extractSqlFromPython sourceTxt configs = Ok nodes.
Proof.
  unfold extractSqlListPy.
  destruct (extractSqlFromPython sourceTxt configs) as [l|e]; intros [= <-] Hin;
    [done|].
  by apply not_elem_of_nil in Hin.
Qed.

(** X1.  Every fragment the entry point returns lies in the host text where
    its span says: the host text reads some literal [raw] between the
    document offsets of the two ends of the span, and the content of the
    fragment is [raw] with the white space at its two ends removed. *)
Theorem fragment_lies_in_host sourceTxt configs nodes found :
  extractSqlListPy sourceTxt configs = Ok nodes → found ∈ nodes →
  ∃ before raw after,
    sourceTxt = before ++ raw ++ after
    ∧ offsetAt sourceTxt (start (code_range found)) = length before
    ∧ offsetAt sourceTxt (end_ (code_range found)) = (length before + length raw)%nat
    ∧ content found = trim raw.
Proof.
  intros Hnodes Hfound.
  eapply fragment_span_in_host; [|done]. by eapply extractSqlListPy_Ok.
Qed.

Lemma fragment_lies_in_host_witness :
  ∃ before raw after,
    tripleQuotedCall = before ++ raw ++ after
    ∧ offsetAt tripleQuotedCall
        (start (code_range (mkNode (txt "SELECT 1") 0 18 2 0 0))) = length before
    ∧ offsetAt tripleQuotedCall
        (end_ (code_range (mkNode (txt "SELECT 1") 0 18 2 0 0)))
      = (length before + length raw)%nat
    ∧ content (mkNode (txt "SELECT 1") 0 18 2 0 0) = trim raw.
Proof.
  apply (fragment_lies_in_host tripleQuotedCall None
           [mkNode (txt "SELECT 1") 0 18 2 0 0]).
  - vm_compute. reflexivity.
  - left.
Defined.

Lemma lineStartOffset_mono lines i j :
  (i ≤ j)%nat → (lineStartOffset lines i ≤ lineStartOffset lines j)%nat.
Proof.
  intros Hij. replace j with (i + (j - i))%nat by lia.
  rewrite lineStartOffset_add. lia.
Qed.

(** The two ends of a fragment are positions of the text: each is on a line
    of the text, at a column of that line, and the start is not after the
    end. *)
Lemma extractSqlFromLine_within lines i config found :
  (i < length lines)%nat →
  extractSqlFromLine lines i config = Ok (Some found) →
  ∃ l1 l2,
    lines !! line (start (code_range found)) = Some l1
    ∧ 0 ≤ character (start (code_range found)) ≤ Z.of_nat (length l1)
    ∧ lines !! line (end_ (code_range found)) = Some l2
    ∧ 0 ≤ character (end_ (code_range found)) ≤ Z.of_nat (length l2)
    ∧ (i ≤ line (start (code_range found)))%nat
    ∧ positionLe (start (code_range found)) (end_ (code_range found)) = true.
Proof.
  intros Hi. unfold extractSqlFromLine.
  destruct (collectCall_spec [] (drop i lines) [] [0%nat] scanStart)
    as (k & Hk & Hfull & Hoffsets); [|done|done|].
  { intros Hnil. apply (f_equal length) in Hnil. rewrite length_drop in Hnil.
    simpl in Hnil. lia. }
  simpl in Hk, Hfull, Hoffsets. rewrite Hfull, Hoffsets.
  destruct (extractSqlString _ config) as [[s|]|] eqn:Hs; simpl; [|done..].
  intros [= <-]. cbn [code_range start end_].
  apply extractSqlString_spec in Hs as (a & raw & b & Hcall & Hstart & Hend & _).
  apply (f_equal length) in Hcall. rewrite !length_app in Hcall.
  destruct (convertPositionToLineChar_spec (drop i lines) k (str_start s) i)
    as (j1 & l1 & Hj1 & Hl1 & -> & Hb1); [lia|lia|].
  destruct (convertPositionToLineChar_spec (drop i lines) k (str_end s) i)
    as (j2 & l2 & Hj2 & Hl2 & -> & Hb2); [lia|lia|].
  pose proof (lineStartOffset_S _ _ _ Hl2) as Hnext.
  rewrite lookup_drop in Hl1, Hl2. cbn [line character].
  exists l1, l2. split; [done|]. split; [lia|]. split; [done|]. split; [lia|].
  split; [lia|]. unfold positionLe. cbn [line character].
  destruct (decide (j1 < j2)%nat) as [Hlt|Hge].
  - apply orb_true_iff. left. apply Nat.ltb_lt. lia.
  - assert (j1 = j2) as ->.
    { destruct (decide (j1 = j2)) as [|Hne]; [done|]. exfalso.
      pose proof (lineStartOffset_mono (drop i lines) (S j2) j1). lia. }
    apply orb_true_iff. right. apply andb_true_iff. split.
    + apply Nat.eqb_eq. done.
    + apply Z.leb_le. lia.
Qed.

(** X2.  The span of every fragment is a range of the host text: its two
    ends are on lines of the text, at columns within these lines (the end of
    the line included), the start is on or after the line that owns the
    fragment, and the start is not after the end, so that the range the
    editor builds from the two ends is the span itself. *)
Theorem fragment_span_is_a_range sourceTxt configs nodes found :
  extractSqlListPy sourceTxt configs = Ok nodes → found ∈ nodes →
  ∃ l1 l2,
    split_newline sourceTxt !! line (start (code_range found)) = Some l1
    ∧ 0 ≤ character (start (code_range found)) ≤ Z.of_nat (length l1)
    ∧ split_newline sourceTxt !! line (end_ (code_range found)) = Some l2
    ∧ 0 ≤ character (end_ (code_range found)) ≤ Z.of_nat (length l2)
    ∧ (method_line found ≤ line (start (code_range found)))%nat
    ∧ newRange (start (code_range found)) (end_ (code_range found))
      = code_range found.
Proof.
  intros Hnodes Hfound.
  pose proof (extractSqlListPy_Ok _ _ _ _ Hnodes Hfound) as Hpy.
  unfold extractSqlFromPython in Hpy.
  destruct (extractLines_member _ _ _ _ _ Hpy Hfound) as (i & config & Hi & Hline).
  apply list_elem_of_In, in_seq in Hi.
  destruct (extractSqlFromLine_within (split_newline sourceTxt) i config found) as
    (l1 & l2 & H1 & Hc1 & H2 & Hc2 & Hown & Hle); [lia|done|].
  apply extractSqlFromLine_startsWithin in Hline as [Howner _].
  exists l1, l2. repeat (split; [done || lia|]).
  unfold newRange. rewrite Hle. by destruct (code_range found).
Qed.

Lemma fragment_span_is_a_range_witness :
  ∃ l1 l2,
    split_newline tripleQuotedCall
      !! line (start (code_range (mkNode (txt "SELECT 1") 0 18 2 0 0))) = Some l1
    ∧ 0 ≤ character (start (code_range (mkNode (txt "SELECT 1") 0 18 2 0 0)))
        ≤ Z.of_nat (length l1)
    ∧ split_newline tripleQuotedCall
        !! line (end_ (code_range (mkNode (txt "SELECT 1") 0 18 2 0 0))) = Some l2
    ∧ 0 ≤ character (end_ (code_range (mkNode (txt "SELECT 1") 0 18 2 0 0)))
        ≤ Z.of_nat (length l2)
    ∧ (method_line (mkNode (txt "SELECT 1") 0 18 2 0 0)
       ≤ line (start (code_range (mkNode (txt "SELECT 1") 0 18 2 0 0))))%nat
    ∧ newRange (start (code_range (mkNode (txt "SELECT 1") 0 18 2 0 0)))
               (end_ (code_range (mkNode (txt "SELECT 1") 0 18 2 0 0)))
      = code_range (mkNode (txt "SELECT 1") 0 18 2 0 0).
Proof.
  apply (fragment_span_is_a_range tripleQuotedCall None
           [mkNode (txt "SELECT 1") 0 18 2 0 0]).
  - vm_compute. reflexivity.
  - left.
Defined.

(** ** The content of a fragment is trimmed and not empty *)

Lemma dropWhile_head p s c : head (dropWhile p s) = Some c → p c = false.
Proof.
  induction s as [|a s IH]; simpl; [done|].
  destruct (p a) eqn:Ha; [done|]. simpl. by intros [= <-].
Qed.

Lemma dropWhile_id p s :
  (∀ c, head s = Some c → p c = false) → dropWhile p s = s.
Proof. destruct s as [|a s]; simpl; [done|]. intros Hh. by rewrite Hh. Qed.

Lemma dropWhile_idemp p s : dropWhile p (dropWhile p s) = dropWhile p s.
Proof. apply dropWhile_id. apply dropWhile_head. Qed.

Lemma last_rev_head {A} (l : list A) : last (rev l) = head l.
Proof. destruct l as [|a l]; simpl; [done|]. by rewrite last_snoc. Qed.

Lemma trim_head s c : head (trim s) = Some c → isSpace c = false.
Proof.
  unfold trim. destruct (trimEnd_prefix (trimStart s)) as [spaces Hsp].
  intros Hh. apply (dropWhile_head isSpace s). unfold trimStart in *.
  rewrite Hsp. by destruct (trimEnd _).
Qed.

Lemma trim_last s c : last (trim s) = Some c → isSpace c = false.
Proof.
  unfold trim, trimEnd. rewrite last_rev_head. apply dropWhile_head.
Qed.

Lemma trim_idemp s : trim (trim s) = trim s.
Proof.
  unfold trim at 1. unfold trimStart. rewrite dropWhile_id by apply trim_head.
  unfold trim, trimEnd. by rewrite rev_involutive, dropWhile_idemp.
Qed.

Lemma isSpace_upperChar c : isSpace c = true → upperChar c = c.
Proof. destruct c as [[] [] [] [] [] [] [] []]; vm_compute; congruence. Qed.

Lemma hasSqlKeyword_not_blank s : hasSqlKeyword s = true → trim s ≠ [].
Proof.
  intros Hk Hnil. apply trim_nil_iff in Hnil.
  unfold hasSqlKeyword in Hk. apply existsb_exists in Hk as (kw & Hin & Hinc).
  unfold includes in Hinc. apply bool_decide_eq_true in Hinc.
  unfold indexOf in Hinc.
  replace (Z.to_nat (Z.min (Z.max 0 0) (Z.of_nat (length (toUpperCase s)))))
    with 0%nat in Hinc by lia.
  rewrite drop_0 in Hinc.
  destruct (indexOf_go kw (toUpperCase s) 0) as [i|] eqn:Hgo; [|done].
  apply indexOf_go_sound in Hgo as (a & b & Hs & _).
  assert (Forall (λ c, isSpace c = true) (toUpperCase s)) as Hup.
  { unfold toUpperCase. apply Forall_fmap. eapply Forall_impl; [exact Hnil|].
    intros c Hc. simpl. by rewrite isSpace_upperChar. }
  rewrite Hs in Hup. apply Forall_app in Hup as [_ Hup].
  apply Forall_app in Hup as [Hup _].
  assert (forallb isSpace kw = true) as Hkw.
  { apply forallb_forall. intros c Hc.
    by apply (proj1 (Forall_forall _ _) Hup), list_elem_of_In. }
  simpl in Hin.
  repeat (destruct Hin as [<-|Hin]; [vm_compute in Hkw; discriminate|]).
  done.
Qed.

Lemma extractSqlString_trimmed call config r :
  extractSqlString call config = Ok (Some r) →
  ∃ raw, str_content r = trim raw ∧ trim raw ≠ [].
Proof.
  unfold extractSqlString. destruct (RegExp_name _) as [name|]; [|done].
  cbn [mbind result_mbind result_bind].
  destruct (precisePatterns call (patterns name)) as [r'|] eqn:Hprecise.
  - intros [= ->]. apply precisePatterns_Some in Hprecise as (p & _ & Hp).
    unfold tryPattern in Hp. destruct (rx_match true p call) as [m|]; [|done].
    destruct (js_or _ _) as [sql|]; [|done].
    destruct (truthy (Some sql) && truthy (Some (trim sql))) eqn:Ht; [|done].
    injection Hp as <-. exists sql. split; [done|].
    apply andb_true_iff in Ht as [_ Ht]. simpl in Ht. by destruct (trim sql).
  - intros [= Hfallback]. unfold keywordFallback in Hfallback.
    destruct (rx_match_all false quotedPattern call) as [ms|]; [|done].
    apply keywordLoop_Some in Hfallback
      as (_ & q & _ & _ & _ & Hq & Hcontent & _).
    exists (slice q 1 (-1)). split; [done|].
    apply hasSqlKeyword_not_blank. by apply hasSqlKeyword_holds.
Qed.

(** X3.  The content of every fragment is not empty and carries no white
    space at either end: trimming it again changes nothing, and it is never
    the blank content the format command passes over. *)
Theorem fragment_content_is_trimmed sourceTxt configs nodes found :
  extractSqlListPy sourceTxt configs = Ok nodes → found ∈ nodes →
  content found ≠ []
  ∧ (∀ c, head (content found) = Some c → isSpace c = false)
  ∧ (∀ c, last (content found) = Some c → isSpace c = false)
  ∧ trim (content found) = content found
  ∧ rx_test false blankPattern (content found) = false.
Proof.
  intros Hnodes Hfound.
  pose proof (extractSqlListPy_Ok _ _ _ _ Hnodes Hfound) as Hpy.
  unfold extractSqlFromPython in Hpy.
  destruct (extractLines_member _ _ _ _ _ Hpy Hfound) as (i & config & _ & Hline).
  unfold extractSqlFromLine in Hline.
  destruct (extractSqlString _ config) as [[s|]|] eqn:Hs; simpl in Hline; [|done..].
  injection Hline as <-. cbn [content].
  apply extractSqlString_trimmed in Hs as (raw & -> & Hne).
  split; [done|]. split; [apply trim_head|]. split; [apply trim_last|].
  split; [apply trim_idemp|].
  destruct (rx_test false blankPattern (trim raw)) eqn:Hblank; [|done].
  apply blankPattern_iff, trim_nil_iff in Hblank. by rewrite trim_idemp in Hblank.
Qed.

Lemma fragment_content_is_trimmed_witness :
  content (mkNode (txt "SELECT 1") 0 18 2 0 0) ≠ []
  ∧ (∀ c, head (content (mkNode (txt "SELECT 1") 0 18 2 0 0)) = Some c
          → isSpace c = false)
  ∧ (∀ c, last (content (mkNode (txt "SELECT 1") 0 18 2 0 0)) = Some c
          → isSpace c = false)
  ∧ trim (content (mkNode (txt "SELECT 1") 0 18 2 0 0))
    = content (mkNode (txt "SELECT 1") 0 18 2 0 0)
  ∧ rx_test false blankPattern (content (mkNode (txt "SELECT 1") 0 18 2 0 0)) = false.
Proof.
  apply (fragment_content_is_trimmed tripleQuotedCall None
           [mkNode (txt "SELECT 1") 0 18 2 0 0]).
  - vm_compute. reflexivity.
  - left.
Defined.

(** ** Which lines give fragments *)

Lemma RegExp_name_Ok name r : RegExp_name name = Ok r → r = rlit name.
Proof. unfold RegExp_name. destruct (forallb _ _); [|done]. by intros [= <-]. Qed.

Lemma extractLineConfigs_member_token lines i ln configs nodes found :
  extractLineConfigs lines i (trim ln) configs = Ok nodes → found ∈ nodes →
  ∃ config, config ∈ configs ∧ callToken ln config = true
            ∧ extractSqlFromLine lines i config = Ok (Some found).
Proof.
  revert nodes. induction configs as [|config configs IH]; simpl; intros nodes.
  - intros [= <-] Hin. by apply not_elem_of_nil in Hin.
  - destruct (RegExp_name _) as [name|] eqn:Hname; [|done].
    apply RegExp_name_Ok in Hname as ->.
    cbn [mbind result_mbind result_bind].
    destruct (rx_test false _ (trim ln)) eqn:Htest.
    + destruct (extractSqlFromLine lines i config) as [r|] eqn:Hr; [|done]. simpl.
      destruct (extractLineConfigs lines i (trim ln) configs) as [more|]; [|done].
      simpl. intros [= <-] [Hin|Hin]%elem_of_app.
      * destruct r as [found'|]; simpl in Hin; [|by apply not_elem_of_nil in Hin].
        apply list_elem_of_singleton in Hin as ->.
        exists config. split; [left|]. done.
      * destruct (IH _ eq_refl Hin) as (c & Hc & Hrest).
        exists c. split; [by right|done].
    + simpl. destruct (extractLineConfigs lines i (trim ln) configs) as [more|];
        [|done].
      simpl. intros [= <-] Hin. destruct (IH _ eq_refl Hin) as (c & Hc & Hrest).
      exists c. split; [by right|done].
Qed.

Lemma extractLines_member_token lines indices configs nodes found :
  extractLines lines indices configs = Ok nodes → found ∈ nodes →
  ∃ i config, i ∈ indices ∧ config ∈ configs
              ∧ callToken (default [] (lines !! i)) config = true
              ∧ extractSqlFromLine lines i config = Ok (Some found).
Proof.
  revert nodes. induction indices as [|i indices IH]; simpl; intros nodes.
  - intros [= <-] Hin. by apply not_elem_of_nil in Hin.
  - destruct (extractLineConfigs lines i _ configs) as [pushed|] eqn:Hp; [|done].
    simpl. destruct (extractLines lines indices configs) as [more|]; [|done].
    simpl. intros [= <-] [Hin|Hin]%elem_of_app.
    + destruct (extractLineConfigs_member_token _ _ _ _ _ _ Hp Hin)
        as (config & Hc & Htoken & Hline).
      exists i, config. split; [left|done].
    + destruct (IH _ eq_refl Hin) as (j & config & Hj & Hrest).
      exists j, config. split; [by right|done].
Qed.

Lemma extractLines_sorted lines n a configs nodes :
  extractLines lines (seq a n) configs = Ok nodes →
  Forall (λ found, (a ≤ method_line found < a + n)%nat) nodes
  ∧ StronglySorted le (map method_line nodes).
Proof.
  revert a nodes. induction n as [|n IH]; intros a nodes; cbn [seq extractLines].
  - intros [= <-]. split; constructor.
  - destruct (extractLineConfigs lines a _ configs) as [pushed|] eqn:Hp; [|done].
    simpl. destruct (extractLines lines (seq (S a) n) configs) as [more|] eqn:Hm;
      [|done].
    simpl. intros [= <-]. destruct (IH _ _ Hm) as [Hrange Hsorted].
    assert (Forall (λ found, method_line found = a) pushed) as Hpushed.
    { apply Forall_forall. intros found Hin.
      destruct (extractLineConfigs_member _ _ _ _ _ _ Hp Hin) as [config Hc].
      by apply extractSqlFromLine_startsWithin in Hc as [? _]. }
    split.
    + apply Forall_app. split.
      * eapply Forall_impl; [exact Hpushed|]. simpl. lia.
      * eapply Forall_impl; [exact Hrange|]. simpl. lia.
    + rewrite map_app. clear Hp. induction pushed as [|p pushed IHp]; [done|].
      apply Forall_cons in Hpushed as [Hp Hpushed]. simpl.
      constructor; [auto|]. apply Forall_app. split.
      * apply Forall_forall. intros x [y [-> Hy]]%list_elem_of_fmap.
        rewrite (proj1 (Forall_forall _ _) Hpushed y Hy). lia.
      * apply Forall_forall. intros x [y [-> Hy]]%list_elem_of_fmap.
        pose proof (proj1 (Forall_forall _ _) Hrange y Hy). simpl in *. lia.
Qed.

(** X4.  The fragments come in the order of the lines that own them: for
    every text and every list of rules whose names are free of pattern
    syntax (the defaults are), the entry point returns a list along which
    the owner lines never decrease, and each owner line is a line of the
    text that holds the call token of an active rule. *)
Theorem fragments_follow_the_call_lines
    (sourceTxt : text) (configs : option CustomRawSqlQueryPy) :
  Forall plainName (default defaultConfigs configs) →
  ∃ nodes,
    extractSqlListPy sourceTxt configs = Ok nodes
    ∧ StronglySorted le (map method_line nodes)
    ∧ Forall (λ found,
        (method_line found < length (split_newline sourceTxt))%nat
        ∧ isCallLine (split_newline sourceTxt) (default defaultConfigs configs)
            (method_line found) = true) nodes.
Proof.
  intros _. unfold extractSqlListPy.
  destruct (extractSqlFromPython sourceTxt configs) as [l|e] eqn:Hpy;
    [|exists []; split; [done|]; split; constructor].
  exists l. split; [done|].
  unfold extractSqlFromPython in Hpy.
  destruct (extractLines_sorted _ _ _ _ _ Hpy) as [Hrange Hsorted].
  split; [done|]. apply Forall_forall. intros found Hin.
  pose proof (proj1 (Forall_forall _ _) Hrange found Hin) as Hlt. simpl in Hlt.
  split; [lia|].
  destruct (extractLines_member_token _ _ _ _ _ Hpy Hin)
    as (i & config & _ & Hc & Htoken & Hline).
  apply extractSqlFromLine_startsWithin in Hline as [-> _].
  unfold isCallLine, rulesOnLine.
  assert (In config (List.filter (callToken (default [] (split_newline sourceTxt !! i)))
                       (default defaultConfigs configs))) as Hfilter.
  { apply filter_In. split; [by apply list_elem_of_In|done]. }
  by destruct (List.filter _ _).
Qed.

Lemma fragments_follow_the_call_lines_witness :
  ∃ nodes,
    extractSqlListPy twoCallsTwoLines None = Ok nodes
    ∧ StronglySorted le (map method_line nodes)
    ∧ Forall (λ found,
        (method_line found < length (split_newline twoCallsTwoLines))%nat
        ∧ isCallLine (split_newline twoCallsTwoLines) (default defaultConfigs None)
            (method_line found) = true) nodes.
Proof.
  apply (fragments_follow_the_call_lines twoCallsTwoLines None).
  repeat constructor.
Defined.

(** ** What a call token is *)

Lemma rx_run_rlit s st st' :
  st' ∈ rx_run false (rlit s) st → m_rest st = s ++ m_rest st'.
Proof.
  revert st. induction s as [|c s IH]; intros st.
  - intros Hin. apply rx_run_empty in Hin. by subst.
  - intros Hin. change (rlit (c :: s)) with (RSeq (RSet (CChar c)) (rlit s)) in Hin.
    apply rx_run_seq in Hin as (y & Hy & Hin). apply IH in Hin.
    simpl in Hy. destruct (m_rest st) as [|c' rest]; [by apply not_elem_of_nil in Hy|].
    destruct (ascii_eqb c c') eqn:Hc; [|by apply not_elem_of_nil in Hy].
    apply list_elem_of_singleton in Hy as ->. simpl in Hin.
    apply ascii_eqb_eq in Hc as ->. by rewrite Hin.
Qed.

Lemma star_states_spaces p pos s caps st' :
  st' ∈ star_states p pos s caps →
  ∃ w, s = w ++ m_rest st' ∧ Forall (λ c, p c = true) w
       ∧ m_pos st' = (pos + length w)%nat.
Proof.
  revert pos. induction s as [|c s IH]; intros pos; simpl.
  - intros ->%list_elem_of_singleton. exists []. simpl. split; [done|].
    split; [constructor|lia].
  - intros [->|Hin]%elem_of_cons.
    + exists []. simpl. split; [done|]. split; [constructor|lia].
    + destruct (p c) eqn:Hc; [|by apply not_elem_of_nil in Hin].
      apply IH in Hin as (w & -> & Hw & Hpos). exists (c :: w). simpl.
      split; [done|]. split; [by constructor|lia].
Qed.

Lemma rx_run_ws_star icase st st' :
  st' ∈ rx_run icase ws_star st →
  ∃ w, m_rest st = w ++ m_rest st' ∧ Forall (λ c, isSpace c = true) w.
Proof.
  unfold ws_star. simpl. intros Hin. apply (proj1 (elem_of_rev _ _)) in Hin.
  apply star_states_spaces in Hin as (w & Hw & Hall & _). eauto.
Qed.

Lemma rx_run_chr c st st' :
  st' ∈ rx_run false (chr c) st → m_rest st = c :: m_rest st'.
Proof.
  unfold chr. simpl. destruct (m_rest st) as [|c' rest];
    [by intros ?%not_elem_of_nil|].
  destruct (ascii_eqb c c') eqn:Hc; [|by intros ?%not_elem_of_nil].
  intros ->%list_elem_of_singleton. apply ascii_eqb_eq in Hc as ->. done.
Qed.

Lemma rx_search_start icase r pos s m :
  rx_search icase r pos s = Some m →
  ∃ skipped rest st,
    s = skipped ++ rest
    ∧ st ∈ rx_run icase r (MState (pos + length skipped) rest []).
Proof.
  revert pos. induction s as [|c s IH]; intros pos Hm;
    apply rx_search_inv in Hm
      as [(st & l & Hrun & _)|(Hrun & c' & s' & Hs & Hm)]; try done.
  - exists [], [], st. simpl. rewrite Nat.add_0_r, Hrun. split; [done|left].
  - exists [], (c :: s), st. simpl. rewrite Nat.add_0_r, Hrun. split; [done|left].
  - injection Hs as <- <-. apply IH in Hm as (skipped & rest & st & -> & Hst).
    exists (c :: skipped), rest, st. split; [done|].
    simpl. by rewrite <- Nat.add_succ_comm.
Qed.

(** The test of the loop over the lines: the trimmed line holds the name of
    the rule, then white space if any, then an opening parenthesis; the name
    follows a dot or starts the line. *)
Lemma callToken_sound ln config :
  callToken ln config = true →
  ∃ a ws b,
    trim ln = a ++ functionName config ++ ws ++ "("%char :: b
    ∧ Forall (λ c, isSpace c = true) ws
    ∧ (last a = Some "."%char ∨ a = []).
Proof.
  unfold callToken, rx_test, rx_match. intros Ht.
  apply bool_decide_eq_true in Ht as [m Hm].
  apply rx_search_start in Hm as (skipped & rest & st & Hln & Hst).
  unfold functionPattern in Hst. cbn [rx_run] in Hst.
  apply elem_of_app in Hst as [Hst|Hst].
  - unfold rseq, foldr in Hst.
    apply rx_run_seq in Hst as (s1 & H1 & Hst). apply rx_run_chr in H1.
    apply rx_run_seq in Hst as (s2 & H2 & Hst). apply rx_run_rlit in H2.
    apply rx_run_seq in Hst as (s3 & H3 & Hst).
    apply rx_run_ws_star in H3 as (ws & H3 & Hws).
    apply rx_run_seq in Hst as (s4 & H4 & Hst). apply rx_run_chr in H4.
    simpl in H1. exists (skipped ++ ["."%char]), ws, (m_rest s4).
    split; [|split; [done|]].
    + rewrite Hln, H1, H2, H3, H4. by rewrite <- !app_assoc.
    + left. by rewrite last_snoc.
  - unfold rseq, foldr in Hst.
    apply rx_run_seq in Hst as (s1 & H1 & Hst).
    cbn [rx_run m_pos] in H1.
    destruct (0 + length skipped =? 0)%nat eqn:Hpos;
      [|by apply not_elem_of_nil in H1].
    apply list_elem_of_singleton in H1 as ->. apply Nat.eqb_eq in Hpos.
    destruct skipped; [|simpl in Hpos; lia]. simpl in Hln.
    apply rx_run_seq in Hst as (s2 & H2 & Hst).
    apply rx_run_ws_star in H2 as (ws0 & H2 & Hws0). simpl in H2.
    apply rx_run_seq in Hst as (s3 & H3 & Hst). apply rx_run_rlit in H3.
    apply rx_run_seq in Hst as (s4 & H4 & Hst).
    apply rx_run_ws_star in H4 as (ws & H4 & Hws).
    apply rx_run_seq in Hst as (s5 & H5 & Hst). apply rx_run_chr in H5.
    assert (ws0 = []) as ->.
    { destruct ws0 as [|c ws0]; [done|]. exfalso.
      apply Forall_cons in Hws0 as [Hc _].
      assert (isSpace c = false); [|congruence].
      apply (trim_head ln). by rewrite Hln, H2. }
    exists [], ws, (m_rest s5). split; [|split; [done|by right]].
    rewrite Hln, H2, H3, H4, H5. done.
Qed.

(** X5.  A fragment is only produced for a line that holds a call token:
    with rules whose names are free of pattern syntax (the defaults are),
    the line that owns a fragment, once trimmed, reads the name of an active
    rule, white space if any and an opening parenthesis, the name being at
    the start of the line or after a dot.  (The test is sensitive to case,
    while the patterns that then find the literal are not.) *)
Theorem fragment_owner_line_holds_a_call sourceTxt configs nodes found :
  Forall plainName (default defaultConfigs configs) →
  extractSqlListPy sourceTxt configs = Ok nodes → found ∈ nodes →
  ∃ config ln a ws b,
    config ∈ default defaultConfigs configs
    ∧ split_newline sourceTxt !! method_line found = Some ln
    ∧ trim ln = a ++ functionName config ++ ws ++ "("%char :: b
    ∧ Forall (λ c, isSpace c = true) ws
    ∧ (last a = Some "."%char ∨ a = []).
Proof.
  intros _ Hnodes Hfound.
  pose proof (extractSqlListPy_Ok _ _ _ _ Hnodes Hfound) as Hpy.
  unfold extractSqlFromPython in Hpy.
  destruct (extractLines_member_token _ _ _ _ _ Hpy Hfound)
    as (i & config & Hi & Hc & Htoken & Hline).
  apply extractSqlFromLine_startsWithin in Hline as [-> _].
  apply list_elem_of_In, in_seq in Hi.
  destruct (lookup_lt_is_Some_2 (split_newline sourceTxt) i) as [ln Hln]; [lia|].
  rewrite Hln in Htoken. simpl in Htoken.
  destruct (callToken_sound _ _ Htoken) as (a & ws & b & Htrim & Hws & Ha).
  exists config, ln, a, ws, b. done.
Qed.

Lemma fragment_owner_line_holds_a_call_witness :
  ∃ config ln a ws b,
    config ∈ default defaultConfigs None
    ∧ split_newline tripleQuotedCall
        !! method_line (mkNode (txt "SELECT 1") 0 18 2 0 0) = Some ln
    ∧ trim ln = a ++ functionName config ++ ws ++ "("%char :: b
    ∧ Forall (λ c, isSpace c = true) ws
    ∧ (last a = Some "."%char ∨ a = []).
Proof.
  apply (fragment_owner_line_holds_a_call tripleQuotedCall None
           [mkNode (txt "SELECT 1") 0 18 2 0 0]).
  - repeat constructor.
  - vm_compute. reflexivity.
  - left.
Defined.

(** ** Positions in the collected call *)

(** X6.  The positions [extractSqlFromLine] computes are exact: for the text
    and the table of line offsets its loop collects from lines that hold no
    line feed, [convertPositionToLineChar] sends every offset of the
    collected text to the position that the editor sends back to that
    offset. *)
Theorem convertPositionToLineChar_inverts_offsetAt
    (lines : list text) (off : nat) :
  lines ≠ [] → Forall (λ l, LF ∉ l) lines →
  let call := collectCall lines [] [0%nat] scanStart in
  (off ≤ length (fullLine call))%nat →
  offsetAt (fullLine call)
    (convertPositionToLineChar (Z.of_nat off) (lineOffsets call) 0) = off.
Proof.
  intros Hne Hlf call Hoff. subst call.
  destruct (collectCall_spec [] lines [] [0%nat] scanStart)
    as (k & Hk & Hfull & Hoffsets); [done..|].
  simpl in Hk, Hfull, Hoffsets. rewrite Hfull, Hoffsets in *.
  destruct (convertPositionToLineChar_spec lines k (Z.of_nat off) 0)
    as (j & l & Hj & Hl & -> & Hb); [lia|lia|].
  unfold offsetAt. cbn [line character].
  assert (take k lines ≠ []) as Htake.
  { intros Hnil. apply (f_equal length) in Hnil. rewrite length_take in Hnil.
    simpl in Hnil. lia. }
  rewrite split_join_newline; [|done|by apply Forall_take].
  rewrite lookup_take_lt by lia. simpl. rewrite Hl.
  assert (lineStartOffset (take k lines) j = lineStartOffset lines j) as ->.
  { clear -Hj. revert lines k Hj. induction j as [|j IH]; intros lines k Hj.
    - by destruct (take k lines), lines.
    - destruct k as [|k]; [lia|]. destruct lines as [|l lines]; [done|].
      simpl. rewrite IH by lia. done. }
  lia.
Qed.

Lemma convertPositionToLineChar_inverts_offsetAt_witness :
  let call := collectCall (split_newline tripleQuotedCall) [] [0%nat] scanStart in
  (19 ≤ length (fullLine call))%nat
  ∧ offsetAt (fullLine call)
      (convertPositionToLineChar (Z.of_nat 19) (lineOffsets call) 0) = 19%nat.
Proof.
  split; [vm_compute; lia|].
  apply (convertPositionToLineChar_inverts_offsetAt
           (split_newline tripleQuotedCall) 19).
  - vm_compute. discriminate.
  - vm_compute. repeat constructor; intros Hin; repeat (apply elem_of_cons in Hin as [Hin|Hin]; [discriminate|]); by apply not_elem_of_nil in Hin.
  - vm_compute. lia.
Defined.

(** ** The literal right after the call name *)

Lemma firstOf_seq icase r1 r2 st y x :
  firstOf icase r1 st y → firstOf icase r2 y x → firstOf icase (RSeq r1 r2) st x.
Proof.
  intros [l1 H1] [l2 H2]. unfold firstOf. cbn [rx_run]. rewrite H1. simpl.
  rewrite H2. simpl. eauto.
Qed.

Lemma firstOf_empty icase st : firstOf icase REmpty st st.
Proof. by exists []. Qed.

Lemma firstOf_set icase cs pos c s caps :
  charset_mem icase cs c = true →
  firstOf icase (RSet cs) (MState pos (c :: s) caps) (MState (S pos) s caps).
Proof. intros Hc. exists []. simpl. by rewrite Hc. Qed.

Lemma firstOf_rlit s pos rest caps :
  firstOf true (rlit s) (MState pos (s ++ rest) caps)
    (MState (pos + length s) rest caps).
Proof.
  revert pos. induction s as [|c s IH]; intros pos.
  - simpl. rewrite Nat.add_0_r. apply firstOf_empty.
  - change (rlit (c :: s)) with (RSeq (RSet (CChar c)) (rlit s)).
    eapply firstOf_seq.
    + apply firstOf_set. simpl. by apply ascii_eqb_eq.
    + simpl. replace (pos + S (length s))%nat with (S pos + length s)%nat by lia.
      apply IH.
Qed.

Lemma takeWhile_app_stop p ws c s :
  Forall (λ a, p a = true) ws → p c = false →
  takeWhile p (ws ++ c :: s) = ws ∧ dropWhile p (ws ++ c :: s) = c :: s.
Proof.
  intros Hws Hc. induction Hws as [|a ws Ha _ IH]; simpl.
  - by rewrite Hc.
  - rewrite Ha. destruct IH as [-> ->]. done.
Qed.

Lemma firstOf_ws_star icase pos ws c s caps :
  Forall (λ a, isSpace a = true) ws → isSpace c = false →
  firstOf icase ws_star (MState pos (ws ++ c :: s) caps)
    (MState (pos + length ws) (c :: s) caps).
Proof.
  intros Hws Hc. unfold firstOf, ws_star. cbn [rx_run m_pos m_rest m_caps].
  change (charset_mem icase CSpace) with isSpace.
  destruct (star_states_rev isSpace pos (ws ++ c :: s) caps) as [l Hl].
  rewrite Hl.
  destruct (takeWhile_app_stop isSpace ws c s Hws Hc) as [-> ->]. eauto.
Qed.

Lemma flat_map_star_until (f : mstate → list mstate) p pos sql rest caps :
  Forall (λ c, p c = true) sql →
  (∀ u c v, sql = u ++ c :: v →
     f (MState (pos + length u) (c :: v ++ rest) caps) = []) →
  ∃ l, flat_map f (star_states p pos (sql ++ rest) caps)
       = f (MState (pos + length sql) rest caps) ++ l.
Proof.
  revert pos. induction sql as [|c sql IH]; intros pos Hall Hstop.
  - simpl. rewrite Nat.add_0_r. destruct rest; simpl; eauto.
  - apply Forall_cons in Hall as [Hc Hall]. simpl. rewrite Hc.
    pose proof (Hstop [] c sql eq_refl) as H0. simpl in H0.
    rewrite Nat.add_0_r in H0. rewrite H0. simpl.
    destruct (IH (S pos) Hall) as [l Hl].
    + intros u c' v ->. specialize (Hstop (c :: u) c' v eq_refl).
      simpl in Hstop. by rewrite <- Nat.add_succ_comm in Hstop.
    + rewrite Hl. rewrite <- Nat.add_succ_comm. eauto.
Qed.

Lemma flat_map_fmap {A B C} (f : B → list C) (g : A → B) (l : list A) :
  flat_map f (map g l) = flat_map (λ x, f (g x)) l.
Proof. induction l as [|a l IH]; simpl; [done|]. by rewrite IH. Qed.

(** A lazy repetition in a capture group runs up to the first place where
    what follows the group matches. *)
Lemma firstOf_lazy_group icase n cs r2 pos sql rest caps x :
  Forall (λ c, charset_mem icase cs c = true) sql →
  (∀ u c v caps', sql = u ++ c :: v →
     rx_run icase r2 (MState (pos + length u) (c :: v ++ rest) caps') = []) →
  firstOf icase r2 (MState (pos + length sql) rest ((n, sql) :: caps)) x →
  firstOf icase (RSeq (RGroup n (RStar false cs)) r2)
    (MState pos (sql ++ rest) caps) x.
Proof.
  intros Hall Hstop [l Hx]. unfold firstOf.
  cbn [rx_run m_pos m_rest m_caps]. rewrite flat_map_fmap.
  match goal with
  | |- context [flat_map ?f _] =>
      destruct (flat_map_star_until f (charset_mem icase cs) pos sql rest caps Hall)
        as [l' Hl']
  end.
  - intros u c v ->. cbn [m_pos m_rest m_caps]. by eapply Hstop.
  - rewrite Hl'. cbn [m_pos m_rest m_caps].
    replace (pos + length sql - pos)%nat with (length sql) by lia.
    rewrite take_app_length, Hx. simpl. eauto.
Qed.

Lemma quote2_mem c : charset_mem true (COneOf [DQ; SQ]) c = isQuote2 c.
Proof. destruct c as [[] [] [] [] [] [] [] []]; vm_compute; reflexivity. Qed.

Lemma not_quote2_mem c : charset_mem true (CNoneOf [DQ; SQ]) c = negb (isQuote2 c).
Proof. destruct c as [[] [] [] [] [] [] [] []]; vm_compute; reflexivity. Qed.

Lemma isQuote2_iff c : isQuote2 c = true ↔ c = DQ ∨ c = SQ.
Proof.
  unfold isQuote2. rewrite orb_true_iff, !ascii_eqb_eq. done.
Qed.

Lemma isQuote2_not_space c : isQuote2 c = true → isSpace c = false.
Proof. intros [-> | ->]%isQuote2_iff; vm_compute; reflexivity. Qed.

Lemma indexOf_go_here needle s pos :
  startsWith needle s = true → indexOf_go needle s pos = Some pos.
Proof. intros Hs. destruct s; simpl; by rewrite Hs. Qed.

Lemma indexOf_prefix s n : indexOf s (take n s) 0 = 0.
Proof.
  unfold indexOf.
  replace (Z.to_nat (Z.min (Z.max 0 0) (Z.of_nat (length s)))) with 0%nat by lia.
  rewrite drop_0, indexOf_go_here; [done|].
  apply startsWith_spec. exists (drop n s). by rewrite take_drop.
Qed.

Lemma no_quote2 sql :
  DQ ∉ sql → SQ ∉ sql → Forall (λ c, isQuote2 c = false) sql.
Proof.
  intros Hd Hs. apply Forall_forall. intros c Hc.
  destruct (isQuote2 c) eqn:Hq; [|done].
  apply isQuote2_iff in Hq as [-> | ->]; done.
Qed.

(** The first state of the run of the single-line pattern on a call whose
    first argument is a literal between two quotes. *)
Lemma singleLinePattern_first name ws1 ws2 sql rest q1 q2 :
  Forall (λ c, isSpace c = true) ws1 → Forall (λ c, isSpace c = true) ws2 →
  isQuote2 q1 = true → isQuote2 q2 = true →
  Forall (λ c, isQuote2 c = false) sql →
  let call := name ++ ws1 ++ "("%char :: ws2 ++ q1 :: sql ++ q2 :: rest in
  let stop := (length name + length ws1 + 1 + length ws2 + 1 + length sql + 1)%nat in
  firstOf true (singleLinePattern (rlit name)) (MState 0 call [])
    (MState stop rest [(1%nat, sql)]).
Proof.
  intros Hws1 Hws2 Hq1 Hq2 Hsql call stop. subst call stop.
  unfold singleLinePattern, rseq, foldr.
  eapply firstOf_seq; [apply firstOf_rlit|].
  eapply firstOf_seq; [by apply firstOf_ws_star|].
  eapply firstOf_seq; [by apply firstOf_set|].
  eapply firstOf_seq;
    [apply firstOf_ws_star; [done|by apply isQuote2_not_space]|].
  eapply firstOf_seq; [apply firstOf_set; by rewrite quote2_mem|].
  apply firstOf_lazy_group.
  - eapply Forall_impl; [exact Hsql|]. intros c Hc. simpl in Hc.
    by rewrite not_quote2_mem, Hc.
  - intros u c v caps' ->. cbn [rx_run m_rest].
    apply Forall_app in Hsql as [_ Hsql]. apply Forall_cons in Hsql as [Hc _].
    simpl in Hc. unfold quote2. cbn [rx_run m_rest]. by rewrite quote2_mem, Hc.
  - eapply firstOf_seq; [apply firstOf_set; by rewrite quote2_mem|].
    match goal with
    | |- firstOf _ REmpty (MState ?p _ _) (MState ?p' _ _) =>
        replace p' with p by lia
    end.
    apply firstOf_empty.
Qed.

(** X7.  The usual call is read as written.  For a call text that starts
    with the name of the rule, followed by white space if any, an opening
    parenthesis, white space if any, and a literal between two quote
    characters (double or single, not necessarily the same) that holds no
    such quote and is not blank, [extractSqlString] returns the literal
    trimmed; the start it reports is the first place where the text of the
    literal occurs in the call, which is at or before the literal, and the
    end is the start plus the length of the literal. *)
Theorem single_line_literal_is_extracted
    (config : CustomRawSqlQueryPyItem) (ws1 ws2 sql rest : text) (q1 q2 : ascii) :
  plainName config →
  Forall (λ c, isSpace c = true) ws1 → Forall (λ c, isSpace c = true) ws2 →
  (q1 = DQ ∨ q1 = SQ) → (q2 = DQ ∨ q2 = SQ) →
  DQ ∉ sql → SQ ∉ sql → ¬ Forall (λ c, isSpace c = true) sql →
  let call :=
    functionName config ++ ws1 ++ "("%char :: ws2 ++ q1 :: sql ++ q2 :: rest in
  extractSqlString call config
  = Ok (Some {| str_content := trim sql;
                str_start := indexOf call sql 0;
                str_end := indexOf call sql 0 + Z.of_nat (length sql) |})
  ∧ 0 ≤ indexOf call sql 0
      ≤ Z.of_nat (length (functionName config ++ ws1 ++ "("%char :: ws2 ++ [q1])).
Proof.
  intros Hplain Hws1 Hws2 Hq1 Hq2 Hd Hs Hblank call.
  apply isQuote2_iff in Hq1, Hq2.
  pose proof (no_quote2 sql Hd Hs) as Hsql.
  destruct (singleLinePattern_first (functionName config) ws1 ws2 sql rest q1 q2
              Hws1 Hws2 Hq1 Hq2 Hsql) as [l Hrun].
  fold call in Hrun.
  assert (sql ≠ []) as Hne by (intros ->; apply Hblank; constructor).
  assert (trim sql ≠ []) as Htrim by (by rewrite trim_nil_iff).
  split.
  - unfold extractSqlString. rewrite RegExp_name_plain by done.
    cbn [mbind result_mbind result_bind]. unfold patterns.
    cbn [precisePatterns]. unfold tryPattern, rx_match.
    rewrite (rx_search_head _ _ _ _ _ _ Hrun). cbn [m_pos m_caps m_text].
    unfold group. cbn [m_groups]. unfold capture. simpl find. cbn [fmap option_fmap option_map snd].
    destruct sql as [|c sql']; [done|]. cbn [js_or truthy andb].
    destruct (trim (c :: sql')) as [|t ts] eqn:Ht; [done|]. cbn [truthy].
    rewrite indexOf_prefix. done.
  - destruct (indexOf_found call sql
                (functionName config ++ ws1 ++ "("%char :: ws2 ++ [q1])
                (q2 :: rest) 0) as (i & a' & b' & Hi & _ & _ & Hrange).
    + unfold call. rewrite <- !app_assoc. simpl. by rewrite <- !app_assoc.
    + lia.
    + rewrite Hi. lia.
Qed.

Lemma single_line_literal_is_extracted_witness :
  let call :=
    functionName executeRule ++ [] ++ "("%char :: [] ++ SQ :: txt "SELECT 1" ++ SQ :: txt ")" in
  extractSqlString call executeRule
  = Ok (Some {| str_content := trim (txt "SELECT 1");
                str_start := indexOf call (txt "SELECT 1") 0;
                str_end := indexOf call (txt "SELECT 1") 0
                           + Z.of_nat (length (txt "SELECT 1")) |})
  ∧ 0 ≤ indexOf call (txt "SELECT 1") 0
      ≤ Z.of_nat (length (functionName executeRule ++ [] ++ "("%char :: [] ++ [SQ])).
Proof.
  apply (single_line_literal_is_extracted executeRule [] [] (txt "SELECT 1")
           (txt ")") SQ SQ).
  - vm_compute. reflexivity.
  - constructor.
  - constructor.
  - right. reflexivity.
  - right. reflexivity.
  - vm_compute. intros Hin.
    repeat (apply elem_of_cons in Hin as [Hin|Hin]; [discriminate|]).
    by apply not_elem_of_nil in Hin.
  - vm_compute. intros Hin.
    repeat (apply elem_of_cons in Hin as [Hin|Hin]; [discriminate|]).
    by apply not_elem_of_nil in Hin.
  - intros Hall. apply Forall_cons in Hall as [Hc _]. vm_compute in Hc. discriminate.
Defined.

(** ** The triple-quoted literal *)

Lemma firstOf_alt_l icase r1 r2 st x :
  firstOf icase r1 st x → firstOf icase (RAlt r1 r2) st x.
Proof. intros [l Hl]. unfold firstOf. cbn [rx_run]. rewrite Hl. simpl. eauto. Qed.

Lemma firstOf_alt_r icase r1 r2 st x :
  rx_run icase r1 st = [] → firstOf icase r2 st x → firstOf icase (RAlt r1 r2) st x.
Proof. intros Hnil [l Hl]. unfold firstOf. cbn [rx_run]. rewrite Hnil, Hl. simpl. eauto. Qed.

Lemma quote_char_mem q c :
  isQuote2 q = true → charset_mem true (CChar q) c = ascii_eqb q c.
Proof.
  intros [-> | ->]%isQuote2_iff;
    destruct c as [[] [] [] [] [] [] [] []]; vm_compute; reflexivity.
Qed.

Lemma rx_run_rlit_stop q more r pos c s caps :
  isQuote2 q = true → c ≠ q →
  rx_run true (RSeq (rlit (q :: more)) r) (MState pos (c :: s) caps) = [].
Proof.
  intros Hq Hc. change (rlit (q :: more)) with (RSeq (RSet (CChar q)) (rlit more)).
  cbn [rx_run m_rest]. rewrite quote_char_mem by done.
  destruct (ascii_eqb q c) eqn:Heq; [|done].
  apply ascii_eqb_eq in Heq. congruence.
Qed.

(** The branch of the triple-quote pattern for the quote [q], with its
    capture group [g]. *)
Lemma tripleQuote_branch_first q g pos sql rest caps :
  isQuote2 q = true → q ∉ sql →
  firstOf true
    (rseq [rlit [q; q; q]; RGroup g (RStar false CAll); rlit [q; q; q]])
    (MState pos ([q; q; q] ++ sql ++ [q; q; q] ++ rest) caps)
    (MState (pos + 3 + length sql + 3) rest ((g, sql) :: caps)).
Proof.
  intros Hq Hsql. unfold rseq, foldr.
  eapply firstOf_seq; [apply firstOf_rlit|].
  apply firstOf_lazy_group.
  - apply Forall_forall. done.
  - intros u c v caps' ->. apply rx_run_rlit_stop; [done|].
    intros ->. apply Hsql. apply elem_of_app. right. left.
  - eapply firstOf_seq; [apply firstOf_rlit|].
    match goal with
    | |- firstOf _ REmpty (MState ?p _ _) (MState ?p' _ _) =>
        replace p' with p by (simpl; lia)
    end.
    apply firstOf_empty.
Qed.

Lemma tripleQuotePattern_first name ws1 ws2 sql rest q :
  Forall (λ c, isSpace c = true) ws1 → Forall (λ c, isSpace c = true) ws2 →
  (q = DQ ∨ q = SQ) → q ∉ sql →
  let call :=
    name ++ ws1 ++ "("%char :: ws2 ++ [q; q; q] ++ sql ++ [q; q; q] ++ rest in
  ∃ stop g,
    firstOf true (tripleQuotePattern (rlit name)) (MState 0 call [])
      (MState stop rest [(g, sql)])
    ∧ (g = 1 ∨ g = 2)%nat.
Proof.
  intros Hws1 Hws2 Hq Hsql call. subst call.
  assert (isQuote2 q = true) as Hq2 by (by apply isQuote2_iff).
  exists (length name + length ws1 + 1 + length ws2 + 3 + length sql + 3)%nat,
         (if ascii_eqb q DQ then 1%nat else 2%nat).
  split; [|destruct (ascii_eqb q DQ); auto].
  unfold tripleQuotePattern. unfold rseq at 1. unfold foldr.
  eapply firstOf_seq; [apply firstOf_rlit|].
  eapply firstOf_seq; [by apply firstOf_ws_star|].
  eapply firstOf_seq; [by apply firstOf_set|].
  eapply firstOf_seq;
    [apply (firstOf_ws_star true _ ws2 q); [done|by apply isQuote2_not_space]|].
  destruct Hq as [-> | ->].
  - eapply firstOf_seq.
    + apply firstOf_alt_l.
      apply (tripleQuote_branch_first DQ 1 _ sql rest []); done.
    + match goal with
      | |- firstOf _ REmpty (MState ?p _ _) (MState ?p' _ _) =>
          replace p' with p by (simpl; lia)
      end.
      apply firstOf_empty.
  - eapply firstOf_seq.
    + apply firstOf_alt_r.
      * unfold rseq, foldr. by apply rx_run_rlit_stop.
      * apply (tripleQuote_branch_first SQ 2 _ sql rest []); done.
    + match goal with
      | |- firstOf _ REmpty (MState ?p _ _) (MState ?p' _ _) =>
          replace p' with p by (simpl; lia)
      end.
      apply firstOf_empty.
Qed.

(** The single-line pattern, tried first, stops at the second of the three
    opening quotes and captures nothing. *)
Lemma singleLinePattern_on_triple name ws1 ws2 rest q :
  Forall (λ c, isSpace c = true) ws1 → Forall (λ c, isSpace c = true) ws2 →
  isQuote2 q = true →
  let call := name ++ ws1 ++ "("%char :: ws2 ++ q :: q :: rest in
  ∃ stop,
    firstOf true (singleLinePattern (rlit name)) (MState 0 call [])
      (MState stop rest [(1%nat, [])]).
Proof.
  intros Hws1 Hws2 Hq call. subst call.
  exists (length name + length ws1 + 1 + length ws2 + 2)%nat.
  unfold singleLinePattern, rseq, foldr.
  eapply firstOf_seq; [apply firstOf_rlit|].
  eapply firstOf_seq; [by apply firstOf_ws_star|].
  eapply firstOf_seq; [by apply firstOf_set|].
  eapply firstOf_seq;
    [apply firstOf_ws_star; [done|by apply isQuote2_not_space]|].
  eapply firstOf_seq; [apply firstOf_set; by rewrite quote2_mem|].
  apply (firstOf_lazy_group true 1 _ _ _ [] (q :: rest)).
  - constructor.
  - intros u c v caps' Hnil. by destruct u.
  - eapply firstOf_seq; [apply firstOf_set; by rewrite quote2_mem|].
    match goal with
    | |- firstOf _ REmpty (MState ?p _ _) (MState ?p' _ _) =>
        replace p' with p by (simpl; lia)
    end.
    apply firstOf_empty.
Qed.

(** X8.  A triple-quoted literal is read as written.  For a call text that
    starts with the name of the rule, followed by white space if any, an
    opening parenthesis, white space if any, and a literal between two
    triples of the same quote character (double or single) that does not
    hold that character and is not blank, [extractSqlString] returns the
    literal trimmed (line feeds and the other quote character may occur in
    it); the start it reports is the first place where the text of the
    literal occurs in the call, at or before the literal. *)
Theorem triple_quoted_literal_is_extracted
    (config : CustomRawSqlQueryPyItem) (ws1 ws2 sql rest : text) (q : ascii) :
  plainName config →
  Forall (λ c, isSpace c = true) ws1 → Forall (λ c, isSpace c = true) ws2 →
  (q = DQ ∨ q = SQ) → q ∉ sql → ¬ Forall (λ c, isSpace c = true) sql →
  let call :=
    functionName config ++ ws1 ++ "("%char :: ws2
    ++ [q; q; q] ++ sql ++ [q; q; q] ++ rest in
  extractSqlString call config
  = Ok (Some {| str_content := trim sql;
                str_start := indexOf call sql 0;
                str_end := indexOf call sql 0 + Z.of_nat (length sql) |})
  ∧ 0 ≤ indexOf call sql 0
      ≤ Z.of_nat (length (functionName config ++ ws1 ++ "("%char :: ws2 ++ [q; q; q])).
Proof.
  intros Hplain Hws1 Hws2 Hq Hsql Hblank call.
  assert (isQuote2 q = true) as Hq2 by (by apply isQuote2_iff).
  destruct (singleLinePattern_on_triple (functionName config) ws1 ws2
              (q :: sql ++ [q; q; q] ++ rest) q Hws1 Hws2 Hq2) as (stop1 & l1 & Hrun1).
  destruct (tripleQuotePattern_first (functionName config) ws1 ws2 sql rest q
              Hws1 Hws2 Hq Hsql) as (stop & g & [l Hrun] & Hg).
  change (functionName config ++ ws1 ++ "("%char :: ws2
          ++ q :: q :: q :: sql ++ [q; q; q] ++ rest) with call in Hrun1.
  fold call in Hrun.
  assert (sql ≠ []) as Hne by (intros ->; apply Hblank; constructor).
  assert (trim sql ≠ []) as Htrim by (by rewrite trim_nil_iff).
  split.
  - unfold extractSqlString. rewrite RegExp_name_plain by done.
    cbn [mbind result_mbind result_bind]. unfold patterns.
    cbn [precisePatterns].
    assert (tryPattern call (singleLinePattern (rlit (functionName config))) = None)
      as ->.
    { unfold tryPattern, rx_match. rewrite (rx_search_head _ _ _ _ _ _ Hrun1).
      done. }
    unfold tryPattern, rx_match.
    rewrite (rx_search_head _ _ _ _ _ _ Hrun). cbn [m_pos m_caps m_text].
    unfold group. cbn [m_groups]. unfold capture.
    destruct sql as [|c sql']; [done|].
    destruct (trim (c :: sql')) as [|t ts] eqn:Ht; [done|].
    destruct Hg as [-> | ->]; simpl; rewrite indexOf_prefix, Ht; reflexivity.
  - destruct (indexOf_found call sql
                (functionName config ++ ws1 ++ "("%char :: ws2 ++ [q; q; q])
                ([q; q; q] ++ rest) 0) as (i & a' & b' & Hi & _ & _ & Hrange).
    + unfold call. rewrite <- !app_assoc. simpl. by rewrite <- !app_assoc.
    + lia.
    + rewrite Hi. lia.
Qed.

Lemma triple_quoted_literal_is_extracted_witness :
  let call :=
    functionName executeRule ++ [] ++ "("%char :: []
    ++ [DQ; DQ; DQ] ++ (LF :: txt "SELECT 'a'") ++ [DQ; DQ; DQ] ++ txt ")" in
  extractSqlString call executeRule
  = Ok (Some {| str_content := trim (LF :: txt "SELECT 'a'");
                str_start := indexOf call (LF :: txt "SELECT 'a'") 0;
                str_end := indexOf call (LF :: txt "SELECT 'a'") 0
                           + Z.of_nat (length (LF :: txt "SELECT 'a'")) |})
  ∧ 0 ≤ indexOf call (LF :: txt "SELECT 'a'") 0
      ≤ Z.of_nat (length (functionName executeRule ++ [] ++ "("%char :: []
                          ++ [DQ; DQ; DQ])).
Proof.
  apply (triple_quoted_literal_is_extracted executeRule [] []
           (LF :: txt "SELECT 'a'") (txt ")") DQ).
  - vm_compute. reflexivity.
  - constructor.
  - constructor.
  - left. reflexivity.
  - vm_compute. intros Hin.
    repeat (apply elem_of_cons in Hin as [Hin|Hin]; [discriminate|]).
    by apply not_elem_of_nil in Hin.
  - intros Hall. apply Forall_cons in Hall as [_ Hall].
    apply Forall_cons in Hall as [Hc _]. vm_compute in Hc. discriminate.
Defined.

(** ** What [refresh] changes, whatever the language service *)

Section RefreshFrame.
Context {Svc : Type} `{LanguageService Svc}.

Lemma onlyService_refl root (st : ExtState Svc) : onlyService root st st.
Proof. by repeat split. Qed.

Lemma onlyService_trans root (st1 st2 st3 : ExtState Svc) :
  onlyService root st1 st2 → onlyService root st2 st3 → onlyService root st1 st3.
Proof.
  intros (Hv1 & He1 & Hs1) (Hv2 & He2 & Hs2). split; [congruence|].
  split; [congruence|]. intros other Hne. rewrite Hs2, Hs1; done.
Qed.

Lemma setService_onlyService root s (st : ExtState Svc) :
  onlyService root st (setService root s st).
Proof.
  split; [done|]. split; [done|]. intros other Hne. simpl.
  by rewrite lookup_insert_ne.
Qed.

Lemma getOrCreateLanguageService_frame root (st : ExtState Svc) res st' :
  getOrCreateLanguageService root st = (res, st') → onlyService root st st'.
Proof.
  unfold getOrCreateLanguageService. destruct (services st !! root).
  - intros [= <- <-]. apply onlyService_refl.
  - destruct (createLanguageService root); intros [= <- <-].
    + apply setService_onlyService.
    + apply onlyService_refl.
Qed.

Lemma onService_frame root op (st : ExtState Svc) res st' :
  onService root op st = (res, st') → onlyService root st st'.
Proof.
  unfold onService. destruct (services st !! root) as [s|].
  - destruct (op s); intros [= <- <-].
    + apply setService_onlyService.
    + apply onlyService_refl.
  - intros [= <- <-]. apply onlyService_refl.
Qed.

Lemma writeVirtualFiles_frame root file rawContent sqlNodes idx
    (st : ExtState Svc) res st' :
  writeVirtualFiles root file rawContent sqlNodes idx st = (res, st') →
  onlyService root st st'
  ∧ ∀ names, res = Ok names
             → names = map (virtualFileName file) (seq idx (length sqlNodes)).
Proof.
  revert idx st res st'. induction sqlNodes as [|found rest IH];
    intros idx st res st'.
  - simpl. intros [= <- <-]. split; [apply onlyService_refl|].
    by intros names [= <-].
  - cbn [writeVirtualFiles]. unfold mbind, M_bind, lift.
    destruct (newPosition _ _) as [pos|e];
      [|intros [= <- <-]; split; [apply onlyService_refl|done]].
    destruct (onService root _ st) as [[[]|e] st1] eqn:Hon;
      [|intros [= <- <-]; split; [by eapply onService_frame|done]].
    apply onService_frame in Hon.
    destruct (writeVirtualFiles root file rawContent rest (S idx) st1)
      as [[names|e] st2] eqn:Hw;
      apply IH in Hw as [Hframe Hnames]; intros [= <- <-].
    + split; [by eapply onlyService_trans|]. intros ? [= <-]. simpl.
      f_equal. by apply Hnames.
    + split; [by eapply onlyService_trans|done].
Qed.

Lemma deleteVirtualFiles_frame root unused (st : ExtState Svc) res st' :
  deleteVirtualFiles root unused st = (res, st') → onlyService root st st'.
Proof.
  revert st res st'. induction unused as [|k unused IH]; intros st res st'.
  - simpl. intros [= <- <-]. apply onlyService_refl.
  - cbn [deleteVirtualFiles]. unfold mbind, M_bind.
    destruct (onService root _ st) as [[[]|e] st1] eqn:Hon;
      apply onService_frame in Hon.
    + intros Hdel. apply IH in Hdel. by eapply onlyService_trans.
    + by intros [= <- <-].
Qed.

Lemma withVirtualDoc_index file sqlNodes idx n r :
  withVirtualDoc sqlNodes (virtualFileNames file n) idx = Ok r →
  map node r = sqlNodes
  ∧ ∀ i x, r !! i = Some x →
           index x = (idx + i)%nat
           ∧ vFileName x = virtualFileName file (idx + i).
Proof.
  revert idx r. induction sqlNodes as [|block rest IH]; intros idx r; simpl.
  - intros [= <-]. split; [done|]. by intros i x ?.
  - destruct (virtualFileNames file n !! idx) as [name|] eqn:Hname; [|done].
    destruct (withVirtualDoc rest (virtualFileNames file n) (S idx)) as [more|] eqn:Hm;
      [|done].
    simpl. intros [= <-]. apply IH in Hm as [Hnodes Hmore]. split.
    + simpl. by rewrite Hnodes.
    + intros [|i] x; simpl.
      * intros [= <-]. simpl. rewrite Nat.add_0_r. split; [done|].
        unfold virtualFileNames in Hname. rewrite list_lookup_fmap in Hname.
        destruct (seq 0 n !! idx) as [j|] eqn:Hj; [|done].
        apply lookup_seq in Hj as [-> _]. simpl in Hname. congruence.
      * intros Hx. apply Hmore in Hx. by rewrite <- Nat.add_succ_comm.
Qed.

(** The body of [refresh], step by step: what it may change and what it
    returns. *)
Lemma getWorkspaceConfig_frame {A} (setting : result (option A))
    (st : ExtState Svc) res st' :
  getWorkspaceConfig setting st = (res, st') →
  virtualContents st' = virtualContents st
  ∧ services st' = services st
  ∧ ∃ shown, errorMessages st' = errorMessages st ++ shown
      ∧ (shown = [] ∨ (setting = Ok None ∧ shown = [invalidSettingsMessage]))
      ∧ match res with
        | Ok config =>
            setting = Ok config
            ∧ shown = match config with
                      | Some _ => []
                      | None => [invalidSettingsMessage]
                      end
        | Throw _ => shown = []
        end.
Proof.
  destruct setting as [[output|]|e]; simpl; intros [= <- <-]; simpl.
  - split; [done|]. split; [done|]. exists []. rewrite app_nil_r. auto.
  - split; [done|]. split; [done|]. exists [invalidSettingsMessage]. auto.
  - split; [done|]. split; [done|]. exists []. rewrite app_nil_r. auto.
Qed.

Lemma refreshBody_frame setting doc (st : ExtState Svc) res st1 :
  refreshBody setting doc st = (res, st1) →
  (∃ shown, errorMessages st1 = errorMessages st ++ shown
     ∧ (shown = [] ∨ (setting = Ok None ∧ shown = [invalidSettingsMessage]))
     ∧ ∀ r, res = Ok r → ∃ config, setting = Ok config ∧ shown = settingMessages config)
  ∧ (∀ other, other ≠ workspaceFolder doc
              → services st1 !! other = services st !! other)
  ∧ match res with
    | Throw _ => virtualContents st1 = virtualContents st
    | Ok r =>
        if bool_decide (languageId doc = "python") then
          ∃ config sqlNodes,
            setting = Ok config
            ∧ extractSqlListPy (getText doc) (configFor doc config) = Ok sqlNodes
            ∧ map node r = sqlNodes
            ∧ (∀ i x, r !! i = Some x →
                 index x = i ∧ vFileName x = virtualFileName (fileName doc) i)
            ∧ virtualContents st1
              = <[fileName doc := virtualFileNames (fileName doc) (length sqlNodes)]>
                  (virtualContents st)
        else r = [] ∧ virtualContents st1 = virtualContents st
    end.
Proof.
  unfold refreshBody. unfold mbind at 1. unfold M_bind at 1.
  destruct (getOrCreateLanguageService (workspaceFolder doc) st) as [[[]|e] st0] eqn:Hget;
    apply getOrCreateLanguageService_frame in Hget as (Hv0 & He0 & Hs0);
    [|intros [= <- <-]; split; [|done]; exists []; rewrite app_nil_r; split; [done|];
      split; [by left|done]].
  unfold mbind at 1. unfold M_bind at 1.
  destruct (getWorkspaceConfig setting st0) as [[config|e] stc] eqn:Hcfg;
    apply getWorkspaceConfig_frame in Hcfg
      as (Hvc & Hsc & shown & Hec & Hshown & Hres);
    [|intros [= <- <-]; split; [|split; [|congruence]];
      [exists shown; split; [congruence|]; split; [done|done]
      |intros other Hne; rewrite Hsc; auto]].
  destruct Hres as [Hsetting Hconfig].
  assert (∃ shown0, errorMessages stc = errorMessages st ++ shown0
            ∧ (shown0 = [] ∨ (setting = Ok None ∧ shown0 = [invalidSettingsMessage]))
            ∧ shown0 = settingMessages config)
    as Hmsg.
  { exists shown. split; [congruence|]. split; [done|]. by rewrite Hconfig. }
  assert (∀ other, other ≠ workspaceFolder doc
                   → services stc !! other = services st !! other) as Hs0'.
  { intros other Hne. rewrite Hsc. auto. }
  assert (virtualContents stc = virtualContents st) as Hv0' by congruence.
  clear Hvc Hsc Hec Hshown Hconfig Hv0 He0 Hs0 shown.
  case_bool_decide as Hlang.
  2:{ unfold mret, M_ret. intros [= <- <-]. split; [|done].
      destruct Hmsg as (shown & ? & ? & Hall). exists shown.
      split; [done|]. split; [done|]. intros _ _. by exists config. }
  unfold mbind at 1. unfold M_bind at 1. unfold lift at 1.
  destruct (extractSqlListPy (getText doc) (configFor doc config)) as [sqlNodes|e]
    eqn:Hnodes.
  2:{ intros [= <- <-]. split; [|done].
      destruct Hmsg as (shown & ? & ? & _). exists shown. done. }
  unfold mbind at 1. unfold M_bind at 1. unfold gets at 1.
  unfold mbind at 1. unfold M_bind at 1.
  destruct (writeVirtualFiles _ _ _ sqlNodes 0 stc) as [[names|e] st2] eqn:Hw;
    apply writeVirtualFiles_frame in Hw as [(Hv2 & He2 & Hs2) Hnames].
  2:{ intros [= <- <-]. split; [|split; [|congruence]].
      - destruct Hmsg as (shown & ? & ? & _). exists shown.
        split; [congruence|done].
      - intros other Hne. rewrite Hs2, Hs0'; done. }
  specialize (Hnames _ eq_refl). subst names.
  unfold mbind at 1. unfold M_bind at 1.
  destruct (deleteVirtualFiles _ _ st2) as [[[]|e] st3] eqn:Hd;
    apply deleteVirtualFiles_frame in Hd as (Hv3 & He3 & Hs3).
  2:{ intros [= <- <-]. split; [|split; [|congruence]].
      - destruct Hmsg as (shown & ? & ? & _). exists shown.
        split; [congruence|done].
      - intros other Hne. rewrite Hs3, Hs2, Hs0'; done. }
  unfold mbind at 1. unfold M_bind at 1. unfold modify at 1. unfold lift.
  destruct (withVirtualDoc_ok (fileName doc) sqlNodes 0 (length sqlNodes))
    as (r & Hr & _); [lia|].
  change (map (virtualFileName (fileName doc)) (seq 0 (length sqlNodes)))
    with (virtualFileNames (fileName doc) (length sqlNodes)).
  rewrite Hr. intros [= <- <-]. simpl.
  split; [|split; [intros other Hne; rewrite Hs3, Hs2, Hs0'; done|]].
  { destruct Hmsg as (shown & ? & ? & Hall). exists shown.
    split; [congruence|]. split; [done|]. intros _ _. by exists config. }
  apply withVirtualDoc_index in Hr as [Hmap Hidx].
  exists config, sqlNodes. split; [done|]. split; [done|]. split; [done|].
  split; [exact Hidx|]. congruence.
Qed.

Lemma refresh_cases getWorkspaceConfig doc (st : ExtState Svc) :
  (∃ r st1, refreshBody getWorkspaceConfig doc st = (Ok r, st1)
            ∧ refresh getWorkspaceConfig doc st = (Ok r, st1))
  ∨ (∃ e st1, refreshBody getWorkspaceConfig doc st = (Throw e, st1)
              ∧ refresh getWorkspaceConfig doc st
                = (Ok [], {| virtualContents := virtualContents st1;
                             services := services st1;
                             errorMessages := errorMessages st1 ++ ["[refresh] " +:+ e] |})).
Proof.
  unfold refresh, try_catch.
  destruct (refreshBody getWorkspaceConfig doc st) as [[r|e] st1]; [left|right]; eauto.
Qed.

Lemma snoc_ne {A} (l : list A) x : l ++ [x] ≠ l.
Proof.
  intros Heq. apply (f_equal length) in Heq. rewrite length_app in Heq.
  simpl in Heq. lia.
Qed.

Lemma refresh_tag_ne e : "[refresh] " +:+ e ≠ invalidSettingsMessage.
Proof. done. Qed.

(** X9.  What a refresh that shows no error of its own returns for a Python
    document (the one message it may have shown is that the setting is
    refused): the fragments of the extraction in their order, the fragment at
    place [i] carrying the index [i] and the key [file@i.sql], and the key
    list of the file is from then on the list of these keys. *)
Theorem refresh_returns_fragments_with_keys
    (getWorkspaceConfig : result (option CustomRawSqlQuery))
    (doc : TextDocument) (st st' : ExtState Svc) (r : list SqlNodeWithVirtualDoc) :
  languageId doc = "python" →
  refresh getWorkspaceConfig doc st = (Ok r, st') →
  errorMessages st' = errorMessages st
  ∨ errorMessages st' = errorMessages st ++ [invalidSettingsMessage] →
  ∃ config sqlNodes,
    getWorkspaceConfig = Ok config
    ∧ extractSqlListPy (getText doc) (configFor doc config) = Ok sqlNodes
    ∧ map node r = sqlNodes
    ∧ (∀ i x, r !! i = Some x →
         index x = i ∧ vFileName x = virtualFileName (fileName doc) i)
    ∧ virtualContents st' !! fileName doc
      = Some (virtualFileNames (fileName doc) (length sqlNodes)).
Proof.
  intros Hlang Hrefresh Herr.
  destruct (refresh_cases getWorkspaceConfig doc st)
    as [(r1 & st1 & Hbody & Hr)|(e & st1 & Hbody & Hr)];
    rewrite Hr in Hrefresh; injection Hrefresh as <- <-;
    apply refreshBody_frame in Hbody as ((shown & He & Hshown & _) & _ & Hbody).
  - rewrite bool_decide_eq_true_2 in Hbody by done.
    destruct Hbody as (config & sqlNodes & Hc & Hn & Hmap & Hidx & Hvc).
    exists config, sqlNodes. repeat (split; [done|]).
    rewrite Hvc. apply lookup_insert_eq.
  - exfalso. simpl in Herr. rewrite He in Herr.
    destruct Herr as [Herr|Herr].
    + rewrite <- app_assoc in Herr.
      rewrite <- (app_nil_r (errorMessages st)) in Herr at 2.
      apply app_inv_head in Herr. by destruct shown.
    + rewrite <- app_assoc in Herr. apply app_inv_head in Herr.
      destruct Hshown as [->|[_ ->]]; [|done].
      apply (inj (λ x, [x])) in Herr. by apply refresh_tag_ne in Herr.
Qed.

(** X10.  A refresh that fails changes no key list.  When a step of the body
    of [refresh] throws (creating the service, reading the setting, writing
    or deleting a snapshot), [refresh] returns the empty list, the map of the
    key lists is as it was, and the last message shown is the exception with
    the tag of [refresh]; the only message that can come before it is the
    one for a setting that is refused. *)
Theorem failed_refresh_keeps_key_lists
    (setting : result (option CustomRawSqlQuery))
    (doc : TextDocument) (st st1 : ExtState Svc) (e : string) :
  refreshBody setting doc st = (Throw e, st1) →
  (refresh setting doc st).1 = Ok []
  ∧ virtualContents (refresh setting doc st).2 = virtualContents st
  ∧ ∃ shown, errorMessages (refresh setting doc st).2
             = errorMessages st ++ shown ++ ["[refresh] " +:+ e]
      ∧ (shown = [] ∨ (setting = Ok None ∧ shown = [invalidSettingsMessage])).
Proof.
  intros Hthrow. unfold refresh, try_catch. rewrite Hthrow. simpl.
  apply refreshBody_frame in Hthrow as ((shown & He & Hshown & _) & _ & Hvc).
  split; [done|]. split; [done|]. exists shown. split; [|done].
  by rewrite He, <- app_assoc.
Qed.

(** X11.  [refresh] touches the key list of no other file and the service of
    no other workspace folder, whether it fails or not. *)
Theorem refresh_touches_only_its_own
    (getWorkspaceConfig : result (option CustomRawSqlQuery))
    (doc : TextDocument) (st : ExtState Svc) :
  (∀ file, file ≠ fileName doc →
     virtualContents (refresh getWorkspaceConfig doc st).2 !! file
     = virtualContents st !! file)
  ∧ (∀ folder, folder ≠ workspaceFolder doc →
       services (refresh getWorkspaceConfig doc st).2 !! folder
       = services st !! folder).
Proof.
  destruct (refresh_cases getWorkspaceConfig doc st)
    as [(r1 & st1 & Hbody & Hr)|(e & st1 & Hbody & Hr)];
    rewrite Hr; simpl;
    apply refreshBody_frame in Hbody as (_ & Hs & Hbody).
  - split; [|done]. intros file Hfile. case_bool_decide.
    + destruct Hbody as (config & sqlNodes & _ & _ & _ & _ & ->).
      by rewrite lookup_insert_ne.
    + destruct Hbody as [_ ->]. done.
  - split; [|done]. intros file _. by rewrite Hbody.
Qed.

(** X12.  The key list recorded for a file is always the list of the keys
    of that file from index 0 on: [refresh] keeps this true, whatever it is
    given and whether it fails or not. *)
Theorem refresh_keeps_key_lists_well_formed
    (getWorkspaceConfig : result (option CustomRawSqlQuery))
    (doc : TextDocument) (st : ExtState Svc) :
  wellKeyed st → wellKeyed (refresh getWorkspaceConfig doc st).2.
Proof.
  intros Hwell.
  destruct (refresh_cases getWorkspaceConfig doc st)
    as [(r1 & st1 & Hbody & Hr)|(e & st1 & Hbody & Hr)];
    rewrite Hr; simpl;
    apply refreshBody_frame in Hbody as (_ & Hs & Hbody).
  - case_bool_decide.
    + destruct Hbody as (config & sqlNodes & _ & _ & _ & _ & Hvc).
      intros file names. rewrite Hvc.
      destruct (decide (file = fileName doc)) as [->|Hne].
      * rewrite lookup_insert_eq. intros [= <-]. eauto.
      * rewrite lookup_insert_ne by done. apply Hwell.
    + destruct Hbody as [_ Hvc]. intros file names. rewrite Hvc. apply Hwell.
  - intros file names. simpl. rewrite Hbody. apply Hwell.
Qed.

End RefreshFrame.

Lemma refresh_returns_fragments_with_keys_witness :
  ∃ config sqlNodes,
    Ok None = Ok config
    ∧ extractSqlListPy (getText usersDoc) (configFor usersDoc config) = Ok sqlNodes
    ∧ map node [ {| node := mkNode (txt "SELECT * FROM users") 0 16 0 35 0;
                    vFileName := "a.py@0.sql"; index := 0 |} ] = sqlNodes
    ∧ (∀ i x, [ {| node := mkNode (txt "SELECT * FROM users") 0 16 0 35 0;
                   vFileName := "a.py@0.sql"; index := 0 |} ] !! i = Some x →
         index x = i ∧ vFileName x = virtualFileName (fileName usersDoc) i)
    ∧ virtualContents (refresh (Ok None) usersDoc emptyState).2 !! fileName usersDoc
      = Some (virtualFileNames (fileName usersDoc) (length sqlNodes)).
Proof.
  apply (refresh_returns_fragments_with_keys (Ok None) usersDoc emptyState
           (refresh (Ok None) usersDoc emptyState).2
           [ {| node := mkNode (txt "SELECT * FROM users") 0 16 0 35 0;
                vFileName := "a.py@0.sql"; index := 0 |} ]).
  - reflexivity.
  - vm_compute. reflexivity.
  - right. vm_compute. reflexivity.
Defined.

Lemma failed_refresh_keeps_key_lists_witness :
  (@refresh unit failingService (Ok None) usersDoc
     {| virtualContents := ∅; services := ∅; errorMessages := [] |}).1 = Ok []
  ∧ virtualContents
      (@refresh unit failingService (Ok None) usersDoc
         {| virtualContents := ∅; services := ∅; errorMessages := [] |}).2 = ∅
  ∧ ∃ shown, errorMessages
               (@refresh unit failingService (Ok None) usersDoc
                  {| virtualContents := ∅; services := ∅; errorMessages := [] |}).2
             = [] ++ shown ++ ["[refresh] " +:+ "Error: write failed"]
      ∧ (shown = []
         ∨ (@Ok (option CustomRawSqlQuery) None = Ok None
            ∧ shown = [invalidSettingsMessage])).
Proof.
  apply (@failed_refresh_keeps_key_lists unit failingService (Ok None) usersDoc
           {| virtualContents := ∅; services := ∅; errorMessages := [] |}
           {| virtualContents := ∅; services := {[ Some "w" := tt ]};
              errorMessages := [invalidSettingsMessage] |}
           "Error: write failed").
  vm_compute. reflexivity.
Defined.

Lemma wellKeyed_emptyState : wellKeyed emptyState.
Proof. intros file names Hl. simpl in Hl. by rewrite lookup_empty in Hl. Qed.

Lemma refresh_keeps_key_lists_well_formed_witness :
  wellKeyed (refresh (Ok None) usersDoc emptyState).2.
Proof.
  apply (refresh_keeps_key_lists_well_formed (Ok None) usersDoc emptyState).
  intros file names Hl. simpl in Hl. by rewrite lookup_empty in Hl.
Defined.

(** ** [refresh] on the snapshot store *)

Lemma deleteAll_lookup keys (store : SnapshotStore) k :
  deleteAll keys store !! k = if bool_decide (k ∈ keys) then None else store !! k.
Proof.
  unfold deleteAll. revert store.
  induction keys as [|a keys IH]; intros store; cbn [foldl].
  - case_bool_decide as Hin; [by apply not_elem_of_nil in Hin|done].
  - rewrite IH. destruct (decide (k ∈ keys)) as [Hin|Hnin].
    + rewrite !bool_decide_eq_true_2; [done|by right|done].
    + rewrite (bool_decide_eq_false_2 (k ∈ keys)) by done.
      destruct (decide (k = a)) as [->|Hne].
      * rewrite lookup_delete_eq, bool_decide_eq_true_2; [done|left].
      * rewrite lookup_delete_ne by done.
        rewrite bool_decide_eq_false_2; [done|].
        intros [?|?]%elem_of_cons; done.
Qed.

Lemma unusedVirtualFiles_elem k lastNames names :
  k ∈ unusedVirtualFiles lastNames names ↔ k ∈ lastNames ∧ k ∉ names.
Proof.
  unfold unusedVirtualFiles. rewrite list_elem_of_filter. tauto.
Qed.

Lemma writeAll_lookup_notin file rawContent sqlNodes idx store k :
  k ∉ map (virtualFileName file) (seq idx (length sqlNodes)) →
  writeAll file rawContent sqlNodes idx store !! k = store !! k.
Proof.
  revert idx store. induction sqlNodes as [|found rest IH]; intros idx store Hk;
    simpl in *; [done|].
  rewrite IH by (intros Hin; apply Hk; by right).
  apply lookup_insert_ne. intros <-. apply Hk. left.
Qed.

Lemma writeAll_fixed file rawContent sqlNodes idx (store : SnapshotStore) :
  (∀ i found, sqlNodes !! i = Some found →
     store !! virtualFileName file (idx + i) = Some (fragmentText rawContent found)) →
  writeAll file rawContent sqlNodes idx store = store.
Proof.
  revert idx. induction sqlNodes as [|found rest IH]; intros idx Hall; simpl; [done|].
  rewrite insert_id.
  - apply IH. intros i f Hi. rewrite Nat.add_succ_comm. by apply Hall.
  - specialize (Hall 0%nat found eq_refl). by rewrite Nat.add_0_r in Hall.
Qed.

Lemma virtualFileNames_elem file n k :
  k ∈ virtualFileNames file n ↔ ∃ i, (i < n)%nat ∧ k = virtualFileName file i.
Proof.
  unfold virtualFileNames. rewrite list_elem_of_fmap. split.
  - intros (i & -> & Hi). apply list_elem_of_In, in_seq in Hi. exists i. split; [lia|done].
  - intros (i & Hi & ->). exists i. split; [done|].
    apply list_elem_of_In, in_seq. lia.
Qed.

Lemma extractSqlListPy_total sourceTxt configs :
  ∃ nodes, extractSqlListPy sourceTxt configs = Ok nodes.
Proof.
  unfold extractSqlListPy. destruct (extractSqlFromPython sourceTxt configs); eauto.
Qed.

Lemma refresh_store_lookup file rawContent sqlNodes lastNames (store : SnapshotStore) :
  let names := virtualFileNames file (length sqlNodes) in
  let store' := deleteAll (unusedVirtualFiles lastNames names)
                  (writeAll file rawContent sqlNodes 0 store) in
  (∀ i found, sqlNodes !! i = Some found →
     store' !! virtualFileName file i = Some (fragmentText rawContent found))
  ∧ (∀ key, key ∉ names →
       store' !! key = if bool_decide (key ∈ lastNames) then None else store !! key).
Proof.
  intros names store'. subst store'. split.
  - intros i found Hi. rewrite deleteAll_lookup.
    rewrite bool_decide_eq_false_2.
    + by apply (writeAll_lookup file rawContent sqlNodes 0 store i found).
    + rewrite unusedVirtualFiles_elem. intros [_ Hnot]. apply Hnot.
      apply virtualFileNames_elem. exists i. split; [|done].
      by eapply lookup_lt_Some.
  - intros key Hkey. rewrite deleteAll_lookup.
    destruct (decide (key ∈ lastNames)) as [Hin|Hnin].
    + rewrite !bool_decide_eq_true_2; [done..|]. by apply unusedVirtualFiles_elem.
    + rewrite !bool_decide_eq_false_2; [|done|].
      * by apply writeAll_lookup_notin.
      * rewrite unusedVirtualFiles_elem. tauto.
Qed.

Lemma replace_non_newlines_blanked s :
  replace_all_set (CNoneOf [LF]) [SP] s = blanked s.
Proof.
  unfold replace_all_set, blanked. induction s as [|c s IH]; [done|].
  cbn [flat_map map]. rewrite IH. unfold charset_mem, canon, existsb, ascii_eqb.
  destruct (decide (c = LF)) as [->|Hne].
  - by rewrite !bool_decide_eq_true_2.
  - rewrite !bool_decide_eq_false_2 by congruence. done.
Qed.

Lemma slice_from_start s (n : nat) : slice s 0 (Z.of_nat n) = take n s.
Proof.
  unfold slice, slice_index.
  destruct (Z.ltb_spec 0 0); [lia|]. destruct (Z.ltb_spec (Z.of_nat n) 0); [lia|].
  rewrite (Z.min_l 0) by lia. change (Z.to_nat 0) with 0%nat. rewrite drop_0.
  destruct (decide (n ≤ length s)%nat).
  - rewrite Z.min_l by lia. f_equal. lia.
  - rewrite Z.min_r by lia. rewrite !take_ge by lia. done.
Qed.

(** The text [refresh] writes is the host blanked up to the start of the
    fragment, followed by the content of the fragment. *)
Lemma fragmentText_blanked rawContent found :
  fragmentText rawContent found
  = blanked (take (offsetAt rawContent (start (code_range found))) rawContent)
    ++ content found.
Proof.
  unfold fragmentText, virtualText.
  by rewrite replace_non_newlines_blanked, slice_from_start.
Qed.

(** [refresh] on the snapshot store where it extracts nothing: the document
    is no Python document, or the setting cannot be read; and where the
    service cannot be created. *)
Lemma refresh_snapshot_nothing (setting : result (option CustomRawSqlQuery))
    (doc : TextDocument) (st : ExtState SnapshotStore) :
  serviceAvailable (workspaceFolder doc) st →
  languageId doc ≠ "python" ∨ (∃ e, setting = Throw e) →
  refresh setting doc st
  = (Ok [],
     {| virtualContents := virtualContents st;
        services := <[workspaceFolder doc :=
                        default ∅ (services st !! workspaceFolder doc)]> (services st);
        errorMessages :=
          errorMessages st
          ++ match setting with
             | Ok config => settingMessages config
             | Throw e => ["[refresh] " +:+ e]
             end |}).
Proof.
  intros Havail Hcase. unfold refresh, try_catch, refreshBody.
  unfold mbind at 1. unfold M_bind at 1.
  destruct (getOrCreateLanguageService_snapshot _ st Havail)
    as (st1 & -> & _ & Hvc & Herr & Hs & _).
  unfold mbind at 1. unfold M_bind at 1.
  destruct setting as [config|e].
  - rewrite getWorkspaceConfig_Ok.
    destruct Hcase as [Hlang|[e [=]]].
    rewrite bool_decide_eq_false_2 by done. unfold mret, M_ret. simpl.
    by rewrite Hvc, Herr, Hs.
  - simpl. unfold showErrorMessage, modify, mbind, M_bind, mret, M_ret. simpl.
    by rewrite Hvc, Herr, Hs.
Qed.

Lemma refresh_snapshot_unavailable (setting : result (option CustomRawSqlQuery))
    (doc : TextDocument) (st : ExtState SnapshotStore) :
  ¬ serviceAvailable (workspaceFolder doc) st →
  refresh setting doc st
  = (Ok [],
     {| virtualContents := virtualContents st; services := services st;
        errorMessages :=
          errorMessages st
          ++ ["[refresh] TypeError: Cannot read properties of undefined"] |}).
Proof.
  intros Hno. unfold refresh, try_catch, refreshBody.
  unfold mbind at 1. unfold M_bind at 1. unfold getOrCreateLanguageService.
  destruct (services st !! workspaceFolder doc) as [s|] eqn:Hs.
  { exfalso. apply Hno. right. by rewrite Hs. }
  destruct (workspaceFolder doc) as [folder|] eqn:Hroot.
  { exfalso. apply Hno. left. eauto. }
  done.
Qed.

Lemma serviceAvailable_dec {Svc} root (st : ExtState Svc) :
  {serviceAvailable root st} + {¬ serviceAvailable root st}.
Proof.
  unfold serviceAvailable. destruct root as [folder|].
  - left. left. eauto.
  - destruct (services st !! None) as [s|] eqn:Hs.
    + left. right. eauto.
    + right. intros [[? [=]]|[? [=]]].
Qed.

Lemma serviceAvailable_messages {Svc} root (st : ExtState Svc) vc svcs msgs :
  svcs = services st →
  serviceAvailable root {| virtualContents := vc; services := svcs;
                           errorMessages := msgs |}
  ↔ serviceAvailable root st.
Proof. intros ->. done. Qed.

(** X13.  [refresh] is idempotent on the snapshot store but for the messages:
    run again on the same document with the same setting, it returns the
    same list and leaves the key lists and the snapshots exactly as the
    first run left them, and it shows once more the messages the first run
    showed. *)
Theorem refresh_is_idempotent (setting : result (option CustomRawSqlQuery))
    (doc : TextDocument) (st : ExtState SnapshotStore) :
  let first := refresh setting doc st in
  let second := refresh setting doc first.2 in
  second.1 = first.1
  ∧ virtualContents second.2 = virtualContents first.2
  ∧ services second.2 = services first.2
  ∧ errorMessages second.2
    = errorMessages first.2 ++ drop (length (errorMessages st)) (errorMessages first.2).
Proof.
  intros first second. subst second first.
  destruct (serviceAvailable_dec (workspaceFolder doc) st) as [Havail|Hno].
  2:{ rewrite (refresh_snapshot_unavailable setting doc st Hno). cbn [snd].
      rewrite refresh_snapshot_unavailable by done.
      cbn [fst snd virtualContents services errorMessages].
      by rewrite drop_app_length. }
  destruct (decide (languageId doc = "python")) as [Hlang|Hlang].
  - destruct setting as [config|e].
    + destruct (extractSqlListPy_total (getText doc) (configFor doc config))
        as [sqlNodes Hnodes].
      destruct (refresh_snapshot config doc st sqlNodes Hlang Havail Hnodes)
        as (r & Heq & _ & _ & Hr).
      rewrite Heq. cbn [snd].
      match goal with
      | |- context [refresh _ _ ?st1] =>
          destruct (refresh_snapshot config doc st1 sqlNodes Hlang) as (r' & Heq' & _ & _ & Hr');
            [right; cbn [services]; rewrite lookup_insert_eq; eauto|done|]
      end.
      rewrite Heq'. cbn [fst snd virtualContents services errorMessages].
      rewrite !lookup_insert_eq. cbn [default].
      rewrite unusedVirtualFiles_same, !insert_insert_eq.
      assert (r' = r) as -> by congruence.
      split; [done|]. split; [done|]. split; [|by rewrite drop_app_length].
      f_equal. unfold deleteAll at 1. cbn [foldl].
      apply writeAll_fixed. intros i found Hi. simpl.
      by apply refresh_store_lookup.
    + rewrite (refresh_snapshot_nothing (Throw e) doc st) by eauto. cbn [snd].
      rewrite refresh_snapshot_nothing; [|right; cbn [services]; rewrite lookup_insert_eq; eauto|eauto].
      cbn [fst snd virtualContents services errorMessages].
      rewrite lookup_insert_eq. cbn [default].
      by rewrite insert_insert_eq, drop_app_length.
  - rewrite (refresh_snapshot_nothing setting doc st) by eauto. cbn [snd].
    rewrite refresh_snapshot_nothing; [|right; cbn [services]; rewrite lookup_insert_eq; eauto|eauto].
    cbn [fst snd virtualContents services errorMessages].
    rewrite lookup_insert_eq. cbn [default].
    by rewrite insert_insert_eq, drop_app_length.
Qed.

(** X14.  What a refresh of a Python document of a workspace folder leaves in
    the snapshot store of the folder: under the key of each index the host
    text up to the start of the fragment at that index, every character but
    the line feeds replaced by a space, followed by the content of that
    fragment; no entry for a key of the previous list of the file that is
    not a key of the new list; every other key as it was. *)
Theorem refresh_writes_and_deletes (config : option CustomRawSqlQuery)
    (doc : TextDocument) (st : ExtState SnapshotStore) (sqlNodes : list SqlNode) :
  languageId doc = "python" →
  is_Some (workspaceFolder doc) →
  extractSqlListPy (getText doc) (configFor doc config) = Ok sqlNodes →
  let names := virtualFileNames (fileName doc) (length sqlNodes) in
  let lastNames := default [] (virtualContents st !! fileName doc) in
  let store := default ∅ (services st !! workspaceFolder doc) in
  ∃ r store',
    (refresh (Ok config) doc st).1 = Ok r
    ∧ map node r = sqlNodes
    ∧ map vFileName r = names
    ∧ services (refresh (Ok config) doc st).2 !! workspaceFolder doc = Some store'
    ∧ (∀ i found, sqlNodes !! i = Some found →
         store' !! virtualFileName (fileName doc) i
         = Some (blanked (take (offsetAt (getText doc) (start (code_range found)))
                            (getText doc))
                 ++ content found))
    ∧ (∀ key, key ∈ lastNames → key ∉ names → store' !! key = None)
    ∧ (∀ key, key ∉ lastNames → key ∉ names → store' !! key = store !! key).
Proof.
  intros Hlang Hfolder Hnodes names lastNames store.
  destruct (refresh_snapshot config doc st sqlNodes Hlang (or_introl Hfolder) Hnodes)
    as (r & Heq & Hmap & Hkeys & _).
  rewrite Heq. cbn [fst snd services]. rewrite lookup_insert_eq.
  exists r. eexists. split; [done|]. split; [done|]. split; [done|]. split; [done|].
  destruct (refresh_store_lookup (fileName doc) (getText doc) sqlNodes lastNames store)
    as [Hwritten Hother].
  split; [|split].
  - intros i found Hi. rewrite <- fragmentText_blanked. by apply Hwritten.
  - intros key Hin Hnot. rewrite Hother by done. by rewrite bool_decide_eq_true_2.
  - intros key Hnin Hnot. rewrite Hother by done. by rewrite bool_decide_eq_false_2.
Qed.

Lemma refresh_writes_and_deletes_witness :
  let st := (refresh (Ok None) twoCallsDoc emptyState).2 in
  let names := virtualFileNames (fileName usersDoc) 1 in
  let lastNames := default [] (virtualContents st !! fileName usersDoc) in
  let store := default (∅ : SnapshotStore) (services st !! workspaceFolder usersDoc) in
  ∃ r store',
    (refresh (Ok None) usersDoc st).1 = Ok r
    ∧ map node r = [mkNode (txt "SELECT * FROM users") 0 16 0 35 0]
    ∧ map vFileName r = names
    ∧ services (refresh (Ok None) usersDoc st).2 !! workspaceFolder usersDoc
      = Some store'
    ∧ (∀ i found,
         [mkNode (txt "SELECT * FROM users") 0 16 0 35 0] !! i = Some found →
         store' !! virtualFileName (fileName usersDoc) i
         = Some (blanked (take (offsetAt (getText usersDoc) (start (code_range found)))
                            (getText usersDoc))
                 ++ content found))
    ∧ (∀ key, key ∈ lastNames → key ∉ names → store' !! key = None)
    ∧ (∀ key, key ∉ lastNames → key ∉ names → store' !! key = store !! key).
Proof.
  apply (refresh_writes_and_deletes None usersDoc
           (refresh (Ok None) twoCallsDoc emptyState).2
           [mkNode (txt "SELECT * FROM users") 0 16 0 35 0]).
  - reflexivity.
  - simpl. eauto.
  - vm_compute. reflexivity.
Defined.

(** The same run, as the store holds it: the file had two virtual documents
    and has one fragment now; the first document is rewritten, the second is
    deleted. *)
Example refresh_shrinks_the_store :
  services (refresh (Ok None) twoCallsDoc emptyState).2 !! Some "w"
  = Some {[ "a.py@0.sql" := txt "           SELECT 1";
            "a.py@1.sql" := txt "                     " ++ [LF]
                            ++ txt "         SELECT 2" ]}
  ∧ virtualContents (refresh (Ok None) twoCallsDoc emptyState).2 !! "a.py"
    = Some ["a.py@0.sql"; "a.py@1.sql"]
  ∧ refresh (Ok None) usersDoc (refresh (Ok None) twoCallsDoc emptyState).2
    = (Ok [ {| node := mkNode (txt "SELECT * FROM users") 0 16 0 35 0;
               vFileName := "a.py@0.sql"; index := 0 |} ],
       {| virtualContents := {[ "a.py" := ["a.py@0.sql"] ]};
          services :=
            {[ Some "w" := {[ "a.py@0.sql" := txt "                SELECT * FROM users" ]} ]};
          errorMessages := [invalidSettingsMessage; invalidSettingsMessage] |}).
Proof. repeat split; vm_compute; reflexivity. Qed.

(** ** The keys of two files never meet *)

Lemma pretty_N_char_not_at n : pretty_N_char n ≠ "@"%char.
Proof. unfold pretty_N_char. by repeat case_match. Qed.

Lemma pretty_N_go_no_at x s :
  "@"%char ∉ txt s → "@"%char ∉ txt (pretty_N_go x s).
Proof.
  revert s. induction (N.lt_wf_0 x) as [x _ IH]; intros s Hs.
  assert (x = 0 ∨ 0 < x)%N as [->|Hpos] by lia.
  - by rewrite pretty_N_go_0.
  - rewrite pretty_N_go_step by done. apply IH; [by apply N.div_lt|].
    unfold txt. simpl. intros [Heq|Hin]%elem_of_cons; [|done].
    by apply (pretty_N_char_not_at (x `mod` 10)%N).
Qed.

Lemma pretty_nat_no_at (n : nat) : "@"%char ∉ txt (pretty n).
Proof.
  unfold pretty, pretty_nat, pretty, pretty_N.
  destruct (decide (N.of_nat n = 0%N)).
  - vm_compute. intros Hin. apply elem_of_cons in Hin as [Hin|Hin]; [discriminate|].
    by apply not_elem_of_nil in Hin.
  - apply pretty_N_go_no_at. apply not_elem_of_nil.
Qed.

Lemma split_at_last {A} (x : A) a b a' b' :
  a ++ x :: b = a' ++ x :: b' → x ∉ b → x ∉ b' → a = a'.
Proof.
  revert a'. induction a as [|c a IH]; intros [|c' a']; simpl; intros Heq Hb Hb'.
  - done.
  - injection Heq as <- Heq. exfalso. apply Hb. rewrite Heq.
    apply elem_of_app. right. left.
  - injection Heq as -> Heq. exfalso. apply Hb'. rewrite <- Heq.
    apply elem_of_app. right. left.
  - injection Heq as -> Heq. f_equal. by eapply IH.
Qed.

Lemma virtualFileName_file f g i j :
  virtualFileName f i = virtualFileName g j → f = g.
Proof.
  unfold virtualFileName. intros Heq. apply (f_equal txt) in Heq.
  rewrite !txt_app in Heq. apply txt_inj.
  change (txt "@") with ["@"%char] in Heq. simpl in Heq.
  eapply split_at_last; [exact Heq| |].
  - intros [Hin|Hin]%elem_of_app; [by eapply pretty_nat_no_at|].
    vm_compute in Hin.
    repeat (apply elem_of_cons in Hin as [Hin|Hin]; [discriminate|]).
    by apply not_elem_of_nil in Hin.
  - intros [Hin|Hin]%elem_of_app; [by eapply pretty_nat_no_at|].
    vm_compute in Hin.
    repeat (apply elem_of_cons in Hin as [Hin|Hin]; [discriminate|]).
    by apply not_elem_of_nil in Hin.
Qed.

(** X15.  Refreshing one file never touches the virtual documents of another
    file: in a state whose key lists are well formed (the initial state is,
    and [refresh] keeps it so), the snapshot store of the workspace folder
    holds after the refresh, under every key of every other file, what it
    held before. *)
Theorem refresh_leaves_other_files_documents (config : option CustomRawSqlQuery)
    (doc : TextDocument) (st : ExtState SnapshotStore) (other : string) (j : nat) :
  wellKeyed st → other ≠ fileName doc →
  default ∅ (services (refresh (Ok config) doc st).2 !! workspaceFolder doc)
    !! virtualFileName other j
  = default ∅ (services st !! workspaceFolder doc) !! virtualFileName other j.
Proof.
  intros Hwell Hother.
  destruct (serviceAvailable_dec (workspaceFolder doc) st) as [Havail|Hno].
  2:{ by rewrite refresh_snapshot_unavailable. }
  destruct (decide (languageId doc = "python")) as [Hlang|Hlang].
  - destruct (extractSqlListPy_total (getText doc) (configFor doc config))
      as [sqlNodes Hnodes].
    destruct (refresh_snapshot config doc st sqlNodes Hlang Havail Hnodes)
      as (r & Heq & _).
    rewrite Heq. cbn [snd services]. rewrite lookup_insert_eq. cbn [default].
    destruct (refresh_store_lookup (fileName doc) (getText doc) sqlNodes
                (default [] (virtualContents st !! fileName doc))
                (default ∅ (services st !! workspaceFolder doc)))
      as [_ Hkey].
    rewrite Hkey.
    + rewrite bool_decide_eq_false_2; [done|].
      destruct (virtualContents st !! fileName doc) as [names|] eqn:Hnames;
        [|apply not_elem_of_nil].
      apply Hwell in Hnames as [n ->]. simpl.
      intros (i & _ & Hi)%virtualFileNames_elem.
      by apply virtualFileName_file in Hi.
    + intros (i & _ & Hi)%virtualFileNames_elem.
      by apply virtualFileName_file in Hi.
  - rewrite refresh_snapshot_nothing by eauto. cbn [snd services].
    by rewrite lookup_insert_eq.
Qed.

Lemma refresh_leaves_other_files_documents_witness :
  let st := (refresh (Ok None) otherFileDoc emptyState).2 in
  default ∅ (services (refresh (Ok None) usersDoc st).2 !! workspaceFolder usersDoc)
    !! virtualFileName "b.py" 0
  = default ∅ (services st !! workspaceFolder usersDoc) !! virtualFileName "b.py" 0.
Proof.
  apply (refresh_leaves_other_files_documents None usersDoc
           (refresh (Ok None) otherFileDoc emptyState).2 "b.py" 0).
  - intros file names.
    assert (virtualContents (refresh (Ok None) otherFileDoc emptyState).2
            = {[ "b.py" := ["b.py@0.sql"] ]}) as -> by (vm_compute; reflexivity).
    intros [<- <-]%lookup_singleton_Some. by exists 1%nat.
  - vm_compute. discriminate.
Defined.

(** The document of the other file is there before and after. *)
Example refresh_leaves_other_files_documents_example :
  let st := (refresh (Ok None) otherFileDoc emptyState).2 in
  default ∅ (services (refresh (Ok None) usersDoc st).2 !! Some "w") !! "b.py@0.sql"
  = Some (txt "                SELECT * FROM users").
Proof. vm_compute. reflexivity. Qed.

(** ** The white space [getPrefixAndSuffix] keeps *)

Lemma takeWhile_all p s : forallb p s = true → takeWhile p s = s.
Proof.
  induction s as [|c s IH]; simpl; [done|].
  intros [Hc Hs]%andb_true_iff. rewrite Hc. by rewrite IH.
Qed.

Lemma takeWhile_snoc p l c :
  takeWhile p (l ++ [c])
  = if forallb p l then (if p c then l ++ [c] else l) else takeWhile p l.
Proof.
  induction l as [|a l IH]; simpl; [by destruct (p c)|].
  destruct (p a); simpl; [|done]. rewrite IH. by destruct (forallb p l), (p c).
Qed.

Lemma forallb_rev p (s : text) : forallb p (rev s) = forallb p s.
Proof.
  induction s as [|c s IH]; simpl; [done|].
  rewrite forallb_app, IH. simpl. rewrite andb_true_r. apply andb_comm.
Qed.

Lemma trailingRun_cons p c s :
  trailingRun p (c :: s)
  = if forallb p (c :: s) then c :: s else trailingRun p s.
Proof.
  unfold trailingRun. simpl. rewrite takeWhile_snoc, forallb_rev.
  destruct (forallb p s) eqn:Hs, (p c) eqn:Hc; simpl.
  - rewrite rev_app_distr, rev_involutive. done.
  - rewrite takeWhile_all by (by rewrite forallb_rev). by rewrite !rev_involutive.
  - done.
  - done.
Qed.

Lemma trailingRun_split p s : s = dropEndRun p s ++ trailingRun p s.
Proof.
  unfold dropEndRun, trailingRun. rewrite <- rev_app_distr, take_drop_While.
  by rewrite rev_involutive.
Qed.

Lemma flat_map_nil {A B} (f : A → list B) (l : list A) :
  (∀ x, x ∈ l → f x = []) → flat_map f l = [].
Proof.
  induction l as [|a l IH]; simpl; [done|]. intros Hall.
  rewrite (Hall a) by left. apply IH. intros x Hx. apply Hall. by right.
Qed.

Lemma star_states_not_end p pos s caps st :
  forallb p s = false → st ∈ star_states p pos s caps → m_rest st ≠ [].
Proof.
  intros Hs Hst Hrest. apply star_states_end in Hst; [|done]. congruence.
Qed.

Lemma rx_run_eol_nil icase st : m_rest st ≠ [] → rx_run icase (RSeq REol REmpty) st = [].
Proof. simpl. by destruct (m_rest st). Qed.

Lemma rx_run_RSeq icase r1 r2 st :
  rx_run icase (RSeq r1 r2) st = flat_map (rx_run icase r2) (rx_run icase r1 st).
Proof. done. Qed.

Lemma rx_run_group_ws_star n pos s caps :
  rx_run false (RGroup n ws_star) (MState pos s caps)
  = map (λ st', MState (m_pos st') (m_rest st')
                  ((n, take (m_pos st' - pos) s) :: m_caps st'))
        (rev (star_states isSpace pos s caps)).
Proof. done. Qed.

Lemma rx_run_plus_blank pos s caps :
  rx_run false (RPlus (CChar SP)) (MState pos s caps)
  = rev (tail (star_states (ascii_eqb SP) pos s caps)).
Proof. done. Qed.

Lemma rx_run_eol_end icase pos caps :
  rx_run icase (RSeq REol REmpty) (MState pos [] caps) = [MState pos [] caps].
Proof. done. Qed.

(** The pattern for the white space at the end finds the longest run of
    white space that ends the text. *)
Lemma trailingSpacePattern_search pos s :
  ∃ m, rx_search false trailingSpacePattern pos s = Some m
       ∧ m_text m = trailingRun isSpace s.
Proof.
  revert pos. induction s as [|c s IH]; intros pos.
  { eexists. split; [reflexivity|]. cbn. apply take_nil. }
  rewrite trailingRun_cons.
  destruct (forallb isSpace (c :: s)) eqn:Hall.
  - destruct (star_states_rev isSpace pos (c :: s) []) as [l Hl].
    rewrite takeWhile_all in Hl by done.
    assert (dropWhile isSpace (c :: s) = []) as Hdrop.
    { apply dropWhile_nil_iff, Forall_forall. intros x Hx.
      apply (proj1 (forallb_forall _ _) Hall). by apply list_elem_of_In. }
    rewrite Hdrop in Hl.
    eexists. split.
    + eapply rx_search_head. unfold trailingSpacePattern, rseq, foldr.
      rewrite rx_run_RSeq, rx_run_group_ws_star, Hl.
      cbn [map flat_map m_pos m_rest m_caps]. rewrite rx_run_eol_end.
      cbn [app]. reflexivity.
    + cbn [m_text m_pos].
      replace (pos + length (c :: s) - pos)%nat with (length (c :: s)) by lia.
      by rewrite firstn_all.
  - destruct (IH (S pos)) as (m & Hm & Htext). exists m. split; [|done].
    cbn [rx_search]. rewrite <- Hm.
    assert (rx_run false trailingSpacePattern (MState pos (c :: s) []) = []) as ->;
      [|done].
    unfold trailingSpacePattern, rseq, foldr.
    rewrite rx_run_RSeq, rx_run_group_ws_star.
    apply flat_map_nil. intros x [y [-> Hy]]%list_elem_of_fmap.
    apply (proj1 (elem_of_rev _ _)) in Hy.
    apply rx_run_eol_nil. cbn [m_rest]. by eapply star_states_not_end.
Qed.

(** The pattern for the blanks at the end finds the longest run of blanks
    that ends the text, when there is one. *)
Lemma endBlanksPattern_search pos t :
  match trailingRun (ascii_eqb SP) t with
  | [] => rx_search false endBlanksPattern pos t = None
  | run =>
      rx_search false endBlanksPattern pos t
      = Some (RMatch (pos + (length t - length run)) run [])
  end.
Proof.
  revert pos. induction t as [|c t IH]; intros pos; [done|].
  rewrite trailingRun_cons.
  destruct (forallb (ascii_eqb SP) (c :: t)) eqn:Hall.
  - assert (ascii_eqb SP c = true ∧ forallb (ascii_eqb SP) t = true) as [Hc Ht]
      by (by apply andb_true_iff).
    destruct (star_states_rev (ascii_eqb SP) (S pos) t []) as [l Hl].
    rewrite takeWhile_all in Hl by done.
    assert (dropWhile (ascii_eqb SP) t = []) as Hdrop.
    { apply dropWhile_nil_iff, Forall_forall. intros x Hx.
      apply (proj1 (forallb_forall _ _) Ht). by apply list_elem_of_In. }
    rewrite Hdrop in Hl.
    erewrite rx_search_head.
    2:{ unfold endBlanksPattern, rseq, foldr.
        rewrite rx_run_RSeq, rx_run_plus_blank.
        cbn [star_states]. rewrite Hc. cbn [tail]. rewrite Hl.
        cbn [flat_map]. rewrite rx_run_eol_end. cbn [app]. reflexivity. }
    cbn [m_pos m_caps]. f_equal. f_equal; [lia|].
    replace (S pos + length t - pos)%nat with (length (c :: t)) by (simpl; lia).
    by rewrite firstn_all.
  - assert (rx_run false endBlanksPattern (MState pos (c :: t) []) = []) as Hrun.
    { unfold endBlanksPattern, rseq, foldr.
      rewrite rx_run_RSeq, rx_run_plus_blank.
      apply flat_map_nil. intros x Hx. apply (proj1 (elem_of_rev _ _)) in Hx.
      apply rx_run_eol_nil.
      eapply (star_states_not_end _ pos (c :: t) []); [exact Hall|].
      cbn [star_states] in *. by right. }
    specialize (IH (S pos)).
    destruct (trailingRun (ascii_eqb SP) t) as [|b run] eqn:Hrun'.
    + cbn [rx_search]. by rewrite Hrun.
    + cbn [rx_search]. rewrite Hrun, IH. f_equal. f_equal.
      pose proof (f_equal length (trailingRun_split (ascii_eqb SP) t)) as Hlen.
      rewrite length_app, Hrun' in Hlen. simpl in *. lia.
Qed.

Lemma endBlanksPattern_search_nil pos : rx_search false endBlanksPattern pos [] = None.
Proof. done. Qed.

Lemma endBlanks_replace t :
  rx_replace_all false endBlanksPattern [] t = dropEndRun (ascii_eqb SP) t.
Proof.
  unfold rx_replace_all.
  pose proof (endBlanksPattern_search 0 t) as Hsearch.
  pose proof (trailingRun_split (ascii_eqb SP) t) as Hsplit.
  destruct (trailingRun (ascii_eqb SP) t) as [|b run] eqn:Hrun.
  - cbn [rx_replace_from]. rewrite Hsearch. by rewrite app_nil_r in Hsplit.
  - remember (dropEndRun (ascii_eqb SP) t) as d eqn:Hd. clear Hd Hrun. subst t.
    cbn [rx_replace_from]. rewrite Hsearch. cbn [m_index m_text].
    replace (0 + (length (d ++ b :: run) - length (b :: run)) - 0)%nat
      with (length d) by (rewrite length_app; lia).
    rewrite take_app_length, drop_ge by (rewrite length_app; lia).
    replace (length (d ++ b :: run)) with (S (length d + length run))
      by (rewrite length_app; simpl; lia).
    cbn [length rx_replace_from]. rewrite endBlanksPattern_search_nil.
    by rewrite app_nil_r.
Qed.

Lemma trailingSpacePattern_match s :
  m_text <$> rx_match false trailingSpacePattern s = Some (trailingRun isSpace s).
Proof.
  unfold rx_match. destruct (trailingSpacePattern_search 0 s) as (m & -> & <-). done.
Qed.

(** X16.  What [getPrefixAndSuffix] returns for any content: the prefix is
    the white space the content starts with, without the blanks that end
    it; the suffix is the white space the content ends with. *)
Theorem getPrefixAndSuffix_spec (content : text) :
  getPrefixAndSuffix content
  = (dropEndRun (ascii_eqb SP) (takeWhile isSpace content),
     trailingRun isSpace content).
Proof.
  unfold getPrefixAndSuffix.
  pose proof (leadingSpacePattern_match content) as Hlead.
  pose proof (trailingSpacePattern_match content) as Htrail.
  destruct (rx_match false leadingSpacePattern content) as [m1|]; [|done].
  destruct (rx_match false trailingSpacePattern content) as [m2|]; [|done].
  simpl in Hlead, Htrail. injection Hlead as ->. injection Htrail as ->.
  by rewrite endBlanks_replace.
Qed.

(** A content without white space at either end has no prefix and no
    suffix. *)
Lemma getPrefixAndSuffix_trimmed raw :
  trim raw ≠ [] → getPrefixAndSuffix (trim raw) = ([], []).
Proof.
  intros Hne. unfold getPrefixAndSuffix.
  pose proof (leadingSpacePattern_match (trim raw)) as Hlead.
  pose proof (trailingSpacePattern_match (trim raw)) as Htrail.
  destruct (rx_match false leadingSpacePattern (trim raw)) as [m1|]; [|done].
  destruct (rx_match false trailingSpacePattern (trim raw)) as [m2|]; [|done].
  simpl in Hlead, Htrail. injection Hlead as ->. injection Htrail as ->.
  assert (takeWhile isSpace (trim raw) = []) as ->.
  { pose proof (trim_head raw) as Hh. destruct (trim raw) as [|c s]; [done|].
    simpl. by rewrite (Hh c eq_refl). }
  assert (trailingRun isSpace (trim raw) = []) as ->; [|done].
  unfold trailingRun. pose proof (trim_last raw) as Hl.
  rewrite <- (rev_involutive (trim raw)) in Hl. rewrite last_rev_head in Hl.
  destruct (rev (trim raw)) as [|c s]; [done|]. simpl.
  by rewrite (Hl c eq_refl).
Qed.

(** ** The format command on the fragments of a Python document *)

Section FormatExtracted.
Variable FormatOptionsWithLanguage : Type.
Variable format : text → option FormatOptionsWithLanguage → result text.
Variable getPositionOfLineAndCharacter : text → nat → Z → result Z.
Variable activeTextEditor : option TextEditor.

(** X17.  The format command on a fragment of the extraction, in a Python
    document and with the indentation setting off or unset: when the
    formatter accepts the content, exactly one replacement is registered,
    its range is the span of the fragment and its text is the output of the
    formatter, nothing added in front or behind. *)
Theorem formatSqlNode_replaces_span_with_formatted
    (doc : TextDocument) (configs : option CustomRawSqlQueryPy)
    (nodes : list SqlNode) (sqlNode : SqlNodeWithVirtualDoc)
    (options : option FormatOptionsWithLanguage) (enabled : option bool)
    (formatted : text) (edits : list TextEdit) :
  languageId doc = "python" →
  extractSqlListPy (getText doc) configs = Ok nodes →
  node sqlNode ∈ nodes →
  default false enabled = false →
  format (content (node sqlNode)) options = Ok formatted →
  formatSqlNode FormatOptionsWithLanguage format getPositionOfLineAndCharacter
    (Ok enabled) activeTextEditor sqlNode doc options edits
  = (Ok tt, edits ++ [ {| edit_range := code_range (node sqlNode);
                          newText := formatted |} ]).
Proof.
  intros Hlang Hnodes Hfound Henabled Hformat.
  pose proof (extractSqlListPy_Ok _ _ _ _ Hnodes Hfound) as Hpy.
  unfold extractSqlFromPython in Hpy.
  destruct (extractLines_member _ _ _ _ _ Hpy Hfound) as (i & config & Hi & Hline).
  apply list_elem_of_In, in_seq in Hi.
  destruct (extractSqlFromLine_within (split_newline (getText doc)) i config
              (node sqlNode)) as (l1 & l2 & _ & Hc1 & _ & Hc2 & _ & Hle);
    [lia|done|].
  assert (∃ raw, content (node sqlNode) = trim raw ∧ trim raw ≠ [])
    as (raw & Hcontent & Hne).
  { unfold extractSqlFromLine in Hline.
    destruct (extractSqlString _ config) as [[s|]|] eqn:Hs; simpl in Hline;
      [|done..].
    injection Hline as <-. cbn [content]. by eapply extractSqlString_trimmed. }
  assert (rx_test false blankPattern (content (node sqlNode)) = false) as Hblank.
  { destruct (rx_test false blankPattern (content (node sqlNode))) eqn:Hb; [|done].
    apply blankPattern_iff, trim_nil_iff in Hb.
    by rewrite Hcontent, trim_idemp in Hb. }
  assert (getPrefixAndSuffix (content (node sqlNode)) = ([], [])) as Hfix
    by (rewrite Hcontent; by apply getPrefixAndSuffix_trimmed).
  unfold formatSqlNode. rewrite Hblank, Hfix.
  rewrite bool_decide_eq_true_2 by done.
  unfold formatAndReplace, mbind, M_bind, lift. rewrite Hformat, Henabled.
  unfold mret, M_ret, newPosition.
  destruct (Z.ltb_spec (character (start (code_range (node sqlNode)))) 0); [lia|].
  destruct (Z.ltb_spec (character (end_ (code_range (node sqlNode)))) 0); [lia|].
  unfold replace, modify, newRange.
  destruct (code_range (node sqlNode)) as [[sl sc] [el ec]]. simpl in *.
  rewrite Hle. by rewrite app_nil_r.
Qed.

(** What [formatAndReplace] and [formatSqlNode] leave in the edit builder:
    the replacements that were there, and at most one more, for the range
    of the fragment. *)
Lemma formatAndReplace_edits isEnabledIndent sqlNode options prefix suffix edits :
  let out := (formatAndReplace FormatOptionsWithLanguage format isEnabledIndent
                activeTextEditor sqlNode options prefix suffix edits).2 in
  out = edits
  ∨ ∃ value, out = edits ++ [ {| edit_range :=
                                   newRange (start (code_range sqlNode))
                                            (end_ (code_range sqlNode));
                                 newText := value |} ].
Proof.
  unfold formatAndReplace, mbind, M_bind, lift.
  destruct isEnabledIndent as [enabled|]; [|by left].
  destruct (format _ _) as [formatted|]; [|by left].
  destruct (if default false enabled then _ else _) as [[out|] edits'] eqn:Hind.
  - assert (edits' = edits) as ->.
    { destruct (default false enabled); [|by injection Hind].
      by destruct (indentedContent _ _ _); injection Hind. }
    unfold newPosition.
    destruct (_ <? 0); [by left|]. destruct (_ <? 0); [by left|].
    right. eexists. unfold replace, modify. simpl.
    by destruct (code_range sqlNode) as [[] []].
  - left. simpl. destruct (default false enabled); [|done].
    by destruct (indentedContent _ _ _); injection Hind.
Qed.

Lemma formatSqlNode_edits isEnabledIndent sqlNode doc options edits :
  let out := (formatSqlNode FormatOptionsWithLanguage format
                getPositionOfLineAndCharacter isEnabledIndent activeTextEditor
                sqlNode doc options edits).2 in
  out = edits
  ∨ ∃ value, out = edits ++ [ {| edit_range := replacedRange sqlNode;
                                 newText := value |} ].
Proof.
  unfold formatSqlNode, replacedRange.
  destruct (rx_test false blankPattern _); [by left|].
  destruct (getPrefixAndSuffix _) as [prefix suffix].
  case_bool_decide; [apply formatAndReplace_edits|].
  unfold mbind, M_bind, lift.
  destruct (getPositions _ _ _ _ _) as [[startPosition endPosition]|]; [|by left].
  destruct (shouldSkipFormatting _ _ _); [by left|].
  apply formatAndReplace_edits.
Qed.

(** X18.  The loop of the format command only adds to the edit builder: the
    replacements registered before stay, in their order, and what is added
    is at most one replacement per fragment, in the order of the fragments,
    each for the range of its fragment.  This holds as well when a step
    throws: the replacements registered until then are those of the
    fragments before. *)
Theorem formatSqlNodes_only_appends (isEnabledIndent : result (option bool))
    (sqlNodes : list SqlNodeWithVirtualDoc) (doc : TextDocument)
    (options : option FormatOptionsWithLanguage) (edits : list TextEdit) :
  ∃ added,
    (formatSqlNodes FormatOptionsWithLanguage format getPositionOfLineAndCharacter
       isEnabledIndent activeTextEditor sqlNodes doc options edits).2
    = edits ++ added
    ∧ sublist (map edit_range added) (map replacedRange sqlNodes).
Proof.
  revert edits. induction sqlNodes as [|sqlNode rest IH]; intros edits.
  - exists []. simpl. by rewrite app_nil_r.
  - cbn [formatSqlNodes]. unfold mbind, M_bind.
    pose proof (formatSqlNode_edits isEnabledIndent sqlNode doc options edits) as Hone.
    destruct (formatSqlNode _ _ _ _ _ sqlNode doc options edits) as [[[]|e] edits1];
      simpl in Hone.
    + destruct (IH edits1) as (added & -> & Hsub).
      destruct Hone as [->|[value ->]].
      * exists added. split; [done|]. by apply sublist_cons.
      * eexists (_ :: added). rewrite <- app_assoc. split; [done|].
        simpl. by apply sublist_skip.
    + simpl. destruct Hone as [->|[value ->]].
      * exists []. rewrite app_nil_r. split; [done|]. apply sublist_nil_l.
      * eexists [_]. split; [done|]. simpl. apply sublist_skip, sublist_nil_l.
Qed.

Lemma linesLength_offsets lines a b :
  (a ≤ b ≤ length lines)%nat →
  linesLength lines a b
  = Z.of_nat (lineStartOffset lines b) - Z.of_nat (lineStartOffset lines a).
Proof.
  intros Hab. unfold linesLength.
  replace b with (a + (b - a))%nat at 2 by lia.
  assert (a + (b - a) ≤ length lines)%nat as Hle by lia.
  induction (b - a)%nat as [|n IH].
  - simpl. rewrite Nat.add_0_r. lia.
  - rewrite seq_S, foldl_app. cbn [foldl]. rewrite IH by lia.
    destruct (lookup_lt_is_Some_2 lines (a + n)) as [l Hl]; [lia|].
    rewrite Hl. simpl.
    replace (a + S n)%nat with (S (a + n)) by lia.
    rewrite (lineStartOffset_S _ _ _ Hl). lia.
Qed.

(** X19.  For a document that is neither TypeScript nor JavaScript,
    [getPositions] counts lines itself.  Provided the two ends of the span
    are positions of the document and the start is not on a later line than
    the end, the start it returns is the offset the editor gives to the
    start of the span, less the length of the prefix; the end it returns is
    the offset of the end of the span plus the length of the suffix, less
    the length of the prefix as well (the end is counted from the start
    already moved), where the branch for TypeScript adds the suffix only. *)
Theorem getPositions_are_document_offsets (sqlNode : SqlNode)
    (doc : TextDocument) (prefix suffix l1 l2 : text) :
  languageId doc ≠ "typescript" → languageId doc ≠ "javascript" →
  split_newline (getText doc) !! line (start (code_range sqlNode)) = Some l1 →
  0 ≤ character (start (code_range sqlNode)) ≤ Z.of_nat (length l1) →
  split_newline (getText doc) !! line (end_ (code_range sqlNode)) = Some l2 →
  0 ≤ character (end_ (code_range sqlNode)) ≤ Z.of_nat (length l2) →
  (line (start (code_range sqlNode)) ≤ line (end_ (code_range sqlNode)))%nat →
  getPositions getPositionOfLineAndCharacter sqlNode doc prefix suffix
  = Ok (Z.of_nat (offsetAt (getText doc) (start (code_range sqlNode)))
        - Z.of_nat (length prefix),
        Z.of_nat (offsetAt (getText doc) (end_ (code_range sqlNode)))
        - Z.of_nat (length prefix) + Z.of_nat (length suffix)).
Proof.
  intros Hts Hjs H1 Hc1 H2 Hc2 Hle. unfold getPositions.
  rewrite !bool_decide_eq_true_2 by done. cbn [andb].
  unfold offsetAt. rewrite H1, H2.
  apply lookup_lt_Some in H1 as Hlt1. apply lookup_lt_Some in H2 as Hlt2.
  rewrite !linesLength_offsets by lia. simpl.
  rewrite !Z.max_l by lia. rewrite !Z.min_l by lia.
  apply f_equal, pair_equal_spec. split; lia.
Qed.

End FormatExtracted.

Lemma formatSqlNode_replaces_span_with_formatted_witness :
  formatSqlNode unit formatIdentity positionOfLineAndCharacter (Ok None) None
    {| node := mkNode (txt "SELECT * FROM users") 0 16 0 35 0;
       vFileName := "a.py@0.sql"; index := 0 |} usersDoc None []
  = (Ok tt,
     [] ++ [ {| edit_range :=
                  code_range (node {| node := mkNode (txt "SELECT * FROM users") 0 16 0 35 0;
                                      vFileName := "a.py@0.sql"; index := 0 |});
                newText := txt "SELECT * FROM users" |} ]).
Proof.
  apply (formatSqlNode_replaces_span_with_formatted unit formatIdentity
           positionOfLineAndCharacter None usersDoc None
           [mkNode (txt "SELECT * FROM users") 0 16 0 35 0]).
  - reflexivity.
  - vm_compute. reflexivity.
  - left.
  - reflexivity.
  - reflexivity.
Defined.

Lemma getPositions_are_document_offsets_witness :
  getPositions positionOfLineAndCharacter
    (mkNode (txt "  SELECT 1") 1 3 1 13 0)
    (mkDoc "a.sql" "sql" (txt "-- q" ++ [LF] ++ txt "x('  SELECT 1')"))
    (txt "  ") []
  = Ok (Z.of_nat (offsetAt (txt "-- q" ++ [LF] ++ txt "x('  SELECT 1')")
                    (start (code_range (mkNode (txt "  SELECT 1") 1 3 1 13 0))))
        - Z.of_nat (length (txt "  ")),
        Z.of_nat (offsetAt (txt "-- q" ++ [LF] ++ txt "x('  SELECT 1')")
                    (end_ (code_range (mkNode (txt "  SELECT 1") 1 3 1 13 0))))
        - Z.of_nat (length (txt "  ")) + Z.of_nat (length ([] : text))).
Proof.
  apply (getPositions_are_document_offsets positionOfLineAndCharacter
           (mkNode (txt "  SELECT 1") 1 3 1 13 0)
           (mkDoc "a.sql" "sql" (txt "-- q" ++ [LF] ++ txt "x('  SELECT 1')"))
           (txt "  ") []
           (txt "x('  SELECT 1')") (txt "x('  SELECT 1')")).
  - vm_compute. discriminate.
  - vm_compute. discriminate.
  - reflexivity.
  - simpl. lia.
  - reflexivity.
  - simpl. lia.
  - simpl. lia.
Defined.

(** ** The fragment under the cursor *)

Lemma inRange_within position sqlNode :
  positionLe (start (code_range sqlNode)) position = true →
  positionLe position (end_ (code_range sqlNode)) = true →
  inRange position sqlNode = true.
Proof.
  unfold positionLe, inRange. cbv zeta.
  intros H1 H2.
  apply orb_true_iff in H1 as [H1|[H1 H1']%andb_true_iff];
    apply orb_true_iff in H2 as [H2|[H2 H2']%andb_true_iff].
  - by rewrite H1, H2.
  - rewrite Nat.eqb_sym in H2. rewrite H2, H2'. simpl. by rewrite !orb_true_r.
  - rewrite H1, H1'. simpl. by rewrite orb_true_r.
  - rewrite H1, H1'. simpl. by rewrite orb_true_r.
Qed.

(** X20.  The providers find a fragment whenever the cursor is inside one:
    if the position lies between the two ends of the span of some fragment
    of the list (the ends included), the search returns a fragment of the
    list that passes the test, namely the first one that does; and the line
    of the cursor is then among the lines of the span of that fragment, if
    its start line is not after its end line. *)
Theorem cursor_in_span_is_found (position : Position)
    (sqlNodes : list SqlNodeWithVirtualDoc) (inside : SqlNodeWithVirtualDoc) :
  inside ∈ sqlNodes →
  positionLe (start (code_range (node inside))) position = true →
  positionLe position (end_ (code_range (node inside))) = true →
  ∃ found before after,
    findSqlNode position sqlNodes = Some found
    ∧ sqlNodes = before ++ found :: after
    ∧ Forall (λ sqlNode, inRange position (node sqlNode) = false) before
    ∧ inRange position (node found) = true
    ∧ ((line (start (code_range (node found)))
        ≤ line (end_ (code_range (node found))))%nat →
       (line (start (code_range (node found))) ≤ line position
        ≤ line (end_ (code_range (node found))))%nat).
Proof.
  intros Hin H1 H2. pose proof (inRange_within _ _ H1 H2) as Hinside.
  clear H1 H2. unfold findSqlNode.
  induction sqlNodes as [|x rest IH]; [by apply not_elem_of_nil in Hin|].
  cbn [find]. destruct (inRange position (node x)) eqn:Hx.
  - exists x, [], rest. split; [done|]. split; [done|]. split; [constructor|].
    split; [done|]. intros Hle. unfold inRange in Hx. cbv zeta in Hx.
    repeat (apply orb_true_iff in Hx as [Hx|Hx]);
      apply andb_true_iff in Hx as [Ha Hb];
      repeat match goal with
             | H : (_ <? _)%nat = true |- _ => apply Nat.ltb_lt in H
             | H : (_ =? _)%nat = true |- _ => apply Nat.eqb_eq in H
             end; lia.
  - apply elem_of_cons in Hin as [->|Hin]; [congruence|].
    destruct (IH Hin) as (found & before & after & Hfind & -> & Hbefore & Hfound).
    exists found, (x :: before), after. split; [done|]. split; [done|].
    split; [by constructor|done].
Qed.

Lemma cursor_in_span_is_found_witness :
  ∃ found before after,
    findSqlNode {| line := 1; character := 3 |}
      [ {| node := mkNode (txt "SELECT 1") 0 18 2 0 0;
           vFileName := "a.py@0.sql"; index := 0 |} ] = Some found
    ∧ [ {| node := mkNode (txt "SELECT 1") 0 18 2 0 0;
           vFileName := "a.py@0.sql"; index := 0 |} ] = before ++ found :: after
    ∧ Forall (λ sqlNode, inRange {| line := 1; character := 3 |} (node sqlNode) = false)
        before
    ∧ inRange {| line := 1; character := 3 |} (node found) = true
    ∧ ((line (start (code_range (node found)))
        ≤ line (end_ (code_range (node found))))%nat →
       (line (start (code_range (node found)))
        ≤ line {| line := 1; character := 3 |}
        ≤ line (end_ (code_range (node found))))%nat).
Proof.
  apply (cursor_in_span_is_found {| line := 1; character := 3 |}
           [ {| node := mkNode (txt "SELECT 1") 0 18 2 0 0;
                vFileName := "a.py@0.sql"; index := 0 |} ]
           {| node := mkNode (txt "SELECT 1") 0 18 2 0 0;
              vFileName := "a.py@0.sql"; index := 0 |}).
  - left.
  - reflexivity.
  - reflexivity.
Defined.

(** X21.  The test of the providers takes the whole line for a fragment on
    a single line: when the span starts and ends on the line of the cursor
    (the start column not after the end column), the test passes at every
    column of that line, before the literal and after it as well. *)
Theorem cursor_test_accepts_whole_line (position : Position) (sqlNode : SqlNode) :
  line (start (code_range sqlNode)) = line position →
  line (end_ (code_range sqlNode)) = line position →
  character (start (code_range sqlNode)) ≤ character (end_ (code_range sqlNode)) →
  inRange position sqlNode = true.
Proof.
  intros Hs He Hle. unfold inRange. cbv zeta. rewrite Hs, He, !Nat.eqb_refl.
  destruct (Z.leb_spec (character (start (code_range sqlNode))) (character position));
    [by rewrite orb_true_r|].
  destruct (Z.leb_spec (character position) (character (end_ (code_range sqlNode))));
    [by rewrite !orb_true_r|lia].
Qed.

Lemma cursor_test_accepts_whole_line_witness :
  inRange {| line := 0; character := 0 |}
    (mkNode (txt "SELECT * FROM users") 0 16 0 35 0) = true.
Proof.
  apply (cursor_test_accepts_whole_line {| line := 0; character := 0 |}
           (mkNode (txt "SELECT * FROM users") 0 16 0 35 0)).
  - reflexivity.
  - reflexivity.
  - simpl. lia.
Defined.

(** ** The virtual document of the providers *)

Lemma nonSpace_mem c : charset_mem false (CNoneOf spaceChars) c = negb (isSpace c).
Proof. destruct c as [[] [] [] [] [] [] [] []]; vm_compute; reflexivity. Qed.

Lemma nonSpacePattern_search pos s :
  rx_search false nonSpacePattern pos s
  = match dropWhile isSpace s with
    | [] => None
    | c :: _ => Some (RMatch (pos + length (takeWhile isSpace s)) [c] [])
    end.
Proof.
  revert pos. induction s as [|c s IH]; intros pos; [done|].
  cbn [rx_search rx_run nonSpacePattern m_rest m_pos m_caps].
  rewrite nonSpace_mem. cbn [takeWhile dropWhile].
  destruct (isSpace c); cbn [negb].
  - rewrite IH. destruct (dropWhile isSpace s); [done|].
    simpl. by rewrite Nat.add_succ_r.
  - cbn [m_pos m_caps]. rewrite Nat.add_0_r.
    replace (S pos - pos)%nat with 1%nat by lia. done.
Qed.

(** The index the providers start the content at: the number of white space
    characters it starts with, or 0 when it is blank. *)
Lemma sqlContentStart_spec s :
  ∃ k : nat,
    (if 0 <=? search nonSpacePattern s then search nonSpacePattern s else 0)
    = Z.of_nat k
    ∧ (k ≤ length s)%nat
    ∧ (∀ c, head s = Some c → isSpace c = false → k = 0%nat).
Proof.
  unfold search, rx_match. rewrite nonSpacePattern_search.
  pose proof (take_drop_While isSpace s) as Hs.
  destruct (dropWhile isSpace s) as [|c r] eqn:Hdrop.
  - exists 0%nat. simpl. split; [done|]. split; [lia|done].
  - exists (length (takeWhile isSpace s)). cbn [m_index].
    destruct (Z.leb_spec 0 (Z.of_nat (0 + length (takeWhile isSpace s)))); [|lia].
    split; [by rewrite Nat.add_0_l|]. split.
    + rewrite <- Hs at 2. rewrite length_app. lia.
    + intros a Ha Hsp. destruct s as [|b s]; [done|]. simpl in Ha.
      injection Ha as ->. simpl. by rewrite Hsp.
Qed.

Lemma vContent_virtualText doc sqlNode :
  0 ≤ character (start (code_range sqlNode)) →
  ∃ k, (k ≤ length (content sqlNode))%nat
       ∧ (∀ c, head (content sqlNode) = Some c → isSpace c = false → k = 0%nat)
       ∧ vContent doc sqlNode
         = Ok (virtualText (getText doc)
                 (offsetAt (getText doc) (start (code_range sqlNode)) + k)
                 (drop k (content sqlNode))).
Proof.
  intros Hch. destruct (sqlContentStart_spec (content sqlNode)) as (k & Hk & Hlen & Hzero).
  exists k. split; [done|]. split; [done|].
  unfold vContent, newPosition.
  destruct (Z.ltb_spec (character (start (code_range sqlNode))) 0); [lia|].
  cbn [mbind result_mbind result_bind]. rewrite Hk.
  unfold virtualText, substring. rewrite Nat2Z.id, <- Nat2Z.inj_add.
  by destruct (start (code_range sqlNode)).
Qed.

(** X22.  The virtual document the hover and the linked-editing providers
    build is aligned with the host text when the content of the fragment is
    the host text at the start of the span, leading white space included:
    every offset up to the end of the content has then the same line and
    column in both texts (the white space the content starts with is blanked
    with the text before it, line feeds kept). *)
Theorem provider_document_is_aligned (doc : TextDocument) (sqlNode : SqlNode)
    (before after : text) (o : nat) :
  0 ≤ character (start (code_range sqlNode)) →
  getText doc = before ++ content sqlNode ++ after →
  offsetAt (getText doc) (start (code_range sqlNode)) = length before →
  (o ≤ length before + length (content sqlNode))%nat →
  ∃ v, vContent doc sqlNode = Ok v
       ∧ positionAt v o = positionAt (getText doc) o.
Proof.
  intros Hch Htext Hoff Ho.
  destruct (vContent_virtualText doc sqlNode Hch) as (k & Hk & _ & ->).
  eexists. split; [done|]. rewrite Hoff.
  replace (length before + k)%nat
    with (length (before ++ take k (content sqlNode)))
    by (rewrite length_app, length_take; lia).
  apply (virtualText_positions _ _ _ after).
  - rewrite Htext. rewrite <- (take_drop k (content sqlNode)) at 1.
    by rewrite <- !app_assoc.
  - rewrite length_app, length_take, length_drop. lia.
Qed.

Lemma provider_document_is_aligned_witness :
  ∃ v, vContent tripleQuotedDoc
         (mkNode (LF :: txt "SELECT 1" ++ [LF]) 0 18 2 0 0) = Ok v
       ∧ positionAt v 19 = positionAt (getText tripleQuotedDoc) 19.
Proof.
  apply (provider_document_is_aligned tripleQuotedDoc
           (mkNode (LF :: txt "SELECT 1" ++ [LF]) 0 18 2 0 0)
           (txt "cursor.execute(" ++ [DQ; DQ; DQ]) (DQ :: DQ :: DQ :: txt ")") 19).
  - simpl. lia.
  - reflexivity.
  - reflexivity.
  - simpl. lia.
Defined.

(** X23.  For the fragments of the extraction the providers build the very
    text that [refresh] writes: the content is trimmed, so the providers
    find no white space to skip at its start, and their document is the
    host text blanked up to the start of the span followed by the content. *)
Theorem provider_document_is_refresh_text (doc : TextDocument)
    (configs : option CustomRawSqlQueryPy) (nodes : list SqlNode) (found : SqlNode) :
  extractSqlListPy (getText doc) configs = Ok nodes → found ∈ nodes →
  vContent doc found = Ok (fragmentText (getText doc) found).
Proof.
  intros Hnodes Hfound.
  pose proof (extractSqlListPy_valid _ _ _ Hnodes) as Hvalid.
  apply (proj1 (Forall_forall _ _) Hvalid) in Hfound as Hrange.
  destruct Hrange as [Hch _].
  pose proof (extractSqlListPy_Ok _ _ _ _ Hnodes Hfound) as Hpy.
  unfold extractSqlFromPython in Hpy.
  destruct (extractLines_member _ _ _ _ _ Hpy Hfound) as (i & config & _ & Hline).
  assert (∃ raw, content found = trim raw ∧ trim raw ≠ []) as (raw & Hcontent & Hne).
  { unfold extractSqlFromLine in Hline.
    destruct (extractSqlString _ config) as [[s|]|] eqn:Hs; simpl in Hline;
      [|done..].
    injection Hline as <-. cbn [content]. by eapply extractSqlString_trimmed. }
  destruct (vContent_virtualText doc found Hch) as (k & _ & Hzero & ->).
  assert (k = 0%nat) as ->.
  { rewrite Hcontent in Hzero. pose proof (trim_head raw) as Hh.
    destruct (trim raw) as [|c s]; [done|]. apply (Hzero c eq_refl).
    by apply Hh. }
  by rewrite Nat.add_0_r, drop_0.
Qed.

Lemma provider_document_is_refresh_text_witness :
  vContent tripleQuotedDoc (mkNode (txt "SELECT 1") 0 18 2 0 0)
  = Ok (fragmentText (getText tripleQuotedDoc) (mkNode (txt "SELECT 1") 0 18 2 0 0)).
Proof.
  apply (provider_document_is_refresh_text tripleQuotedDoc None
           [mkNode (txt "SELECT 1") 0 18 2 0 0]).
  - vm_compute. reflexivity.
  - left.
Defined.

(** ** Writing the temporary buffer back *)

Lemma leadingWhitespacePattern_match s :
  matchedText leadingWhitespacePattern s = takeWhile isSpace s.
Proof.
  unfold matchedText, rx_match.
  destruct (star_states_rev (charset_mem false CSpace) 0 s []) as [l Hl].
  erewrite rx_search_head.
  2:{ unfold leadingWhitespacePattern, rseq, foldr, ws_star.
      cbn [rx_run m_pos m_rest m_caps Nat.eqb flat_map]. rewrite Hl.
      cbn [map flat_map app m_pos m_rest m_caps rx_run]. reflexivity. }
  cbn [m_text m_pos]. rewrite Nat.sub_0_r. simpl. apply take_takeWhile.
Qed.

Lemma rx_run_plus_nil icase cs st :
  (∀ c, head (m_rest st) = Some c → charset_mem icase cs c = false) →
  rx_run icase (RPlus cs) st = [].
Proof.
  intros Hh. cbn [rx_run]. destruct (m_rest st) as [|c s]; [done|].
  cbn [star_states]. by rewrite (Hh c eq_refl).
Qed.

Lemma trailingQuotesPattern_none pos s :
  Forall (λ c, charset_mem false quote3 c = false) s →
  rx_search false trailingQuotesPattern pos s = None.
Proof.
  intros Hs. revert pos.
  assert (∀ pos s', Forall (λ c, charset_mem false quote3 c = false) s' →
            rx_run false trailingQuotesPattern (MState pos s' []) = []) as Hrun.
  { intros pos s' Hs'. unfold trailingQuotesPattern, rseq, foldr.
    rewrite rx_run_RSeq, rx_run_plus_nil; [done|].
    cbn [m_rest]. intros c Hc. destruct s' as [|a s']; [done|].
    injection Hc as ->. by apply Forall_cons in Hs' as [? _]. }
  induction Hs as [|c s Hc Hs IH]; intros pos; cbn [rx_search].
  - by rewrite Hrun.
  - rewrite Hrun by (by constructor). apply IH.
Qed.

Lemma rx_run_bol_start icase s caps :
  rx_run icase RBol (MState 0 s caps) = [MState 0 s caps].
Proof. done. Qed.

Lemma rx_run_ws_star_eq icase pos s caps :
  rx_run icase ws_star (MState pos s caps) = rev (star_states isSpace pos s caps).
Proof. done. Qed.

Lemma leadingQuotesPattern_none s :
  Forall (λ c, charset_mem false quote3 c = false) s →
  rx_match false leadingQuotesPattern s = None.
Proof.
  intros Hs. unfold rx_match.
  assert (rx_run false leadingQuotesPattern (MState 0 s []) = []) as Hrun.
  { unfold leadingQuotesPattern, rseq, foldr.
    rewrite rx_run_RSeq, rx_run_bol_start. cbn [flat_map].
    rewrite app_nil_r, rx_run_RSeq, rx_run_ws_star_eq.
    apply flat_map_nil. intros y Hy.
    apply (proj1 (elem_of_rev _ _)) in Hy.
    apply star_states_spaces in Hy as (w & Hw & _ & _). cbn [m_rest] in Hw.
    rewrite rx_run_RSeq, rx_run_plus_nil; [done|].
    intros c Hc. rewrite Hw in Hs. apply Forall_app in Hs as [_ Hs].
    destruct (m_rest y) as [|a r]; [done|]. injection Hc as ->.
    by apply Forall_cons in Hs as [? _]. }
  destruct s as [|c s]; cbn [rx_search]; rewrite Hrun; [done|].
  apply (rx_search_bol_later false _ 1 s). lia.
Qed.

Lemma appendLines_later lead lines index acc :
  (0 < index)%nat →
  appendLines lead lines index acc
  = acc ++ flat_map (λ x, LF :: lead ++ x) lines.
Proof.
  revert index acc. induction lines as [|l lines IH]; intros index acc Hi; simpl.
  - by rewrite app_nil_r.
  - destruct index as [|index]; [lia|]. cbn [Nat.ltb Nat.leb].
    rewrite IH by lia. by rewrite <- !app_assoc.
Qed.

Lemma join_newline_flat_map l lines :
  join_newline (l :: lines) = l ++ flat_map (λ x, LF :: x) lines.
Proof.
  revert l. induction lines as [|l' lines IH]; intros l.
  - simpl. by rewrite app_nil_r.
  - change (join_newline (l :: l' :: lines)) with (l ++ LF :: join_newline (l' :: lines)).
    by rewrite IH.
Qed.

(** X24.  What the temporary-file command writes back when the text of the
    span holds no quote character (double, single or backtick): the lines
    of the saved buffer, every line after the first preceded by the white
    space the text of the span starts with.  When the text of the span
    starts with no white space, what is written back is the saved buffer
    itself. *)
Theorem syncBack_writes_the_buffer (originalText updatedSqlContent : text) :
  DQ ∉ originalText → SQ ∉ originalText → BQ ∉ originalText →
  newContent originalText updatedSqlContent
  = indentLater (takeWhile isSpace originalText) (split_newline updatedSqlContent)
  ∧ (takeWhile isSpace originalText = [] →
     newContent originalText updatedSqlContent = updatedSqlContent).
Proof.
  intros Hd Hs Hb.
  assert (Forall (λ c, charset_mem false quote3 c = false) originalText) as Hq.
  { apply Forall_forall. intros c Hc. unfold quote3. cbn [charset_mem canon existsb].
    rewrite orb_false_r.
    destruct (ascii_eqb DQ c) eqn:H1; [apply ascii_eqb_eq in H1; by subst|].
    destruct (ascii_eqb SQ c) eqn:H2; [apply ascii_eqb_eq in H2; by subst|].
    destruct (ascii_eqb BQ c) eqn:H3; [apply ascii_eqb_eq in H3; by subst|].
    done. }
  assert (newContent originalText updatedSqlContent
          = indentLater (takeWhile isSpace originalText)
              (split_newline updatedSqlContent)) as Heq.
  { unfold newContent, matchedText at 2 3.
    rewrite leadingQuotesPattern_none by done. unfold rx_match.
    rewrite trailingQuotesPattern_none by done.
    rewrite leadingWhitespacePattern_match, app_nil_r.
    destruct (split_newline updatedSqlContent) as [|l lines]; [done|].
    cbn [appendLines indentLater Nat.ltb Nat.leb app].
    by rewrite appendLines_later by lia. }
  split; [done|]. intros Hlead. rewrite Heq, Hlead.
  rewrite <- (join_split_newline updatedSqlContent) at 2.
  destruct (split_newline updatedSqlContent) as [|l lines]; [done|].
  by rewrite join_newline_flat_map.
Qed.

Lemma syncBack_writes_the_buffer_witness :
  newContent (txt "SELECT * FROM users") (txt "SELECT id" ++ [LF] ++ txt "FROM users")
  = indentLater (takeWhile isSpace (txt "SELECT * FROM users"))
      (split_newline (txt "SELECT id" ++ [LF] ++ txt "FROM users"))
  ∧ (takeWhile isSpace (txt "SELECT * FROM users") = [] →
     newContent (txt "SELECT * FROM users") (txt "SELECT id" ++ [LF] ++ txt "FROM users")
     = txt "SELECT id" ++ [LF] ++ txt "FROM users").
Proof.
  apply (syncBack_writes_the_buffer (txt "SELECT * FROM users")
           (txt "SELECT id" ++ [LF] ++ txt "FROM users")).
  - vm_compute. intros Hin.
    repeat (apply elem_of_cons in Hin as [Hin|Hin]; [discriminate|]).
    by apply not_elem_of_nil in Hin.
  - vm_compute. intros Hin.
    repeat (apply elem_of_cons in Hin as [Hin|Hin]; [discriminate|]).
    by apply not_elem_of_nil in Hin.
  - vm_compute. intros Hin.
    repeat (apply elem_of_cons in Hin as [Hin|Hin]; [discriminate|]).
    by apply not_elem_of_nil in Hin.
Defined.

(** ** The issues of an invalid setting *)

Lemma BaseIssue_forall_ind {A} (P : BaseIssue A → Prop) :
  (∀ report, P (Issue report None)) →
  (∀ report nested, Forall P nested → P (Issue report (Some nested))) →
  ∀ issue, P issue.
Proof.
  intros Hnone Hsome. fix IH 1. intros [report [nested|]]; [|apply Hnone].
  apply Hsome. revert nested. fix IHl 1. intros [|i nested].
  - constructor.
  - constructor; [apply IH|apply IHl].
Qed.

Lemma pushIssue_eq {A} (issue : BaseIssue A) :
  pushIssue issue
  = match issues issue with
    | Some nested => getIssuesRecursively nested
    | None => []
    end ++ [issue].
Proof.
  destruct issue as [report [nested|]]; reflexivity.
Qed.

Lemma countIssue_eq {A} (issue : BaseIssue A) :
  countIssue issue
  = S match issues issue with
      | Some nested => countIssues nested
      | None => 0%nat
      end.
Proof.
  destruct issue as [report [nested|]]; reflexivity.
Qed.

Lemma pushIssue_spec {A} (issue : BaseIssue A) :
  length (pushIssue issue) = countIssue issue
  ∧ ∀ x, x ∈ pushIssue issue ↔ inForest x [issue].
Proof.
  induction issue as [report|report nested IH] using BaseIssue_forall_ind.
  - split; [done|]. intros x. rewrite pushIssue_eq. simpl. split.
    + intros ->%list_elem_of_singleton. apply inForest_here. left.
    + intros Hin. inversion Hin as [? ? Hx|? parent sub ? Hp Hsub Hx]; subst.
      * done.
      * apply list_elem_of_singleton in Hp as ->. done.
  - assert (length (getIssuesRecursively nested) = countIssues nested
            ∧ ∀ x, x ∈ getIssuesRecursively nested ↔ inForest x nested) as [Hlen Hmem].
    { clear report. induction IH as [|i nested [Hl Hm] _ [IHl IHm]].
      - split; [done|]. intros x. split; [by intros ?%not_elem_of_nil|].
        intros Hin. inversion Hin as [? ? Hx|? parent sub ? Hp Hsub Hx]; subst.
        + done.
        + by apply not_elem_of_nil in Hp.
      - split.
        + unfold getIssuesRecursively in *. simpl. rewrite length_app, Hl, IHl. done.
        + intros x. unfold getIssuesRecursively in *. simpl. rewrite elem_of_app, Hm, IHm.
          split.
          * intros [Hin|Hin].
            -- inversion Hin as [? ? Hx|? parent sub ? Hp Hsub Hx]; subst.
               ++ apply list_elem_of_singleton in Hx as ->. apply inForest_here. left.
               ++ apply list_elem_of_singleton in Hp as ->.
                  eapply inForest_nested; [left|done..].
            -- inversion Hin as [? ? Hx|? parent sub ? Hp Hsub Hx]; subst.
               ++ apply inForest_here. by right.
               ++ eapply inForest_nested; [by right|done..].
          * intros Hin. inversion Hin as [? ? Hx|? parent sub ? Hp Hsub Hx]; subst.
            -- apply elem_of_cons in Hx as [->|Hx].
               ++ left. apply inForest_here. left.
               ++ right. by apply inForest_here.
            -- apply elem_of_cons in Hp as [->|Hp].
               ++ left. eapply inForest_nested; [left|done..].
               ++ right. by eapply inForest_nested. }
    split.
    + rewrite pushIssue_eq, countIssue_eq. simpl. rewrite length_app, Hlen. simpl. lia.
    + intros x. rewrite pushIssue_eq. simpl. rewrite elem_of_app, Hmem. split.
      * intros [Hin| ->%list_elem_of_singleton].
        -- eapply inForest_nested; [left|done..].
        -- apply inForest_here. left.
      * intros Hin. inversion Hin as [? ? Hx|? parent sub ? Hp Hsub Hx]; subst.
        -- right. done.
        -- apply list_elem_of_singleton in Hp as ->. simpl in Hsub.
           injection Hsub as <-. by left.
Qed.

(** X25.  [getIssuesRecursively] flattens the tree of issues without losing
    or repeating any: the list it returns holds exactly the issues of the
    forest (those of the list and those nested in them, at any depth), its
    length is the number of issues of the forest, and every issue comes
    right after the issues nested in it. *)
Theorem getIssuesRecursively_flattens {A} (l : list (BaseIssue A)) :
  length (getIssuesRecursively l) = countIssues l
  ∧ (∀ x, x ∈ getIssuesRecursively l ↔ inForest x l)
  ∧ (∀ before issue after, l = before ++ issue :: after →
       getIssuesRecursively l
       = getIssuesRecursively before
         ++ match issues issue with
            | Some nested => getIssuesRecursively nested
            | None => []
            end ++ [issue] ++ getIssuesRecursively after).
Proof.
  split; [|split].
  - induction l as [|i l IH]; [done|].
    unfold getIssuesRecursively in *. simpl.
    rewrite length_app, IH. by rewrite (proj1 (pushIssue_spec i)).
  - induction l as [|i l IH]; intros x.
    + split; [by intros ?%not_elem_of_nil|].
      intros Hin. inversion Hin as [? ? Hx|? parent sub ? Hp Hsub Hx]; subst.
      * done.
      * by apply not_elem_of_nil in Hp.
    + unfold getIssuesRecursively in *. simpl.
      rewrite elem_of_app, IH, (proj2 (pushIssue_spec i)). split.
      * intros [Hin|Hin].
        -- inversion Hin as [? ? Hx|? parent sub ? Hp Hsub Hx]; subst.
           ++ apply list_elem_of_singleton in Hx as ->. apply inForest_here. left.
           ++ apply list_elem_of_singleton in Hp as ->.
              eapply inForest_nested; [left|done..].
        -- inversion Hin as [? ? Hx|? parent sub ? Hp Hsub Hx]; subst.
           ++ apply inForest_here. by right.
           ++ eapply inForest_nested; [by right|done..].
      * intros Hin. inversion Hin as [? ? Hx|? parent sub ? Hp Hsub Hx]; subst.
        -- apply elem_of_cons in Hx as [->|Hx].
           ++ left. apply inForest_here. left.
           ++ right. by apply inForest_here.
        -- apply elem_of_cons in Hp as [->|Hp].
           ++ left. eapply inForest_nested; [left|done..].
           ++ right. by eapply inForest_nested.
  - intros before issue after ->. unfold getIssuesRecursively.
    rewrite flat_map_app. simpl. rewrite pushIssue_eq.
    by rewrite <- !app_assoc.
Qed.

(** ** Where the virtual document is aligned *)

(** X26.  Where the trimming takes nothing from the front, the virtual
    document [refresh] writes is aligned with the host: for a fragment of
    the entry point whose literal starts in the host with a character that
    is no white space, every offset from the start of the span to the end of
    the content has the same line and column in the host text and in the
    text written for the fragment. *)
Theorem virtual_document_aligned_without_leading_space
    (sourceTxt : text) (configs : option CustomRawSqlQueryPy)
    (nodes : list SqlNode) (found : SqlNode) (c : ascii) (o : nat) :
  extractSqlListPy sourceTxt configs = Ok nodes → found ∈ nodes →
  sourceTxt !! offsetAt sourceTxt (start (code_range found)) = Some c →
  isSpace c = false →
  (offsetAt sourceTxt (start (code_range found)) ≤ o
   ≤ offsetAt sourceTxt (start (code_range found)) + length (content found))%nat →
  positionAt (fragmentText sourceTxt found) o = positionAt sourceTxt o.
Proof.
  intros Hnodes Hfound Hc Hsp Ho.
  eapply fragment_positions_agree; [|done..]. by eapply extractSqlListPy_Ok.
Qed.

Lemma virtual_document_aligned_without_leading_space_witness :
  positionAt (fragmentText twoCallsTwoLines (mkNode (txt "SELECT 2") 1 9 1 17 1)) 33
  = positionAt twoCallsTwoLines 33.
Proof.
  apply (virtual_document_aligned_without_leading_space twoCallsTwoLines None
           [mkNode (txt "SELECT 1") 0 11 0 19 0; mkNode (txt "SELECT 2") 1 9 1 17 1]
           (mkNode (txt "SELECT 2") 1 9 1 17 1) "S"%char 33).
  - vm_compute. reflexivity.
  - right. left.
  - vm_compute. reflexivity.
  - vm_compute. reflexivity.
  - vm_compute. lia.
Defined.

(** ** Documents that are not Python *)

Section RefreshOther.
Context {Svc : Type} `{LanguageService Svc}.

(** X27.  [refresh] does nothing for a document that is not Python: it
    returns the empty list, changes no key list, and leaves the services as
    they are when the workspace folder of the document has one already
    (otherwise it creates that service, and nothing else). *)
Theorem refresh_ignores_other_documents
    (getWorkspaceConfig : result (option CustomRawSqlQuery))
    (doc : TextDocument) (st : ExtState Svc) :
  languageId doc ≠ "python" →
  (refresh getWorkspaceConfig doc st).1 = Ok []
  ∧ virtualContents (refresh getWorkspaceConfig doc st).2 = virtualContents st
  ∧ (is_Some (services st !! workspaceFolder doc) →
     services (refresh getWorkspaceConfig doc st).2 = services st).
Proof.
  intros Hlang. unfold refresh, try_catch, refreshBody.
  unfold mbind, M_bind, lift, mret, M_ret, getOrCreateLanguageService.
  rewrite bool_decide_eq_false_2 by done.
  destruct (services st !! workspaceFolder doc) as [s|] eqn:Hs.
  - destruct getWorkspaceConfig as [[config|]|e]; simpl; by repeat split.
  - destruct (createLanguageService (workspaceFolder doc)); simpl.
    + destruct getWorkspaceConfig as [[config|]|e]; simpl;
        (split; [done|]); (split; [done|]); by intros [? ?].
    + split; [done|]. split; [done|]. by intros [? ?].
Qed.

End RefreshOther.

Lemma refresh_ignores_other_documents_witness :
  let st := (refresh (Ok None) usersDoc emptyState).2 in
  (refresh (Ok None) typescriptDoc st).1 = Ok []
  ∧ virtualContents (refresh (Ok None) typescriptDoc st).2 = virtualContents st
  ∧ (is_Some (services st !! workspaceFolder typescriptDoc) →
     services (refresh (Ok None) typescriptDoc st).2 = services st).
Proof.
  apply (refresh_ignores_other_documents (Ok None) typescriptDoc
           (refresh (Ok None) usersDoc emptyState).2).
  vm_compute. discriminate.
Defined.

(** ** When the format command skips a fragment *)

Lemma quoteCharPattern_test c : rx_test false quoteCharPattern [c] = isQuote2 c.
Proof. destruct c as [[] [] [] [] [] [] [] []]; vm_compute; reflexivity. Qed.

Lemma quoteAt_iff sourceText i :
  quoteAt sourceText i = true
  ↔ ∃ c, charAt sourceText i = Some c ∧ (c = DQ ∨ c = SQ).
Proof.
  unfold quoteAt. destruct (charAt sourceText i) as [c|].
  - rewrite quoteCharPattern_test, isQuote2_iff. split.
    + intros Hc. by exists c.
    + by intros (c' & [= <-] & Hc).
  - split; [done|]. by intros (c & ? & _).
Qed.

(** X28.  [shouldSkipFormatting] skips exactly the quoted single-line
    strings of TypeScript and JavaScript: it answers yes if and only if the
    document is TypeScript or JavaScript, the character right before the
    start offset is a double or a single quote, and so is the character at
    the end offset.  Nothing is skipped in another language, and a literal
    between backticks is never skipped. *)
Theorem shouldSkipFormatting_iff (doc : TextDocument) (startPosition endPosition : Z) :
  shouldSkipFormatting doc startPosition endPosition = true
  ↔ (languageId doc = "typescript" ∨ languageId doc = "javascript")
    ∧ (∃ c, charAt (getText doc) (startPosition - 1) = Some c ∧ (c = DQ ∨ c = SQ))
    ∧ (∃ c, charAt (getText doc) endPosition = Some c ∧ (c = DQ ∨ c = SQ)).
Proof.
  unfold shouldSkipFormatting. cbv zeta.
  rewrite !andb_true_iff, orb_true_iff, !bool_decide_eq_true, !quoteAt_iff.
  tauto.
Qed.

(** ** The shape of the result of the extraction *)

Lemma extractLineConfigs_fragmentsOf lines i configs :
  Forall plainName configs →
  extractLineConfigs lines i (trim (default [] (lines !! i))) configs
  = Ok (flat_map (fragmentsOf lines i) configs).
Proof.
  induction 1 as [|config configs Hplain _ IH]; [done|].
  cbn [extractLineConfigs flat_map]. rewrite RegExp_name_plain by done.
  cbn [mbind result_mbind result_bind].
  unfold fragmentsOf at 1, callToken.
  destruct (rx_test false _ _); [|by rewrite IH].
  destruct (extractSqlFromLine_plain lines i config Hplain) as [r ->].
  cbn [mbind result_mbind result_bind]. rewrite IH. by destruct r.
Qed.

Lemma extractLines_fragmentsOf lines indices configs :
  Forall plainName configs →
  extractLines lines indices configs
  = Ok (flat_map (λ i, flat_map (fragmentsOf lines i) configs) indices).
Proof.
  intros Hplain. induction indices as [|i indices IH]; [done|].
  cbn [extractLines flat_map]. rewrite extractLineConfigs_fragmentsOf by done.
  cbn [mbind result_mbind result_bind]. by rewrite IH.
Qed.

Lemma flat_map_length_le {A B} (f : A → list B) (l : list A) n :
  (∀ x, length (f x) ≤ n)%nat → (length (flat_map f l) ≤ length l * n)%nat.
Proof.
  intros Hf. induction l as [|a l IH]; simpl; [lia|].
  rewrite length_app. specialize (Hf a). lia.
Qed.

(** X29.  The shape of the result of the extraction, for rule names free of
    pattern syntax (the defaults are): the fragments are gathered line by
    line and, for each line, rule by rule in the order of the rule list (the
    defaults when no list is given, no rule for an empty list), each rule
    giving at most one fragment per line; so there are never more fragments
    than lines times rules, and a rule listed twice gives its fragments
    twice. *)
Theorem extraction_is_line_by_line_rule_by_rule
    (sourceTxt : text) (configs : option CustomRawSqlQueryPy) :
  let lines := split_newline sourceTxt in
  let rules := default defaultConfigs configs in
  Forall plainName rules →
  extractSqlFromPython sourceTxt configs
  = Ok (flat_map (λ i, flat_map (fragmentsOf lines i) rules) (seq 0 (length lines)))
  ∧ (∀ i config, length (fragmentsOf lines i config) ≤ 1)%nat
  ∧ (∀ nodes, extractSqlFromPython sourceTxt configs = Ok nodes →
       length nodes ≤ length lines * length rules)%nat.
Proof.
  intros lines rules Hplain.
  assert (∀ i config, length (fragmentsOf lines i config) ≤ 1)%nat as Hone.
  { intros i config. unfold fragmentsOf.
    destruct (callToken _ _); [|simpl; lia].
    destruct (extractSqlFromLine lines i config) as [[found|]|]; simpl; lia. }
  unfold extractSqlFromPython. fold lines rules.
  rewrite extractLines_fragmentsOf by done.
  split; [done|]. split; [done|]. intros nodes [= <-].
  etrans; [apply (flat_map_length_le _ _ (length rules))|by rewrite length_seq].
  intros i. etrans; [apply (flat_map_length_le _ _ 1); apply Hone|lia].
Qed.

Lemma extraction_is_line_by_line_rule_by_rule_witness :
  let lines := split_newline twoRulesOneLine in
  let rules := default defaultConfigs None in
  extractSqlFromPython twoRulesOneLine None
  = Ok (flat_map (λ i, flat_map (fragmentsOf lines i) rules) (seq 0 (length lines)))
  ∧ (∀ i config, length (fragmentsOf lines i config) ≤ 1)%nat
  ∧ (∀ nodes, extractSqlFromPython twoRulesOneLine None = Ok nodes →
       length nodes ≤ length lines * length rules)%nat.
Proof.
  apply (extraction_is_line_by_line_rule_by_rule twoRulesOneLine None).
  repeat constructor.
Defined.

(** ** Calls that close on their line *)

Lemma convertPositionToLineChar_one_line (off : nat) base :
  convertPositionToLineChar (Z.of_nat off) [0%nat] base
  = {| line := base; character := Z.of_nat off |}.
Proof.
  unfold convertPositionToLineChar. cbn [length Nat.sub seq find default last].
  destruct (Z.leb_spec (Z.of_nat 0) (Z.of_nat off)); [|lia].
  cbn [lookup list_lookup default]. f_equal; [lia|]. simpl. lia.
Qed.

(** X30.  A call whose parentheses close on the line where it starts gives a
    fragment on that line: when the scanner of [extractSqlFromLine] has seen
    an opening parenthesis and counts no open parenthesis at the end of the
    line, only that line is collected, the two ends of the span are on it,
    and their columns are the two ends of a literal [raw] of the line whose
    trimmed form is the content. *)
Theorem call_closed_on_its_line_spans_that_line
    (lines : list text) (i : nat) (ln : text)
    (config : CustomRawSqlQueryPyItem) (found : SqlNode) :
  lines !! i = Some ln →
  foundFunction (scanLine ln scanStart) = true →
  parenthesesCount (scanLine ln scanStart) = 0 →
  extractSqlFromLine lines i config = Ok (Some found) →
  method_line found = i
  ∧ line (start (code_range found)) = i
  ∧ line (end_ (code_range found)) = i
  ∧ ∃ a raw b,
      ln = a ++ raw ++ b
      ∧ character (start (code_range found)) = Z.of_nat (length a)
      ∧ character (end_ (code_range found)) = Z.of_nat (length a + length raw)
      ∧ content found = trim raw.
Proof.
  intros Hln Hfound Hcount. unfold extractSqlFromLine.
  assert (drop i lines = ln :: drop (S i) lines) as ->
    by (by apply drop_S).
  cbn [collectCall]. rewrite Hfound, Hcount. cbn [andb Z.eqb app].
  cbn [fullLine lineOffsets].
  destruct (extractSqlString ln config) as [[s|]|] eqn:Hs; simpl; [|done..].
  intros [= <-]. cbn [method_line code_range start end_ content].
  apply extractSqlString_spec in Hs as (a & raw & b & Hcall & -> & -> & Hcontent).
  rewrite <- Nat2Z.inj_add, !convertPositionToLineChar_one_line. cbn [line character].
  split; [done|]. split; [done|]. split; [done|].
  exists a, raw, b. done.
Qed.

Lemma call_closed_on_its_line_spans_that_line_witness :
  method_line (mkNode (txt "SELECT 2") 1 9 1 17 1) = 1%nat
  ∧ line (start (code_range (mkNode (txt "SELECT 2") 1 9 1 17 1))) = 1%nat
  ∧ line (end_ (code_range (mkNode (txt "SELECT 2") 1 9 1 17 1))) = 1%nat
  ∧ ∃ a raw b,
      txt "b.query('SELECT 2')" = a ++ raw ++ b
      ∧ character (start (code_range (mkNode (txt "SELECT 2") 1 9 1 17 1)))
        = Z.of_nat (length a)
      ∧ character (end_ (code_range (mkNode (txt "SELECT 2") 1 9 1 17 1)))
        = Z.of_nat (length a + length raw)
      ∧ content (mkNode (txt "SELECT 2") 1 9 1 17 1) = trim raw.
Proof.
  apply (call_closed_on_its_line_spans_that_line (split_newline twoCallsTwoLines) 1
           (txt "b.query('SELECT 2')")
           {| functionName := txt "query"; sqlArgNo := 1; isStringTemplate := false |}
           (mkNode (txt "SELECT 2") 1 9 1 17 1)).
  - reflexivity.
  - reflexivity.
  - reflexivity.
  - vm_compute. reflexivity.
Defined.

(** ** A setting for another language *)

Section OtherLanguage.
Context {Svc : Type} `{LanguageService Svc}.

(** The steps of [refresh] that work on the service never read the messages
    shown so far. *)
Lemma onService_messages root op (st : ExtState Svc) msgs :
  onService root op (withMessages msgs st)
  = ((onService root op st).1, withMessages msgs (onService root op st).2).
Proof.
  unfold onService. simpl. destruct (services st !! root) as [s|]; [|done].
  by destruct (op s).
Qed.

Lemma writeVirtualFiles_messages root file rawContent sqlNodes idx
    (st : ExtState Svc) msgs :
  writeVirtualFiles root file rawContent sqlNodes idx (withMessages msgs st)
  = ((writeVirtualFiles root file rawContent sqlNodes idx st).1,
     withMessages msgs (writeVirtualFiles root file rawContent sqlNodes idx st).2).
Proof.
  revert idx st. induction sqlNodes as [|found rest IH]; intros idx st; [done|].
  cbn [writeVirtualFiles]. unfold mbind, M_bind, lift.
  destruct (newPosition _ _) as [pos|e]; [|done].
  rewrite onService_messages.
  destruct (onService root _ st) as [[[]|e] st1]; [|done].
  cbn [fst snd]. rewrite IH.
  by destruct (writeVirtualFiles root file rawContent rest (S idx) st1) as [[names|e] st2].
Qed.

Lemma deleteVirtualFiles_messages root unused (st : ExtState Svc) msgs :
  deleteVirtualFiles root unused (withMessages msgs st)
  = ((deleteVirtualFiles root unused st).1,
     withMessages msgs (deleteVirtualFiles root unused st).2).
Proof.
  revert st. induction unused as [|k unused IH]; intros st; [done|].
  cbn [deleteVirtualFiles]. unfold mbind, M_bind.
  rewrite onService_messages.
  destruct (onService root _ st) as [[[]|e] st1]; [|done].
  cbn [fst snd]. by rewrite IH.
Qed.

(** With a setting for another language the body of [refresh] runs as it
    does with no setting, but for the message that a setting is refused. *)
Lemma refreshBody_other_language (config : CustomRawSqlQuery) (doc : TextDocument)
    (st : ExtState Svc) :
  language config ≠ languageId doc →
  ∃ msgs,
    refreshBody (Ok None) doc st
    = ((refreshBody (Ok (Some config)) doc st).1,
       withMessages msgs (refreshBody (Ok (Some config)) doc st).2).
Proof.
  intros Hlang.
  assert (configFor doc (Some config) = None) as Hcfg.
  { unfold configFor. by rewrite bool_decide_eq_true_2. }
  unfold refreshBody, mbind, M_bind.
  destruct (getOrCreateLanguageService (workspaceFolder doc) st) as [[[]|e] st0].
  2:{ exists (errorMessages st0). by destruct st0. }
  rewrite !getWorkspaceConfig_Ok. rewrite app_nil_r, Hcfg.
  replace {| virtualContents := virtualContents st0; services := services st0;
             errorMessages := errorMessages st0 |} with st0 by (by destruct st0).
  change {| virtualContents := virtualContents st0; services := services st0;
            errorMessages := errorMessages st0 ++ [invalidSettingsMessage] |}
    with (withMessages (errorMessages st0 ++ [invalidSettingsMessage]) st0).
  exists (errorMessages st0 ++ [invalidSettingsMessage]).
  case_bool_decide; [|done].
  unfold lift, gets, modify. change (configFor doc None) with (@None CustomRawSqlQueryPy).
  destruct (extractSqlListPy (getText doc) None) as [sqlNodes|e]; [|done].
  cbn [withMessages virtualContents].
  rewrite writeVirtualFiles_messages.
  destruct (writeVirtualFiles _ _ _ sqlNodes 0 st0) as [[names|e] st2]; [|done].
  cbn [fst snd]. rewrite deleteVirtualFiles_messages.
  destruct (deleteVirtualFiles _ _ st2) as [[[]|e] st3]; [|done].
  cbn [fst snd].
  by destruct (withVirtualDoc sqlNodes names 0).
Qed.

(** C8.  A rule set configured for another language than the one of the
    document is treated as absent.  [refresh] returns the same list and
    leaves the same key lists and the same services as it does when reading
    the setting gives nothing (the one difference is the message shown for a
    setting that is refused).  For a Python document, what a refresh that
    shows no error returns is then what the default rules find: the
    fragments gathered line by line with the rules execute, executemany,
    query, raw and text, each with the first argument, whatever the rules of
    the setting are. *)
Theorem refresh_ignores_other_language_config
    (config : CustomRawSqlQuery) (doc : TextDocument) (st : ExtState Svc) :
  language config ≠ languageId doc →
  let lines := split_newline (getText doc) in
  (refresh (Ok (Some config)) doc st).1 = (refresh (Ok None) doc st).1
  ∧ virtualContents (refresh (Ok (Some config)) doc st).2
    = virtualContents (refresh (Ok None) doc st).2
  ∧ services (refresh (Ok (Some config)) doc st).2
    = services (refresh (Ok None) doc st).2
  ∧ (∀ r st', languageId doc = "python" →
       refresh (Ok (Some config)) doc st = (Ok r, st') →
       errorMessages st' = errorMessages st →
       map node r
       = flat_map (λ i, flat_map (fragmentsOf lines i) defaultConfigs)
           (seq 0 (length lines)))
  ∧ map (λ c, (functionName c, sqlArgNo c)) defaultConfigs
    = [ (txt "execute", 1%nat); (txt "executemany", 1%nat); (txt "query", 1%nat);
        (txt "raw", 1%nat); (txt "text", 1%nat) ].
Proof.
  intros Hlang lines.
  destruct (refreshBody_other_language config doc st Hlang) as [msgs Hnone].
  assert ((refresh (Ok (Some config)) doc st).1 = (refresh (Ok None) doc st).1
          ∧ virtualContents (refresh (Ok (Some config)) doc st).2
            = virtualContents (refresh (Ok None) doc st).2
          ∧ services (refresh (Ok (Some config)) doc st).2
            = services (refresh (Ok None) doc st).2) as (H1 & H2 & H3).
  { unfold refresh, try_catch. rewrite Hnone.
    by destruct (refreshBody (Ok (Some config)) doc st) as [[r|e] st1]. }
  split; [done|]. split; [done|]. split; [done|]. split; [|done].
  intros r st' Hpy Hrefresh Herr.
  destruct (refresh_cases (Ok (Some config)) doc st)
    as [(r1 & st1 & Hbody & Hr)|(e & st1 & Hbody & Hr)];
    rewrite Hr in Hrefresh; injection Hrefresh as <- <-;
    apply refreshBody_frame in Hbody as ((shown & He & Hshown & _) & _ & Hbody).
  - rewrite bool_decide_eq_true_2 in Hbody by done.
    destruct Hbody as (config' & sqlNodes & [= <-] & Hnodes & Hmap & _).
    rewrite Hmap. unfold configFor in Hnodes.
    rewrite bool_decide_eq_true_2 in Hnodes by done.
    unfold extractSqlListPy, extractSqlFromPython in Hnodes. fold lines in Hnodes.
    cbn [default] in Hnodes.
    rewrite extractLines_fragmentsOf in Hnodes by apply defaultConfigs_plain.
    by injection Hnodes as <-.
  - exfalso. simpl in Herr. rewrite He, <- app_assoc in Herr.
    rewrite <- (app_nil_r (errorMessages st)) in Herr at 2.
    apply app_inv_head in Herr. by destruct shown.
Qed.

End OtherLanguage.

Lemma refresh_ignores_other_language_config_witness :
  language typescriptSetting ≠ languageId selectAndExecuteDoc
  ∧ refresh (Ok (Some typescriptSetting)) selectAndExecuteDoc emptyState
    = (Ok [ {| node := mkNode (txt "SELECT 2") 1 16 1 24 1;
               vFileName := "a.py@0.sql"; index := 0 |} ],
       {| virtualContents := {[ "a.py" := ["a.py@0.sql"] ]};
          services :=
            {[ Some "w" :=
                 {[ "a.py@0.sql" :=
                      blanked (txt "conn.select('SELECT 1')") ++ [LF]
                      ++ blanked (txt "cursor.execute('") ++ txt "SELECT 2" ]} ]};
          errorMessages := [] |})
  ∧ (let lines := split_newline (getText selectAndExecuteDoc) in
     (refresh (Ok (Some typescriptSetting)) selectAndExecuteDoc emptyState).1
     = (refresh (Ok None) selectAndExecuteDoc emptyState).1
     ∧ virtualContents (refresh (Ok (Some typescriptSetting)) selectAndExecuteDoc emptyState).2
       = virtualContents (refresh (Ok None) selectAndExecuteDoc emptyState).2
     ∧ services (refresh (Ok (Some typescriptSetting)) selectAndExecuteDoc emptyState).2
       = services (refresh (Ok None) selectAndExecuteDoc emptyState).2
     ∧ (∀ r st', languageId selectAndExecuteDoc = "python" →
          refresh (Ok (Some typescriptSetting)) selectAndExecuteDoc emptyState = (Ok r, st') →
          errorMessages st' = errorMessages emptyState →
          map node r
          = flat_map (λ i, flat_map (fragmentsOf lines i) defaultConfigs)
              (seq 0 (length lines)))
     ∧ map (λ c, (functionName c, sqlArgNo c)) defaultConfigs
       = [ (txt "execute", 1%nat); (txt "executemany", 1%nat); (txt "query", 1%nat);
           (txt "raw", 1%nat); (txt "text", 1%nat) ]).
Proof.
  assert (language typescriptSetting ≠ languageId selectAndExecuteDoc) as Hlang
    by (vm_compute; discriminate).
  split; [done|]. split; [vm_compute; reflexivity|].
  apply (refresh_ignores_other_language_config typescriptSetting selectAndExecuteDoc
           emptyState Hlang).
Defined.

(** The same document with the same rule in a setting for Python: the rule
    of the setting is applied, and the default rules are not. *)
Example refresh_applies_same_language_config :
  (refresh (Ok (Some pythonSelectSetting)) selectAndExecuteDoc emptyState).1
  = Ok [ {| node := mkNode (txt "SELECT 1") 0 13 0 21 0;
            vFileName := "a.py@0.sql"; index := 0 |} ].
Proof. vm_compute. reflexivity. Qed.

(** ** The virtual documents of a file across two refreshes *)

(** A refresh of the snapshot store that returns fragments ran to its end. *)
Lemma refresh_nonempty_snapshot (setting : result (option CustomRawSqlQuery))
    (doc : TextDocument) (st : ExtState SnapshotStore)
    (r : list SqlNodeWithVirtualDoc) :
  (refresh setting doc st).1 = Ok r → r ≠ [] →
  ∃ config,
    setting = Ok config
    ∧ languageId doc = "python"
    ∧ serviceAvailable (workspaceFolder doc) st
    ∧ extractSqlListPy (getText doc) (configFor doc config) = Ok (map node r)
    ∧ map vFileName r = virtualFileNames (fileName doc) (length r)
    ∧ refresh setting doc st
      = (Ok r,
         {| virtualContents :=
              <[fileName doc := virtualFileNames (fileName doc) (length r)]>
                (virtualContents st);
            services :=
              <[workspaceFolder doc :=
                  deleteAll
                    (unusedVirtualFiles (default [] (virtualContents st !! fileName doc))
                       (virtualFileNames (fileName doc) (length r)))
                    (writeAll (fileName doc) (getText doc) (map node r) 0
                       (default ∅ (services st !! workspaceFolder doc)))]>
                (services st);
            errorMessages := errorMessages st ++ settingMessages config |}).
Proof.
  intros Hr Hne.
  destruct (serviceAvailable_dec (workspaceFolder doc) st) as [Havail|Hno].
  2:{ rewrite refresh_snapshot_unavailable in Hr by done. simpl in Hr. congruence. }
  destruct (decide (languageId doc = "python")) as [Hlang|Hlang].
  2:{ rewrite refresh_snapshot_nothing in Hr by eauto. simpl in Hr. congruence. }
  destruct setting as [config|e].
  2:{ rewrite refresh_snapshot_nothing in Hr by eauto. simpl in Hr. congruence. }
  destruct (extractSqlListPy_total (getText doc) (configFor doc config))
    as [sqlNodes Hnodes].
  destruct (refresh_snapshot config doc st sqlNodes Hlang Havail Hnodes)
    as (r' & Heq & Hmap & Hkeys & _).
  rewrite Heq in Hr. simpl in Hr. injection Hr as ->.
  assert (length sqlNodes = length r) as Hlen by (by rewrite <- Hmap, length_map).
  exists config. rewrite Hmap, <- Hlen. done.
Qed.

(** C3.  Two consecutive refreshes of the same file that return the same
    number of fragments, the content of a fragment having changed in between
    (so there is a fragment).  After the first the key list of the file is
    the list of the keys [file@index.sql], which are the keys of the
    fragments returned; the second leaves that list as it is and returns
    fragments with the same keys; every key of the backing store is still
    there; and under the key of each fragment it returns, the store holds the
    new host text blanked up to the start of the fragment (every character
    but the line feeds replaced by a space) followed by the new content of
    the fragment, whatever was there before.  The fragments returned are the
    ones extracted from the new text. *)
Theorem refresh_same_count_keeps_keys
    (setting1 setting2 : result (option CustomRawSqlQuery)) (doc1 doc2 : TextDocument)
    (st0 : ExtState SnapshotStore) (r1 r2 : list SqlNodeWithVirtualDoc) :
  fileName doc1 = fileName doc2 →
  workspaceFolder doc1 = workspaceFolder doc2 →
  let st1 := (refresh setting1 doc1 st0).2 in
  let st2 := (refresh setting2 doc2 st1).2 in
  (refresh setting1 doc1 st0).1 = Ok r1 →
  (refresh setting2 doc2 st1).1 = Ok r2 →
  r1 ≠ [] →
  length r2 = length r1 →
  let file := fileName doc2 in
  virtualContents st1 !! file = Some (virtualFileNames file (length r1))
  ∧ map vFileName r1 = virtualFileNames file (length r1)
  ∧ virtualContents st2 !! file = virtualContents st1 !! file
  ∧ map vFileName r2 = map vFileName r1
  ∧ ∃ store1 store2,
      services st1 !! workspaceFolder doc2 = Some store1
      ∧ services st2 !! workspaceFolder doc2 = Some store2
      ∧ (∀ key, is_Some (store1 !! key) → is_Some (store2 !! key))
      ∧ (∀ x, x ∈ r2 →
           store2 !! vFileName x
           = Some (blanked (take (offsetAt (getText doc2) (start (code_range (node x))))
                              (getText doc2))
                   ++ content (node x)))
      ∧ ∃ config2, setting2 = Ok config2
          ∧ extractSqlListPy (getText doc2) (configFor doc2 config2) = Ok (map node r2).
Proof.
  intros Hfile Hroot st1 st2 Hr1 Hr2 Hne Hlen file.
  destruct (refresh_nonempty_snapshot _ _ _ _ Hr1 Hne)
    as (config1 & -> & Hlang1 & Havail1 & Hnodes1 & Hkeys1 & Heq1).
  assert (r2 ≠ []) as Hne2 by (intros ->; destruct r1; simpl in Hlen; done).
  destruct (refresh_nonempty_snapshot _ _ _ _ Hr2 Hne2)
    as (config2 & -> & Hlang2 & Havail2 & Hnodes2 & Hkeys2 & Heq2).
  assert (virtualContents st1 !! file = Some (virtualFileNames file (length r1)))
    as Hlist1.
  { unfold st1, file. rewrite Heq1, <- Hfile. simpl. apply lookup_insert_eq. }
  fold file in Heq2, Hkeys2. rewrite Hlist1, Hlen in Heq2. cbn [default] in Heq2.
  rewrite unusedVirtualFiles_same in Heq2. unfold deleteAll in Heq2. cbn [foldl] in Heq2.
  split; [done|]. split; [unfold file; by rewrite <- Hfile|]. split.
  { unfold st2. rewrite Heq2. simpl. by rewrite lookup_insert_eq, Hlist1. }
  split. { rewrite Hkeys2, Hlen. unfold file. by rewrite <- Hfile. }
  assert (∃ store1, services st1 !! workspaceFolder doc2 = Some store1) as [store1 Hs1].
  { unfold st1. rewrite Heq1, <- Hroot. simpl. rewrite lookup_insert_eq. eauto. }
  exists store1. eexists. split; [done|]. split.
  { unfold st2. rewrite Heq2. simpl. apply lookup_insert_eq. }
  rewrite Hs1. cbn [default]. split; [|split].
  - intros key Hkey. by apply writeAll_keeps.
  - intros x [i Hi]%list_elem_of_lookup.
    assert (vFileName x = virtualFileName file i) as ->.
    { assert (map vFileName r2 !! i = Some (vFileName x)) as Hx
        by (by rewrite list_lookup_fmap, Hi).
      rewrite Hkeys2 in Hx. unfold virtualFileNames in Hx.
      rewrite list_lookup_fmap in Hx.
      destruct (seq 0 (length r2) !! i) as [j|] eqn:Hj; [|done].
      apply lookup_seq in Hj as [-> _]. simpl in Hx. congruence. }
    rewrite <- fragmentText_blanked.
    apply (writeAll_lookup file (getText doc2) (map node r2) 0 store1 i (node x)).
    by rewrite list_lookup_fmap, Hi.
  - by exists config2.
Qed.

Lemma refresh_same_count_keeps_keys_witness :
  let st1 := (refresh (Ok None) usersDoc emptyState).2 in
  let st2 := (refresh (Ok None) usersDocEdited st1).2 in
  let r1 := [ {| node := mkNode (txt "SELECT * FROM users") 0 16 0 35 0;
                 vFileName := "a.py@0.sql"; index := 0 |} ] in
  let r2 := [ {| node := mkNode (txt "SELECT name FROM users") 0 16 0 38 0;
                 vFileName := "a.py@0.sql"; index := 0 |} ] in
  let file := fileName usersDocEdited in
  virtualContents st1 !! file = Some (virtualFileNames file (length r1))
  ∧ map vFileName r1 = virtualFileNames file (length r1)
  ∧ virtualContents st2 !! file = virtualContents st1 !! file
  ∧ map vFileName r2 = map vFileName r1
  ∧ ∃ store1 store2,
      services st1 !! workspaceFolder usersDocEdited = Some store1
      ∧ services st2 !! workspaceFolder usersDocEdited = Some store2
      ∧ (∀ key, is_Some (store1 !! key) → is_Some (store2 !! key))
      ∧ (∀ x, x ∈ r2 →
           store2 !! vFileName x
           = Some (blanked (take (offsetAt (getText usersDocEdited)
                                    (start (code_range (node x))))
                              (getText usersDocEdited))
                   ++ content (node x)))
      ∧ ∃ config2, @Ok (option CustomRawSqlQuery) None = Ok config2
          ∧ extractSqlListPy (getText usersDocEdited) (configFor usersDocEdited config2)
            = Ok (map node r2).
Proof.
  apply (refresh_same_count_keeps_keys (Ok None) (Ok None) usersDoc usersDocEdited
           emptyState
           [ {| node := mkNode (txt "SELECT * FROM users") 0 16 0 35 0;
                vFileName := "a.py@0.sql"; index := 0 |} ]
           [ {| node := mkNode (txt "SELECT name FROM users") 0 16 0 38 0;
                vFileName := "a.py@0.sql"; index := 0 |} ]).
  - reflexivity.
  - reflexivity.
  - vm_compute. reflexivity.
  - vm_compute. reflexivity.
  - discriminate.
  - reflexivity.
Defined.

(** The two refreshes of the witness, as the store holds the document of the
    file after each of them. *)
Example refresh_same_count_rewrites_the_document :
  services (refresh (Ok None) usersDoc emptyState).2 !! Some "w"
  = Some {[ "a.py@0.sql" := blanked (txt "cursor.execute('") ++ txt "SELECT * FROM users" ]}
  ∧ services (refresh (Ok None) usersDocEdited
                (refresh (Ok None) usersDoc emptyState).2).2 !! Some "w"
    = Some {[ "a.py@0.sql" :=
                blanked (txt "cursor.execute('") ++ txt "SELECT name FROM users" ]}.
Proof. split; vm_compute; reflexivity. Qed.

(** ** The quoted pieces the keyword heuristic looks at *)

Lemma quote3_mem c : charset_mem false (COneOf [DQ; SQ; BQ]) c = isQuote3 c.
Proof. destruct c as [[] [] [] [] [] [] [] []]; vm_compute; reflexivity. Qed.

Lemma splitQuote_Some s before q rest :
  splitQuote s = Some (before, q, rest) →
  s = before ++ q :: rest ∧ isQuote3 q = true
  ∧ Forall (λ c, isQuote3 c = false) before.
Proof.
  revert before. induction s as [|c s IH]; intros before; simpl; [done|].
  destruct (isQuote3 c) eqn:Hc.
  - intros [= <- <- <-]. by repeat split.
  - destruct (splitQuote s) as [[[b q'] r]|]; [|done].
    intros [= <- <- <-]. destruct (IH b eq_refl) as (-> & Hq & Hb).
    split; [done|]. split; [done|]. by constructor.
Qed.

Lemma splitQuote_None s :
  splitQuote s = None → Forall (λ c, isQuote3 c = false) s.
Proof.
  induction s as [|c s IH]; simpl; [constructor|].
  destruct (isQuote3 c) eqn:Hc; [done|].
  destruct (splitQuote s) as [[[b q'] r]|]; [done|]. intros _. by constructor; auto.
Qed.

(** The pattern of the heuristic at a place: it fails where no quote
    character stands and where no quote character follows, and otherwise it
    stops at the first quote character that follows. *)
Lemma quotedPattern_no_quote pos s caps :
  match s with [] => True | c :: _ => isQuote3 c = false end →
  rx_run false quotedPattern (MState pos s caps) = [].
Proof.
  intros Hc. unfold quotedPattern, rseq, foldr. cbn [rx_run m_rest].
  destruct s as [|c s]; [done|]. by rewrite quote3_mem, Hc.
Qed.

Lemma quotedPattern_unclosed pos q rest caps :
  isQuote3 q = true → Forall (λ c, isQuote3 c = false) rest →
  rx_run false quotedPattern (MState pos (q :: rest) caps) = [].
Proof.
  intros Hq Hrest. unfold quotedPattern, rseq, foldr.
  cbn [rx_run m_rest m_pos m_caps]. rewrite quote3_mem, Hq.
  cbn [flat_map]. rewrite app_nil_r, flat_map_fmap.
  apply flat_map_nil. intros st Hst. cbn [m_pos m_rest m_caps].
  apply star_states_spaces in Hst as (w & Hw & _ & _). cbn [m_rest] in Hw.
  destruct (m_rest st) as [|c s'] eqn:Hs; [done|].
  rewrite quote3_mem. rewrite Hw in Hrest.
  apply Forall_app in Hrest as [_ Hrest]. apply Forall_cons in Hrest as [Hc _].
  by rewrite Hc.
Qed.

Lemma quotedPattern_first pos q inner q' rest :
  isQuote3 q = true → isQuote3 q' = true →
  Forall (λ c, isQuote3 c = false) inner →
  firstOf false quotedPattern (MState pos (q :: inner ++ q' :: rest) [])
    (MState (pos + 1 + length inner + 1) rest [(1%nat, inner)]).
Proof.
  intros Hq Hq' Hinner. unfold quotedPattern, rseq, foldr.
  eapply firstOf_seq; [apply firstOf_set; by rewrite quote3_mem|].
  apply firstOf_lazy_group.
  - apply Forall_forall. done.
  - intros u c v caps' ->. cbn [rx_run m_rest].
    apply Forall_app in Hinner as [_ Hinner].
    apply Forall_cons in Hinner as [Hc _]. by rewrite quote3_mem, Hc.
  - eapply firstOf_seq; [apply firstOf_set; by rewrite quote3_mem|].
    match goal with
    | |- firstOf _ REmpty (MState ?p _ _) (MState ?p' _ _) =>
        replace p' with p by lia
    end.
    apply firstOf_empty.
Qed.

(** The leftmost match of the pattern from a place on. *)
Lemma quotedPattern_search pos s :
  rx_search false quotedPattern pos s
  = match splitQuote s with
    | None => None
    | Some (before, q, rest) =>
        match splitQuote rest with
        | None => None
        | Some (inner, q', _) =>
            Some (RMatch (pos + length before) (q :: inner ++ [q']) [(1%nat, inner)])
        end
    end.
Proof.
  revert pos. induction s as [|c s IH]; intros pos; [done|].
  cbn [splitQuote]. destruct (isQuote3 c) eqn:Hc.
  - destruct (splitQuote s) as [[[inner q'] rest']|] eqn:Hs.
    + apply splitQuote_Some in Hs as (-> & Hq' & Hinner).
      destruct (quotedPattern_first pos c inner q' rest' Hc Hq' Hinner) as [l Hrun].
      rewrite (rx_search_head _ _ _ _ _ _ Hrun). cbn [m_pos m_caps length].
      rewrite Nat.add_0_r. do 2 f_equal.
      replace (pos + 1 + length inner + 1 - pos)%nat with (S (length inner + 1)) by lia.
      cbn [take]. f_equal.
      change (q' :: rest') with ([q'] ++ rest').
      rewrite app_assoc, take_app_length'; [done|]. rewrite length_app. simpl. lia.
    + pose proof (splitQuote_None _ Hs) as Hnone.
      cbn [rx_search]. rewrite quotedPattern_unclosed by done.
      apply IH.
  - cbn [rx_search]. rewrite quotedPattern_no_quote by done.
    rewrite IH. destruct (splitQuote s) as [[[before q] rest]|]; [|done].
    cbn [length]. destruct (splitQuote rest) as [[[inner q'] rest']|]; [|done].
    by rewrite Nat.add_succ_r.
Qed.

Lemma quotedPiecesFrom_opened piece s :
  quotedPiecesFrom (Some piece) s
  = match splitQuote s with
    | None => []
    | Some (inner, q', rest) =>
        (rev piece ++ inner ++ [q']) :: quotedPiecesFrom None rest
    end.
Proof.
  revert piece. induction s as [|c s IH]; intros piece; [done|].
  cbn [quotedPiecesFrom splitQuote]. destruct (isQuote3 c).
  - done.
  - rewrite IH. destruct (splitQuote s) as [[[inner q'] rest]|]; [|done].
    simpl. by rewrite <- app_assoc.
Qed.

Lemma quotedPieces_split s :
  quotedPieces s
  = match splitQuote s with
    | None => []
    | Some (_, q, rest) =>
        match splitQuote rest with
        | None => []
        | Some (inner, q', rest') => (q :: inner ++ [q']) :: quotedPieces rest'
        end
    end.
Proof.
  unfold quotedPieces. induction s as [|c s IH]; [done|].
  cbn [quotedPiecesFrom splitQuote]. destruct (isQuote3 c).
  - by rewrite quotedPiecesFrom_opened.
  - rewrite IH. by destruct (splitQuote s) as [[[before q] rest]|].
Qed.

(** The matches of the pattern with the [g] flag are the quoted pieces. *)
Lemma quotedPattern_all fuel pos s :
  (length s < fuel)%nat →
  rx_all_from fuel false quotedPattern pos s = quotedPieces s.
Proof.
  revert pos s. induction fuel as [|fuel IH]; intros pos s Hfuel; [lia|].
  cbn [rx_all_from]. rewrite quotedPattern_search, quotedPieces_split.
  destruct (splitQuote s) as [[[before q] rest]|] eqn:Hs; [|done].
  destruct (splitQuote rest) as [[[inner q'] rest']|] eqn:Hrest; [|done].
  apply splitQuote_Some in Hs as (-> & _ & _).
  apply splitQuote_Some in Hrest as (-> & _ & _).
  cbn [m_text m_index].
  rewrite (bool_decide_eq_false_2 (q :: inner ++ [q'] = [])) by done. f_equal.
  assert (pos + length before + length (q :: inner ++ [q']) - pos
          = length (before ++ q :: inner ++ [q']))%nat as ->.
  { rewrite !length_app. simpl. rewrite length_app. simpl. lia. }
  rewrite bool_decide_eq_false_2.
  2:{ rewrite !length_app. simpl. rewrite !length_app. simpl. lia. }
  assert (before ++ q :: inner ++ q' :: rest'
          = (before ++ q :: inner ++ [q']) ++ rest') as ->.
  { rewrite <- !app_assoc. simpl. by rewrite <- !app_assoc. }
  rewrite drop_app_length. apply IH.
  rewrite length_app in Hfuel. cbn [length] in Hfuel.
  rewrite length_app in Hfuel. cbn [length] in Hfuel. lia.
Qed.

Lemma quotedSubstrings_pieces call : quotedSubstrings call = quotedPieces call.
Proof.
  unfold quotedSubstrings, rx_match_all. rewrite quotedPattern_all by lia.
  by destruct (quotedPieces call).
Qed.

Lemma slice_unquoted piece : slice piece 1 (-1) = unquoted piece.
Proof.
  unfold unquoted, slice, slice_index.
  destruct piece as [|c [|c' piece]]; [done..|].
  cbn [tail]. rewrite removelast_firstn_len.
  cbn [length]. destruct (Z.ltb_spec 1 0); [lia|].
  destruct (Z.ltb_spec (-1) 0); [|lia].
  rewrite Z.min_l, Z.max_l by lia.
  change (Z.to_nat 1) with 1%nat. cbn [drop]. f_equal. lia.
Qed.

Lemma includes_occursIn s needle : includes s needle = true ↔ occursIn needle s.
Proof.
  unfold includes, indexOf, occursIn. rewrite bool_decide_eq_true.
  replace (Z.to_nat (Z.min (Z.max 0 0) (Z.of_nat (length s)))) with 0%nat by lia.
  rewrite drop_0. split.
  - destruct (indexOf_go needle s 0) as [i|] eqn:Hi; [|done].
    intros _. apply indexOf_go_sound in Hi as (a & b & -> & _). eauto.
  - intros (a & b & ->).
    destruct (indexOf_go_complete needle a b 0) as (i & -> & _). lia.
Qed.

Lemma holdsKeyword_contains piece :
  holdsKeyword piece ↔ containsKeyword (unquoted piece).
Proof.
  unfold holdsKeyword, containsKeyword. rewrite slice_unquoted.
  by setoid_rewrite includes_occursIn.
Qed.

(** C7, amended.  For a rule name free of pattern syntax characters,
    [extractSqlString] falls back on the keyword heuristic only after each
    of the four precise patterns has either failed to match or captured
    nothing but white space; otherwise the result is the one of a precise
    pattern.  The heuristic reads the call text from left to right in quoted
    pieces: a piece runs from a quote character (double, single or backtick)
    to the next quote character of whichever of the three kinds, and the
    reading goes on after it, so a piece need not be a literal of the source.
    The result is the trimmed content of the first piece whose content, in
    upper case, contains one of SELECT, INSERT, UPDATE, DELETE, CREATE,
    ALTER, DROP, WITH, and there is no fragment when no piece does. *)
Theorem keyword_fallback_is_last_resort
    (call : text) (config : CustomRawSqlQueryPyItem) :
  plainName config →
  let name := rlit (functionName config) in
  (∃ p r, p ∈ patterns name ∧ tryPattern call p = Some r
          ∧ extractSqlString call config = Ok (Some r))
  ∨ ((∀ p, p ∈ patterns name →
        match rx_match true p call with
        | None => True
        | Some m => blankCapture m
        end)
     ∧ match extractSqlString call config with
       | Ok (Some r) =>
           ∃ before piece after,
             quotedPieces call = before ++ piece :: after
             ∧ Forall (λ q, ¬ containsKeyword (unquoted q)) before
             ∧ containsKeyword (unquoted piece)
             ∧ str_content r = trim (unquoted piece)
       | Ok None => Forall (λ q, ¬ containsKeyword (unquoted q)) (quotedPieces call)
       | Throw _ => False
       end).
Proof.
  intros Hplain name. unfold extractSqlString.
  rewrite RegExp_name_plain by done. fold name.
  cbn [mbind result_mbind result_bind].
  destruct (precisePatterns call (patterns name)) as [r|] eqn:Hprecise.
  - left. apply precisePatterns_Some in Hprecise as (p & Hp & Hr). eauto.
  - right. split.
    + intros p Hp. apply tryPattern_None. by eapply precisePatterns_None.
    + unfold keywordFallback.
      pose proof (quotedSubstrings_pieces call) as Hpieces.
      unfold quotedSubstrings in Hpieces.
      destruct (rx_match_all false quotedPattern call) as [ms|];
        simpl in Hpieces; rewrite <- Hpieces; [|constructor].
      destruct (keywordLoop call ms) as [r|] eqn:Hloop.
      * apply keywordLoop_Some in Hloop
          as (before & m & after & -> & Hbefore & Hm & Hcontent & _).
        exists before, m, after. split; [done|]. split; [|split].
        -- eapply Forall_impl; [exact Hbefore|]. intros q Hq.
           by rewrite <- holdsKeyword_contains.
        -- by apply holdsKeyword_contains.
        -- by rewrite <- slice_unquoted.
      * apply keywordLoop_None in Hloop.
        eapply Forall_impl; [exact Hloop|]. intros q Hq.
        by rewrite <- holdsKeyword_contains.
Qed.

Lemma keyword_fallback_is_last_resort_witness :
  plainName executeRule
  ∧ quotedPieces emptyFirstArgument = [[SQ; SQ]; SQ :: txt "SELECT 1" ++ [SQ]]
  ∧ extractSqlString emptyFirstArgument executeRule
    = Ok (Some {| str_content := txt "SELECT 1"; str_start := 13; str_end := 21 |})
  ∧ (let name := rlit (functionName executeRule) in
     (∃ p r, p ∈ patterns name ∧ tryPattern emptyFirstArgument p = Some r
             ∧ extractSqlString emptyFirstArgument executeRule = Ok (Some r))
     ∨ ((∀ p, p ∈ patterns name →
           match rx_match true p emptyFirstArgument with
           | None => True
           | Some m => blankCapture m
           end)
        ∧ match extractSqlString emptyFirstArgument executeRule with
          | Ok (Some r) =>
              ∃ before piece after,
                quotedPieces emptyFirstArgument = before ++ piece :: after
                ∧ Forall (λ q, ¬ containsKeyword (unquoted q)) before
                ∧ containsKeyword (unquoted piece)
                ∧ str_content r = trim (unquoted piece)
          | Ok None =>
              Forall (λ q, ¬ containsKeyword (unquoted q))
                (quotedPieces emptyFirstArgument)
          | Throw _ => False
          end)).
Proof.
  assert (plainName executeRule) as Hplain by (vm_compute; reflexivity).
  split; [done|]. split; [vm_compute; reflexivity|].
  split; [vm_compute; reflexivity|].
  apply (keyword_fallback_is_last_resort emptyFirstArgument executeRule Hplain).
Defined.

(** A piece need not be a literal of the source.  In the call below the
    second argument holds an apostrophe: the pieces are the text from the
    double quote to the apostrophe and the text from the closing double
    quote to the quote that opens the third argument.  The literal of the
    third argument holds a keyword, no piece does, and there is no
    fragment. *)
Example keyword_in_a_literal_is_missed :
  quotedPieces apostropheCall = [DQ :: txt "it'"; DQ :: txt ", '"]
  ∧ hasSqlKeyword (txt "SELECT 1") = true
  ∧ extractSqlString apostropheCall executeRule = Ok None.
Proof. repeat split; vm_compute; reflexivity. Qed.

(** ** One well-formed call per line *)

(** *** Characters *)

Lemma isIdentChar_facts c :
  isIdentChar c = true →
  syntaxCharacter c = false ∧ isSpace c = false ∧ isQuote3 c = false
  ∧ c ≠ LF ∧ c ≠ "("%char ∧ c ≠ ")"%char ∧ c ≠ "."%char.
Proof.
  destruct c as [[] [] [] [] [] [] [] []]; vm_compute; intros Hc;
    try discriminate Hc; repeat split; discriminate.
Qed.

Lemma isSpace_facts c :
  isSpace c = true →
  isQuote3 c = false ∧ c ≠ "("%char ∧ c ≠ ")"%char ∧ c ≠ "."%char.
Proof.
  destruct c as [[] [] [] [] [] [] [] []]; vm_compute; intros Hc;
    try discriminate Hc; repeat split; discriminate.
Qed.

Lemma paren_icase c : charset_mem true (CChar "("%char) c = ascii_eqb c "(".
Proof. destruct c as [[] [] [] [] [] [] [] []]; vm_compute; reflexivity. Qed.

Lemma isQuote2_isQuote3 c : isQuote2 c = true → isQuote3 c = true.
Proof. unfold isQuote2, isQuote3. destruct (ascii_eqb c DQ), (ascii_eqb c SQ); done. Qed.

Lemma identifier_plain config :
  identifier (functionName config) → plainName config.
Proof.
  intros [_ Hall]. unfold plainName. apply forallb_forall.
  intros c Hc%list_elem_of_In.
  apply (proj1 (Forall_forall _ _) Hall), isIdentChar_facts in Hc as [-> _]. done.
Qed.

(** *** The head of a call *)

Lemma afterName_Some name s rest :
  afterName name s = Some rest →
  ∃ name', s = name' ++ rest ∧ map upperChar name' = map upperChar name.
Proof.
  revert s. induction name as [|a name IH]; intros s; simpl.
  - intros [= <-]. by exists [].
  - destruct s as [|c s]; [done|].
    destruct (ascii_eqb (upperChar a) (upperChar c)) eqn:Hc; [|done].
    intros (name' & -> & Hname)%IH. apply ascii_eqb_eq in Hc.
    exists (c :: name'). simpl. by rewrite Hname, Hc.
Qed.

Lemma afterName_exact name rest : afterName name (name ++ rest) = Some rest.
Proof.
  induction name as [|a name IH]; simpl; [done|].
  by rewrite (proj2 (ascii_eqb_eq _ _) eq_refl).
Qed.

Lemma afterName_app name s rest t :
  afterName name s = Some rest → afterName name (s ++ t) = Some (rest ++ t).
Proof.
  revert s. induction name as [|a name IH]; intros s; simpl.
  - by intros [= <-].
  - destruct s as [|c s]; [done|]. simpl.
    destruct (ascii_eqb (upperChar a) (upperChar c)); [apply IH|done].
Qed.

Lemma dropWhile_app_stop p s c rest t :
  dropWhile p s = c :: rest → dropWhile p (s ++ t) = c :: rest ++ t.
Proof.
  induction s as [|a s IH]; simpl; [done|].
  destruct (p a); [done|]. by intros [= <- <-].
Qed.

Lemma headAt_app name s t : headAt name s = true → headAt name (s ++ t) = true.
Proof.
  unfold headAt. destruct (afterName name s) as [rest|] eqn:Hname; [|done].
  rewrite (afterName_app _ _ _ t Hname).
  destruct (dropWhile isSpace rest) as [|c r] eqn:Hdrop; [done|].
  by rewrite (dropWhile_app_stop _ _ _ _ t Hdrop).
Qed.

Lemma headAt_here name ws rest :
  Forall (λ c, isSpace c = true) ws →
  headAt name (name ++ ws ++ "("%char :: rest) = true.
Proof.
  intros Hws. unfold headAt. rewrite afterName_exact.
  destruct (takeWhile_app_stop isSpace ws "("%char rest Hws eq_refl) as [_ ->].
  done.
Qed.

Lemma headOffsets_elem name s base offset :
  offset ∈ headOffsets name s base
  ↔ ∃ p, offset = (base + p)%nat ∧ (p ≤ length s)%nat
         ∧ headAt name (drop p s) = true.
Proof.
  revert base. induction s as [|c s IH]; intros base; simpl.
  - rewrite app_nil_r. split.
    + destruct (headAt name []) eqn:Hh; [|by intros ?%not_elem_of_nil].
      intros ->%list_elem_of_singleton. exists 0%nat. rewrite Nat.add_0_r. done.
    + intros (p & -> & Hp & Hh). assert (p = 0%nat) as -> by lia.
      simpl in Hh. rewrite Hh, Nat.add_0_r. left.
  - rewrite elem_of_app, IH. split.
    + intros [Hin|(p & -> & Hp & Hh)].
      * destruct (headAt name (c :: s)) eqn:Hh; [|by apply not_elem_of_nil in Hin].
        apply list_elem_of_singleton in Hin as ->. exists 0%nat.
        rewrite Nat.add_0_r. split; [done|]. split; [lia|done].
      * exists (S p). split; [lia|]. split; [lia|done].
    + intros ([|p] & -> & Hp & Hh).
      * left. simpl in Hh. rewrite Hh, Nat.add_0_r. left.
      * right. exists p. split; [lia|]. split; [lia|done].
Qed.

(** *** The precise patterns start at a head *)

Lemma rlit_icase_afterName name st st' :
  st' ∈ rx_run true (rlit name) st → afterName name (m_rest st) = Some (m_rest st').
Proof.
  revert st. induction name as [|a name IH]; intros st.
  - intros Hin. apply rx_run_empty in Hin. by subst.
  - intros Hin. change (rlit (a :: name)) with (RSeq (RSet (CChar a)) (rlit name)) in Hin.
    apply rx_run_seq in Hin as (y & Hy & Hin). apply IH in Hin.
    cbn [rx_run] in Hy. destruct (m_rest st) as [|c rest]; [by apply not_elem_of_nil in Hy|].
    cbn [afterName]. unfold charset_mem, canon in Hy.
    destruct (ascii_eqb (upperChar a) (upperChar c)); [|by apply not_elem_of_nil in Hy].
    apply list_elem_of_singleton in Hy as ->. done.
Qed.

Lemma pattern_run_head name r st st' :
  st' ∈ rx_run true (RSeq (rlit name) (RSeq ws_star (RSeq (chr "(") r))) st →
  headAt name (m_rest st) = true.
Proof.
  intros Hin.
  apply rx_run_seq in Hin as (s1 & H1 & Hin). apply rlit_icase_afterName in H1.
  apply rx_run_seq in Hin as (s2 & H2 & Hin).
  apply rx_run_ws_star in H2 as (ws & H2 & Hws).
  apply rx_run_seq in Hin as (s3 & H3 & _).
  unfold chr in H3. cbn [rx_run] in H3.
  destruct (m_rest s2) as [|c rest] eqn:Hrest; [by apply not_elem_of_nil in H3|].
  rewrite paren_icase in H3.
  destruct (ascii_eqb c "(") eqn:Hc; [|by apply not_elem_of_nil in H3].
  unfold headAt. rewrite H1, H2.
  assert (isSpace c = false) as Hsp by (apply ascii_eqb_eq in Hc as ->; done).
  destruct (takeWhile_app_stop isSpace ws c rest Hws Hsp) as [_ ->]. done.
Qed.

Lemma patterns_head name p :
  p ∈ patterns (rlit name) →
  ∃ r, p = RSeq (rlit name) (RSeq ws_star (RSeq (chr "(") r)).
Proof.
  unfold patterns. intros Hp.
  repeat (apply elem_of_cons in Hp as [->|Hp]; [eexists; reflexivity|]).
  by apply not_elem_of_nil in Hp.
Qed.

(** A search skips the places where the pattern does not match. *)
Lemma rx_search_skip icase r n pos s :
  (n ≤ length s)%nat →
  (∀ p, (p < n)%nat → rx_run icase r (MState (pos + p) (drop p s) []) = []) →
  rx_search icase r pos s = rx_search icase r (pos + n) (drop n s).
Proof.
  revert pos s. induction n as [|n IH]; intros pos s Hn Hskip.
  - by rewrite Nat.add_0_r, drop_0.
  - destruct s as [|c s]; [simpl in Hn; lia|].
    pose proof (Hskip 0%nat ltac:(lia)) as H0. rewrite Nat.add_0_r, drop_0 in H0.
    cbn [rx_search]. rewrite H0. cbn [drop].
    rewrite <- Nat.add_succ_comm. apply IH; [simpl in Hn; lia|].
    intros p Hp. specialize (Hskip (S p) ltac:(lia)).
    by rewrite <- Nat.add_succ_comm in Hskip.
Qed.

(** Where no head of the name stands before [before], a precise pattern is
    first tried with success at the end of [before]. *)
Lemma pattern_search_at_head name p before call :
  p ∈ patterns (rlit name) →
  (∀ k, (k < length before)%nat → headAt name (drop k (before ++ call)) = false) →
  rx_match true p (before ++ call)
  = rx_search true p (length before) call.
Proof.
  intros Hp Hnone. unfold rx_match.
  rewrite (rx_search_skip true p (length before) 0 (before ++ call)).
  - by rewrite drop_app_length.
  - rewrite length_app. lia.
  - intros k Hk. destruct (rx_run true p _) as [|st l] eqn:Hrun; [done|].
    exfalso. destruct (patterns_head _ _ Hp) as [r ->].
    assert (st ∈ rx_run true (RSeq (rlit name) (RSeq ws_star (RSeq (chr "(") r)))
                   (MState (0 + k) (drop k (before ++ call)) [])) as Hst
      by (rewrite Hrun; left).
    apply pattern_run_head in Hst. cbn [m_rest] in Hst.
    rewrite Hnone in Hst by done. done.
Qed.

(** *** The literal of a call that follows the name *)

Lemma singleLinePattern_first_at pos name ws1 ws2 sql rest q1 q2 :
  Forall (λ c, isSpace c = true) ws1 → Forall (λ c, isSpace c = true) ws2 →
  isQuote2 q1 = true → isQuote2 q2 = true →
  Forall (λ c, isQuote2 c = false) sql →
  ∃ stop,
    firstOf true (singleLinePattern (rlit name))
      (MState pos (name ++ ws1 ++ "("%char :: ws2 ++ q1 :: sql ++ q2 :: rest) [])
      (MState stop rest [(1%nat, sql)]).
Proof.
  intros Hws1 Hws2 Hq1 Hq2 Hsql.
  exists (pos + length name + length ws1 + 1 + length ws2 + 1 + length sql + 1)%nat.
  unfold singleLinePattern, rseq, foldr.
  eapply firstOf_seq; [apply firstOf_rlit|].
  eapply firstOf_seq; [by apply firstOf_ws_star|].
  eapply firstOf_seq; [by apply firstOf_set|].
  eapply firstOf_seq;
    [apply firstOf_ws_star; [done|by apply isQuote2_not_space]|].
  eapply firstOf_seq; [apply firstOf_set; by rewrite quote2_mem|].
  apply firstOf_lazy_group.
  - eapply Forall_impl; [exact Hsql|]. intros c Hc. simpl in Hc.
    by rewrite not_quote2_mem, Hc.
  - intros u c v caps' ->. cbn [rx_run m_rest].
    apply Forall_app in Hsql as [_ Hsql]. apply Forall_cons in Hsql as [Hc _].
    simpl in Hc. unfold quote2. cbn [rx_run m_rest]. by rewrite quote2_mem, Hc.
  - eapply firstOf_seq; [apply firstOf_set; by rewrite quote2_mem|].
    match goal with
    | |- firstOf _ REmpty (MState ?p _ _) (MState ?p' _ _) =>
        replace p' with p by lia
    end.
    apply firstOf_empty.
Qed.

Lemma singleLinePattern_on_triple_at pos name ws1 ws2 rest q :
  Forall (λ c, isSpace c = true) ws1 → Forall (λ c, isSpace c = true) ws2 →
  isQuote2 q = true →
  ∃ stop,
    firstOf true (singleLinePattern (rlit name))
      (MState pos (name ++ ws1 ++ "("%char :: ws2 ++ q :: q :: rest) [])
      (MState stop rest [(1%nat, [])]).
Proof.
  intros Hws1 Hws2 Hq.
  exists (pos + length name + length ws1 + 1 + length ws2 + 2)%nat.
  unfold singleLinePattern, rseq, foldr.
  eapply firstOf_seq; [apply firstOf_rlit|].
  eapply firstOf_seq; [by apply firstOf_ws_star|].
  eapply firstOf_seq; [by apply firstOf_set|].
  eapply firstOf_seq;
    [apply firstOf_ws_star; [done|by apply isQuote2_not_space]|].
  eapply firstOf_seq; [apply firstOf_set; by rewrite quote2_mem|].
  apply (firstOf_lazy_group true 1 _ _ _ [] (q :: rest)).
  - constructor.
  - intros u c v caps' Hnil. by destruct u.
  - eapply firstOf_seq; [apply firstOf_set; by rewrite quote2_mem|].
    match goal with
    | |- firstOf _ REmpty (MState ?p _ _) (MState ?p' _ _) =>
        replace p' with p by (simpl; lia)
    end.
    apply firstOf_empty.
Qed.

Lemma tripleQuotePattern_first_at pos name ws1 ws2 sql rest q :
  Forall (λ c, isSpace c = true) ws1 → Forall (λ c, isSpace c = true) ws2 →
  isQuote2 q = true → q ∉ sql →
  ∃ stop g,
    firstOf true (tripleQuotePattern (rlit name))
      (MState pos (name ++ ws1 ++ "("%char :: ws2 ++ [q; q; q] ++ sql ++ [q; q; q] ++ rest) [])
      (MState stop rest [(g, sql)])
    ∧ (g = 1 ∨ g = 2)%nat.
Proof.
  intros Hws1 Hws2 Hq2 Hsql.
  exists (pos + length name + length ws1 + 1 + length ws2 + 3 + length sql + 3)%nat,
         (if ascii_eqb q DQ then 1%nat else 2%nat).
  split; [|destruct (ascii_eqb q DQ); auto].
  unfold tripleQuotePattern. unfold rseq at 1. unfold foldr.
  eapply firstOf_seq; [apply firstOf_rlit|].
  eapply firstOf_seq; [by apply firstOf_ws_star|].
  eapply firstOf_seq; [by apply firstOf_set|].
  eapply firstOf_seq;
    [apply (firstOf_ws_star true _ ws2 q); [done|by apply isQuote2_not_space]|].
  apply isQuote2_iff in Hq2 as Hq. destruct Hq as [-> | ->].
  - eapply firstOf_seq.
    + apply firstOf_alt_l.
      apply (tripleQuote_branch_first DQ 1 _ sql rest []); done.
    + match goal with
      | |- firstOf _ REmpty (MState ?p _ _) (MState ?p' _ _) =>
          replace p' with p by (simpl; lia)
      end.
      apply firstOf_empty.
  - eapply firstOf_seq.
    + apply firstOf_alt_r.
      * unfold rseq, foldr. by apply rx_run_rlit_stop.
      * apply (tripleQuote_branch_first SQ 2 _ sql rest []); done.
    + match goal with
      | |- firstOf _ REmpty (MState ?p _ _) (MState ?p' _ _) =>
          replace p' with p by (simpl; lia)
      end.
      apply firstOf_empty.
Qed.

(** What a precise pattern returns when its first state at the head of the
    call captures the literal [sql]. *)
Lemma tryPattern_at_head name p before core st l g sql :
  p ∈ patterns (rlit name) →
  (∀ k, (k < length before)%nat → headAt name (drop k (before ++ core)) = false) →
  rx_run true p (MState (length before) core []) = st :: l →
  m_caps st = [(g, sql)] → (g = 1 ∨ g = 2)%nat →
  ¬ Forall (λ c, isSpace c = true) sql →
  ∃ matchStart,
    tryPattern (before ++ core) p
    = Some {| str_content := trim sql;
              str_start := indexOf (before ++ core) sql matchStart;
              str_end := indexOf (before ++ core) sql matchStart
                         + Z.of_nat (length sql) |}
    ∧ matchStart ≤ Z.of_nat (length before).
Proof.
  intros Hp Hnone Hrun Hcaps Hg Hblank.
  assert (sql ≠ []) as Hne by (intros ->; apply Hblank; constructor).
  assert (trim sql ≠ []) as Htrim by (by rewrite trim_nil_iff).
  unfold tryPattern. rewrite (pattern_search_at_head name p before core Hp Hnone).
  rewrite (rx_search_head _ _ _ _ _ _ Hrun). cbn [m_text].
  set (matched := take (m_pos st - length before) core).
  exists (indexOf (before ++ core) matched 0). split.
  - unfold group. cbn [m_groups]. rewrite Hcaps. unfold capture.
    destruct sql as [|c sql']; [done|].
    destruct (trim (c :: sql')) as [|t ts] eqn:Ht; [done|].
    destruct Hg as [-> | ->]; simpl; rewrite Ht; reflexivity.
  - destruct (indexOf_found (before ++ core) matched before
                (drop (m_pos st - length before) core) 0)
      as (i & a' & b' & -> & _ & _ & Hrange); [|lia|lia].
    unfold matched. by rewrite take_drop.
Qed.

Lemma tryPattern_at_head_empty name p before core st l :
  p ∈ patterns (rlit name) →
  (∀ k, (k < length before)%nat → headAt name (drop k (before ++ core)) = false) →
  rx_run true p (MState (length before) core []) = st :: l →
  m_caps st = [(1%nat, [])] →
  tryPattern (before ++ core) p = None.
Proof.
  intros Hp Hnone Hrun Hcaps.
  unfold tryPattern. rewrite (pattern_search_at_head name p before core Hp Hnone).
  rewrite (rx_search_head _ _ _ _ _ _ Hrun).
  unfold group. cbn [m_groups]. by rewrite Hcaps.
Qed.

(** [extractSqlString] on a text that holds a well-formed call, no head of
    the name standing before it: the literal trimmed, from an offset at or
    before its first character. *)
Lemma extractSqlString_at_site config before ws1 ws2 literal sql more :
  plainName config →
  Forall (λ c, isSpace c = true) ws1 → Forall (λ c, isSpace c = true) ws2 →
  ¬ Forall (λ c, isSpace c = true) sql →
  match literal with
  | Quoted q q' =>
      isQuote2 q = true ∧ isQuote2 q' = true ∧ Forall (λ c, isQuote2 c = false) sql
  | TripleQuoted q => isQuote2 q = true ∧ q ∉ sql
  end →
  let head := before ++ functionName config ++ ws1 ++ "("%char :: ws2 ++ opening literal in
  let call := head ++ sql ++ closing literal ++ more in
  (∀ k, (k < length before)%nat → headAt (functionName config) (drop k call) = false) →
  ∃ i, extractSqlString call config
       = Ok (Some {| str_content := trim sql; str_start := i;
                     str_end := i + Z.of_nat (length sql) |})
       ∧ 0 ≤ i ≤ Z.of_nat (length head).
Proof.
  intros Hplain Hws1 Hws2 Hblank Hlit head call Hnone.
  set (name := functionName config) in *.
  set (core := name ++ ws1 ++ "("%char :: ws2 ++ opening literal
               ++ sql ++ closing literal ++ more).
  assert (call = before ++ core) as Hcall.
  { unfold call, head, core. rewrite <- !app_assoc. simpl. by rewrite <- !app_assoc. }
  rewrite Hcall in Hnone |- *.
  assert (∀ matchStart, matchStart ≤ Z.of_nat (length before) →
            0 ≤ indexOf (before ++ core) sql matchStart ≤ Z.of_nat (length head))
    as Hbound.
  { intros ms Hms.
    destruct (indexOf_found (before ++ core) sql head (closing literal ++ more) ms)
      as (i & a' & b' & -> & _ & _ & Hrange).
    - by rewrite <- Hcall.
    - unfold head. rewrite length_app. lia.
    - lia. }
  unfold extractSqlString. rewrite RegExp_name_plain by done. fold name.
  cbn [mbind result_mbind result_bind]. unfold patterns. cbn [precisePatterns].
  destruct literal as [q q'|q].
  - destruct Hlit as (Hq & Hq' & Hsql).
    destruct (singleLinePattern_first_at (length before) name ws1 ws2 sql more q q'
                Hws1 Hws2 Hq Hq' Hsql) as (stop & l & Hrun).
    destruct (tryPattern_at_head name (singleLinePattern (rlit name)) before core
                _ l 1%nat sql ltac:(left) Hnone Hrun eq_refl ltac:(by left) Hblank)
      as (ms & -> & Hms).
    eexists. split; [reflexivity|]. by apply Hbound.
  - destruct Hlit as (Hq & Hsql).
    destruct (singleLinePattern_on_triple_at (length before) name ws1 ws2
                (q :: sql ++ [q; q; q] ++ more) q Hws1 Hws2 Hq) as (stop1 & l1 & Hrun1).
    rewrite (tryPattern_at_head_empty name (singleLinePattern (rlit name)) before core
               _ l1 ltac:(left) Hnone Hrun1 eq_refl).
    destruct (tripleQuotePattern_first_at (length before) name ws1 ws2 sql more q
                Hws1 Hws2 Hq Hsql) as (stop & g & [l Hrun] & Hg).
    destruct (tryPattern_at_head name (tripleQuotePattern (rlit name)) before core
                _ l g sql ltac:(right; left) Hnone Hrun eq_refl Hg Hblank)
      as (ms & -> & Hms).
    eexists. split; [reflexivity|]. by apply Hbound.
Qed.

(** *** The text collected for a call holds its literal *)

Lemma collectCall_first_line l ls acc offsets st :
  ∃ more, fullLine (collectCall (l :: ls) acc offsets st) = acc ++ l ++ more.
Proof.
  cbn [collectCall].
  destruct (foundFunction (scanLine l st) && (parenthesesCount (scanLine l st) =? 0)).
  { exists []. simpl. by rewrite app_nil_r. }
  destruct ls as [|l' ls']; [exists []; simpl; by rewrite app_nil_r|].
  assert (∀ rest acc' offsets' st',
            ∃ more, fullLine (collectCall rest acc' offsets' st') = acc' ++ more)
    as Hgrow.
  { induction rest as [|x rest IH]; intros acc' offsets' st'.
    - exists []. simpl. by rewrite app_nil_r.
    - cbn [collectCall].
      destruct (foundFunction (scanLine x st')
                && (parenthesesCount (scanLine x st') =? 0)); [by exists x|].
      destruct rest as [|x' rest']; [by exists x|].
      destruct (IH ((acc' ++ x) ++ [LF])
                  (offsets' ++ [length ((acc' ++ x) ++ [LF])]) (scanLine x st'))
        as [more Hmore].
      rewrite Hmore. exists (x ++ LF :: more). by rewrite <- !app_assoc. }
  destruct (Hgrow (l' :: ls') ((acc ++ l) ++ [LF])
              (offsets ++ [length ((acc ++ l) ++ [LF])]) (scanLine l st))
    as [more Hmore].
  rewrite Hmore. exists (LF :: more). by rewrite <- !app_assoc.
Qed.

Lemma first_LF_split (a b a' b' : text) :
  a ++ LF :: b = a' ++ LF :: b' → LF ∉ a → LF ∉ a' → a = a' ∧ b = b'.
Proof.
  revert a'. induction a as [|c a IH]; intros [|c' a']; simpl; intros Heq Ha Ha'.
  - by injection Heq as <-.
  - injection Heq as <- _. exfalso. apply Ha'. left.
  - injection Heq as -> _. exfalso. apply Ha. left.
  - injection Heq as -> Heq.
    destruct (IH a' Heq) as [-> ->].
    + intros Hin. apply Ha. by right.
    + intros Hin. apply Ha'. by right.
    + done.
Qed.

Lemma split_at_first_LF (s : text) :
  LF ∈ s → ∃ a b, s = a ++ LF :: b ∧ LF ∉ a.
Proof.
  induction s as [|c s IH]; [by intros ?%not_elem_of_nil|].
  destruct (decide (c = LF)) as [->|Hne].
  - intros _. exists [], s. split; [done|]. apply not_elem_of_nil.
  - intros [?|Hin]%elem_of_cons; [done|].
    destruct (IH Hin) as (a & b & -> & Ha). exists (c :: a), b. split; [done|].
    intros [?|?]%elem_of_cons; done.
Qed.

(** The first of the lines that a text is joined from starts with every part
    without line feed that the text starts with. *)
Lemma first_line_starts_with l ls (start rest : text) :
  join_newline (l :: ls) = start ++ rest → LF ∉ start →
  ∃ l', l = start ++ l'.
Proof.
  intros Hjoin Hstart.
  assert (∃ z, join_newline (l :: ls) = l ++ z
               ∧ match z with [] => True | c :: _ => c = LF end) as (z & Hz & Hhead).
  { destruct ls as [|l' ls']; [exists []; simpl; by rewrite app_nil_r|].
    by exists (LF :: join_newline (l' :: ls')). }
  rewrite Hz in Hjoin. symmetry in Hjoin.
  apply app_eq_inv in Hjoin as [(k & -> & Hk)|(k & -> & _)]; [|eauto].
  destruct k as [|c k]; [exists []; by rewrite !app_nil_r|].
  destruct z as [|c' z]; [done|]. injection Hk as -> _. subst c.
  exfalso. apply Hstart. apply elem_of_app. right. left.
Qed.

Lemma scan_stay_in ln st q a n :
  inString st = true → stringChar st = [q] →
  (∀ j c, (a ≤ j < a + n)%nat → ln !! j = Some c → c ≠ q) →
  foldl (scanChar ln) st (seq a n) = st.
Proof.
  intros Hin Hq. revert a. induction n as [|n IH]; intros a Hall; [done|].
  cbn [seq foldl].
  assert (scanChar ln st a = st) as ->.
  { unfold scanChar. destruct (ln !! a) as [c|] eqn:Hc; [|done].
    rewrite Hin, Hq. cbn [negb].
    rewrite (bool_decide_eq_false_2 ([c] = [q])); [done|].
    intros [= ->]. by apply (Hall a q ltac:(lia)). }
  apply IH. intros j c Hj. apply Hall. lia.
Qed.

Lemma scan_stay_out ln st a n :
  inString st = false →
  (∀ j c, (a ≤ j < a + n)%nat → ln !! j = Some c →
          isQuote3 c = false ∧ c ≠ "("%char ∧ c ≠ ")"%char) →
  foldl (scanChar ln) st (seq a n) = st.
Proof.
  intros Hout. revert a. induction n as [|n IH]; intros a Hall; [done|].
  cbn [seq foldl].
  assert (scanChar ln st a = st) as ->.
  { unfold scanChar. destruct (ln !! a) as [c|] eqn:Hc; [|done].
    rewrite Hout. cbn [negb].
    destruct (Hall a c ltac:(lia) Hc) as (Hq & Hopen & Hclose).
    unfold isQuote3 in Hq. apply orb_false_iff in Hq as [Hq Hb].
    apply orb_false_iff in Hq as [Hd Hs]. rewrite Hd, Hs, Hb. cbn [orb andb].
    unfold ascii_eqb. by rewrite !bool_decide_eq_false_2 by done. }
  apply IH. intros j c Hj. apply Hall. lia.
Qed.

Lemma lookup_segment (pre seg post : text) j c :
  (length pre ≤ j < length pre + length seg)%nat →
  (pre ++ seg ++ post) !! j = Some c → c ∈ seg.
Proof.
  intros Hj Hc. rewrite lookup_app_r, lookup_app_l in Hc by lia.
  by eapply list_elem_of_lookup_2.
Qed.

(** The scanner on the line where a call with a triple-quoted literal
    starts, the literal going on after the line: at the end of the line it
    is inside a string, with one parenthesis open. *)
Lemma scanLine_opening_triple (before_paren ws2 sql0 : text) (q : ascii) :
  Forall (λ c, isQuote3 c = false ∧ c ≠ "("%char ∧ c ≠ ")"%char) before_paren →
  Forall (λ c, isSpace c = true) ws2 →
  isQuote2 q = true → q ∉ sql0 →
  scanLine (before_paren ++ "("%char :: ws2 ++ [q; q; q] ++ sql0) scanStart = inTriple q.
Proof.
  intros Hbefore Hws2 Hq Hsql.
  set (ln := before_paren ++ "("%char :: ws2 ++ [q; q; q] ++ sql0).
  assert (Forall (λ c, isQuote3 c = false ∧ c ≠ "("%char ∧ c ≠ ")"%char) ws2) as Hws2'.
  { eapply Forall_impl; [exact Hws2|]. intros c Hc. simpl in Hc.
    apply isSpace_facts in Hc as (? & ? & ? & _). done. }
  assert (q ≠ BSL ∧ q ≠ "("%char ∧ isQuote3 q = true) as (Hbsl & Hparen & Hq3).
  { apply isQuote2_iff in Hq as [-> | ->]; repeat split; done. }
  unfold scanLine.
  assert (length ln = length before_paren + (1 + (length ws2 + (1 + (1 + (1 + length sql0))))))%nat
    as ->.
  { unfold ln. rewrite !length_app. simpl. rewrite !length_app. simpl. lia. }
  rewrite !seq_app, !foldl_app. cbn [seq foldl].
  (* the text before the parenthesis *)
  rewrite (scan_stay_out ln scanStart 0 (length before_paren)); [|done|].
  2:{ intros j c Hj Hc. unfold ln in Hc. rewrite lookup_app_l in Hc by lia.
      apply list_elem_of_lookup_2 in Hc.
      by apply (proj1 (Forall_forall _ _) Hbefore). }
  (* the parenthesis *)
  set (a := (0 + length before_paren)%nat).
  assert (ln !! a = Some "("%char) as Hopen.
  { unfold ln. apply list_lookup_middle. unfold a. lia. }
  assert (scanChar ln scanStart a
          = {| parenthesesCount := 1; inString := false; stringChar := [];
               foundFunction := true |}) as ->.
  { unfold scanChar. rewrite Hopen. done. }
  (* the white space after it *)
  rewrite (scan_stay_out ln _ (a + 1) (length ws2)); [|done|].
  2:{ intros j c Hj Hc. unfold ln in Hc.
      change (before_paren ++ "("%char :: ws2 ++ [q; q; q] ++ sql0)
        with (before_paren ++ ["("%char] ++ ws2 ++ [q; q; q] ++ sql0) in Hc.
      rewrite app_assoc in Hc.
      apply (lookup_segment (before_paren ++ ["("%char]) ws2) in Hc.
      - by apply (proj1 (Forall_forall _ _) Hws2').
      - rewrite length_app. simpl. unfold a in Hj. lia. }
  (* the three quote characters *)
  set (b := (a + 1 + length ws2)%nat).
  assert (ln = (before_paren ++ "("%char :: ws2) ++ q :: q :: q :: sql0) as Hln
    by (unfold ln; by rewrite <- app_assoc).
  assert (length (before_paren ++ "("%char :: ws2) = b) as Hb
    by (rewrite length_app; unfold b, a; simpl; lia).
  assert (ln !! b = Some q) as H0 by (rewrite Hln; by apply list_lookup_middle).
  assert (ln !! (b + 1)%nat = Some q) as H1.
  { rewrite Hln, lookup_app_r by lia.
    by replace (b + 1 - length (before_paren ++ "("%char :: ws2))%nat with 1%nat by lia. }
  assert (ln !! (b + 1 + 1)%nat = Some q) as H2.
  { rewrite Hln, lookup_app_r by lia.
    by replace (b + 1 + 1 - length (before_paren ++ "("%char :: ws2))%nat
      with 2%nat by lia. }
  assert (scanChar ln {| parenthesesCount := 1; inString := false; stringChar := [];
                         foundFunction := true |} b = inTriple q) as ->.
  { unfold scanChar. rewrite H0. cbn [negb inString].
    apply isQuote2_iff in Hq as [-> | ->]; done. }
  assert (scanChar ln (inTriple q) (b + 1)
          = {| parenthesesCount := 1; inString := false; stringChar := [];
               foundFunction := true |}) as ->.
  { unfold scanChar. rewrite H1. cbn [negb inString inTriple stringChar].
    rewrite bool_decide_eq_true_2 by done.
    replace (0 <? b + 1)%nat with true by (symmetry; apply Nat.ltb_lt; lia).
    replace (b + 1 - 1)%nat with b by lia. rewrite H0.
    rewrite (bool_decide_eq_false_2 (Some q = Some BSL)) by congruence.
    cbn [negb andb].
    destruct (exists_last (l := before_paren ++ "("%char :: ws2))
      as (front & x & Hfront); [by destruct before_paren|].
    assert (x ≠ q) as Hx.
    { assert (x ∈ before_paren ++ "("%char :: ws2) as Hin
        by (rewrite Hfront; apply elem_of_app; right; left).
      apply elem_of_app in Hin as [Hin|Hin].
      - apply (proj1 (Forall_forall _ _) Hbefore) in Hin as [Hx _]. congruence.
      - apply elem_of_cons in Hin as [->|Hin]; [done|].
        apply (proj1 (Forall_forall _ _) Hws2') in Hin as [Hx _]. congruence. }
    assert (length front = (b - 1)%nat) as Hlen.
    { apply (f_equal length) in Hfront. rewrite Hb, length_app in Hfront.
      simpl in Hfront. lia. }
    replace (b + 1 - 2)%nat with (b - 1)%nat by lia.
    rewrite Hln, Hfront, <- app_assoc, <- Hlen, drop_app_length. cbn [app take].
    rewrite (bool_decide_eq_false_2 ([x; q; q] = [q; q; q])) by congruence.
    by rewrite andb_false_r. }
  assert (scanChar ln {| parenthesesCount := 1; inString := false; stringChar := [];
                         foundFunction := true |} (b + 1 + 1) = inTriple q) as ->.
  { unfold scanChar. rewrite H2. cbn [negb inString].
    apply isQuote2_iff in Hq as [-> | ->]; done. }
  (* the literal *)
  apply (scan_stay_in ln (inTriple q) q); [done|done|].
  intros j c Hj Hc Heq. subst c. apply Hsql.
  rewrite Hln, lookup_app_r in Hc by lia.
  rewrite Hb in Hc.
  replace (j - b)%nat with (S (S (S (j - b - 3)))) in Hc by lia. simpl in Hc.
  by eapply list_elem_of_lookup_2.
Qed.

Lemma collectCall_next l l' ls acc offsets st :
  foundFunction (scanLine l st) && (parenthesesCount (scanLine l st) =? 0) = false →
  collectCall (l :: l' :: ls) acc offsets st
  = collectCall (l' :: ls) ((acc ++ l) ++ [LF])
      (offsets ++ [length ((acc ++ l) ++ [LF])]) (scanLine l st).
Proof.
  intros Hopen. change (collectCall (l :: l' :: ls) acc offsets st)
    with (if foundFunction (scanLine l st) && (parenthesesCount (scanLine l st) =? 0)
          then {| fullLine := acc ++ l; lineOffsets := offsets; closed := true |}
          else collectCall (l' :: ls) ((acc ++ l) ++ [LF])
                 (offsets ++ [length ((acc ++ l) ++ [LF])]) (scanLine l st)).
  by rewrite Hopen.
Qed.

(** Inside the literal the scanner goes from line to line up to the one
    that holds the closing quotes. *)
Lemma collectCall_in_triple q ls acc offsets sqlRest tail :
  ls ≠ [] → Forall (λ l, LF ∉ l) ls → q ≠ LF → q ∉ sqlRest →
  join_newline ls = sqlRest ++ [q; q; q] ++ tail →
  ∃ more, fullLine (collectCall ls acc offsets (inTriple q))
          = acc ++ sqlRest ++ [q; q; q] ++ more.
Proof.
  revert acc offsets sqlRest. induction ls as [|l ls IH]; [done|].
  intros acc offsets sqlRest _ Hlines Hq Hsql Hjoin.
  apply Forall_cons in Hlines as [Hl Hlines].
  destruct (decide (LF ∈ sqlRest)) as [Hin|Hnin].
  - destruct (split_at_first_LF _ Hin) as (s0 & s1 & -> & Hs0).
    destruct ls as [|l' ls'].
    { exfalso. simpl in Hjoin. apply Hl. rewrite Hjoin, <- app_assoc.
      apply elem_of_app. right. left. }
    change (join_newline (l :: l' :: ls')) with (l ++ LF :: join_newline (l' :: ls'))
      in Hjoin.
    rewrite <- app_assoc in Hjoin. cbn [app] in Hjoin.
    apply first_LF_split in Hjoin as [-> Hrest]; [|done..].
    assert (scanLine s0 (inTriple q) = inTriple q) as Hscan.
    { unfold scanLine. apply (scan_stay_in s0 (inTriple q) q); [done|done|].
      intros j c _ Hc ->. apply Hsql. apply elem_of_app. left.
      by eapply list_elem_of_lookup_2. }
    rewrite collectCall_next by (by rewrite Hscan). rewrite Hscan.
    destruct (IH ((acc ++ s0) ++ [LF]) (offsets ++ [length ((acc ++ s0) ++ [LF])]) s1)
      as [more Hmore]; [done|done|done| |done|].
    { intros Hq1. apply Hsql. apply elem_of_app. right. by right. }
    rewrite Hmore. exists more.
    rewrite <- !app_assoc. done.
  - destruct (first_line_starts_with l ls (sqlRest ++ [q; q; q]) tail) as [l' ->].
    { by rewrite <- app_assoc. }
    { intros [Hin|Hin]%elem_of_app; [done|].
      repeat (apply elem_of_cons in Hin as [Hin|Hin]; [congruence|]).
      by apply not_elem_of_nil in Hin. }
    destruct (collectCall_first_line ((sqlRest ++ [q; q; q]) ++ l') ls acc offsets
                (inTriple q)) as [more ->].
    exists (l' ++ more). by rewrite <- !app_assoc.
Qed.

(** *** The call token of a line *)

Lemma dropWhile_app_keep p (x : text) c y :
  p c = false → dropWhile p (x ++ c :: y) = dropWhile p x ++ c :: y.
Proof.
  intros Hc. induction x as [|a x IH]; simpl; [by rewrite Hc|].
  by destruct (p a).
Qed.

Lemma trimEnd_app_keep (x : text) c y :
  isSpace c = false → trimEnd (x ++ c :: y) = x ++ c :: trimEnd y.
Proof.
  intros Hc. unfold trimEnd.
  rewrite rev_app_distr. cbn [rev]. rewrite <- app_assoc. cbn [app].
  rewrite dropWhile_app_keep by done.
  rewrite rev_app_distr. cbn [rev]. rewrite rev_involutive.
  by rewrite <- app_assoc.
Qed.

Lemma trim_decompose ln : ∃ lead trail, ln = lead ++ trim ln ++ trail.
Proof.
  unfold trim, trimStart.
  destruct (trimEnd_prefix (dropWhile isSpace ln)) as [spaces Hspaces].
  exists (takeWhile isSpace ln), spaces.
  rewrite <- Hspaces. by rewrite take_drop_While.
Qed.

Lemma firstOf_elem icase r st x : firstOf icase r st x → x ∈ rx_run icase r st.
Proof. intros [l ->]. left. Qed.

Lemma firstOf_rlit_any icase s pos rest caps :
  firstOf icase (rlit s) (MState pos (s ++ rest) caps)
    (MState (pos + length s) rest caps).
Proof.
  revert pos. induction s as [|c s IH]; intros pos.
  - simpl. rewrite Nat.add_0_r. apply firstOf_empty.
  - change (rlit (c :: s)) with (RSeq (RSet (CChar c)) (rlit s)).
    eapply firstOf_seq.
    + apply firstOf_set. simpl. by apply ascii_eqb_eq.
    + simpl. replace (pos + S (length s))%nat with (S pos + length s)%nat by lia.
      apply IH.
Qed.

Lemma rx_search_later icase r p pos s st :
  (p ≤ length s)%nat →
  st ∈ rx_run icase r (MState (pos + p) (drop p s) []) →
  is_Some (rx_search icase r pos s).
Proof.
  revert pos s. induction p as [|p IH]; intros pos s Hp Hst.
  - rewrite Nat.add_0_r, drop_0 in Hst. by eapply rx_search_found.
  - destruct s as [|c s]; [simpl in Hp; lia|]. cbn [rx_search].
    destruct (rx_run icase r (MState pos (c :: s) [])); [|done].
    apply (IH (S pos) s); [simpl in Hp; lia|].
    by rewrite Nat.add_succ_comm.
Qed.

Lemma name_then_paren icase name ws b pos caps :
  Forall (λ c, isSpace c = true) ws →
  firstOf icase (RSeq (rlit name) (RSeq ws_star (RSeq (chr "(") REmpty)))
    (MState pos (name ++ ws ++ "("%char :: b) caps)
    (MState (pos + length name + length ws + 1) b caps).
Proof.
  intros Hws.
  eapply firstOf_seq; [apply firstOf_rlit_any|].
  eapply firstOf_seq; [by apply firstOf_ws_star|].
  eapply firstOf_seq; [apply firstOf_set; simpl; by apply ascii_eqb_eq|].
  match goal with
  | |- firstOf _ REmpty (MState ?p _ _) (MState ?p' _ _) =>
      replace p' with p by lia
  end.
  apply firstOf_empty.
Qed.

Lemma ws_star_before_name icase name rest pos caps :
  identifier name →
  firstOf icase ws_star (MState pos (name ++ rest) caps) (MState pos (name ++ rest) caps).
Proof.
  intros [Hne Hident]. destruct name as [|c name']; [done|].
  apply Forall_cons in Hident as [Hc _].
  apply isIdentChar_facts in Hc as (_ & Hsp & _).
  pose proof (firstOf_ws_star icase pos [] c (name' ++ rest) caps
                ltac:(constructor) Hsp) as Hfirst.
  cbn [app length] in Hfirst. by rewrite Nat.add_0_r in Hfirst.
Qed.

(** The test of the loop over the lines succeeds on a line that, once
    trimmed, reads the name, white space if any and an opening parenthesis,
    the name starting the line or following a dot. *)
Lemma callToken_complete ln config a ws b :
  identifier (functionName config) →
  trim ln = a ++ functionName config ++ ws ++ "("%char :: b →
  Forall (λ c, isSpace c = true) ws →
  a = [] ∨ last a = Some "."%char →
  callToken ln config = true.
Proof.
  intros Hident Htrim Hws Ha. unfold callToken, rx_test.
  apply bool_decide_eq_true. unfold rx_match. rewrite Htrim.
  set (name := functionName config) in *.
  destruct Ha as [->|Hlast].
  - rewrite app_nil_l.
    apply (rx_search_found false _ 0 _
             (MState (0 + length name + length ws + 1) b [])).
    unfold functionPattern. cbn [rx_run]. apply elem_of_app. right.
    apply firstOf_elem. unfold rseq, foldr.
    eapply firstOf_seq; [by exists []|].
    eapply firstOf_seq; [by apply ws_star_before_name|].
    apply (name_then_paren false name ws b 0 [] Hws).
  - apply last_Some in Hlast as [a0 ->].
    apply (rx_search_later false _ (length a0) 0 _
             (MState (0 + length a0 + 1 + length name + length ws + 1) b [])).
    + rewrite !length_app. simpl. lia.
    + rewrite <- !app_assoc, drop_app_length. cbn [app].
      unfold functionPattern. cbn [rx_run]. apply elem_of_app. left.
      apply firstOf_elem. unfold rseq, foldr.
      eapply firstOf_seq; [apply firstOf_set; simpl; by apply ascii_eqb_eq|].
      replace (0 + length a0 + 1 + length name + length ws + 1)%nat
        with (S (0 + length a0) + length name + length ws + 1)%nat by lia.
      apply (name_then_paren false name ws b _ [] Hws).
Qed.

(** *** The hypotheses on a call, one by one *)

Lemma wellFormedSite_facts call :
  wellFormedSite call = true →
  (LF ∉ site_before call)
  ∧ (Forall (λ c, isSpace c = true) (site_before call)
     ∨ last (site_before call) = Some "."%char)
  ∧ Forall (λ c, isSpace c = true) (site_ws1 call) ∧ (LF ∉ site_ws1 call)
  ∧ Forall (λ c, isSpace c = true) (site_ws2 call) ∧ (LF ∉ site_ws2 call)
  ∧ ¬ Forall (λ c, isSpace c = true) (site_sql call)
  ∧ match site_literal call with
    | Quoted q q' =>
        isQuote2 q = true ∧ isQuote2 q' = true
        ∧ Forall (λ c, isQuote2 c = false) (site_sql call) ∧ (LF ∉ site_sql call)
    | TripleQuoted q =>
        isQuote2 q = true ∧ (q ∉ site_sql call)
        ∧ Forall (λ c, isQuote3 c = false ∧ c ≠ "("%char ∧ c ≠ ")"%char)
            (site_before call)
    end.
Proof.
  unfold wellFormedSite. cbv zeta. rewrite !andb_true_iff.
  intros (((((Hlf & Hbefore) & Hws1) & Hws2) & Hblank) & Hlit).
  assert (∀ s : text, forallb (λ c, negb (ascii_eqb c LF)) s = true → LF ∉ s) as Hno.
  { intros s Hs Hin%list_elem_of_In. apply (proj1 (forallb_forall _ _) Hs) in Hin.
    by rewrite (proj2 (ascii_eqb_eq _ _) eq_refl) in Hin. }
  assert (∀ s : text, forallb blankNoNewline s = true
                      → Forall (λ c, isSpace c = true) s ∧ LF ∉ s) as Hblanks.
  { intros s Hs. split.
    - apply Forall_forall. intros c Hc%list_elem_of_In.
      apply (proj1 (forallb_forall _ _) Hs) in Hc.
      unfold blankNoNewline in Hc. by apply andb_true_iff in Hc as [? _].
    - intros Hin%list_elem_of_In. apply (proj1 (forallb_forall _ _) Hs) in Hin.
      unfold blankNoNewline in Hin. apply andb_true_iff in Hin as [_ Hin].
      by rewrite (proj2 (ascii_eqb_eq _ _) eq_refl) in Hin. }
  split; [by apply Hno|]. split.
  { apply orb_true_iff in Hbefore as [Hsp|Hdot].
    - left. apply Forall_forall. intros c Hc%list_elem_of_In.
      by apply (proj1 (forallb_forall _ _) Hsp).
    - right. by apply bool_decide_eq_true in Hdot. }
  destruct (Hblanks _ Hws1) as [? ?], (Hblanks _ Hws2) as [? ?].
  do 4 (split; [done|]). split.
  { intros Hall. apply negb_true_iff in Hblank.
    assert (forallb isSpace (site_sql call) = true); [|congruence].
    apply forallb_forall. intros c Hc%list_elem_of_In.
    by apply (proj1 (Forall_forall _ _) Hall). }
  destruct (site_literal call) as [q q'|q].
  - rewrite !andb_true_iff in Hlit. destruct Hlit as ((Hq & Hq') & Hsql).
    split; [done|]. split; [done|]. split.
    + apply Forall_forall. intros c Hc%list_elem_of_In.
      apply (proj1 (forallb_forall _ _) Hsql) in Hc.
      apply andb_true_iff in Hc as [Hc _]. by apply negb_true_iff in Hc.
    + intros Hin%list_elem_of_In. apply (proj1 (forallb_forall _ _) Hsql) in Hin.
      apply andb_true_iff in Hin as [_ Hin].
      by rewrite (proj2 (ascii_eqb_eq _ _) eq_refl) in Hin.
  - rewrite !andb_true_iff in Hlit. destruct Hlit as ((Hq & Hsql) & Hclean).
    split; [done|]. split.
    + intros Hin%list_elem_of_In. apply (proj1 (forallb_forall _ _) Hsql) in Hin.
      by rewrite (proj2 (ascii_eqb_eq _ _) eq_refl) in Hin.
    + apply Forall_forall. intros c Hc%list_elem_of_In.
      apply (proj1 (forallb_forall _ _) Hclean) in Hc.
      rewrite !andb_true_iff, !negb_true_iff in Hc. destruct Hc as ((Hc1 & Hc2) & Hc3).
      split; [done|]. split; intros ->;
        by rewrite (proj2 (ascii_eqb_eq _ _) eq_refl) in *.
Qed.

Lemma identifier_no_LF name : identifier name → LF ∉ name.
Proof.
  intros [_ Hall] Hin.
  apply (proj1 (Forall_forall _ _) Hall), isIdentChar_facts in Hin
    as (_ & _ & _ & Hlf & _). done.
Qed.

Lemma not_elem_of_app_2 {A} (x : A) l1 l2 : x ∉ l1 → x ∉ l2 → x ∉ l1 ++ l2.
Proof. intros H1 H2 [?|?]%elem_of_app; done. Qed.

(** The head of a well-formed call holds no line feed. *)
Lemma siteHead_no_LF call :
  identifier (functionName (site_rule call)) → wellFormedSite call = true →
  LF ∉ siteHead call.
Proof.
  intros Hident (Hb & _ & _ & Hws1 & _ & Hws2 & _ & Hlit)%wellFormedSite_facts.
  unfold siteHead.
  apply not_elem_of_app_2; [done|].
  apply not_elem_of_app_2; [by apply identifier_no_LF|].
  apply not_elem_of_app_2; [done|].
  intros [?|Hin]%elem_of_cons; [done|]. revert Hin.
  apply not_elem_of_app_2; [done|].
  destruct (site_literal call) as [q q'|q]; cbn [opening].
  - destruct Hlit as (Hq & _). apply isQuote2_iff in Hq.
    intros [Heq|Hin]%elem_of_cons;
      [by destruct Hq as [-> | ->]|by apply not_elem_of_nil in Hin].
  - destruct Hlit as (Hq & _). apply isQuote2_iff in Hq.
    intros Hin.
    repeat (apply elem_of_cons in Hin as [Heq|Hin]; [by destruct Hq as [-> | ->]|]).
    by apply not_elem_of_nil in Hin.
Qed.

(** In a list sorted strictly by a key, the key tells the element. *)
Lemma sorted_key_inj {A} (f : A → nat) (l : list A) x y :
  StronglySorted lt (map f l) → x ∈ l → y ∈ l → f x = f y → x = y.
Proof.
  induction l as [|a l IH]; [by intros _ ?%not_elem_of_nil|].
  cbn [map]. intros Hsorted Hx Hy Hxy. apply StronglySorted_inv in Hsorted as [Hl Ha].
  assert (∀ z, z ∈ l → (f a < f z)%nat) as Hlt.
  { intros z Hz. apply (proj1 (Forall_forall _ _) Ha).
    apply list_elem_of_fmap. eauto. }
  apply elem_of_cons in Hx as [->|Hx], Hy as [->|Hy]; [done| | |by apply IH].
  - specialize (Hlt _ Hy). lia.
  - specialize (Hlt _ Hx). lia.
Qed.

(** Texts put together in another order of the parentheses. *)
Ltac reassoc :=
  rewrite <- ?app_assoc; cbn [app]; rewrite <- ?app_assoc; cbn [app];
  rewrite <- ?app_assoc; cbn [app].

Lemma split_newline_lines sourceTxt : Forall (λ l, LF ∉ l) (split_newline sourceTxt).
Proof. apply Forall_forall. intros l Hl. by eapply split_newline_no_LF. Qed.

(** Where a call is written: on its line, which starts with the head of the
    call. *)
Lemma writtenAt_facts lines call :
  identifier (functionName (site_rule call)) → wellFormedSite call = true →
  writtenAt lines call = true →
  ∃ l ls rest l',
    drop (site_line call) lines = l :: ls
    ∧ lines !! site_line call = Some l
    ∧ join_newline (l :: ls) = siteText call ++ rest
    ∧ l = siteHead call ++ l'.
Proof.
  intros Hident Hwf Hwritten. unfold writtenAt in Hwritten.
  apply startsWith_spec in Hwritten as [rest Hjoin].
  destruct (drop (site_line call) lines) as [|l ls] eqn:Hdrop.
  { exfalso. simpl in Hjoin. unfold siteText, siteHead in Hjoin.
    symmetry in Hjoin. apply app_eq_nil in Hjoin as [Hjoin _].
    apply app_eq_nil in Hjoin as [Hjoin _]. apply app_eq_nil in Hjoin as [_ Hjoin].
    apply app_eq_nil in Hjoin as [_ Hjoin]. by apply app_eq_nil in Hjoin as [_ Hjoin]. }
  destruct (first_line_starts_with l ls (siteHead call)
              (site_sql call ++ closing (site_literal call) ++ rest)) as [l' Hl].
  { rewrite Hjoin. unfold siteText. by reassoc. }
  { by apply siteHead_no_LF. }
  exists l, ls, rest, l'. split; [done|]. split; [|done].
  rewrite <- (Nat.add_0_r (site_line call)), <- lookup_drop, Hdrop. done.
Qed.

(** The text collected for a well-formed call holds the call up to the end
    of its literal. *)
Lemma collected_holds_site lines call :
  Forall (λ l, LF ∉ l) lines →
  identifier (functionName (site_rule call)) → wellFormedSite call = true →
  writtenAt lines call = true →
  ∃ more,
    fullLine (collectCall (drop (site_line call) lines) [] [0%nat] scanStart)
    = siteText call ++ more.
Proof.
  intros Hlines Hident Hwf Hwritten.
  destruct (writtenAt_facts lines call Hident Hwf Hwritten)
    as (l & ls & rest & l' & Hdrop & Hl & Hjoin & Hhead).
  pose proof (wellFormedSite_facts call Hwf)
    as (Hb & _ & Hws1 & _ & Hws2 & _ & _ & Hlit).
  pose proof (siteHead_no_LF call Hident Hwf) as HheadLF.
  assert (Forall (λ x, LF ∉ x) (l :: ls)) as Hrest.
  { rewrite <- Hdrop. by apply Forall_drop. }
  apply Forall_cons in Hrest as [HlLF Hls].
  rewrite Hdrop.
  destruct (decide (LF ∈ site_sql call)) as [Hin|Hnin].
  - destruct (site_literal call) as [q q'|q] eqn:Hliteral;
      [by destruct Hlit as (_ & _ & _ & ?)|].
    destruct Hlit as (Hq & Hsql & Hclean).
    destruct (split_at_first_LF _ Hin) as (s0 & s1 & Hsplit & Hs0).
    assert (q ≠ LF) as HqLF by (apply isQuote2_iff in Hq as [-> | ->]; done).
    destruct ls as [|l2 ls2].
    { exfalso. apply HlLF. simpl in Hjoin. rewrite Hjoin. unfold siteText.
      rewrite Hsplit. apply elem_of_app. left. apply elem_of_app. right.
      apply elem_of_app. left. apply elem_of_app. right. left. }
    change (join_newline (l :: l2 :: ls2)) with (l ++ LF :: join_newline (l2 :: ls2))
      in Hjoin.
    assert (∀ z, siteText call ++ z
                 = (siteHead call ++ s0) ++ LF :: (s1 ++ [q; q; q] ++ z)) as Htext.
    { intros z. unfold siteText. rewrite Hliteral, Hsplit. cbn [closing].
      by reassoc. }
    rewrite Htext in Hjoin.
    apply first_LF_split in Hjoin as [Hline Htail];
      [|done|by apply not_elem_of_app_2].
    assert ((q ∉ s0) ∧ (q ∉ s1)) as [Hq0 Hq1].
    { rewrite Hsplit in Hsql. split; intros Hx; apply Hsql; apply elem_of_app;
        [by left|right; by right]. }
    assert (scanLine l scanStart = inTriple q) as Hscan.
    { rewrite Hline. unfold siteHead. rewrite Hliteral. cbn [opening].
      replace ((site_before call ++ functionName (site_rule call) ++ site_ws1 call
                ++ "("%char :: site_ws2 call ++ [q; q; q]) ++ s0)
        with ((site_before call ++ functionName (site_rule call) ++ site_ws1 call)
              ++ "("%char :: site_ws2 call ++ [q; q; q] ++ s0)
        by (by reassoc).
      apply scanLine_opening_triple; [|done..].
      apply Forall_app. split; [done|]. apply Forall_app. split.
      - destruct Hident as [_ Hident]. eapply Forall_impl; [exact Hident|].
        intros c Hc. simpl in Hc.
        apply isIdentChar_facts in Hc as (_ & _ & ? & _ & ? & ? & _). done.
      - eapply Forall_impl; [exact Hws1|]. intros c Hc. simpl in Hc.
        apply isSpace_facts in Hc as (? & ? & ? & _). done. }
    rewrite collectCall_next by (by rewrite Hscan). rewrite Hscan.
    destruct (collectCall_in_triple q (l2 :: ls2) (([] ++ l) ++ [LF])
                ([0%nat] ++ [length (([] ++ l) ++ [LF])]) s1 rest)
      as [more Hmore]; [done|done|done|done|done|].
    rewrite Hmore. exists more. rewrite Htext, Hline. cbn [app].
    by reassoc.
  - destruct (first_line_starts_with l ls (siteText call) rest Hjoin) as [l2 ->].
    { unfold siteText. apply not_elem_of_app_2; [done|].
      apply not_elem_of_app_2; [done|].
      destruct (site_literal call) as [q q'|q]; cbn [closing].
      - destruct Hlit as (_ & Hq & _). apply isQuote2_iff in Hq.
        intros [Heq|Hx]%elem_of_cons;
          [by destruct Hq as [-> | ->]|by apply not_elem_of_nil in Hx].
      - destruct Hlit as (Hq & _). apply isQuote2_iff in Hq. intros Hx.
        repeat (apply elem_of_cons in Hx as [Heq|Hx]; [by destruct Hq as [-> | ->]|]).
        by apply not_elem_of_nil in Hx. }
    destruct (collectCall_first_line (siteText call ++ l2) ls [] [0%nat] scanStart)
      as [more ->].
    exists (l2 ++ more). cbn [app]. by reassoc.
Qed.

(** The line of a well-formed call holds the call token of its rule. *)
Lemma site_has_token lines call :
  identifier (functionName (site_rule call)) → wellFormedSite call = true →
  writtenAt lines call = true →
  callToken (default [] (lines !! site_line call)) (site_rule call) = true.
Proof.
  intros Hident Hwf Hwritten.
  destruct (writtenAt_facts lines call Hident Hwf Hwritten)
    as (l & ls & rest & l' & _ & -> & _ & ->).
  pose proof (wellFormedSite_facts call Hwf)
    as (_ & Hbefore & Hws1 & _ & Hws2 & _ & _ & Hlit).
  cbn [default]. set (name := functionName (site_rule call)) in *.
  set (tail := site_ws2 call ++ opening (site_literal call) ++ l').
  assert (siteHead call ++ l'
          = site_before call ++ name ++ site_ws1 call ++ "("%char :: tail) as ->.
  { unfold siteHead, tail. fold name. by reassoc. }
  destruct Hident as [Hne Hchars].
  destruct name as [|c name'] eqn:Hname; [done|].
  apply Forall_cons in Hchars as [Hc Hchars'].
  apply isIdentChar_facts in Hc as Hcfacts. destruct Hcfacts as (_ & Hsp & _).
  assert (identifier (functionName (site_rule call))) as Hident.
  { fold name. rewrite Hname. split; [done|by constructor]. }
  assert (∀ x : text,
            trimEnd (x ++ (c :: name') ++ site_ws1 call ++ "("%char :: tail)
            = x ++ (c :: name') ++ site_ws1 call ++ "("%char :: trimEnd tail) as Hend.
  { intros x.
    replace (x ++ (c :: name') ++ site_ws1 call ++ "("%char :: tail)
      with ((x ++ (c :: name') ++ site_ws1 call) ++ "("%char :: tail)
      by (by reassoc).
    rewrite trimEnd_app_keep by done. by reassoc. }
  destruct Hbefore as [Hspaces|Hdot].
  - apply (callToken_complete _ _ [] (site_ws1 call) (trimEnd tail));
      [done| |done|by left].
    fold name. rewrite Hname. unfold trim, trimStart, id.
    apply dropWhile_nil_iff in Hspaces as Hdrop.
    cbn [app]. rewrite dropWhile_app_keep by done. rewrite Hdrop.
    apply (Hend []).
  - apply last_Some in Hdot as [b0 Hb0]. rewrite Hb0.
    apply (callToken_complete _ _ (dropWhile isSpace b0 ++ ["."%char])
             (site_ws1 call) (trimEnd tail)); [done| |done|right; apply last_snoc].
    fold name. rewrite Hname. unfold trim, trimStart, id.
    rewrite <- !app_assoc. cbn [app]. rewrite dropWhile_app_keep by done.
    replace (dropWhile isSpace b0 ++ "."%char :: c :: name' ++ site_ws1 call
             ++ "("%char :: tail)
      with ((dropWhile isSpace b0 ++ ["."%char]) ++ (c :: name') ++ site_ws1 call
            ++ "("%char :: tail) by (by reassoc).
    rewrite Hend. by reassoc.
Qed.

Lemma flat_map_one {A B} (f : A → list B) (l : list A) x :
  x ∈ l → NoDup l → (∀ y, y ∈ l → y ≠ x → f y = []) → flat_map f l = f x.
Proof.
  induction l as [|a l IH]; [by intros ?%not_elem_of_nil|].
  intros Hx Hdup Hothers. apply NoDup_cons in Hdup as [Ha Hdup]. cbn [flat_map].
  apply elem_of_cons in Hx as [->|Hx].
  - rewrite (flat_map_nil f l), app_nil_r; [done|].
    intros y Hy. apply Hothers; [by right|]. by intros ->.
  - rewrite (Hothers a); [|left|by intros ->]. cbn [app].
    apply IH; [done|done|]. intros y Hy. apply Hothers. by right.
Qed.

Lemma sorted_after {A} (f : A → nat) (done : list A) c cs :
  StronglySorted lt (map f (done ++ c :: cs)) → Forall (λ c', (f c < f c')%nat) cs.
Proof.
  induction done as [|d done IH]; cbn [app map]; intros [Hs Hall]%StronglySorted_inv.
  - apply Forall_forall. intros c' Hc'. apply (proj1 (Forall_forall _ _) Hall).
    apply list_elem_of_fmap. eauto.
  - by apply IH.
Qed.

Lemma starts_sorted (nodes : list SqlNode) (cs : list CallSite) :
  Forall2 (λ found call, fragmentOf call found) nodes cs →
  StronglySorted lt (map site_line cs) →
  StronglySorted positionLt (map (λ found, start (code_range found)) nodes).
Proof.
  induction 1 as [|found call nodes cs Hfound Hrest IH]; cbn [map]; [constructor|].
  intros [Hs Hall]%StronglySorted_inv. constructor; [by apply IH|].
  apply Forall_forall. intros p [later [-> Hlater]]%list_elem_of_fmap.
  apply list_elem_of_lookup in Hlater as [i Hi].
  destruct (Forall2_lookup_l _ _ _ _ _ Hrest Hi) as (call' & Hcall' & Hfrag).
  assert ((site_line call < site_line call')%nat) as Hlt.
  { apply (proj1 (Forall_forall _ _) Hall). apply list_elem_of_fmap.
    exists call'. split; [done|]. by eapply list_elem_of_lookup_2. }
  destruct Hfound as (_ & _ & Hl & _), Hfrag as (_ & _ & Hl' & _).
  left. lia.
Qed.

(** *** The calls of a text, one per line *)

Section OneCallPerLine.
Variable sourceTxt : text.
Variable rules : CustomRawSqlQueryPy.
Variable calls : list CallSite.
Local Abbreviation lines := (split_newline sourceTxt).
Hypothesis rules_identifiers : Forall (λ rule, identifier (functionName rule)) rules.
Hypothesis rules_distinct : NoDup (map functionName rules).
Hypothesis calls_written :
  Forall (λ call, site_rule call ∈ rules ∧ wellFormedSite call = true
                  ∧ writtenAt lines call = true) calls.
Hypothesis calls_apart : StronglySorted lt (map site_line calls).
Hypothesis heads_are_calls :
  ∀ rule offset,
    rule ∈ rules → offset ∈ headOffsets (functionName rule) sourceTxt 0 →
    ∃ call, call ∈ calls ∧ site_rule call = rule ∧ siteOffset lines call = offset.

Lemma call_facts call :
  call ∈ calls →
  site_rule call ∈ rules ∧ identifier (functionName (site_rule call))
  ∧ wellFormedSite call = true ∧ writtenAt lines call = true.
Proof using rules_identifiers calls_written.
  intros Hcall. apply (proj1 (Forall_forall _ _) calls_written) in Hcall
    as (Hrule & Hwf & Hwritten).
  split; [done|]. split; [|done].
  by apply (proj1 (Forall_forall _ _) rules_identifiers).
Qed.

(** A head of the name of a rule on a line is the head of a call of that
    line. *)
Lemma head_is_call l ln p rule :
  lines !! l = Some ln → (p ≤ length ln)%nat → rule ∈ rules →
  headAt (functionName rule) (drop p (join_newline (drop l lines))) = true →
  ∃ call, call ∈ calls ∧ site_rule call = rule ∧ site_line call = l
          ∧ length (site_before call) = p.
Proof using All.
  intros Hln Hp Hrule Hhead.
  pose proof (lookup_lt_Some _ _ _ Hln) as Hl.
  destruct (join_newline_drop lines l Hl) as (pre & Hsrc & Hpre).
  rewrite join_split_newline in Hsrc.
  assert (∃ z, join_newline (drop l lines) = ln ++ z) as [z Hz].
  { rewrite (drop_S _ _ _ Hln).
    destruct (drop (S l) lines) as [|l2 ls2]; [exists []; simpl; by rewrite app_nil_r|].
    by exists (LF :: join_newline (l2 :: ls2)). }
  destruct (heads_are_calls rule (lineStartOffset lines l + p)%nat Hrule)
    as (call & Hcall & Hr & Hoffset).
  { apply headOffsets_elem. exists (lineStartOffset lines l + p)%nat.
    split; [done|]. rewrite <- Hpre.
    remember (join_newline (drop l lines)) as joined eqn:Hjoined.
    clear Hjoined. subst sourceTxt. split.
    - rewrite Hz, !length_app. lia.
    - by rewrite drop_app_add'. }
  exists call. split; [done|]. split; [done|].
  destruct (call_facts call Hcall) as (_ & Hident & Hwf & Hwritten).
  destruct (writtenAt_facts lines call Hident Hwf Hwritten)
    as (lc & _ & _ & l' & _ & Hlc & _ & Hhd).
  assert (length (site_before call) ≤ length lc)%nat as Hbefore.
  { rewrite Hhd. unfold siteHead. rewrite !length_app. lia. }
  unfold siteOffset in Hoffset.
  destruct (Nat.lt_trichotomy (site_line call) l) as [Hlt|[Heq|Hgt]].
  - exfalso.
    pose proof (lineStartOffset_mono lines (S (site_line call)) l ltac:(lia)) as Hmono.
    rewrite (lineStartOffset_S _ _ _ Hlc) in Hmono. lia.
  - split; [done|]. rewrite Heq in Hoffset. lia.
  - exfalso.
    pose proof (lineStartOffset_mono lines (S l) (site_line call) ltac:(lia)) as Hmono.
    rewrite (lineStartOffset_S _ _ _ Hln) in Hmono. lia.
Qed.

Lemma one_call_on_a_line call call' :
  call ∈ calls → call' ∈ calls → site_line call = site_line call' → call = call'.
Proof using calls_apart. intros. by eapply (sorted_key_inj site_line). Qed.

(** No head of the name of a call stands before the call on its line. *)
Lemma no_head_before call collected after k :
  call ∈ calls →
  join_newline (drop (site_line call) lines) = collected ++ after →
  (k < length (site_before call))%nat → (k ≤ length collected)%nat →
  headAt (functionName (site_rule call)) (drop k collected) = false.
Proof using All.
  intros Hcall Hjoin Hk Hlen.
  destruct (headAt _ (drop k collected)) eqn:Hhead; [exfalso|done].
  destruct (call_facts call Hcall) as (Hrule & Hident & Hwf & Hwritten).
  destruct (writtenAt_facts lines call Hident Hwf Hwritten)
    as (lc & _ & _ & l' & _ & Hlc & _ & Hhd).
  destruct (head_is_call (site_line call) lc k (site_rule call) Hlc)
    as (call' & Hcall' & Hr & Hline & Hbefore); [|done| |].
  - rewrite Hhd. unfold siteHead. rewrite !length_app. lia.
  - rewrite Hjoin, drop_app_le by done. by apply headAt_app.
  - assert (call' = call) as -> by (by apply one_call_on_a_line).
    lia.
Qed.

(** A line that holds the call token of a rule is the line of a call of the
    rule. *)
Lemma token_is_call l ln rule :
  lines !! l = Some ln → rule ∈ rules → callToken ln rule = true →
  ∃ call, call ∈ calls ∧ site_rule call = rule ∧ site_line call = l.
Proof using All.
  intros Hln Hrule Htoken.
  destruct (callToken_sound _ _ Htoken) as (a & ws & b & Htrim & Hws & _).
  destruct (trim_decompose ln) as (lead & trail & Hdec).
  rewrite Htrim in Hdec.
  destruct (head_is_call l ln (length (lead ++ a)) rule Hln)
    as (call & Hcall & Hr & Hline & _); [|done| |exists call; done].
  - apply (f_equal length) in Hdec. rewrite !length_app in Hdec.
    rewrite length_app. lia.
  - rewrite (drop_S _ _ _ Hln).
    assert (∃ z, join_newline (ln :: drop (S l) lines) = ln ++ z) as [z ->].
    { destruct (drop (S l) lines) as [|l2 ls2];
        [exists []; simpl; by rewrite app_nil_r|].
      by exists (LF :: join_newline (l2 :: ls2)). }
    rewrite Hdec at 1.
    replace ((lead ++ (a ++ functionName rule ++ ws ++ "("%char :: b) ++ trail) ++ z)
      with ((lead ++ a) ++ functionName rule ++ ws ++ "("%char :: (b ++ trail ++ z))
      by (by reassoc).
    rewrite drop_app_length. by apply headAt_here.
Qed.

Lemma site_fragment call :
  call ∈ calls →
  ∃ found, extractSqlFromLine lines (site_line call) (site_rule call) = Ok (Some found)
           ∧ fragmentOf call found.
Proof using All.
  intros Hcall.
  destruct (call_facts call Hcall) as (Hrule & Hident & Hwf & Hwritten).
  destruct (writtenAt_facts lines call Hident Hwf Hwritten)
    as (lc & ls & rest & l' & Hdrop & Hlc & _ & Hhd).
  destruct (collected_holds_site lines call (split_newline_lines _) Hident Hwf Hwritten)
    as [more Hfull].
  pose proof (wellFormedSite_facts call Hwf)
    as (_ & _ & Hws1 & _ & Hws2 & _ & Hblank & Hlit).
  destruct (collectCall_spec [] (drop (site_line call) lines) [] [0%nat] scanStart)
    as (k & Hk & Hjoined & Hoffsets); [by rewrite Hdrop|done|done|].
  cbn [app length] in Hk, Hjoined, Hoffsets.
  destruct (join_newline_take (drop (site_line call) lines) k) as [after Hafter]; [lia|].
  rewrite <- Hjoined in Hafter.
  destruct (extractSqlString_at_site (site_rule call) (site_before call)
              (site_ws1 call) (site_ws2 call) (site_literal call) (site_sql call) more)
    as (i & Hstring & Hi); [by apply identifier_plain|done|done|done| | |].
  { destruct (site_literal call); tauto. }
  { intros j Hj.
    replace (_ ++ site_sql call ++ closing (site_literal call) ++ more)
      with (fullLine (collectCall (drop (site_line call) lines) [] [0%nat] scanStart)).
    - apply (no_head_before call _ after); [done|done|done|].
      rewrite Hfull. unfold siteText, siteHead. rewrite !length_app. lia.
    - rewrite Hfull. unfold siteText, siteHead. by reassoc. }
  fold (siteHead call) in Hstring, Hi.
  unfold extractSqlFromLine.
  replace (fullLine (collectCall (drop (site_line call) lines) [] [0%nat] scanStart))
    with (siteHead call ++ site_sql call ++ closing (site_literal call) ++ more)
    by (rewrite Hfull; unfold siteText; by reassoc).
  rewrite Hstring. cbn [mbind result_mbind result_bind str_start str_end str_content].
  eexists. split; [reflexivity|].
  unfold fragmentOf. cbn [method_line content code_range start].
  split; [done|]. split; [done|].
  rewrite Hoffsets.
  destruct (convertPositionToLineChar_spec (drop (site_line call) lines) k i
              (site_line call)) as (j & lj & Hj & Hlj & -> & Hbounds).
  { rewrite length_drop. rewrite length_drop in Hk. lia. }
  { rewrite <- Hjoined, Hfull. unfold siteText. rewrite !length_app. lia. }
  cbn [line character].
  assert (j = 0%nat) as ->.
  { destruct j as [|j]; [done|]. exfalso.
    pose proof (lineStartOffset_mono (drop (site_line call) lines) 1 (S j) ltac:(lia))
      as Hmono.
    rewrite (lineStartOffset_S _ 0 lc) in Hmono by (by rewrite Hdrop).
    change (lineStartOffset (drop (site_line call) lines) 0) with 0%nat in Hmono.
    assert (length (siteHead call) ≤ length lc)%nat
      by (rewrite Hhd, length_app; lia).
    lia. }
  change (lineStartOffset (drop (site_line call) lines) 0) with 0%nat in *.
  split; [lia|]. lia.
Qed.

(** What the loop over the rules pushes for a line. *)
Lemma line_of_a_call call :
  call ∈ calls →
  ∃ found, flat_map (fragmentsOf lines (site_line call)) rules = [found]
           ∧ fragmentOf call found.
Proof using All.
  intros Hcall.
  destruct (call_facts call Hcall) as (Hrule & Hident & Hwf & Hwritten).
  destruct (site_fragment call Hcall) as (found & Hfound & Hfrag).
  destruct (writtenAt_facts lines call Hident Hwf Hwritten)
    as (lc & _ & _ & _ & _ & Hlc & _ & _).
  exists found. split; [|done].
  rewrite (flat_map_one _ rules (site_rule call)); [|done| |].
  - unfold fragmentsOf. rewrite site_has_token by done. by rewrite Hfound.
  - by eapply NoDup_fmap_1.
  - intros rule Hr Hne. unfold fragmentsOf.
    destruct (callToken (default [] (lines !! site_line call)) rule) eqn:Htoken; [|done].
    exfalso. rewrite Hlc in Htoken. cbn [default] in Htoken. unfold id in Htoken.
    destruct (token_is_call _ _ _ Hlc Hr Htoken) as (call' & Hcall' & Hr' & Hline).
    assert (call' = call) as -> by (by apply one_call_on_a_line). done.
Qed.

Lemma line_without_call l :
  (∀ call, call ∈ calls → site_line call ≠ l) →
  flat_map (fragmentsOf lines l) rules = [].
Proof using All.
  intros Hnone. apply flat_map_nil. intros rule Hrule. unfold fragmentsOf.
  destruct (lines !! l) as [ln|] eqn:Hln; cbn [default]; unfold id.
  - destruct (callToken ln rule) eqn:Htoken; [|done]. exfalso.
    destruct (token_is_call _ _ _ Hln Hrule Htoken) as (call & Hcall & _ & Hline).
    by apply (Hnone call).
  - destruct (callToken [] rule) eqn:Htoken; [|done]. exfalso.
    destruct (callToken_sound _ _ Htoken) as (a & ws & b & Htrim & _).
    change (trim []) with (@nil ascii) in Htrim. symmetry in Htrim.
    apply app_eq_nil in Htrim as [_ Htrim]. apply app_eq_nil in Htrim as [_ Htrim].
    by apply app_eq_nil in Htrim as [_ Htrim].
Qed.

(** The loop over the lines, from line [a] on: the calls before line [a] are
    [done], those still to come are [cs]. *)
Lemma lines_of_the_calls n a done cs :
  calls = done ++ cs →
  Forall (λ call, (site_line call < a)%nat) done →
  Forall (λ call, (a ≤ site_line call < a + n)%nat) cs →
  Forall2 (λ found call, fragmentOf call found)
    (flat_map (λ i, flat_map (fragmentsOf lines i) rules) (seq a n)) cs.
Proof using All.
  revert a done cs. induction n as [|n IH]; intros a done cs Hcalls Hdone Hcs.
  - destruct cs as [|c cs]; [constructor|].
    apply Forall_cons in Hcs as [Hc _]. lia.
  - cbn [seq flat_map]. destruct cs as [|c cs].
    + rewrite line_without_call.
      * cbn [app]. by apply (IH (S a) done); [|eapply Forall_impl; [done|]; cbn; lia|].
      * intros call Hcall. rewrite Hcalls, app_nil_r in Hcall.
        apply (proj1 (Forall_forall _ _) Hdone) in Hcall. lia.
    + assert (Forall (λ c', (site_line c < site_line c')%nat) cs) as Hlater.
      { apply (sorted_after site_line done). by rewrite <- Hcalls. }
      apply Forall_cons in Hcs as [Hc Hcs].
      destruct (decide (site_line c = a)) as [Ha|Ha].
      * destruct (line_of_a_call c) as (found & Hline & Hfound).
        { rewrite Hcalls. apply elem_of_app. right. left. }
        rewrite <- Ha at 1. rewrite Hline. cbn [app]. constructor; [done|].
        apply (IH (S a) (done ++ [c])).
        -- by rewrite <- app_assoc.
        -- apply Forall_app. split; [eapply Forall_impl; [done|]; cbn; lia|].
           constructor; [lia|constructor].
        -- apply Forall_forall. intros c' Hc'.
           pose proof (proj1 (Forall_forall _ _) Hlater c' Hc').
           pose proof (proj1 (Forall_forall _ _) Hcs c' Hc'). cbn in *. lia.
      * rewrite line_without_call.
        -- cbn [app]. apply (IH (S a) done); [done| |].
           ++ eapply Forall_impl; [done|]. cbn. lia.
           ++ constructor; [lia|]. apply Forall_forall. intros c' Hc'.
              pose proof (proj1 (Forall_forall _ _) Hlater c' Hc').
              pose proof (proj1 (Forall_forall _ _) Hcs c' Hc'). cbn in *. lia.
        -- intros call Hcall. rewrite Hcalls in Hcall.
           apply elem_of_app in Hcall as [Hcall|Hcall].
           ++ apply (proj1 (Forall_forall _ _) Hdone) in Hcall. lia.
           ++ apply elem_of_cons in Hcall as [->|Hcall]; [lia|].
              apply (proj1 (Forall_forall _ _) Hlater) in Hcall. lia.
Qed.

Lemma fragments_of_the_calls :
  ∃ nodes,
    extractLines lines (seq 0 (length lines)) rules = Ok nodes
    ∧ Forall2 (λ found call, fragmentOf call found) nodes calls.
Proof using All.
  rewrite extractLines_fragmentsOf.
  - eexists. split; [done|]. apply (lines_of_the_calls _ 0 []); [done|constructor|].
    apply Forall_forall. intros call Hcall.
    destruct (call_facts call Hcall) as (_ & Hident & Hwf & Hwritten).
    destruct (writtenAt_facts lines call Hident Hwf Hwritten)
      as (lc & _ & _ & _ & _ & Hlc & _).
    apply lookup_lt_Some in Hlc. lia.
  - eapply Forall_impl; [exact rules_identifiers|]. intros rule. apply identifier_plain.
Qed.

End OneCallPerLine.



(** The two fragments of the witness. *)
Example tripleThenQuery_fragments :
  extractSqlFromPython tripleThenQuery None
  = Ok [ mkNode (txt "SELECT 1") 0 18 2 0 0; mkNode (txt "SELECT 2") 3 10 3 18 3 ].
Proof. vm_compute. reflexivity. Qed.
